(* ===== verification/_CoqProject ===== *)
-Q . S2P
Prelude.v
Kv.v
Fast.v
Sha256.v
Event.v
Serializer.v
EventBuild.v
RandSelect.v
PoolQueue.v
ServerPool.v
PoolLoop.v
Store.v
StoreSpec.v
Genesis.v
Checks.v
Emitter.v
Peer.v
PeerSpec.v
Service.v
ServiceSpec.v
ChainSpec.v
ServiceWorld.v
Handler.v
HandlerSpec.v
SyncSpec.v
Api.v
Utils.v
Helpers.v
Host.v
Debug.v
Launch.v
LaunchSpec.v
Node.v
NodeSpec.v
Command.v
CommandSpec.v
App.v
Console.v
