(* ===== verification/Prelude.v ===== *)
(** * Mini-opera: a verification library for the node

    Go-mini-opera is a node of a proof-of-stake network without transactions: it
    creates events, exchanges them with peers, orders them with the consensus
    engine of lachesis-base and stores blocks.  This library models the Go code
    of the node as executable definitions and proves what each part promises to
    the others.

    ** How code is modelled

    A Go call is a value of [go] (this file): it returns, returns an error that
    the callers pass on, panics, or ends the process ([log.Crit], [Fatalf]); a
    process that ends with the state of a service tells how often it had flushed
    ([Stamp]).
    Code that changes a state is a function [stm S A] from the state to such an
    outcome, with stdpp's monad notation.  An [error] result that the code tests
    is an [option error] among the results.  Machine integers are [Z] with the
    wrap-around written out ([u8], [u32], [u64], [i64]).  Shared mutable objects
    (the entries of the server pool, the peers) live in a heap.  [wp m Q s] says
    that [m] returns from [s] with [Q], or ends the process where that is allowed
    ([MayExit]; for the store: only if a table call can fail); it excludes panics
    and is total correctness where [may_exit] is [False].

    Code that is not in the repository is a class of the calls made to it, with a
    second class for its documented behaviour and an instance that shows the two
    are consistent: key-value tables, LRU caches, rlp and codecs ([Kv],
    [EventBuild]), ids and indexes of lachesis-base ([Event], [Store]), its base
    checks ([Checks]), the consensus engine ([Service], [Launch]), the emitter's
    helpers ([Emitter]), the operating system ([Host]), the cli, toml and node
    packages ([Command], [App]), the JavaScript console ([Console]), the transport
    and hash sets ([Peer]), the downloader, fetcher and buffer ([Handler]).  What the environment decides (clock, random numbers,
    failures, the order of a Go map) is a parameter too, indexed by the number of
    uses, so that theorems hold for every behaviour of it.

    ** The parts and their files

    - [Prelude], [Kv], [Sha256]: outcomes, integers, slices, weakest
      preconditions, sums; tables, caches and codecs; SHA-256 (crypto/sha256).
    - [Fast] (utils/fast): bit arrays and byte buffers of the serializer.
    - [Event], [Serializer], [EventBuild] (inter): events, timestamps, blocks; the
      compact binary format; building, signing, rlp and lists of events.
    - [RandSelect], [PoolQueue], [ServerPool], [PoolLoop] (gossip/randselect.go,
      serverpool.go): weighted random selection, queues of entries, the pool of
      servers as an event loop over a heap of entries, and the loop with the
      sessions that use it, until the node quits.
    - [Store], [StoreSpec] (gossip/store*.go, decided_state.go): the storage with
      its caches and epoch databases, and the plain maps it refines.
    - [Genesis] (miniopera, gossip/apply_genesis.go): configuration and genesis.
    - [Checks] (eventcheck, gossip/checker_helpers.go): the event checks and the
      pool of goroutines that checks signatures, as a transition system.
    - [Emitter] (gossip/emitter): creation and emission of events, against the
      interface [EmitterWorld] with the laws [EmitterWorldLaws].
    - [Peer], [PeerSpec] (gossip/peer.go, protocol.go): peers and their set.
    - [Service], [ServiceSpec] (gossip/service.go, consensus_callbacks.go,
      pack.go, config.go): processing of events, blocks, epochs and packs;
      [ServiceWorld] shows that the service implements the emitter's interface,
      and [ChainSpec] that its blocks form a chain that is only extended.
    - [Handler], [HandlerSpec] (gossip/handler.go): sessions, messages, broadcasts;
      [SyncSpec] puts two nodes together, one asking the other for events.
    - [Api] (api, gossip/enr_entry.go, sync.go, accessors of service.go and
      handler.go): what the node shows to its stack and to RPC clients.
    - [Utils] (utils/migration, gossip/execqueue.go, utils/bits.go); [Helpers]
      (utils/uint2hash.go, to_ftm.go, scheme.go, throughput, logger/periodic_log.go).
    - [Host] (utils/errlock, utils/checkpid.go, defaults.go of cmd/miniopera): what
      is used of strings, numbers and paths; the error lock and directories.
    - [Debug] (debug, metrics/prometheus, utils/spin_lock.go): profiles and traces,
      metrics, the spin lock.
    - [Launch], [LaunchSpec] (integration, gossip/service.go, main.go): opening the
      databases, genesis, engine, start and stop of the service.
    - [Node], [NodeSpec]: the whole node as a transition system (below).
    - [Command], [CommandSpec] (cmd/miniopera): flags, configuration file, data
      directory, and the whole start of the program; [App]: how the package of the
      program is initialised, what is set up before a command and torn down after
      it (debug/flags.go, debug/api.go); [Console] (consolecmd.go, main.go): the
      sessions with a console and the watch of [startNode].

    ** How the parts interact

    The protocol manager receives events ([handleMsg]); the fetcher and the
    ordering buffer give them back to [onProcess], which calls [processEvent]; it
    checks the epoch, stores the event, and runs the engine, whose callbacks
    append blocks and seal epochs; then packs, heads and tips are updated and the
    event is broadcast.  The emitter reads heads and tips through its world,
    creates an event and calls [processEvent] too.  All of this works on one
    [Service], which owns the store, the state of the protocol manager, and what
    of the store has been flushed to disk.  The program reads its flags and its
    file, checks the error lock, opens the databases with [MakeEngine] and makes
    and starts the service over them ([minioperaMain]); a node is launched in the
    same way on what an earlier one has left on disk.

    ** Storable events

    The theorems about stored events, and those about the node that use them,
    speak of events that are [storable]: of version 0, with the id, hash and size
    of their own canonical encoding.  [Build] makes such events, and decoding a
    canonical encoding does.  Nothing in the code makes sure of it: the decoder
    takes other encodings too ([decoder_accepts_noncanonical]), the checks let
    them pass, and a node stores such an event under an id that is not that of
    the event it reads back later ([noncanonical_event_changes]).  So a validator
    that signs such an encoding breaks the invariants proved here; the theorems
    hold for networks without one.

    ** The machine of [Node]

    A [machine] is up, with the state of its service, or down, with what its last
    flush left on disk.  A [step] is one turn of a goroutine ([react]: a peer
    connects, one message of a session, the end of a session, an event that
    leaves the ordering buffer or is dropped, a tick of the emitter, one value of
    a broadcast loop), [Stop], a launch on the databases ([boot], which is what
    [minioperaMain] does: [Console.node_is_boot]), or the death of the process:
    between two turns, at any moment of a turn, of [Stop] or of a launch, killed
    or by a fatal error.  A machine that dies is left with what is on disk then
    ([dies_with]): the service lists what it has flushed, and a run can leave any
    of it, or what was there before.  One flush is atomic: [SyncedPool.Flush] of
    lachesis-base is taken to write the tables of all databases or none of them,
    also when the process dies meanwhile.  Turns are atomic with respect to each
    other, as the engine mutex and the locks of the peers make them with respect
    to the state the theorems speak of.
    [admissible] lists what is supposed of an input: the buffer releases an event
    after its parents, messages consist of bytes, counters of 32 and 64 bits have
    not run out, no other instance emits with the node's key (the program ends by
    design if one does), and an event is [storable] (above).  [boot_ok] says that the engine restores
    its own state, that the version table is that of this release and that the
    first flush succeeds.

    ** What the theorems show

    - Whole node: from empty databases, under any interleaving of inputs with
      stops, launches and deaths at any moment, a machine that is up is a
      consistent running node and one that is down can be launched
      ([node_always_consistent]); blocks and events that were flushed are shown
      unchanged ever after ([flushed_is_final]); no input makes the node panic,
      the process ends itself only for a failing database or its own refused
      event, and a machine that is down comes up again ([node_goes_on]).  Events that are
      requested from a peer arrive unchanged and can be processed
      ([events_travel]).
    - Format: encoding and decoding are inverse, decoding any bytes is safe, and
      ids and hashes belong to the encoding ([unmarshal_marshal],
      [unmarshal_safe], [marshal_unmarshal], [marshal_size], [rlp_roundtrip],
      [build_coherent], [sign_then_build], [bitarray_roundtrip]).
    - Storage: caches are invisible; tables, packs and searches behave as maps
      ([events_refine], [tables_refine], [packs_refine], [find_event_hashes],
      [genesis_once], [validators_digest_faithful]); migrations resume where they
      stopped ([migrations_resume]).
    - Node: the invariant [node_ok] (graph, heads, tips, packs, states and keys
      agree) holds after the start and after every event
      ([process_event_consistent], [block_appends], [buffered_event_processed],
      [emit_consistent]) and blocks are only appended ([chain_append_only]);
      created events follow the rules ([created_event]) and accepted ones obey
      the checks ([validate_accepts_iff], [pool_validates_once],
      [pool_completes]).
    - Start, stop, crash: a node boots on empty databases, and again on whatever
      it had flushed when it was stopped or killed ([node_boots],
      [stop_then_launch], [crash_restarts]); flags, file and defaults give the
      configuration, a node of a fake network validates with its own key, and a
      node starts only when nothing forbids it ([fakenet_flag_exact],
      [config_priority], [fake_node_validates], [start_conditions],
      [errlock_holds]); profiles are closed at the exit of any command
      ([profiles_closed], [run_leaves_nothing]), and a console session that ends
      has flushed everything ([console_session_flushed], [watch_ends]).
    - Network: no message, session or broadcast can disturb the node or exceed
      its bounds ([handle_msg_safe], [session_returns], [broadcast_reaches],
      [events_served], [peer_bounded], [handshake_sound], [request_batches],
      [best_peer], [peer_set_refines]); every message fits the announced
      protocols ([protocols_fit]).
    - Server pool: the pool refines an abstract connection machine with exact
      counters, its queue a list, its selection a weighted map, and it ends
      without losing a session ([pool_refines], [counters_exact],
      [pool_shutdown], [queue_refines_list], [saveNodes_order],
      [setWeight_refines], [choose_proportional], [choose_ends],
      [choose_terminates]), and the dials of a turn end ([checkDial_ends]); the
      execution queue is first-in first-out ([exec_queue_fifo]).

    Behaviour that departs from its comments is proved as well:
    [decoder_accepts_noncanonical], [noncanonical_event_changes],
    [decoder_allocates_before_checks], [undialed_connect_undercounts],
    [clear_loses_next], [last_number_cut], [command_flags_lost],
    [I64to256_unsigned], [file_overrides_fakenet].

    ** Bounds and fuel

    Loops are structural where the code ranges over data.  The others have fuel
    that is shown to suffice: the retry loop of [choose] (each turn lowers the sum
    of the weights: [choose_ends]), the dials of [checkDial] (each raises a
    counter: [checkDial_ends], for a pool whose trees hold its entries and whose
    weights are in range), the search of the pool queue (the queue is bounded),
    the eviction of known events (the size of the set), the batches of requests
    (the number of ids).  Memory is not bounded by the model: the decoder
    allocates as many parents as a message announces before it looks at its
    length ([decoder_allocates_before_checks]).  The theorems about handlers of
    the server pool speak of the turns that return.  Hypotheses on sizes ([2^60] bytes of input, counters below their
    width) exclude only values that cannot occur in practice.

    ** Not modelled

    The JavaScript console, the RPC and HTTP servers, the logger with its sentry
    hook, memory statistics and what the version and license commands print
    (input and output around libraries); the physical databases behind the tables
    and the engine's own; key generation and signatures (parameters).  Goroutines
    are modelled as sequences of turns, each method atomic; the wait groups and
    the discovery topic of the service are left out, and so are the wallets of
    [startNode] and the byte form of saved pool entries.  The rate of the
    throughput meter is a float that is only logged.  In [Peer], the details that
    [errResp] formats into an error are
    dropped. *)

From Stdlib Require Import ZArith Lia Bool.
From stdpp Require Import base list numbers option strings gmap.

(** ** The outcomes of a Go call

    A call returns, returns a non-nil [error], panics, or ends the process
    ([log.Crit] and [utils.Fatalf] call [os.Exit]).  [Err] is propagated by
    [bind] the way the code propagates it ([if err != nil { return err }]). *)

Inductive error := Error (tag : string).

Inductive panic :=
| IndexOutOfRange
| SliceBounds
| NilDeref
| NilPanic
| PanicMsg (msg : string).

(** The end of the process: its message, and, where the state of the process
    counts its flushes, how many it had made. *)
Record exit := MkExit { exit_msg : string; exit_flushes : option nat }.
Coercion fatal (msg : string) : exit := MkExit msg None.

Inductive go (A : Type) : Type :=
| Ret (a : A)
| Err (e : error)
| Panics (p : panic)
| Exits (x : exit).
Arguments Ret {A} a.
Arguments Err {A} e.
Arguments Panics {A} p.
Arguments Exits {A} x%_string_scope.

#[export] Instance error_eq_dec : EqDecision error.
Proof. solve_decision. Defined.

#[export] Instance go_ret : MRet go := @Ret.

#[export] Instance go_bind : MBind go := fun A B f x =>
  match x with
  | Ret a => f a
  | Err e => Err e
  | Panics p => Panics p
  | Exits m => Exits m
  end.

(** Code that changes a state and can fail. *)
Definition stm (S A : Type) : Type := S -> go (A * S).

#[export] Instance stm_ret S : MRet (stm S) := fun A a s => Ret (a, s).
#[export] Instance stm_bind S : MBind (stm S) := fun A B f m s =>
  match m s with
  | Ret (a, s') => f a s'
  | Err e => Err e
  | Panics p => Panics p
  | Exits x => Exits x
  end.

(** How a state marks the end of a process that it sees, and which marks are
    those of a state; most states mark nothing. *)
Class Stamp (S : Type) := {
  stamp : S -> exit -> exit;
  stamped : S -> exit -> Prop;
  stamp_stamped : forall s x, stamped s (stamp s x)
}.

#[export, refine] Instance stamp_nothing S : Stamp S | 1000 := {| stamp _ x := x; stamped _ _ := True |}.
Proof. done. Defined.

Definition gets {S A} (f : S -> A) : stm S A := fun s => Ret (f s, s).
Definition modify {S} (f : S -> S) : stm S unit := fun s => Ret (tt, f s).
Definition lift {S A} `{Stamp S} (m : go A) : stm S A := fun s =>
  match m with
  | Ret a => Ret (a, s)
  | Err e => Err e
  | Panics p => Panics p
  | Exits x => Exits (stamp s x)
  end.
Definition when {S} (b : bool) (m : stm S unit) : stm S unit := if b then m else mret tt.

(** ** Machine integers, kept at their width *)

Definition u8 (z : Z) : Z := (z mod 2 ^ 8)%Z.
Definition u16 (z : Z) : Z := (z mod 2 ^ 16)%Z.
Definition u32 (z : Z) : Z := (z mod 2 ^ 32)%Z.
Definition u64 (z : Z) : Z := (z mod 2 ^ 64)%Z.
Definition i64 (z : Z) : Z := ((z + 2 ^ 63) mod 2 ^ 64 - 2 ^ 63)%Z.

(** [is_uint w z] : [z] is a value of the unsigned [w]-bit type. *)
Definition is_uint (w z : Z) : Prop := (0 <= z < 2 ^ w)%Z.

Abbreviation is_byte := (is_uint 8).
Abbreviation is_bytes := (Forall (is_uint 8)).

#[export] Instance is_uint_dec w z : Decision (is_uint w z).
Proof. unfold is_uint. apply _. Defined.

(** The length of a list as the [int] that Go's [len] returns. *)
Definition zlen {A} (l : list A) : Z := Z.of_nat (length l).

(** ** Slices

    A slice is what it shows ([len] elements) and the elements of the backing
    array between its [len] and its [cap], which a re-slicing can reach. *)

Record slice := Slice { vis : list Z; spare : list Z }.

Definition slice_len (s : slice) : Z := zlen (vis s).
Definition slice_cap (s : slice) : Z := zlen (vis s ++ spare s).

(** [s[lo:]] : the upper bound defaults to [len]. *)
Definition slice_from (s : slice) (lo : Z) : go slice :=
  if bool_decide (0 <= lo <= slice_len s)%Z
  then Ret (Slice (drop (Z.to_nat lo) (vis s)) (spare s))
  else Panics SliceBounds.

(** [s[lo:hi]] : an explicit upper bound goes up to [cap]. *)
Definition slice_range (s : slice) (lo hi : Z) : go slice :=
  if bool_decide (0 <= lo <= hi /\ hi <= slice_cap s)%Z
  then let all := vis s ++ spare s in
       Ret (Slice (take (Z.to_nat (hi - lo)) (drop (Z.to_nat lo) all))
                  (drop (Z.to_nat hi) all))
  else Panics SliceBounds.

(** Indexed reads and writes of a slice or an array. *)
Definition go_index {A} (l : list A) (i : Z) : go A :=
  if bool_decide (0 <= i)%Z
  then match l !! Z.to_nat i with
       | Some x => Ret x
       | None => Panics IndexOutOfRange
       end
  else Panics IndexOutOfRange.

Definition go_update {A} (l : list A) (i : Z) (x : A) : go (list A) :=
  if bool_decide (0 <= i < zlen l)%Z
  then Ret (<[Z.to_nat i := x]> l)
  else Panics IndexOutOfRange.

(** [for _, x := range l { s = f(s, x) }]. *)
Fixpoint go_range {A S} (f : S -> A -> go S) (s : S) (l : list A) : go S :=
  match l with
  | [] => Ret s
  | x :: l' => s' ← f s x; go_range f s' l'
  end.

(** ** Shared tactics *)

(** Case analysis on every [bind] of a hypothesis that says the computation
    returned; leaves the intermediate values and their equations. *)
Lemma bind_Ret_inv {A B} (m : go A) (f : A -> go B) b :
  m ≫= f = Ret b -> exists a, m = Ret a /\ f a = Ret b.
Proof. destruct m; simpl; intros H; try discriminate; eauto. Qed.

Lemma stm_bind_Ret_inv {S A B} (m : stm S A) (f : A -> stm S B) s b s' :
  (m ≫= f) s = Ret (b, s') -> exists a s1, m s = Ret (a, s1) /\ f a s1 = Ret (b, s').
Proof. unfold mbind, stm_bind. destruct (m s) as [[a s1]|x|x|x]; intros H; try discriminate; eauto. Qed.

Lemma lift_Ret_inv {S A} `{Stamp S} (m : go A) (s s' : S) a : lift m s = Ret (a, s') -> m = Ret a /\ s' = s.
Proof. unfold lift. destruct m; cbn; intros [=]; subst; done. Qed.

(** One statement of a computation that returned: its value, the state after
    it and its equation. *)
Tactic Notation "stm_step" hyp(E) "as" ident(a) ident(s) ident(E1) :=
  apply stm_bind_Ret_inv in E; destruct E as (a & s & E1 & E).

(** Invert a primitive statement that returned. *)
Ltac stm_prim E :=
  lazymatch type of E with
  | lift _ _ = Ret (?a, ?s') =>
      let Hs := fresh in apply lift_Ret_inv in E as [E Hs]; subst s'
  | _ = Ret (?a, ?s') =>
      unfold gets, modify, mret, stm_ret in E;
      let Ha := fresh in let Hs := fresh in
      injection E as Ha Hs; subst s'; try subst a; try clear Ha
  end.

Ltac go_inv :=
  repeat match goal with
  | H : mbind _ _ _ = Ret _ |- _ =>
      let a := fresh "v" in let s := fresh "s" in let E := fresh "E" in
      apply stm_bind_Ret_inv in H; destruct H as (a & s & E & H)
  | H : mbind _ _ = Ret _ |- _ =>
      let a := fresh "v" in let E := fresh "E" in
      apply bind_Ret_inv in H; destruct H as (a & E & H)
  | H : Ret _ = Ret _ |- _ => injection H as H; try subst
  | H : Panics _ = Ret _ |- _ => discriminate H
  | H : Err _ = Ret _ |- _ => discriminate H
  | H : Exits _ = Ret _ |- _ => discriminate H
  end.

(** Split every [bool_decide]/[decide]/[if] on an arithmetic test. *)
Ltac case_test :=
  match goal with
  | |- context [bool_decide ?P] => destruct (bool_decide_reflect P)
  | H : context [bool_decide ?P] |- _ => destruct (bool_decide_reflect P)
  | |- context [Z.leb ?x ?y] => destruct (Z.leb_spec x y)
  | |- context [Z.ltb ?x ?y] => destruct (Z.ltb_spec x y)
  | |- context [Z.eqb ?x ?y] => destruct (Z.eqb_spec x y)
  | H : context [Z.leb ?x ?y] |- _ => destruct (Z.leb_spec x y)
  | H : context [Z.ltb ?x ?y] |- _ => destruct (Z.ltb_spec x y)
  | H : context [Z.eqb ?x ?y] |- _ => destruct (Z.eqb_spec x y)
  end.

(** [lia] with the defining equations of [/] and [mod]. *)
Ltac dlia := zify; Z.to_euclidean_division_equations; lia.

(** Decide a closed proposition by evaluation. *)
Ltac by_decide := apply (bool_decide_unpack _); vm_compute; exact I.

(** ** The hint database of the development *)

Create HintDb opera.
Create Rewrite HintDb opera.

Section Ints.
Local Open Scope Z_scope.

Lemma u8_uint z : is_uint 8 (u8 z).
Proof. unfold is_uint, u8. apply Z.mod_pos_bound. lia. Qed.

Lemma u16_uint z : is_uint 16 (u16 z).
Proof. unfold is_uint, u16. apply Z.mod_pos_bound. lia. Qed.

Lemma u32_uint z : is_uint 32 (u32 z).
Proof. unfold is_uint, u32. apply Z.mod_pos_bound. lia. Qed.

Lemma u64_uint z : is_uint 64 (u64 z).
Proof. unfold is_uint, u64. apply Z.mod_pos_bound. lia. Qed.

Lemma u8_id z : is_uint 8 z -> u8 z = z.
Proof. apply Z.mod_small. Qed.

Lemma u16_id z : is_uint 16 z -> u16 z = z.
Proof. apply Z.mod_small. Qed.

Lemma u32_id z : is_uint 32 z -> u32 z = z.
Proof. apply Z.mod_small. Qed.

Lemma u64_id z : is_uint 64 z -> u64 z = z.
Proof. apply Z.mod_small. Qed.

Lemma i64_id z : - 2 ^ 63 <= z < 2 ^ 63 -> i64 z = z.
Proof. unfold i64. intros H. rewrite Z.mod_small; lia. Qed.

(** A [w]-bit value has no bit at or above [w]. *)
Lemma uint_testbit_high w z k : is_uint w z -> w <= k -> Z.testbit z k = false.
Proof.
  intros [H0 H1] Hk. destruct (decide (z = 0)) as [->|]; [apply Z.testbit_0_l|].
  apply Z.bits_above_log2; [lia|].
  apply Z.log2_lt_pow2; [lia|].
  eapply Z.lt_le_trans; [exact H1|].
  apply Z.pow_le_mono_r; lia.
Qed.

(** Two numbers agree once their bits agree. *)
Lemma testbit_ext a b : (forall k, 0 <= k -> Z.testbit a k = Z.testbit b k) -> a = b.
Proof. apply Z.bits_inj'. Qed.

(** Bits decide membership in the unsigned type. *)
Lemma uint_of_testbit w z :
  0 <= w -> 0 <= z -> (forall k, w <= k -> Z.testbit z k = false) -> is_uint w z.
Proof.
  intros Hw Hz Hk. split; [done|]. destruct (Z.lt_ge_cases z (2 ^ w)); [done|].
  destruct (Z.log2_spec z) as [H1 H2]; [pose proof (Z.pow_pos_nonneg 2 w); lia|].
  assert (w <= Z.log2 z) as Hl by (apply Z.log2_le_pow2; [|lia]; pose proof (Z.pow_pos_nonneg 2 w); lia).
  specialize (Hk _ Hl). rewrite Z.bit_log2 in Hk; [done|].
  pose proof (Z.pow_pos_nonneg 2 w). lia.
Qed.

Lemma uint_lor w x y : 0 <= w -> is_uint w x -> is_uint w y -> is_uint w (Z.lor x y).
Proof.
  intros Hw Hx Hy. apply uint_of_testbit; [done| |].
  - apply Z.lor_nonneg. unfold is_uint in *. lia.
  - intros k Hk. rewrite Z.lor_spec, (uint_testbit_high w x), (uint_testbit_high w y) by done.
    done.
Qed.

(** A [b]-bit value shifted left by [s] fits in [b + s] bits. *)
Lemma uint_shiftl b s v w :
  0 <= s -> 0 <= b -> b + s <= w -> is_uint b v -> is_uint w (Z.shiftl v s).
Proof.
  intros Hs Hb Hw [H0 H1]. unfold is_uint. rewrite Z.shiftl_mul_pow2 by done.
  assert (2 ^ b * 2 ^ s <= 2 ^ w)
    by (rewrite <- Z.pow_add_r by lia; apply Z.pow_le_mono_r; lia).
  pose proof (Z.pow_pos_nonneg 2 s). nia.
Qed.

Lemma u8_testbit z k : 0 <= k < 8 -> Z.testbit (u8 z) k = Z.testbit z k.
Proof. intros. unfold u8. apply Z.mod_pow2_bits_low. lia. Qed.

End Ints.

#[export] Hint Resolve u8_uint u16_uint u32_uint u64_uint : opera.
#[export] Hint Rewrite u8_id u16_id u32_id u64_id i64_id using (assumption || lia) : opera.

Section Lists.
Context {A : Type}.
Implicit Types (l k : list A).
Local Open Scope Z_scope.

Lemma zlen_nonneg l : 0 <= zlen l.
Proof. unfold zlen. lia. Qed.

Lemma zlen_nil : zlen (@nil A) = 0.
Proof. reflexivity. Qed.

Lemma zlen_cons x l : zlen (x :: l) = 1 + zlen l.
Proof. unfold zlen. simpl. lia. Qed.

Lemma zlen_app l k : zlen (l ++ k) = zlen l + zlen k.
Proof. unfold zlen. rewrite length_app. lia. Qed.

Lemma zlen_insert l i x : zlen (<[i := x]> l) = zlen l.
Proof. unfold zlen. by rewrite length_insert. Qed.

Lemma zlen_replicate n (x : A) : zlen (replicate n x) = Z.of_nat n.
Proof. unfold zlen. by rewrite length_replicate. Qed.

Lemma go_index_Ret l i x : l !! i = Some x -> go_index l (Z.of_nat i) = Ret x.
Proof.
  intros H. unfold go_index. rewrite bool_decide_true by lia.
  by rewrite Nat2Z.id, H.
Qed.

Lemma go_index_inv l i x : go_index l i = Ret x -> 0 <= i /\ l !! Z.to_nat i = Some x.
Proof.
  unfold go_index. case_test; [|done]. destruct (l !! Z.to_nat i) eqn:E; [|done].
  intros [= ->]. auto.
Qed.

Lemma go_update_Ret l i x :
  (i < length l)%nat -> go_update l (Z.of_nat i) x = Ret (<[i := x]> l).
Proof.
  intros H. unfold go_update, zlen. rewrite bool_decide_true by lia.
  by rewrite Nat2Z.id.
Qed.

End Lists.

#[export] Hint Rewrite @zlen_nil @zlen_cons @zlen_app @zlen_insert @zlen_replicate : opera.

Lemma go_range_app {A S} (f : S -> A -> go S) l1 l2 s :
  go_range f s (l1 ++ l2) = (s' ← go_range f s l1; go_range f s' l2).
Proof.
  revert s. induction l1 as [|x l1 IH]; intros s; [done|]. simpl.
  destruct (f s x); simpl; auto.
Qed.

(** Computations that do not end the process. *)
Definition no_exit {A} (m : go A) : Prop := forall x, m <> Exits x.

Lemma no_exit_bind {A B} (m : go A) (f : A -> go B) :
  no_exit m -> (forall a, no_exit (f a)) -> no_exit (m ≫= f).
Proof. intros Hm Hf x. destruct m as [a|e|p|y]; simpl; [apply Hf|done|done|]. by specialize (Hm y). Qed.

Lemma no_exit_if {A} (b : bool) (m n : go A) : no_exit m -> no_exit n -> no_exit (if b then m else n).
Proof. by destruct b. Qed.

Lemma no_exit_Ret {A} (a : A) : no_exit (Ret a).
Proof. done. Qed.

Lemma no_exit_Err {A} e : no_exit (@Err A e).
Proof. done. Qed.

Lemma no_exit_Panics {A} p : no_exit (@Panics A p).
Proof. done. Qed.

Lemma no_exit_index {A} (l : list A) i : no_exit (go_index l i).
Proof. unfold go_index. case_test; [|done]. by destruct (l !! _). Qed.

Lemma no_exit_slice_range s lo hi : no_exit (slice_range s lo hi).
Proof. unfold slice_range. by case_test. Qed.

Lemma no_exit_slice_from s lo : no_exit (slice_from s lo).
Proof. unfold slice_from. by case_test. Qed.

#[export] Hint Resolve no_exit_Ret no_exit_Err no_exit_Panics no_exit_index no_exit_slice_range
  no_exit_slice_from : opera.

(** Walk through binds and branches of a computation that does not exit. *)
Ltac solve_no_exit :=
  repeat first
    [ solve [auto with opera]
    | progress cbn beta iota
    | apply no_exit_bind; [|intros [[? ?] ?] || intros [? ?] || intros ?]
    | apply no_exit_if ].

(** The rule for a range loop whose body preserves an invariant and never
    fails under it. *)
Lemma go_range_inv {A S} (I : S -> Prop) (f : S -> A -> go S) l s :
  I s -> (forall s x, x ∈ l -> I s -> exists s', f s x = Ret s' /\ I s') ->
  exists s', go_range f s l = Ret s' /\ I s'.
Proof.
  revert s. induction l as [|x l IH]; intros s Hs Hf; simpl; [eauto|].
  destruct (Hf s x) as (s1 & E & Hs1); [left|done|]. rewrite E. simpl.
  apply IH; [done|]. intros. apply Hf; [by right|done].
Qed.

(** ** Sums over lists *)

Definition zsum {A} (f : A -> Z) (l : list A) : Z := foldr (fun x a => (f x + a)%Z) 0%Z l.
Arguments zsum : simpl never.

Section Sums.
Context {A : Type} (f : A -> Z).
Local Open Scope Z_scope.

Lemma zsum_cons x l : zsum f (x :: l) = f x + zsum f l.
Proof. reflexivity. Qed.

Lemma zsum_app l k : zsum f (l ++ k) = zsum f l + zsum f k.
Proof. induction l; csimpl; rewrite ?zsum_cons; [done|lia]. Qed.

Lemma zsum_insert l i x y : l !! i = Some x -> zsum f (<[i := y]> l) = zsum f l - f x + f y.
Proof.
  revert i. induction l as [|z l IH]; intros [|i]; simpl; try discriminate.
  - intros [= ->]. rewrite !zsum_cons. lia.
  - intros E. rewrite !zsum_cons, (IH i E). lia.
Qed.

Lemma zsum_replicate n x : zsum f (replicate n x) = Z.of_nat n * f x.
Proof. induction n as [|n IH]; csimpl; rewrite ?zsum_cons; [done|]. rewrite IH. lia. Qed.

Lemma zsum_nonneg l : Forall (fun x => 0 <= f x) l -> 0 <= zsum f l.
Proof. induction 1; [done|]. rewrite zsum_cons. lia. Qed.

Lemma zsum_zero l : zsum f l = 0 -> Forall (fun x => 0 <= f x) l -> Forall (fun x => f x = 0) l.
Proof.
  intros Hz Hn. induction Hn as [|x l Hx Hl IH]; [constructor|]. rewrite zsum_cons in Hz.
  pose proof (zsum_nonneg l Hl). constructor; [lia|]. apply IH. lia.
Qed.

Lemma zsum_le_bound l c : Forall (fun x => f x <= c) l -> zsum f l <= Z.of_nat (length l) * c.
Proof. induction 1; [done|]. rewrite zsum_cons. cbn [length]. lia. Qed.

Lemma zsum_all_eq l c : Forall (fun x => f x = c) l -> zsum f l = Z.of_nat (length l) * c.
Proof. induction 1; [done|]. rewrite zsum_cons. cbn [length]. lia. Qed.

(** The sum splits at an element. *)
Lemma zsum_split l i x :
  l !! i = Some x -> zsum f l = zsum f (take i l) + f x + zsum f (drop (S i) l).
Proof.
  intros E. rewrite <- (take_drop_middle l i x E) at 1.
  rewrite zsum_app, zsum_cons. lia.
Qed.

Lemma zsum_concat (ls : list (list A)) : zsum f (concat ls) = foldr (fun l a => zsum f l + a) 0 ls.
Proof. induction ls as [|l ls IH]; csimpl; [done|]. by rewrite zsum_app, IH. Qed.

End Sums.

Lemma zsum_fmap {A B} (f : B -> Z) (g : A -> B) l : zsum f (g <$> l) = zsum (fun x => f (g x)) l.
Proof. induction l as [|x l IH]; [done|]. csimpl. by rewrite !zsum_cons, IH. Qed.

Lemma zsum_ext {A} (f g : A -> Z) l : Forall (fun x => f x = g x) l -> zsum f l = zsum g l.
Proof. induction 1; [done|]. rewrite !zsum_cons. congruence. Qed.

(** ** Lists of blocks of one length *)

Section Blocks.
Context {A : Type} (c : nat).
Implicit Types (ls : list (list A)).

Abbreviation uniform ls := (Forall (fun x => length x = c) ls).

Lemma concat_uniform_length ls : uniform ls -> length (concat ls) = (length ls * c)%nat.
Proof. induction 1 as [|x ls Hx _ IH]; csimpl; [done|]. rewrite length_app. lia. Qed.

Lemma concat_take ls i : uniform ls -> (i <= length ls)%nat ->
  take (i * c) (concat ls) = concat (take i ls).
Proof.
  intros Hu. revert i. induction Hu as [|x ls Hx _ IH]; intros [|i] Hi; simpl in *; try done; [lia|].
  rewrite take_app, take_ge by lia. f_equal. replace (c + i * c - length x)%nat with (i * c)%nat by lia.
  apply IH. lia.
Qed.

Lemma concat_lookup ls b x j :
  uniform ls -> ls !! b = Some x -> (j < c)%nat -> concat ls !! (b * c + j)%nat = x !! j.
Proof.
  intros Hu. revert b. induction Hu as [|y ls Hy _ IH]; intros [|b] E Hj; simpl in *; try discriminate; try (injection E as ->).
  - rewrite lookup_app_l by lia. done.
  - rewrite lookup_app_r by lia. rewrite <- (IH b E Hj). f_equal. lia.
Qed.

Lemma concat_insert ls b x j v :
  uniform ls -> ls !! b = Some x -> (j < c)%nat ->
  concat (<[b := <[j := v]> x]> ls) = <[(b * c + j)%nat := v]> (concat ls).
Proof.
  intros Hu. revert b. induction Hu as [|y ls Hy _ IH]; intros [|b] E Hj; simpl in *; try discriminate; try (injection E as ->).
  - rewrite insert_app_l by lia. done.
  - rewrite IH by done. replace (c + b * c + j)%nat with (length y + (b * c + j))%nat by lia.
    by rewrite insert_app_r.
Qed.

Lemma concat_replicate n (x : A) : concat (replicate n (replicate c x)) = replicate (n * c) x.
Proof. induction n as [|n IH]; simpl; [done|]. by rewrite replicate_add, IH. Qed.

Lemma concat_take_middle ls b x j :
  uniform ls -> ls !! b = Some x -> (j <= c)%nat ->
  take (b * c + j) (concat ls) = concat (take b ls) ++ take j x.
Proof.
  intros Hu. revert b. induction Hu as [|y ls Hy _ IH]; intros [|b] E Hj; simpl in *; try discriminate; try (injection E as ->).
  - rewrite take_app_le by lia. done.
  - rewrite <- app_assoc, <- (IH b) by done. rewrite take_app, take_ge by lia. f_equal. f_equal. lia.
Qed.

End Blocks.

(** ** Specifications of stateful code

    [wp m Q s]: from the state [s] the computation returns a value and a state
    that satisfy [Q], or ends the process, which it does only if [may_exit]
    holds; it neither panics nor returns an error.  Where [may_exit] is [False]
    this is total correctness. *)

Class MayExit := may_exit : Prop.

Definition or_exit `{MayExit} {A} (m : go A) (Q : A -> Prop) : Prop :=
  match m with Ret a => Q a | Exits _ => may_exit | _ => False end.

Definition wp `{MayExit} {S A} (m : stm S A) (Q : A -> S -> Prop) (s : S) : Prop :=
  or_exit (m s) (fun r => Q (fst r) (snd r)).

Section Wp.
Context `{MayExit} {S A B : Type}.
Implicit Types (s : S).

Lemma wp_ret (a : A) (Q : A -> S -> Prop) s : Q a s -> wp (mret a) Q s.
Proof. done. Qed.

Lemma wp_bind (m : stm S A) (f : A -> stm S B) Q s :
  wp m (fun a s' => wp (f a) Q s') s -> wp (m ≫= f) Q s.
Proof. unfold wp, mbind, stm_bind, or_exit. by destruct (m s) as [[a s']|x|x|x]. Qed.

Lemma wp_gets (f : S -> A) (Q : A -> S -> Prop) s : Q (f s) s -> wp (gets f) Q s.
Proof. done. Qed.

Lemma wp_modify (f : S -> S) (Q : unit -> S -> Prop) s : Q tt (f s) -> wp (modify f) Q s.
Proof. done. Qed.

Lemma wp_lift `{Stamp S} (m : go A) (Q : A -> S -> Prop) s : or_exit m (fun a => Q a s) -> wp (lift m) Q s.
Proof. unfold wp, lift, or_exit. by destruct m. Qed.

Lemma wp_mono (m : stm S A) (P Q : A -> S -> Prop) s :
  wp m P s -> (forall a s', P a s' -> Q a s') -> wp m Q s.
Proof. unfold wp, or_exit. destruct (m s) as [[a s']|x|x|x]; simpl; auto. Qed.

Lemma wp_and (m : stm S A) (P Q : A -> S -> Prop) s :
  wp m P s -> wp m Q s -> wp m (fun a s' => P a s' /\ Q a s') s.
Proof. unfold wp, or_exit. destruct (m s) as [[a s']|x|x|x]; auto. Qed.

(** A fact about the result that holds under a side condition. *)
Lemma wp_under (m : stm S A) (R : Prop) (P Q : A -> S -> Prop) s :
  wp m P s -> (R -> wp m Q s) -> wp m (fun a s' => P a s' /\ (R -> Q a s')) s.
Proof. unfold wp, or_exit. destruct (m s) as [[a s']|x|x|x]; auto. Qed.

Lemma wp_total (m : stm S A) (Q : A -> S -> Prop) s :
  ~ may_exit -> wp m Q s -> exists a s', m s = Ret (a, s') /\ Q a s'.
Proof. unfold wp, or_exit. destruct (m s) as [[a s']|x|x|x]; intros Hx Hq; try done. by exists a, s'. Qed.

Lemma wp_if (b : bool) (m n : stm S A) Q s :
  (b = true -> wp m Q s) -> (b = false -> wp n Q s) -> wp (if b then m else n) Q s.
Proof. destruct b; auto. Qed.

Lemma or_exit_mono (m : go A) (P Q : A -> Prop) :
  or_exit m P -> (forall a, P a -> Q a) -> or_exit m Q.
Proof. unfold or_exit. destruct m; auto. Qed.

Lemma or_exit_bind (m : go A) (f : A -> go B) Q :
  or_exit m (fun a => or_exit (f a) Q) -> or_exit (m ≫= f) Q.
Proof. unfold or_exit. by destruct m. Qed.

End Wp.

(** Run through the primitive statements of a computation. *)
Ltac wp_step :=
  lazymatch goal with
  | |- wp (mret _) _ _ => apply wp_ret
  | |- wp (mbind _ _) _ _ => apply wp_bind
  | |- wp (gets _) _ _ => apply wp_gets
  | |- wp (modify _) _ _ => apply wp_modify
  | |- wp (lift _) _ _ => apply wp_lift
  end; cbv beta.
Ltac wp_run := repeat wp_step.

(** ** Frames

    What a computation leaves alone: whenever it returns, the states before and
    after are related; and when it ends the process, it does so in a state that
    is related to the one before.  Nothing else is said of a computation that
    does not return, so a frame complements a [wp]. *)

Section Frames.
Context {S : Type} `{!Stamp S} (R : S -> S -> Prop) `{!PreOrder R}.

Record frames {A} (m : stm S A) : Prop := {
  frames_returns :> forall s x s', m s = Ret (x, s') -> R s s';
  frames_exits : forall s x, m s = Exits x -> exists s', R s s' /\ stamped s' x
}.

Lemma frames_bind {A B} (m : stm S A) (f : A -> stm S B) : frames m -> (forall x, frames (f x)) -> frames (m ≫= f).
Proof.
  intros Hm Hf. split.
  - intros s y s' E. apply stm_bind_Ret_inv in E as (x & s1 & E1 & E2). etrans; [exact (Hm _ _ _ E1)|exact (Hf _ _ _ _ E2)].
  - intros s y. unfold mbind, stm_bind. destruct (m s) as [[x s1]|x|x|x] eqn:E1; try done.
    + intros E2. destruct (frames_exits _ (Hf x) _ _ E2) as (s2 & Hr & Hx). exists s2. split; [etrans; [exact (Hm _ _ _ E1)|exact Hr]|exact Hx].
    + intros [= <-]. exact (frames_exits _ Hm _ _ E1).
Qed.

Lemma frames_ret {A} (x : A) : frames (mret x).
Proof. split; [intros s y s' E; by stm_prim E|done]. Qed.

Lemma frames_gets {A} (f : S -> A) : frames (gets f).
Proof. split; [intros s y s' E; by stm_prim E|done]. Qed.

Lemma frames_lift {A} (m : go A) : frames (lift m).
Proof.
  split; [intros s y s' E; by stm_prim E|]. intros s y. unfold lift. destruct m; try done. intros [= <-]. exists s. split; [done|apply stamp_stamped].
Qed.

Lemma frames_modify (f : S -> S) : (forall s, R s (f s)) -> frames (modify f).
Proof. intros Hf. split; [|done]. intros s y s' E. stm_prim E. apply Hf. Qed.

(** A call of a part of the state. *)
Lemma frames_part {T A} (m : stm T A) (view : S -> T) (set : T -> S -> S) (n : stm S A) :
  (forall s, n s = match m (view s) with
                   | Ret (x, t) => Ret (x, set t s)
                   | Err e => Err e
                   | Panics p => Panics p
                   | Exits x => Exits (stamp s x)
                   end) ->
  (forall s x t, m (view s) = Ret (x, t) -> R s (set t s)) -> frames n.
Proof.
  intros Hn Hr. split.
  - intros s x s' E. rewrite Hn in E. destruct (m (view s)) as [[y t]|y|y|y] eqn:Em; try done. injection E as <- <-. by eapply Hr.
  - intros s x E. rewrite Hn in E. destruct (m (view s)) as [[y t]|y|y|y]; try done. injection E as <-. exists s. split; [done|apply stamp_stamped].
Qed.

Lemma wp_frames `{MayExit} {A} (m : stm S A) Q s : frames m -> wp m Q s -> wp m (fun x s' => Q x s' /\ R s s') s.
Proof. intros Hk. unfold wp, or_exit. destruct (m s) as [[x s']|x|x|x] eqn:E; try done. intros HQ. split; [done|]. by eapply Hk. Qed.

End Frames.

(** Where ends of the process are not marked, only returns matter. *)
Lemma frames_unmarked {S A} (R : S -> S -> Prop) `{!PreOrder R} (m : stm S A) :
  (forall s x s', m s = Ret (x, s') -> R s s') -> @frames S (stamp_nothing S) R A m.
Proof. intros Hm. split; [exact Hm|]. intros s x _. by exists s. Qed.

Create HintDb frames.

(** Walk through the statements of a computation; the database holds the frames
    of the calls it makes. *)
Ltac frame_step :=
  first
    [ apply (frames_ret _) | apply (frames_gets _) | apply (frames_lift _)
    | apply (frames_modify _); intros; solve [reflexivity | repeat split]
    | solve [auto 1 with frames]
    | apply (frames_bind _); [|intros ?]
    | case_match ].
Ltac frame := repeat frame_step.

(** ** Computations that do not end the process *)

Definition never_exits {S A} (m : stm S A) : Prop := forall s x, m s <> Exits x.

Lemma never_exits_bind {S A B} (m : stm S A) (f : A -> stm S B) : never_exits m -> (forall x, never_exits (f x)) -> never_exits (m ≫= f).
Proof.
  intros Hm Hf s x. unfold mbind, stm_bind. destruct (m s) as [[y s1]|y|y|y] eqn:E; try done; [apply Hf|]. intros [= ->]. by eapply Hm.
Qed.

Lemma never_exits_panic {S A} `{Stamp S} p : never_exits (lift (S := S) (A := A) (Panics p)).
Proof. by intros s x. Qed.

Create HintDb never_exits.

Ltac no_exit := repeat first
  [ solve [auto 1 with never_exits] | apply never_exits_bind; [|intros ?] | apply never_exits_panic | case_match | by intros ? ? ].
