(* ===== verification/Kv.v ===== *)
(** * Interfaces of the storage libraries

    The store works over lachesis-base key-value tables ([kvdb.Store]), LRU
    caches and the rlp codec, none of which is part of this repository.  Each is
    a class with the calls the store makes and a class with the documented
    behaviour the store relies on; tables may fail on any call.  For each there
    is an instance, so that the laws are known to be consistent and the store
    can be run. *)

From Stdlib Require Import ZArith Lia Bool Sorted.
From stdpp Require Import base list numbers option strings gmap sorting countable.
From S2P Require Import Prelude.
Local Open Scope Z_scope.

Abbreviation bytes := (list Z) (only parsing).

(** ** The order of keys: [bytes.Compare(a, b) < 0] *)

Fixpoint bytes_lt (a b : list Z) : bool :=
  match a, b with
  | [], [] => false
  | [], _ :: _ => true
  | _ :: _, [] => false
  | x :: a, y :: b => if x <? y then true else if y <? x then false else bytes_lt a b
  end.

Definition bytes_le (a b : list Z) : Prop := bytes_lt b a = false.

#[export] Instance bytes_le_dec a b : Decision (bytes_le a b).
Proof. unfold bytes_le. apply _. Defined.

Lemma bytes_lt_irrefl a : bytes_lt a a = false.
Proof. induction a as [|x a IH]; simpl; [done|]. rewrite Z.ltb_irrefl. done. Qed.

Lemma bytes_lt_trans a b c : bytes_lt a b = true -> bytes_lt b c = true -> bytes_lt a c = true.
Proof.
  revert b c. induction a as [|x a IH]; intros [|y b] [|z c]; simpl; try done.
  repeat case_test; try done; try lia. intros. eauto.
Qed.

Lemma bytes_lt_total a b : bytes_lt a b = true \/ a = b \/ bytes_lt b a = true.
Proof.
  revert b. induction a as [|x a IH]; intros [|y b]; simpl; auto.
  repeat case_test; try lia; auto. assert (x = y) as -> by lia.
  destruct (IH b) as [?|[->|?]]; auto.
Qed.

#[export] Instance bytes_le_total : Total bytes_le.
Proof.
  intros a b. unfold bytes_le. destruct (bytes_lt_total a b) as [E|[->|E]].
  - left. destruct (bytes_lt b a) eqn:E2; [|done].
    pose proof (bytes_lt_trans _ _ _ E E2). by rewrite bytes_lt_irrefl in *.
  - left. apply bytes_lt_irrefl.
  - right. destruct (bytes_lt a b) eqn:E2; [|done].
    pose proof (bytes_lt_trans _ _ _ E E2). by rewrite bytes_lt_irrefl in *.
Qed.

#[export] Instance bytes_le_trans : Transitive bytes_le.
Proof.
  intros a b c. unfold bytes_le. intros Hab Hbc. destruct (bytes_lt c a) eqn:E; [|done].
  destruct (bytes_lt_total b c) as [E2|[->|E2]]; [|congruence..].
  pose proof (bytes_lt_trans _ _ _ E2 E). congruence.
Qed.

(** ** Key-value tables *)

Class Kv := {
  tbl : Type;
  kv_empty : tbl;
  kv_get : tbl -> bytes -> go (option bytes);
  kv_has : tbl -> bytes -> go bool;
  kv_put : tbl -> bytes -> bytes -> go tbl;
  kv_delete : tbl -> bytes -> go tbl;
  kv_scan : tbl -> bytes -> bytes -> list (bytes * bytes) * option error
    (** what an iterator over the keys with a prefix, from a start key, yields,
        and the error that [Error] reports after it has stopped *)
}.

(** A call fails with an error and no effect, or does what it says. *)
Definition or_err (may_fail : Prop) {A} (m : go A) (Q : A -> Prop) : Prop :=
  match m with Ret a => Q a | Err _ => may_fail | _ => False end.

Class KvLaws (K : Kv) := {
  kv_map : tbl -> gmap bytes bytes;
  kv_may_fail : Prop;  (** calls can fail; [False] for a table in memory *)
  kv_empty_map : kv_map kv_empty = ∅;
  kv_get_ok : forall t k, or_err kv_may_fail (kv_get t k) (fun r => r = kv_map t !! k);
  kv_has_ok : forall t k, or_err kv_may_fail (kv_has t k) (fun r => r = bool_decide (is_Some (kv_map t !! k)));
  kv_put_ok : forall t k v, or_err kv_may_fail (kv_put t k v) (fun t' => kv_map t' = <[k := v]> (kv_map t));
  kv_delete_ok : forall t k, or_err kv_may_fail (kv_delete t k) (fun t' => kv_map t' = delete k (kv_map t));
  kv_scan_ok : forall t p s, let '(l, err) := kv_scan t p s in
    NoDup l.*1 /\ StronglySorted bytes_le l.*1 /\
    (forall k v, (k, v) ∈ l -> kv_map t !! k = Some v /\ p `prefix_of` k /\ bytes_le s k) /\
    (err <> None -> kv_may_fail) /\
    (err = None -> forall k v, kv_map t !! k = Some v -> p `prefix_of` k -> bytes_le s k -> (k, v) ∈ l)
}.

(** The process ends only when a table call fails. *)
#[export] Instance kv_may_exit `{KvLaws} : MayExit := kv_may_fail.

(** ** LRU caches: an entry may be evicted at any time *)

Class Lru := {
  lru : Type -> Type;
  lru_new : forall V, Z -> lru V;
  lru_get : forall V, lru V -> list Z -> option V * lru V;
  lru_add : forall V, lru V -> list Z -> V -> lru V;
  lru_remove : forall V, lru V -> list Z -> lru V
}.

Class LruLaws (L : Lru) := {
  lru_view : forall V, lru V -> gmap (list Z) V;
  lru_new_view : forall V n, lru_view V (lru_new V n) = ∅;
  lru_get_ok : forall V c k, fst (lru_get V c k) = lru_view V c !! k /\
                             lru_view V (snd (lru_get V c k)) ⊆ lru_view V c;
  lru_add_ok : forall V c k v, lru_view V (lru_add V c k v) ⊆ <[k := v]> (lru_view V c);
  lru_remove_ok : forall V c k, lru_view V (lru_remove V c k) ⊆ delete k (lru_view V c)
}.

(** ** Value codecs *)

Class Codec (A : Type) := { enc : A -> bytes; dec : bytes -> option A }.
Class CodecLaws (A : Type) `{Codec A} : Prop := { dec_enc : forall x : A, dec (enc x) = Some x }.

(** ** Instances *)

Definition kv_gmap : Kv := {|
  tbl := gmap (list Z) (list Z);
  kv_empty := ∅;
  kv_get t k := Ret (t !! k);
  kv_has t k := Ret (bool_decide (is_Some (t !! k)));
  kv_put t k v := Ret (<[k := v]> t);
  kv_delete t k := Ret (delete k t);
  kv_scan t p s := (merge_sort (fun x y => bytes_le x.1 y.1)
    (filter (fun x => p `prefix_of` x.1 /\ bytes_le s x.1) (map_to_list t)), None)
|}.

Lemma sorted_fst (l : list (list Z * list Z)) :
  StronglySorted (fun x y => bytes_le x.1 y.1) l -> StronglySorted bytes_le l.*1.
Proof.
  induction 1 as [|x l Hs IH Hf]; constructor; [done|]. by apply Forall_fmap.
Qed.

Lemma kv_gmap_scan (t : gmap (list Z) (list Z)) p s :
  let '(l, err) := @kv_scan kv_gmap t p s in
  NoDup l.*1 /\ StronglySorted bytes_le l.*1 /\
  (forall k v, (k, v) ∈ l -> t !! k = Some v /\ p `prefix_of` k /\ bytes_le s k) /\
  (err <> None -> False) /\
  (err = None -> forall k v, t !! k = Some v -> p `prefix_of` k -> bytes_le s k -> (k, v) ∈ l).
Proof.
  unfold kv_scan, kv_gmap.
  lazymatch goal with |- context [@merge_sort _ ?R ?d ?l] =>
    assert (Transitive R) by (intros x y z; apply bytes_le_trans);
    assert (Total R) by (intros x y; apply bytes_le_total);
    pose proof (@merge_sort_Permutation _ R d l) as Hp;
    pose proof (@StronglySorted_merge_sort _ R d _ _ l) as Hs end.
  split_and!.
  - rewrite Hp. apply NoDup_fmap_fst.
    + intros k v1 v2 H1 H2. apply list_elem_of_filter in H1 as [_ H1], H2 as [_ H2].
      apply elem_of_map_to_list in H1, H2. congruence.
    + apply list.NoDup_filter, NoDup_map_to_list.
  - by apply sorted_fst.
  - intros k v. rewrite Hp, list_elem_of_filter, elem_of_map_to_list. simpl. tauto.
  - done.
  - intros _ k v. rewrite Hp, list_elem_of_filter, elem_of_map_to_list. simpl. tauto.
Qed.

Definition kv_gmap_laws : KvLaws kv_gmap := {|
  kv_map := fun t : @tbl kv_gmap => (t : gmap (list Z) (list Z));
  kv_may_fail := False;
  kv_empty_map := eq_refl;
  kv_get_ok := fun t k => eq_refl;
  kv_has_ok := fun t k => eq_refl;
  kv_put_ok := fun t k v => eq_refl;
  kv_delete_ok := fun t k => eq_refl;
  kv_scan_ok := kv_gmap_scan
|}.

Definition lru_gmap : Lru := {|
  lru V := gmap (list Z) V;
  lru_new V _ := ∅;
  lru_get V c k := (c !! k, c);
  lru_add V c k v := <[k := v]> c;
  lru_remove V c k := delete k c
|}.

Lemma lru_gmap_laws : LruLaws lru_gmap.
Proof.
  refine {| lru_view := fun V (c : @lru lru_gmap V) => (c : gmap (list Z) V) |}; done.
Qed.

(** Any countable type can be written as one number. *)
Definition codec_countable A `{Countable A} : Codec A := {|
  enc x := [Zpos (encode x)];
  dec l := match l with [Zpos p] => decode p | _ => None end
|}.

Lemma codec_countable_laws A `{Countable A} : @CodecLaws A (codec_countable A).
Proof. split. intros x. simpl. apply decode_encode. Qed.
