(* ===== verification/Fast.v ===== *)
(** * utils/fast: packed small numbers and the byte cursor

    Models [src/utils/fast/bits.go] (a [BitArray] packs numbers of 1, 2 or 4
    bits, low bits first, with a writer and a reader that share the cursor
    arithmetic of [nextPart]) and [src/utils/fast/buffer.go] (a cursor over a
    byte slice).  The event serializer is built from both. *)

From Stdlib Require Import ZArith Lia Bool.
From stdpp Require Import base list numbers option strings.
From S2P Require Import Prelude.
Local Open Scope Z_scope.

Module Bits.

Record BitArray := MkBitArray { bits : Z; count : Z; offset : Z; size : Z }.

(** The embedded [BitArray] and the slice behind [raw *[]byte]. *)
Record BitArrayWriter := MkWriter { warr : BitArray; wraw : list Z }.
Record BitArrayReader := MkReader { rarr : BitArray; rraw : list Z }.

Definition calcSize (bits count : Z) : Z :=
  let bits := u64 (bits * count) in
  let s := bits / 8 in
  let s := if bits mod 8 >? 0 then u64 (s + 1) else s in
  i64 s.

Definition NewBitArray (bits count : Z) : go BitArray :=
  if negb (bits =? 1) && negb (bits =? 2) && negb (bits =? 4)
  then Panics (PanicMsg "use 1 or 2 or 4 bits")
  else Ret (MkBitArray bits count 0 (calcSize bits count)).

Definition Writer (a : BitArray) (w : list Z) : go BitArrayWriter :=
  if negb (zlen w =? size a)
  then Panics (PanicMsg "need .Size() bytes for writing")
  else Ret (MkWriter a w).

Definition Reader (a : BitArray) (r : list Z) : go BitArrayReader :=
  if negb (zlen r =? size a)
  then Panics (PanicMsg "need .Size() bytes for reading")
  else Ret (MkReader a r).

Definition Size (a : BitArray) : Z := size a.

(** The byte offset, the offset inside the byte, and the advanced array. *)
Definition nextPart (a : BitArray) : Z * Z * BitArray :=
  let bitsOffset := u64 (offset a * bits a) in
  (bitsOffset / 8, bitsOffset mod 8,
   MkBitArray (bits a) (count a) (u64 (offset a + 1)) (size a)).

Definition Push (a : BitArrayWriter) (v : Z) : go BitArrayWriter :=
  if v <? 0 then Panics (PanicMsg "only positives accepts")
  else if v >=? i64 (Z.shiftl 1 (bits (warr a)))
  then Panics (PanicMsg "too big number")
  else
    let '(byteOffset, bytePartOffset, arr) := nextPart (warr a) in
    old ← go_index (wraw a) byteOffset;
    raw ← go_update (wraw a) byteOffset
            (Z.lor old (u8 (i64 (Z.shiftl v bytePartOffset))));
    Ret (MkWriter arr raw).

Definition Pop (a : BitArrayReader) : go (Z * BitArrayReader) :=
  let '(byteOffset, bytePartOffset, arr) := nextPart (rarr a) in
  let mask := u8 (i64 (Z.shiftl 1 (bits (rarr a))) - 1) in
  b ← go_index (rraw a) byteOffset;
  Ret (Z.land (Z.shiftr b bytePartOffset) mask, MkReader arr (rraw a)).

(** Driving a writer over a list, and a reader for [n] numbers. *)
Definition pushAll (w : BitArrayWriter) (vs : list Z) : go BitArrayWriter :=
  go_range Push w vs.

Fixpoint popN (n : nat) (r : BitArrayReader) : go (list Z * BitArrayReader) :=
  match n with
  | O => Ret ([], r)
  | S n' => '(v, r1) ← Pop r; '(vs, r2) ← popN n' r1; Ret (v :: vs, r2)
  end.

(** ** What the packed bytes mean *)

(** The [k]-th number packed in [raw] with [b] bits per number. *)
Definition part (b : Z) (raw : list Z) (k : Z) : Z :=
  Z.land (Z.shiftr (default 0 (raw !! Z.to_nat (k * b / 8))) (k * b mod 8)) (Z.ones b).

Definition width_ok (b : Z) : Prop := b = 1 \/ b = 2 \/ b = 4.

(** An array of width [b] whose next number is the [k]-th one. *)
Definition at_pos (a : BitArray) (b k : Z) : Prop :=
  bits a = b /\ offset a = k /\ 0 <= k < 2 ^ 60.

Ltac widths H := destruct H as [ -> | [ -> | -> ] ].

Lemma nextPart_at a b k :
  width_ok b -> at_pos a b k ->
  nextPart a = (k * b / 8, k * b mod 8, MkBitArray b (count a) (k + 1) (size a)).
Proof.
  intros Hb (<- & <- & Hk). unfold nextPart.
  rewrite (u64_id (offset a * bits a)), (u64_id (offset a + 1)); [done| |];
    unfold is_uint; destruct Hb as [E | [E | E]]; rewrite ?E; lia.
Qed.

Lemma part_testbit b raw k t :
  width_ok b -> 0 <= t ->
  Z.testbit (part b raw k) t =
  (t <? b) && Z.testbit (default 0 (raw !! Z.to_nat (k * b / 8))) (t + k * b mod 8).
Proof.
  intros Hb Ht. unfold part. rewrite Z.land_spec, Z.shiftr_spec by done.
  rewrite Z.testbit_ones by (widths Hb; lia).
  rewrite andb_comm. f_equal. destruct (Z.leb_spec 0 t); [done|lia].
Qed.

Lemma part_range b raw k : width_ok b -> 0 <= part b raw k < 2 ^ b.
Proof.
  intros Hb. unfold part. rewrite Z.land_ones by (widths Hb; lia).
  apply Z.mod_pos_bound. widths Hb; lia.
Qed.

Lemma Pop_spec r b k :
  width_ok b -> at_pos (rarr r) b k -> k * b / 8 < zlen (rraw r) ->
  Pop r = Ret (part b (rraw r) k,
               MkReader (MkBitArray b (count (rarr r)) (k + 1) (size (rarr r))) (rraw r)).
Proof.
  intros Hb Ha Hlen. unfold Pop. rewrite (nextPart_at _ b k Hb Ha).
  destruct Ha as (-> & _ & Hk). unfold go_index.
  rewrite bool_decide_true by (widths Hb; dlia).
  destruct (lookup_lt_is_Some_2 (rraw r) (Z.to_nat (k * b / 8))) as [x Hx].
  { unfold zlen in Hlen. widths Hb; dlia. }
  rewrite Hx. simpl. unfold part. rewrite Hx. simpl. repeat f_equal.
  by widths Hb.
Qed.

(** Writing [v] at a position that still reads 0 makes it read [v] and leaves
    every other position alone. *)
Lemma Push_spec w b k v :
  width_ok b -> at_pos (warr w) b k -> k * b / 8 < zlen (wraw w) ->
  0 <= v < 2 ^ b -> part b (wraw w) k = 0 -> is_bytes (wraw w) ->
  exists raw',
    Push w v = Ret (MkWriter (MkBitArray b (count (warr w)) (k + 1) (size (warr w))) raw') /\
    length raw' = length (wraw w) /\ is_bytes raw' /\
    part b raw' k = v /\
    (forall j, 0 <= j -> j <> k -> part b raw' j = part b (wraw w) j).
Proof.
  intros Hb Ha Hlen Hv H0 Hbytes. unfold Push.
  rewrite (nextPart_at _ b k Hb Ha). destruct Ha as (-> & _ & Hk).
  rewrite (proj2 (Z.ltb_ge v 0)) by lia.
  assert (Hi : i64 (Z.shiftl 1 b) = 2 ^ b) by (by widths Hb).
  rewrite Hi. rewrite Z.geb_leb, (proj2 (Z.leb_gt (2 ^ b) v)) by lia.
  set (i := k * b / 8) in *. set (s := k * b mod 8) in *.
  assert (Hs : 0 <= s /\ s + b <= 8) by (subst s; widths Hb; dlia).
  assert (Hin : (Z.to_nat i < length (wraw w))%nat).
  { unfold zlen in Hlen. subst i. widths Hb; dlia. }
  assert (Hi0 : 0 <= i) by (subst i; widths Hb; dlia).
  destruct (lookup_lt_is_Some_2 (wraw w) (Z.to_nat i) Hin) as [x Hx].
  assert (Hxb : is_byte x) by (eapply Forall_lookup_1; eauto).
  unfold go_index. rewrite bool_decide_true, Hx by done. simpl.
  unfold go_update. rewrite bool_decide_true by (unfold zlen; lia). simpl.
  assert (Hsh : is_byte (Z.shiftl v s))
    by (apply (uint_shiftl b); [lia|widths Hb; dlia|lia|done]).
  rewrite i64_id, u8_id by (done || unfold is_uint in Hsh; lia).
  assert (Hlow : forall t, 0 <= t < b -> Z.testbit x (t + s) = false).
  { intros t Ht. pose proof (part_testbit b (wraw w) k t Hb (proj1 Ht)) as E.
    rewrite H0, Z.testbit_0_l in E. fold i s in E. rewrite Hx in E. simpl in E.
    rewrite (proj2 (Z.ltb_lt t b)) in E by lia. done. }
  eexists. split; [reflexivity|]. split; [apply length_insert|]. split.
  { by apply Forall_insert, uint_lor. }
  split.
  - apply testbit_ext. intros t Ht. rewrite part_testbit by done. fold i s.
    rewrite list_lookup_insert_eq by done. simpl.
    rewrite Z.lor_spec, Z.shiftl_spec by lia. replace (t + s - s) with t by lia.
    destruct (Z.ltb_spec t b).
    + rewrite Hlow by lia. done.
    + simpl. symmetry. apply (uint_testbit_high b); [done|lia].
  - intros j Hj Hjk. apply testbit_ext. intros t Ht. rewrite !part_testbit by done.
    destruct (Z.ltb_spec t b); [|done]. simpl.
    destruct (decide (Z.to_nat (j * b / 8) = Z.to_nat i)) as [E|E].
    + rewrite E, list_lookup_insert_eq, Hx by done. simpl.
      pose proof (Z.mod_pos_bound (j * b) 8 eq_refl) as Hmod.
      rewrite Z.lor_spec, Z.shiftl_spec by lia.
      assert (Hout : Z.testbit v (t + j * b mod 8 - s) = false).
      { destruct (Z.lt_ge_cases (t + j * b mod 8 - s) 0).
        - by apply Z.testbit_neg_r.
        - apply (uint_testbit_high b); [done|]. subst i s. widths Hb; dlia. }
      rewrite Hout. apply orb_false_r.
    + by rewrite list_lookup_insert_ne by done.
Qed.

Lemma calcSize_eq b n :
  width_ok b -> 0 <= n < 2 ^ 56 -> calcSize b n = (b * n + 7) / 8.
Proof.
  intros Hb Hn. unfold calcSize. rewrite u64_id by (unfold is_uint; widths Hb; lia).
  rewrite Z.gtb_ltb. destruct (Z.ltb_spec 0 ((b * n) mod 8)).
  - rewrite u64_id by (unfold is_uint; widths Hb; dlia).
    rewrite i64_id by (widths Hb; dlia). widths Hb; dlia.
  - rewrite i64_id by (widths Hb; dlia). widths Hb; dlia.
Qed.

(** A run of pushes into positions that read 0 fills exactly those positions. *)
Lemma pushAll_spec b vs : forall w k,
  width_ok b -> at_pos (warr w) b k -> k + zlen vs < 2 ^ 60 ->
  (k + zlen vs) * b <= 8 * zlen (wraw w) ->
  Forall (is_uint b) vs -> is_bytes (wraw w) ->
  (forall j, k <= j -> part b (wraw w) j = 0) ->
  exists raw',
    pushAll w vs = Ret (MkWriter (MkBitArray b (count (warr w)) (k + zlen vs) (size (warr w))) raw') /\
    length raw' = length (wraw w) /\ is_bytes raw' /\
    (forall i v, vs !! i = Some v -> part b raw' (k + Z.of_nat i) = v) /\
    (forall j, 0 <= j -> j < k \/ k + zlen vs <= j -> part b raw' j = part b (wraw w) j).
Proof.
  unfold pushAll. induction vs as [|v vs IH]; intros w k Hb Ha Hk Hlen Hvs Hbytes H0.
  - exists (wraw w). destruct Ha as (<- & <- & Ha). simpl.
    rewrite zlen_nil, Z.add_0_r. destruct w as [[] ?]; simpl. split_and!; auto. done.
  - rewrite zlen_cons in Hk, Hlen. pose proof (zlen_nonneg vs) as Hl.
    apply Forall_cons in Hvs as [Hv Hvs].
    assert (Hk0 : 0 <= k) by (destruct Ha as (_ & _ & ?); lia).
    destruct (Push_spec w b k v) as (raw1 & E1 & L1 & B1 & P1 & O1);
      [done|done|widths Hb; dlia|done|apply H0; lia|done|].
    destruct (IH (MkWriter (MkBitArray b (count (warr w)) (k + 1) (size (warr w))) raw1) (k + 1))
      as (raw2 & E2 & L2 & B2 & P2 & O2); simpl; [done| | | | | | |].
    + unfold at_pos; simpl; lia.
    + lia.
    + unfold zlen in *. rewrite L1. widths Hb; lia.
    + done.
    + done.
    + intros j Hj. rewrite O1 by lia. apply H0. lia.
    + exists raw2. cbn [go_range]. rewrite E1. simpl. simpl in E2. rewrite E2.
      simpl in O2, L2. rewrite zlen_cons. split_and!; [do 3 f_equal; lia|congruence|done| |].
      * intros [|i] x Hx; simpl in Hx.
        -- injection Hx as <-. rewrite Z.add_0_r, O2 by lia. done.
        -- rewrite <- (P2 i x Hx). f_equal. lia.
      * intros j Hj Hor. rewrite O2 by lia. apply O1; lia.
Qed.

Lemma popN_spec b n : forall r k,
  width_ok b -> at_pos (rarr r) b k -> k + Z.of_nat n < 2 ^ 60 ->
  (k + Z.of_nat n) * b <= 8 * zlen (rraw r) ->
  popN n r = Ret (part b (rraw r) <$> seqZ k (Z.of_nat n),
                  MkReader (MkBitArray b (count (rarr r)) (k + Z.of_nat n) (size (rarr r))) (rraw r)).
Proof.
  induction n as [|n IH]; intros r k Hb Ha Hk Hlen.
  - destruct Ha as (<- & <- & ?). destruct r as [[] ?]. simpl. by rewrite Z.add_0_r.
  - assert (Hk0 : 0 <= k) by (destruct Ha as (_ & _ & ?); lia).
    cbn [popN]. rewrite (Pop_spec r b k) by (done || (widths Hb; dlia)). simpl.
    rewrite (IH _ (k + 1)); simpl; [|done|unfold at_pos; simpl; lia|lia|lia].
    rewrite (seqZ_cons k (Z.of_nat (S n))) by lia. simpl.
    replace (Z.pred (Z.of_nat (S n))) with (Z.of_nat n) by lia.
    replace (Z.succ k) with (k + 1) by lia. do 4 f_equal; lia.
Qed.

Lemma part_replicate_0 b n k : width_ok b -> part b (replicate n 0) k = 0.
Proof.
  intros Hb. unfold part. assert (default 0 (replicate n 0 !! Z.to_nat (k * b / 8)) = 0) as ->.
  { destruct (_ !! _) eqn:E; [|done]. by apply lookup_replicate in E as [-> _]. }
  by rewrite Z.shiftr_0_l, Z.land_0_l.
Qed.

(** The packed numbers determine the bytes. *)
Lemma parts_ext b raw1 raw2 :
  width_ok b -> length raw1 = length raw2 -> is_bytes raw1 -> is_bytes raw2 ->
  (forall k, 0 <= k -> k * b < 8 * zlen raw1 -> part b raw1 k = part b raw2 k) ->
  raw1 = raw2.
Proof.
  intros Hb Hl B1 B2 Hp. apply list_eq_same_length with (length raw1); [done|done|].
  intros i x y Hi Hx Hy. apply testbit_ext. intros t Ht.
  destruct (Z.lt_ge_cases t 8).
  - pose proof (f_equal (fun z => Z.testbit z (t mod b))
                 (Hp ((8 * Z.of_nat i + t) / b) ltac:(widths Hb; dlia)
                     ltac:(unfold zlen; widths Hb; dlia))) as E.
    cbv beta in E. rewrite !part_testbit in E by (done || (widths Hb; dlia)).
    replace (Z.to_nat (((8 * Z.of_nat i + t) / b) * b / 8)) with i in E
      by (widths Hb; dlia).
    rewrite Hx, Hy in E. simpl in E.
    rewrite (proj2 (Z.ltb_lt (t mod b) b)) in E by (widths Hb; dlia).
    replace (t mod b + ((8 * Z.of_nat i + t) / b) * b mod 8) with t in E
      by (widths Hb; dlia).
    exact E.
  - pose proof (Forall_lookup_1 _ _ _ _ B1 Hx). pose proof (Forall_lookup_1 _ _ _ _ B2 Hy).
    by rewrite (uint_testbit_high 8 x), (uint_testbit_high 8 y).
Qed.

(** Packing a list of numbers into a fresh array, and reading it back. *)
Definition encodeAll (bits : Z) (vs : list Z) : go (list Z) :=
  a ← NewBitArray bits (zlen vs);
  w ← Writer a (replicate (Z.to_nat (Size a)) 0);
  w' ← pushAll w vs;
  Ret (wraw w').

Definition decodeAll (bits n : Z) (raw : list Z) : go (list Z) :=
  a ← NewBitArray bits n;
  r ← Reader a raw;
  '(vs, _) ← popN (Z.to_nat n) r;
  Ret vs.

Lemma NewBitArray_ok b n :
  width_ok b -> NewBitArray b n = Ret (MkBitArray b n 0 (calcSize b n)).
Proof. intros Hb. by widths Hb. Qed.

(** The writer of a fresh array of [n] numbers. *)
Definition fresh (b n : Z) : BitArrayWriter :=
  MkWriter (MkBitArray b n 0 (calcSize b n)) (replicate (Z.to_nat (calcSize b n)) 0).

Lemma Writer_fresh b n :
  width_ok b -> 0 <= n < 2 ^ 56 ->
  Writer (MkBitArray b n 0 (calcSize b n)) (replicate (Z.to_nat (calcSize b n)) 0) =
  Ret (fresh b n).
Proof.
  intros Hb Hn. unfold Writer, fresh. simpl. rewrite zlen_replicate, Z2Nat.id, Z.eqb_refl; [done|].
  rewrite calcSize_eq by done. widths Hb; dlia.
Qed.

Lemma encodeAll_fresh b vs :
  width_ok b -> zlen vs < 2 ^ 56 ->
  encodeAll b vs = (w ← pushAll (fresh b (zlen vs)) vs; Ret (wraw w)).
Proof.
  intros Hb Hn. pose proof (zlen_nonneg vs). unfold encodeAll, Size.
  rewrite NewBitArray_ok by done. simpl. by rewrite Writer_fresh.
Qed.

(** What the bytes of a packed list hold. *)
Lemma encodeAll_spec b vs :
  width_ok b -> zlen vs < 2 ^ 56 -> Forall (is_uint b) vs ->
  exists raw, encodeAll b vs = Ret raw /\ zlen raw = (b * zlen vs + 7) / 8 /\ is_bytes raw /\
    (forall i v, vs !! i = Some v -> part b raw (Z.of_nat i) = v) /\
    (forall j, zlen vs <= j -> part b raw j = 0).
Proof.
  intros Hb Hn Hvs. pose proof (zlen_nonneg vs) as H0. rewrite encodeAll_fresh by done.
  assert (Hsz : Z.of_nat (Z.to_nat (calcSize b (zlen vs))) = (b * zlen vs + 7) / 8)
    by (rewrite calcSize_eq by done; widths Hb; dlia).
  destruct (pushAll_spec b vs (fresh b (zlen vs)) 0) as (raw & E & L & B & P & O); simpl;
    [done|unfold at_pos; simpl; lia|lia
    |rewrite zlen_replicate, Hsz; widths Hb; dlia|done|by apply Forall_replicate
    |intros; by apply part_replicate_0|].
  exists raw. rewrite E. simpl in *. rewrite length_replicate in L. split_and!; [done| |done|done|].
  - unfold zlen at 1. rewrite L. done.
  - intros j Hj. rewrite O by lia. by apply part_replicate_0.
Qed.

(** Bytes that hold exactly these numbers are the packed list. *)
Lemma encodeAll_unique b vs h :
  width_ok b -> zlen vs < 2 ^ 56 -> Forall (is_uint b) vs -> is_bytes h ->
  zlen h = (b * zlen vs + 7) / 8 ->
  (forall i v, vs !! i = Some v -> part b h (Z.of_nat i) = v) ->
  (forall j, zlen vs <= j -> j * b < 8 * zlen h -> part b h j = 0) ->
  encodeAll b vs = Ret h.
Proof.
  intros Hb Hn Hvs Hh Hl Hp Hz.
  destruct (encodeAll_spec b vs Hb Hn Hvs) as (raw & E & Lr & Br & Pr & Or).
  rewrite E. f_equal. apply (parts_ext b); try done; [unfold zlen in *; lia|].
  intros k Hk Hk2. destruct (Z.lt_ge_cases k (zlen vs)) as [Hlt|Hge].
  - destruct (lookup_lt_is_Some_2 vs (Z.to_nat k)) as [v Hv]; [unfold zlen in *; lia|].
    specialize (Hp _ _ Hv). specialize (Pr _ _ Hv). rewrite Z2Nat.id in Hp, Pr by done. congruence.
  - rewrite Or by done. symmetry. apply Hz; [done|]. by rewrite Hl, <- Lr.
Qed.

(** On every list of numbers that fit in the chosen width (1, 2 or 4 bits),
    pushing them all into a fresh [BitArray] neither panics nor loses a bit:
    the bytes have the size [calcSize] announces and popping the same count
    from them gives the list back. *)
Theorem bitarray_roundtrip b vs :
  width_ok b -> zlen vs < 2 ^ 56 -> Forall (is_uint b) vs ->
  exists raw, encodeAll b vs = Ret raw /\ zlen raw = calcSize b (zlen vs) /\
              decodeAll b (zlen vs) raw = Ret vs.
Proof.
  intros Hb Hn Hvs. pose proof (zlen_nonneg vs) as H0.
  destruct (encodeAll_spec b vs Hb Hn Hvs) as (raw & E & Hraw & _ & P & _).
  exists raw. rewrite calcSize_eq by done. split_and!; [done|done|].
  unfold decodeAll. rewrite NewBitArray_ok by done. simpl.
  unfold Reader. simpl. rewrite Hraw, calcSize_eq, Z.eqb_refl by done. simpl.
  rewrite (popN_spec b _ _ 0); simpl;
    [|done|unfold at_pos; simpl; lia|lia|rewrite Hraw; widths Hb; dlia].
  f_equal. rewrite Z2Nat.id by done. apply list_eq. intros i.
  rewrite list_lookup_fmap. destruct (vs !! i) as [v|] eqn:Hv.
  - assert (Z.of_nat i < zlen vs) by (apply lookup_lt_Some in Hv; unfold zlen; lia).
    rewrite lookup_seqZ_lt by done. simpl. f_equal. by apply P.
  - apply lookup_ge_None in Hv. rewrite lookup_seqZ_ge by (unfold zlen; lia). done.
Qed.

(** The seven sizes and flags of an event header. *)
Lemma bitarray_roundtrip_witness :
  exists raw, encodeAll 2 [3; 0; 2; 1; 3; 0; 1] = Ret raw /\
    zlen raw = calcSize 2 7 /\ decodeAll 2 7 raw = Ret [3; 0; 2; 1; 3; 0; 1].
Proof.
  apply (bitarray_roundtrip 2 [3; 0; 2; 1; 3; 0; 1]).
  - unfold width_ok. lia.
  - vm_compute. reflexivity.
  - repeat constructor; unfold is_uint; lia.
Defined.

End Bits.

Module Buffer.

(** [buf] is the wrapped slice; writes go through to its backing array. *)
Record Buffer := MkBuffer { buf : slice; offset : Z }.

Definition NewBuffer (bb : slice) : Buffer := MkBuffer bb 0.

Definition WriteByte (b : Buffer) (v : Z) : go Buffer :=
  data ← go_update (vis (buf b)) (offset b) v;
  Ret (MkBuffer (Slice data (spare (buf b))) (i64 (offset b + 1))).

(** [copy(dst[off:], v)] copies the shorter of the two lengths. *)
Definition Write (b : Buffer) (v : list Z) : go Buffer :=
  rest ← slice_from (buf b) (offset b);
  let n := Z.min (slice_len rest) (zlen v) in
  let data := take (Z.to_nat (offset b)) (vis (buf b)) ++
              take (Z.to_nat n) v ++
              drop (Z.to_nat (offset b + n)) (vis (buf b)) in
  let b := MkBuffer (Slice data (spare (buf b))) (i64 (offset b + n)) in
  if negb (n =? zlen v) then Panics (PanicMsg "buffer overflow") else Ret b.

(** The bytes read, as the shown part of the sub-slice, and the moved cursor. *)
Definition Read (b : Buffer) (n : Z) : go (list Z * Buffer) :=
  res ← slice_range (buf b) (offset b) (i64 (offset b + n));
  Ret (vis res, MkBuffer (buf b) (i64 (offset b + n))).

Definition Position (b : Buffer) : Z := offset b.

(** ** The buffer as a zipper: [pre] is behind the cursor, [rest] ahead. *)
Definition cur (pre rest sp : list Z) : Buffer :=
  MkBuffer (Slice (pre ++ rest) sp) (zlen pre).

(** Lengths a Go program can have ([int] is 64 bits wide). *)
Definition fits {A} (l : list A) : Prop := zlen l < 2 ^ 62.

Lemma NewBuffer_cur data sp : NewBuffer (Slice data sp) = cur [] data sp.
Proof. reflexivity. Qed.

Lemma WriteByte_cur pre x rest sp v :
  fits (pre ++ x :: rest) ->
  WriteByte (cur pre (x :: rest) sp) v = Ret (cur (pre ++ [v]) rest sp).
Proof.
  unfold fits, WriteByte, cur, go_update. autorewrite with opera. intros Hf.
  pose proof (zlen_nonneg pre). pose proof (zlen_nonneg rest).
  rewrite bool_decide_true by (simpl; autorewrite with opera; lia). simpl.
  rewrite i64_id by lia. do 2 f_equal.
  f_equal. unfold zlen. rewrite Nat2Z.id, <- app_assoc. simpl.
  by rewrite insert_app_r_alt, Nat.sub_diag by lia.
Qed.

Lemma Write_cur pre rest sp v :
  fits (pre ++ rest) -> (length v <= length rest)%nat ->
  Write (cur pre rest sp) v = Ret (cur (pre ++ v) (drop (length v) rest) sp).
Proof.
  unfold fits, Write, cur, slice_from, slice_len. autorewrite with opera. intros Hf Hv.
  pose proof (zlen_nonneg pre). pose proof (zlen_nonneg rest).
  rewrite bool_decide_true by (simpl; autorewrite with opera; lia). simpl.
  unfold zlen in *. rewrite !Nat2Z.id, drop_app_length, take_app_length.
  rewrite Z.min_r by lia. rewrite Z.eqb_refl, Nat2Z.id, firstn_all. simpl.
  rewrite i64_id, <- app_assoc by lia. do 2 f_equal.
  do 3 f_equal. rewrite drop_app_ge by lia. f_equal. lia.
Qed.

Lemma Read_cur pre rest sp n :
  fits (pre ++ rest) -> (n <= length rest)%nat ->
  Read (cur pre rest sp) (Z.of_nat n) =
    Ret (take n rest, cur (pre ++ take n rest) (drop n rest) sp).
Proof.
  unfold fits, Read, cur, slice_range, slice_cap. autorewrite with opera. intros Hf Hn.
  pose proof (zlen_nonneg pre). pose proof (zlen_nonneg rest). pose proof (zlen_nonneg sp).
  unfold zlen in *. simpl. rewrite i64_id by lia.
  rewrite bool_decide_true by (rewrite !length_app; lia). simpl.
  f_equal. f_equal.
  - rewrite Nat2Z.id, <- app_assoc, drop_app_length.
    replace (Z.to_nat _) with n by lia. by rewrite take_app_le by lia.
  - f_equal; [|rewrite length_take; lia].
    f_equal. by rewrite <- app_assoc, take_drop.
Qed.

(** What a successful read consumed, without assuming that the bytes were in
    the shown part of the slice. *)
Lemma Read_inv b n bs b' :
  0 <= offset b < 2 ^ 62 -> 0 <= n < 2 ^ 62 -> Read b n = Ret (bs, b') ->
  buf b' = buf b /\ offset b' = offset b + n /\ offset b + n <= slice_cap (buf b) /\
  bs = take (Z.to_nat n) (drop (Z.to_nat (offset b)) (vis (buf b) ++ spare (buf b))).
Proof.
  intros Ho Hn. unfold Read, slice_range. rewrite i64_id by lia. case_test; [|done].
  simpl. intros [= <- <-]. simpl. split_and!; [done|done|lia|].
  do 2 f_equal. lia.
Qed.

End Buffer.
