(* ===== verification/Sha256.v ===== *)
(** * crypto/sha256, as the sources use it

    [src/inter/event.go] hashes the signed part of an encoded event and
    [src/miniopera/genesis/validators.go] the validator group with Go's
    [crypto/sha256].  This file is that standard-library function on byte
    lists (FIPS 180-4), executable, with the facts the development needs: the
    digest is 32 bytes. *)

From Stdlib Require Import ZArith Lia Bool.
From stdpp Require Import base list numbers.
From S2P Require Import Prelude.
Local Open Scope Z_scope.

Module Sha256.

(** The constants of the standard, by their definition: the first 32 bits of
    the fractional parts of the cube roots of the first 64 primes, and of the
    square roots of the first eight. *)
Definition is_prime (n : nat) : bool :=
  forallb (fun d => negb (Nat.eqb (n mod d) 0)) (seq 2 (n - 2)).

Definition primes : list Z := Eval vm_compute in
  Z.of_nat <$> List.filter is_prime (seq 2 310).

(** The greatest [r < base + 2 ^ n] with [r ^ 3 <= x], bit by bit. *)
Fixpoint cbrt (n : nat) (r x : Z) : Z :=
  match n with
  | O => r
  | S n' =>
      let r' := r + 2 ^ Z.of_nat n' in
      cbrt n' (if r' ^ 3 <=? x then r' else r) x
  end.

Definition round_constants : list Z := Eval vm_compute in
  (fun p => u32 (cbrt 40 0 (p * 2 ^ 96))) <$> primes.

Definition init_words : list Z := Eval vm_compute in
  (fun p => u32 (Z.sqrt (p * 2 ^ 64))) <$> take 8 primes.

(** The eight working words. *)
Record words := Words { wa : Z; wb : Z; wc : Z; wd : Z; we : Z; wf : Z; wg : Z; wh : Z }.

Definition init : words := Eval vm_compute in
  let w i := nth i init_words 0 in Words (w 0%nat) (w 1%nat) (w 2%nat) (w 3%nat) (w 4%nat) (w 5%nat) (w 6%nat) (w 7%nat).

Definition rotr (n x : Z) : Z := Z.lor (Z.shiftr x n) (u32 (Z.shiftl x (32 - n))).
Definition bsig0 x := Z.lxor (Z.lxor (rotr 2 x) (rotr 13 x)) (rotr 22 x).
Definition bsig1 x := Z.lxor (Z.lxor (rotr 6 x) (rotr 11 x)) (rotr 25 x).
Definition ssig0 x := Z.lxor (Z.lxor (rotr 7 x) (rotr 18 x)) (Z.shiftr x 3).
Definition ssig1 x := Z.lxor (Z.lxor (rotr 17 x) (rotr 19 x)) (Z.shiftr x 10).
Definition ch x y z := Z.lxor (Z.land x y) (Z.land (Z.lxor x (2 ^ 32 - 1)) z).
Definition maj x y z := Z.lxor (Z.lxor (Z.land x y) (Z.land x z)) (Z.land y z).

(** One round. *)
Definition step (s : words) (kw : Z * Z) : words :=
  let '(k, w) := kw in
  let t1 := u32 (wh s + bsig1 (we s) + ch (we s) (wf s) (wg s) + k + w) in
  let t2 := u32 (bsig0 (wa s) + maj (wa s) (wb s) (wc s)) in
  Words (u32 (t1 + t2)) (wa s) (wb s) (wc s) (u32 (wd s + t1)) (we s) (wf s) (wg s).

(** Message schedule, newest word first. *)
Fixpoint expand (n : nat) (w : list Z) : list Z :=
  match n with
  | O => w
  | S n' =>
      expand n' (u32 (ssig1 (nth 1 w 0) + nth 6 w 0 + ssig0 (nth 14 w 0) + nth 15 w 0) :: w)
  end.

Definition be32 (x : Z) : list Z :=
  [u8 (Z.shiftr x 24); u8 (Z.shiftr x 16); u8 (Z.shiftr x 8); u8 x].

Fixpoint be_words (n : nat) (bs : list Z) : list Z :=
  match n, bs with
  | S n', a :: b :: c :: d :: bs' =>
      (a * 2 ^ 24 + b * 2 ^ 16 + c * 2 ^ 8 + d) :: be_words n' bs'
  | _, _ => []
  end.

Definition add_words (s t : words) : words :=
  Words (u32 (wa s + wa t)) (u32 (wb s + wb t)) (u32 (wc s + wc t)) (u32 (wd s + wd t))
        (u32 (we s + we t)) (u32 (wf s + wf t)) (u32 (wg s + wg t)) (u32 (wh s + wh t)).

Definition compress (s : words) (block : list Z) : words :=
  let w := rev (expand 48 (rev (be_words 16 block))) in
  add_words s (foldl step s (zip round_constants w)).

(** Padding to whole 64-byte blocks. *)
Definition pad (m : list Z) : list Z :=
  let l := zlen m in
  m ++ [0x80] ++ replicate (Z.to_nat ((55 - l) mod 64)) 0 ++
  be32 (Z.shiftr (u64 (8 * l)) 32) ++ be32 (u32 (8 * l)).

Fixpoint blocks (n : nat) (s : words) (m : list Z) : words :=
  match n with
  | O => s
  | S n' => blocks n' (compress s (take 64 m)) (drop 64 m)
  end.

Definition digest_bytes (s : words) : list Z :=
  be32 (wa s) ++ be32 (wb s) ++ be32 (wc s) ++ be32 (wd s) ++
  be32 (we s) ++ be32 (wf s) ++ be32 (wg s) ++ be32 (wh s).

(** [sha256.New(); Write(m); Sum(nil)]. *)
Definition sum256 (m : list Z) : list Z :=
  let p := pad m in
  digest_bytes (blocks (length p / 64) init p).

(** The digest of "abc" from the standard. *)
Example sum256_abc :
  sum256 [97; 98; 99] =
  [0xba; 0x78; 0x16; 0xbf; 0x8f; 0x01; 0xcf; 0xea; 0x41; 0x41; 0x40; 0xde; 0x5d; 0xae; 0x22; 0x23;
   0xb0; 0x03; 0x61; 0xa3; 0x96; 0x17; 0x7a; 0x9c; 0xb4; 0x10; 0xff; 0x61; 0xf2; 0x00; 0x15; 0xad].
Proof. vm_compute. reflexivity. Qed.

Lemma length_sum256 m : length (sum256 m) = 32%nat.
Proof. reflexivity. Qed.

Lemma sum256_bytes m : is_bytes (sum256 m).
Proof.
  unfold sum256, digest_bytes, be32. generalize (blocks (length (pad m) / 64) init (pad m)).
  intros s. repeat constructor; apply u8_uint.
Qed.

End Sha256.

#[export] Hint Resolve Sha256.sum256_bytes : opera.
