(* ===== verification/Event.v ===== *)
(** * inter: events, signatures, timestamps, blocks

    Models the data of [src/inter/event.go], [signature.go], [time.go] and
    [block.go]: the immutable [Event] and the [MutableEvent] it is built from,
    with the two caches an event carries ([_size] and [_hashToSign]).

    The base event, its identifier type and the index types come from the
    lachesis-base package.  The index types are [uint32] (the serializer casts
    pointers to them), identifiers are 32-byte arrays ([parents[i][:4]],
    [parents[i][4:]], [eventIDSize = 32]), and the functions the package
    provides are the parameters of the class [LachesisBase]. *)

From Stdlib Require Import ZArith Lia Bool.
From stdpp Require Import base list numbers option strings.
From S2P Require Import Prelude Sha256.
Local Open Scope Z_scope.

(** The functions of lachesis-base that the event code calls. *)
Class LachesisBase := {
  epoch_bytes : Z -> list Z;             (** [idx.Epoch.Bytes] *)
  lamport_bytes : Z -> list Z;           (** [idx.Lamport.Bytes] *)
  base_id : Z -> Z -> list Z -> list Z   (** the id [MutableBaseEvent.SetID] stores,
                                             from epoch, Lamport time and 24 bytes *)
}.

(** What the sources rely on: the byte forms of the indexes are 4 bytes long
    ([epochSize = 4] in store_pack.go) and faithful, and an id is laid out as
    epoch, Lamport time, hash ([FindEventHashes] searches by that prefix). *)
Class LachesisBaseLaws (LB : LachesisBase) : Prop := {
  epoch_bytes_length : forall e, length (epoch_bytes e) = 4%nat;
  epoch_bytes_bytes : forall e, is_bytes (epoch_bytes e);
  epoch_bytes_inj : forall e1 e2,
    is_uint 32 e1 -> is_uint 32 e2 -> epoch_bytes e1 = epoch_bytes e2 -> e1 = e2;
  lamport_bytes_length : forall l, length (lamport_bytes l) = 4%nat;
  lamport_bytes_bytes : forall l, is_bytes (lamport_bytes l);
  base_id_layout : forall e l r, base_id e l r = epoch_bytes e ++ lamport_bytes l ++ r
}.

(** An instance: big-endian indexes, used to evaluate the model on concrete
    inputs and to show that the laws can hold together. *)
Definition lachesis_be : LachesisBase := {|
  epoch_bytes := Sha256.be32;
  lamport_bytes := Sha256.be32;
  base_id e l r := Sha256.be32 e ++ Sha256.be32 l ++ r
|}.

Lemma be32_inj x y : is_uint 32 x -> is_uint 32 y -> Sha256.be32 x = Sha256.be32 y -> x = y.
Proof.
  unfold Sha256.be32, u8, is_uint. rewrite !Z.shiftr_div_pow2 by lia.
  intros Hx Hy [= E1 E2 E3 E4]. dlia.
Qed.

Lemma lachesis_be_laws : LachesisBaseLaws lachesis_be.
Proof.
  split; try done; try (intros; repeat constructor; apply u8_uint). apply be32_inj.
Qed.

Module Event.

Definition SigSize : Z := 64.

(** [hash.Event], [hash.Hash] and [Signature] are byte arrays. *)
Abbreviation EventID := (list Z) (only parsing).
Abbreviation Hash := (list Z) (only parsing).
Abbreviation Signature := (list Z) (only parsing).

Record BaseEvent := MkBase {
  epoch : Z; seq : Z; frame : Z; isRoot : bool; creator : Z;
  parents : list EventID; lamport : Z; id : EventID; rawTime : Z
}.

Record extEvent := MkExt {
  version : Z;
  payload : list Z;
  sig : Signature;
  _size : Z;
  _hashToSign : option Hash
}.

Record Event := MkEvent { base : BaseEvent; ext : extEvent }.
Record MutableEvent := MkMutable { mbase : BaseEvent; mext : extEvent }.

(** The zero value [MutableEvent{}]. *)
Definition zero_base : BaseEvent := MkBase 0 0 0 false 0 [] 0 (replicate 32 0) 0.
Definition zero_ext : extEvent := MkExt 0 [] (replicate 64 0) 0 None.
Definition MutableEvent_zero : MutableEvent := MkMutable zero_base zero_ext.

(** ** Accessors of [MutableEvent] *)

Definition set_base (f : BaseEvent -> BaseEvent) (e : MutableEvent) : MutableEvent :=
  MkMutable (f (mbase e)) (mext e).
Definition set_ext (f : extEvent -> extEvent) (e : MutableEvent) : MutableEvent :=
  MkMutable (mbase e) (f (mext e)).

Definition SetEpoch (e : MutableEvent) v := set_base (fun b =>
  MkBase v (seq b) (frame b) (isRoot b) (creator b) (parents b) (lamport b) (id b) (rawTime b)) e.
Definition SetSeq (e : MutableEvent) v := set_base (fun b =>
  MkBase (epoch b) v (frame b) (isRoot b) (creator b) (parents b) (lamport b) (id b) (rawTime b)) e.
Definition SetFrame (e : MutableEvent) v := set_base (fun b =>
  MkBase (epoch b) (seq b) v (isRoot b) (creator b) (parents b) (lamport b) (id b) (rawTime b)) e.
Definition SetIsRoot (e : MutableEvent) v := set_base (fun b =>
  MkBase (epoch b) (seq b) (frame b) v (creator b) (parents b) (lamport b) (id b) (rawTime b)) e.
Definition SetCreator (e : MutableEvent) v := set_base (fun b =>
  MkBase (epoch b) (seq b) (frame b) (isRoot b) v (parents b) (lamport b) (id b) (rawTime b)) e.
Definition SetParents (e : MutableEvent) v := set_base (fun b =>
  MkBase (epoch b) (seq b) (frame b) (isRoot b) (creator b) v (lamport b) (id b) (rawTime b)) e.
Definition SetLamport (e : MutableEvent) v := set_base (fun b =>
  MkBase (epoch b) (seq b) (frame b) (isRoot b) (creator b) (parents b) v (id b) (rawTime b)) e.
Definition SetRawTime (e : MutableEvent) v := set_base (fun b =>
  MkBase (epoch b) (seq b) (frame b) (isRoot b) (creator b) (parents b) (lamport b) (id b) v) e.

Definition SetVersion (e : MutableEvent) v := set_ext (fun x =>
  MkExt v (payload x) (sig x) (_size x) (_hashToSign x)) e.
Definition SetPayload (e : MutableEvent) v := set_ext (fun x =>
  MkExt (version x) v (sig x) (_size x) (_hashToSign x)) e.
Definition SetSig (e : MutableEvent) v := set_ext (fun x =>
  MkExt (version x) (payload x) v (_size x) (_hashToSign x)) e.

(** [SetID] stores the id that lachesis-base derives from the 24 hash bytes. *)
Definition SetID `{LachesisBase} (e : MutableEvent) (rID : list Z) := set_base (fun b =>
  MkBase (epoch b) (seq b) (frame b) (isRoot b) (creator b) (parents b) (lamport b)
         (base_id (epoch b) (lamport b) rID) (rawTime b)) e.

(** ** signature.go *)

Definition BytesToSignature (b : list Z) : go Signature :=
  if negb (zlen b =? SigSize) then Panics (PanicMsg "invalid signature length") else Ret b.

(** ** Hashing and caches (event.go) *)

(** [b[:len(b)-SigSize]] panics on a short slice; [BytesToHash] keeps the 32
    bytes of the digest. *)
Definition eventHashToSign (b : list Z) : go Hash :=
  s ← slice_range (Slice b []) 0 (zlen b - SigSize);
  Ret (Sha256.sum256 (vis s)).

(** [copy(id[:], hashToSign[:24])]. *)
Definition calcEventID (hashToSign : Hash) : list Z := take 24 hashToSign.

Definition MutableFrom (e : Event) : MutableEvent := MkMutable (base e) (ext e).

Definition immutable (e : MutableEvent) : Event := MkEvent (mbase e) (mext e).

(** [_size] is set before the hash is computed; a panic in between keeps it. *)
Definition fillCaches (e : MutableEvent) (b : list Z) : MutableEvent * go unit :=
  let e := set_ext (fun x => MkExt (version x) (payload x) (sig x) (zlen b) (_hashToSign x)) e in
  match eventHashToSign b with
  | Ret h =>
      (set_ext (fun x => MkExt (version x) (payload x) (sig x) (_size x) (Some h)) e, Ret tt)
  | Err x => (e, Err x)
  | Panics x => (e, Panics x)
  | Exits x => (e, Exits x)
  end.

(** [Event.HashToSign] dereferences the cache, [Event.Size] reads it. *)
Definition HashToSign (e : Event) : go Hash :=
  match _hashToSign (ext e) with
  | Some h => Ret h
  | None => Panics NilDeref
  end.

Definition Size (e : Event) : Z := _size (ext e).

(** ** time.go: nanosecond timestamps, [uint64] *)

Definition second : Z := 1000000000.

Definition CreationTime (e : Event) : Z := rawTime (base e).
Definition MutableCreationTime (e : MutableEvent) : Z := rawTime (mbase e).

Definition FromUnix (t : Z) : Z := u64 (i64 (t * second)).

(** Go's integer division truncates. *)
Definition Unix (t : Z) : Z := Z.quot (i64 t) second.

(** [time.Unix(sec, nsec)] as the nanoseconds it denotes. *)
Definition Time (t : Z) : Z := Z.quot (i64 t) second * second + Z.rem (i64 t) second.

Definition MaxTimestamp (x y : Z) : Z := if x >? y then x else y.

(** ** block.go *)

Record Block := MkBlock { blk_time : Z; atropos : EventID; blk_events : list EventID }.

(** ** Well-formedness: the values the Go types can hold *)

Definition id_ok (i : EventID) : Prop := length i = 32%nat /\ is_bytes i.

#[export] Instance id_ok_dec i : Decision (id_ok i).
Proof. unfold id_ok. apply _. Defined.

Record fields_ok (b : BaseEvent) (x : extEvent) : Prop := {
  ok_epoch : is_uint 32 (epoch b);
  ok_seq : is_uint 32 (seq b);
  ok_frame : is_uint 32 (frame b);
  ok_creator : is_uint 32 (creator b);
  ok_lamport : is_uint 32 (lamport b);
  ok_rawTime : is_uint 64 (rawTime b);
  ok_version : is_uint 8 (version x);
  ok_parents : Forall id_ok (parents b);
  ok_payload : is_bytes (payload x);
  ok_sig : length (sig x) = 64%nat /\ is_bytes (sig x)
}.

(** Every parent is an event of the same epoch: its id starts with the epoch's
    bytes.  The encoding drops that prefix. *)
Definition parents_in_epoch `{LachesisBase} (b : BaseEvent) : Prop :=
  Forall (fun p => take 4 p = epoch_bytes (epoch b)) (parents b).

(** Sizes that a Go program can have: they keep [int] and [uint32] counters
    from wrapping. *)
Definition sizes_ok (b : BaseEvent) (x : extEvent) : Prop :=
  zlen (parents b) < 2 ^ 32 /\ zlen (payload x) < 2 ^ 60.

(** ** Facts *)

Lemma eventHashToSign_app m s :
  zlen s = SigSize -> eventHashToSign (m ++ s) = Ret (Sha256.sum256 m).
Proof.
  unfold SigSize. intros Hs. pose proof (zlen_nonneg m).
  unfold eventHashToSign, slice_range, slice_cap, SigSize.
  autorewrite with opera. simpl. rewrite app_nil_r. autorewrite with opera.
  rewrite bool_decide_true by lia. simpl. do 2 f_equal.
  rewrite Hs. replace (Z.to_nat _) with (length m) by (unfold zlen; lia).
  apply take_app_length.
Qed.

Lemma eventHashToSign_long b :
  SigSize <= zlen b -> eventHashToSign b = Ret (Sha256.sum256 (take (length b - 64) b)).
Proof.
  unfold SigSize, zlen. intros H. rewrite <- (take_drop (length b - 64) b) at 1.
  apply eventHashToSign_app. unfold SigSize, zlen. rewrite length_drop. lia.
Qed.

Lemma eventHashToSign_short b : zlen b < SigSize -> eventHashToSign b = Panics SliceBounds.
Proof.
  intros H. unfold eventHashToSign, slice_range. rewrite bool_decide_false; [done|lia].
Qed.

Lemma calcEventID_length h : length h = 32%nat -> length (calcEventID h) = 24%nat.
Proof. intros H. unfold calcEventID. rewrite length_take. lia. Qed.

(** Timestamps inside the range of [int64] are the nanoseconds they denote, and
    whole seconds survive the round trip. *)
Lemma Time_nanoseconds t : 0 <= t < 2 ^ 63 -> Time t = t.
Proof.
  intros H. unfold Time. rewrite i64_id by lia.
  pose proof (Z.quot_rem' t second). lia.
Qed.

Lemma Unix_FromUnix s : 0 <= s < 9223372036 -> Unix (FromUnix s) = s.
Proof.
  intros H. unfold Unix, FromUnix, second. rewrite (i64_id (s * _)) by lia.
  rewrite u64_id by (unfold is_uint; lia). rewrite i64_id by lia.
  apply Z.quot_mul. lia.
Qed.

Lemma MaxTimestamp_max x y : MaxTimestamp x y = Z.max x y.
Proof. unfold MaxTimestamp. rewrite Z.gtb_ltb. destruct (Z.ltb_spec y x); lia. Qed.

End Event.
