(* ===== verification/Serializer.v ===== *)
(** * inter/event_serializer.go: the binary form of an event

    Layout: one byte with two 4-bit numbers (version, size of the time field
    minus one), two bytes with seven 2-bit numbers (sizes of the six [uint32]
    fields minus one, and the root flag), the fields in minimal little-endian
    form, the parents without their epoch prefix, the payload, the signature.

    [MarshalBinary] is the encoder, [UnmarshalBinary] the decoder with its
    deferred recover.  The theorems give the two round trips, the size of an
    encoding, totality, and where the decoder accepts more than the encoder
    produces. *)

From Stdlib Require Import ZArith Lia Bool.
From stdpp Require Import base list numbers option strings.
From S2P Require Import Prelude Sha256 Fast Event.
Import Event.
Local Open Scope Z_scope.

Module Serializer.

Definition ErrNonCanonicalEncoding : error := Error "non canonical event encoding".
Definition ErrInvalidEncoding : error := Error "invalid encoded event".

(** ** Encoding *)

(** [for i := 0; i < size; i++ { ... if v == 0 { break } }]: [fuel] counts the
    iterations left, so the loop ends after [size] of them. *)
Fixpoint writeUintCompact_loop (fuel : nat) (buf : Buffer.Buffer) (v bytes : Z)
  : go (Buffer.Buffer * Z) :=
  match fuel with
  | O => Ret (buf, bytes)
  | S fuel' =>
      buf ← Buffer.WriteByte buf (u8 v);
      let bytes := bytes + 1 in
      let v := Z.shiftr v 8 in
      if v =? 0 then Ret (buf, bytes) else writeUintCompact_loop fuel' buf v bytes
  end.

Definition writeUintCompact (buf : Buffer.Buffer) (v size : Z) : go (Buffer.Buffer * Z) :=
  writeUintCompact_loop (Z.to_nat size) buf v 0.

(** The body of the loops over [fields64] and [fields32]. *)
Definition writeField (size : Z) (st : Buffer.Buffer * Bits.BitArrayWriter) (i : Z)
  : go (Buffer.Buffer * Bits.BitArrayWriter) :=
  let '(buf, header) := st in
  '(buf, n) ← writeUintCompact buf i size;
  header ← Bits.Push header (n - 1);
  Ret (buf, header).

Definition writeBool (header : Bits.BitArrayWriter) (f : bool) : go Bits.BitArrayWriter :=
  if f then Bits.Push header 1 else Bits.Push header 0.

(** [buf.Write(p.Bytes()[4:])]. *)
Definition writeParent (buf : Buffer.Buffer) (p : EventID) : go Buffer.Buffer :=
  s ← slice_from (Slice p []) 4;
  Buffer.Write buf (vis s).

Definition fields64_of (e : Event) : list Z := [u64 (rawTime (base e))].

Definition fields32_of (e : Event) : list Z :=
  [u32 (epoch (base e)); u32 (seq (base e)); u32 (frame (base e));
   u32 (creator (base e)); u32 (lamport (base e)); u32 (zlen (parents (base e)))].

(** The three sub-slices of [raw] (both headers and the buffer) are disjoint,
    so each is carried by its writer and [raw] is put together at the end. *)
Definition MarshalBinary (e : Event) : go (list Z) :=
  let fields64 := fields64_of e in
  let fields32 := fields32_of e in
  let fieldsBool := [isRoot (base e)] in
  header3 ← Bits.NewBitArray 4 (1 + zlen fields64);
  header2 ← Bits.NewBitArray 2 (zlen fields32 + zlen fieldsBool);
  let maxBytes := Bits.Size header3 + Bits.Size header2 + zlen fields64 * 8 +
                  zlen fields32 * 4 + zlen (parents (base e)) * (32 - 4) +
                  zlen (sig (ext e)) + zlen (payload (ext e)) in
  let raw := Slice (replicate (Z.to_nat maxBytes) 0) [] in
  let offset := 0 in
  raw3 ← slice_range raw offset (offset + Bits.Size header3);
  header3w ← Bits.Writer header3 (vis raw3);
  let offset := offset + Bits.Size header3 in
  raw2 ← slice_range raw offset (offset + Bits.Size header2);
  header2w ← Bits.Writer header2 (vis raw2);
  let offset := offset + Bits.Size header2 in
  rawb ← slice_from raw offset;
  let buf := Buffer.NewBuffer rawb in
  header3w ← Bits.Push header3w (version (ext e));
  '(buf, header3w) ← go_range (writeField 8) (buf, header3w) fields64;
  '(buf, header2w) ← go_range (writeField 4) (buf, header2w) fields32;
  header2w ← go_range writeBool header2w fieldsBool;
  buf ← go_range writeParent buf (parents (base e));
  buf ← Buffer.Write buf (payload (ext e));
  buf ← Buffer.Write buf (sig (ext e));
  let length := Bits.Size header3 + Bits.Size header2 + Buffer.Position buf in
  out ← slice_range (Slice (Bits.wraw header3w ++ Bits.wraw header2w ++ vis (Buffer.buf buf)) [])
                    0 length;
  Ret (vis out).

(** ** Decoding *)

(** [for i, b := range bs { v += uint64(b) << uint(8*i); last = b }]. *)
Fixpoint readUint_loop (bs : list Z) (i v last : Z) : Z * Z :=
  match bs with
  | [] => (v, last)
  | b :: bs' => readUint_loop bs' (i + 1) (u64 (v + u64 (Z.shiftl b (8 * i)))) b
  end.

Definition readUintCompact (buf : Buffer.Buffer) (bytes : Z) : go (Z * Buffer.Buffer) :=
  '(bs, buf) ← Buffer.Read buf bytes;
  let '(v, last) := readUint_loop bs 0 0 0 in
  if (bytes >? 1) && (last =? 0) then Err ErrNonCanonicalEncoding else Ret (v, buf).

(** The loops over [fields64] and [fields32]: [k] fields, sizes from the header. *)
Fixpoint readFields (conv : Z -> Z) (k : nat) (header : Bits.BitArrayReader) (buf : Buffer.Buffer)
  : go (list Z * Bits.BitArrayReader * Buffer.Buffer) :=
  match k with
  | O => Ret ([], header, buf)
  | S k' =>
      '(n, header) ← Bits.Pop header;
      '(x, buf) ← readUintCompact buf (n + 1);
      '(xs, header, buf) ← readFields conv k' header buf;
      Ret (conv x :: xs, header, buf)
  end.

(** [copy(dst, src)] on an array part. *)
Definition copy_bytes (dst src : list Z) : list Z :=
  take (Nat.min (length dst) (length src)) src ++ drop (length src) dst.

(** The parents loop: [n] zeroed 32-byte ids, the first 4 bytes from the epoch
    and the other 28 from the buffer. *)
Fixpoint readParents `{LachesisBase} (ep : Z) (n : nat) (buf : Buffer.Buffer)
  : go (list EventID * Buffer.Buffer) :=
  match n with
  | O => Ret ([], buf)
  | S n' =>
      let head := copy_bytes (replicate 4 0) (epoch_bytes ep) in
      '(bs, buf) ← Buffer.Read buf (32 - 4);
      let tail := copy_bytes (replicate 28 0) bs in
      '(ps, buf) ← readParents ep n' buf;
      Ret ((head ++ tail) :: ps, buf)
  end.

(** The local variables that the setters at the end store into the event. *)
Record parsed := MkParsed {
  p_ver : Z; p_rawTime : Z; p_epoch : Z; p_seq : Z; p_frame : Z; p_creator : Z;
  p_lamport : Z; p_isRoot : bool; p_parents : list EventID; p_payload : list Z; p_sig : list Z
}.

(** The parents, the payload and the signature, behind the fields.  The slice of
    [make(hash.Events, parentsCount, parentsCount)] is the list that [readParents]
    fills; that it is allocated before the first parent is read is
    [parents_requested], below. *)
Definition unmarshal_tail `{LachesisBase} (raw : slice) (ver : Z) (f64 f32 : list Z) (isRoot : bool)
  (buf : Buffer.Buffer) : go parsed :=
  let epoch := nth 0 f32 0 in
  let parentsCount := nth 5 f32 0 in
  '(parents, buf) ← readParents epoch (Z.to_nat parentsCount) buf;
  if slice_len raw - Buffer.Position buf <? SigSize then Err (Error "malformed signature") else
  '(payload, buf) ← Buffer.Read buf (slice_len raw - Buffer.Position buf - SigSize);
  '(sig, buf) ← Buffer.Read buf SigSize;
  Ret (MkParsed ver (nth 0 f64 0) epoch (nth 1 f32 0) (nth 2 f32 0) (nth 3 f32 0) (nth 4 f32 0)
                isRoot parents payload sig).

(** From the cursor over the part behind the headers to the last field, and on
    with [k]. *)
Definition unmarshal_fields_then {A} (k : slice -> Z -> list Z -> list Z -> bool -> Buffer.Buffer -> go A)
  (header3r header2r : Bits.BitArrayReader) (raw : slice) : go A :=
  let buf := Buffer.NewBuffer raw in
  '(ver, header3r) ← Bits.Pop header3r;
  if negb (ver =? 0) then Err (Error "wrong version") else
  '(f64, header3r, buf) ← readFields (fun x => x) 1 header3r buf;
  '(f32, header2r, buf) ← readFields u32 6 header2r buf;
  '(n, header2r) ← Bits.Pop header2r;
  k raw ver f64 f32 (negb (n =? 0)) buf.

Definition unmarshal_fields `{LachesisBase} := unmarshal_fields_then unmarshal_tail.

(** The readers of the headers, and on with [k]. *)
Definition unmarshal_headers_then {A} (k : Bits.BitArrayReader -> Bits.BitArrayReader -> slice -> go A) (raw : slice) : go A :=
  header3 ← Bits.NewBitArray 4 (1 + 1);
  header2 ← Bits.NewBitArray 2 (6 + 1);
  let offset := 0 in
  s3 ← slice_range raw offset (offset + Bits.Size header3);
  header3r ← Bits.Reader header3 (vis s3);
  let offset := offset + Bits.Size header3 in
  s2 ← slice_range raw offset (offset + Bits.Size header2);
  header2r ← Bits.Reader header2 (vis s2);
  let offset := offset + Bits.Size header2 in
  raw ← slice_from raw offset;
  k header3r header2r raw.

Definition unmarshal_parse `{LachesisBase} : slice -> go parsed := unmarshal_headers_then unmarshal_fields.

(** How many ids, of 32 bytes each, the decoder allocates for the parents: what
    the message says, whatever its length. *)
Definition parents_requested : slice -> go Z :=
  unmarshal_headers_then (unmarshal_fields_then (fun _ _ _ f32 _ _ => Ret (nth 5 f32 0))).

(** The setters and the cache update; a panic part-way leaves the event as it
    is at that point. *)
Definition unmarshal_store (e : MutableEvent) (p : parsed) (origRaw : slice)
  : MutableEvent * go unit :=
  let e := SetVersion e (u8 (p_ver p)) in
  let e := SetRawTime e (p_rawTime p) in
  let e := SetEpoch e (p_epoch p) in
  let e := SetSeq e (p_seq p) in
  let e := SetFrame e (p_frame p) in
  let e := SetIsRoot e (p_isRoot p) in
  let e := SetCreator e (p_creator p) in
  let e := SetLamport e (p_lamport p) in
  let e := SetParents e (p_parents p) in
  let e := SetPayload e (p_payload p) in
  match BytesToSignature (p_sig p) with
  | Ret s => fillCaches (SetSig e s) (vis origRaw)
  | Err x => (e, Err x)
  | Panics x => (e, Panics x)
  | Exits x => (e, Exits x)
  end.

(** The receiver after the call, and the returned error ([Ret tt] is nil).
    [defer recover] turns every panic into [ErrInvalidEncoding]. *)
Definition UnmarshalBinary `{LachesisBase} (e : MutableEvent) (raw : slice)
  : MutableEvent * go unit :=
  let '(e', r) :=
    match unmarshal_parse raw with
    | Ret p => unmarshal_store e p raw
    | Err x => (e, Err x)
    | Panics x => (e, Panics x)
    | Exits x => (e, Exits x)
    end in
  match r with
  | Panics _ => (e', Err ErrInvalidEncoding)
  | _ => (e', r)
  end.

(** ** Minimal little-endian numbers *)

(** The bytes [writeUintCompact] emits. *)
Fixpoint compact (size : nat) (v : Z) : list Z :=
  match size with
  | O => []
  | S size' => u8 v :: (if Z.shiftr v 8 =? 0 then [] else compact size' (Z.shiftr v 8))
  end.

Fixpoint le_val (bs : list Z) : Z :=
  match bs with
  | [] => 0
  | b :: bs' => b + 2 ^ 8 * le_val bs'
  end.

Lemma compact_length size v : (length (compact size v) <= size)%nat.
Proof.
  revert v. induction size as [|n IH]; intros v; simpl; [lia|].
  destruct (_ =? 0); simpl; [lia|]. specialize (IH (Z.shiftr v 8)). lia.
Qed.

Lemma compact_pos size v : (0 < size)%nat -> (0 < length (compact size v))%nat.
Proof. destruct size; simpl; lia. Qed.

Lemma compact_bytes size v : is_bytes (compact size v).
Proof.
  revert v. induction size as [|n IH]; intros v; simpl; [constructor|].
  constructor; [apply u8_uint|]. destruct (_ =? 0); [constructor|apply IH].
Qed.

Lemma shiftr8 v : Z.shiftr v 8 = v / 2 ^ 8.
Proof. by rewrite Z.shiftr_div_pow2. Qed.

Lemma le_val_compact size v :
  (0 < size)%nat -> is_uint (8 * Z.of_nat size) v -> le_val (compact size v) = v.
Proof.
  revert v. induction size as [|n IH]; intros v Hn Hv; [lia|].
  cbn [compact le_val]. rewrite shiftr8. unfold u8. unfold is_uint in *.
  replace (8 * Z.of_nat (S n)) with (8 + 8 * Z.of_nat n) in Hv by lia.
  rewrite Z.pow_add_r in Hv by lia.
  destruct (Z.eqb_spec (v / 2 ^ 8) 0) as [E|E]; simpl.
  - pose proof (Z.div_mod v (2 ^ 8)). lia.
  - destruct n as [|n].
    + rewrite Z.mul_0_r, Z.pow_0_r in Hv. exfalso. apply E. apply Z.div_small. lia.
    + rewrite IH; [pose proof (Z.div_mod v (2 ^ 8)); lia|lia|].
      split; [apply Z.div_pos; lia|]. apply Z.div_lt_upper_bound; lia.
Qed.

Lemma le_val_range bs : is_bytes bs -> is_uint (8 * zlen bs) (le_val bs).
Proof.
  induction 1 as [|b bs Hb Hbs IH]; [done|]. unfold is_uint in *. rewrite zlen_cons.
  cbn [le_val]. pose proof (zlen_nonneg bs).
  replace (8 * (1 + zlen bs)) with (8 + 8 * zlen bs) by lia. rewrite Z.pow_add_r by lia. lia.
Qed.

(** A byte list is the compact form of its value exactly when it has no
    superfluous leading zero. *)
Lemma compact_le_val size bs :
  is_bytes bs -> (0 < length bs <= size)%nat ->
  ((1 < length bs)%nat -> List.last bs 0 <> 0) -> compact size (le_val bs) = bs.
Proof.
  intros Hb. revert size. induction Hb as [|b bs Hb Hbs IH]; intros size Hl Hlast; [simpl in Hl; lia|].
  destruct size as [|size]; [lia|]. cbn [compact le_val]. simpl in Hl.
  assert (E : Z.shiftr (b + 2 ^ 8 * le_val bs) 8 = le_val bs).
  { rewrite shiftr8. unfold is_uint in Hb. rewrite Z.mul_comm, Z.div_add by lia.
    rewrite Z.div_small by lia. lia. }
  assert (E8 : u8 (b + 2 ^ 8 * le_val bs) = b).
  { unfold u8. rewrite Z.mul_comm, Z_mod_plus_full. by apply Z.mod_small. }
  rewrite E, E8. f_equal. destruct bs as [|c bs]; [done|].
  assert (Hnz : List.last (c :: bs) 0 <> 0) by (apply Hlast; simpl; lia).
  destruct (Z.eqb_spec (le_val (c :: bs)) 0) as [Hz|Hz].
  - exfalso. apply Hnz. clear -Hbs Hz. revert c Hbs Hz.
    induction bs as [|d bs IHb]; intros c Hbs Hz; cbn [le_val] in Hz;
      apply Forall_cons in Hbs as [Hc Hbs]; unfold is_uint in Hc; [simpl; lia|].
    pose proof (proj1 (le_val_range (d :: bs) Hbs)). change (List.last (d :: bs) 0 = 0).
    apply IHb; [done|]. cbn [le_val] in *. lia.
  - apply IH; [simpl in *; lia|]. intros _. done.
Qed.

(** ** The two field routines against the compact form *)

Ltac solve_fits := unfold Buffer.fits in *; autorewrite with opera in *; lia.

Lemma writeUintCompact_loop_cur fuel : forall pre rest sp v bytes,
  Buffer.fits (pre ++ rest) -> (length (compact fuel v) <= length rest)%nat ->
  writeUintCompact_loop fuel (Buffer.cur pre rest sp) v bytes =
    Ret (Buffer.cur (pre ++ compact fuel v) (drop (length (compact fuel v)) rest) sp,
         bytes + zlen (compact fuel v)).
Proof.
  induction fuel as [|n IH]; intros pre rest sp v bytes Hf Hl; simpl in *.
  - rewrite app_nil_r, drop_0. do 2 f_equal. unfold zlen. simpl. lia.
  - destruct rest as [|x rest]; [simpl in Hl; lia|].
    rewrite Buffer.WriteByte_cur by done. simpl.
    destruct (Z.shiftr v 8 =? 0) eqn:E; simpl.
    + by rewrite drop_0.
    + simpl in Hl. rewrite IH.
      * rewrite <- app_assoc. simpl. do 2 f_equal. rewrite zlen_cons. lia.
      * solve_fits.
      * lia.
Qed.

Lemma writeUintCompact_cur size pre rest sp v :
  Buffer.fits (pre ++ rest) -> (length (compact size v) <= length rest)%nat ->
  writeUintCompact (Buffer.cur pre rest sp) v (Z.of_nat size) =
    Ret (Buffer.cur (pre ++ compact size v) (drop (length (compact size v)) rest) sp,
         zlen (compact size v)).
Proof.
  intros. unfold writeUintCompact. rewrite Nat2Z.id. by rewrite writeUintCompact_loop_cur.
Qed.

(** The decoder's accumulation is the little-endian value modulo 2^64. *)
Lemma readUint_loop_val bs : forall i v last,
  0 <= i -> fst (readUint_loop bs i (u64 v) last) = u64 (v + 2 ^ (8 * i) * le_val bs).
Proof.
  unfold u64. induction bs as [|b bs IH]; intros i v last Hi; cbn [readUint_loop le_val].
  - simpl. f_equal. lia.
  - unfold u64. rewrite Z.shiftl_mul_pow2, <- Zplus_mod by lia. rewrite IH by lia.
    f_equal. replace (8 * (i + 1)) with (8 * i + 8) by lia. rewrite Z.pow_add_r by lia. ring.
Qed.

Lemma readUint_loop_last bs : forall i v last,
  snd (readUint_loop bs i v last) = List.last bs last.
Proof.
  induction bs as [|b bs IH]; intros i v last; [done|]. cbn [readUint_loop]. rewrite IH.
  destruct bs; [done|]. clear. revert z. induction bs; intros; [done|]. simpl in *. auto.
Qed.

Lemma readUintCompact_eq buf bs buf' n :
  Buffer.Read buf n = Ret (bs, buf') ->
  readUintCompact buf n =
    if (n >? 1) && (List.last bs 0 =? 0) then Err ErrNonCanonicalEncoding
    else Ret (u64 (le_val bs), buf').
Proof.
  intros E. unfold readUintCompact. rewrite E. simpl.
  pose proof (readUint_loop_val bs 0 0 0 ltac:(lia)) as Hv.
  pose proof (readUint_loop_last bs 0 0 0) as Hl. change (u64 0) with 0 in Hv.
  destruct (readUint_loop bs 0 0 0) as [v last]. simpl in *. subst last.
  rewrite Hv, Z.mul_0_r, Z.pow_0_r, Z.mul_1_l. done.
Qed.

(** ** The encoder against its layout *)

Definition compacts (size : nat) (vs : list Z) : list Z := concat (compact size <$> vs).

(** What the header stores for a field: the number of its bytes minus one. *)
Definition size_tag (size : nat) (v : Z) : Z := zlen (compact size v) - 1.

Definition tags3 (e : Event) : list Z :=
  version (ext e) :: (size_tag 8 <$> fields64_of e).

Definition tags2 (e : Event) : list Z :=
  (size_tag 4 <$> fields32_of e) ++ [if isRoot (base e) then 1 else 0].

Definition parent_tails (ps : list EventID) : list Z := concat (drop 4 <$> ps).

Definition body (e : Event) : list Z :=
  compacts 8 (fields64_of e) ++ compacts 4 (fields32_of e) ++
  parent_tails (parents (base e)) ++ payload (ext e) ++ sig (ext e).

Lemma compacts_length size vs : (length (compacts size vs) <= size * length vs)%nat.
Proof.
  unfold compacts. induction vs as [|v vs IH]; csimpl; [lia|].
  rewrite length_app. pose proof (compact_length size v). lia.
Qed.

Lemma compacts_count size vs : (0 < size)%nat -> (length vs <= length (compacts size vs))%nat.
Proof.
  intros Hs. unfold compacts. induction vs as [|v vs IH]; csimpl; [lia|].
  rewrite length_app. pose proof (compact_pos size v Hs). lia.
Qed.

Lemma parent_tails_length ps :
  Forall id_ok ps -> length (parent_tails ps) = (28 * length ps)%nat.
Proof.
  unfold parent_tails. induction 1 as [|p ps [Hp _] Hps IH]; csimpl; [done|].
  rewrite length_app, length_drop. lia.
Qed.

Lemma writeFields_cur size vs : forall pre rest sp w w',
  Buffer.fits (pre ++ rest) -> (length (compacts size vs) <= length rest)%nat ->
  Bits.pushAll w (size_tag size <$> vs) = Ret w' ->
  go_range (writeField (Z.of_nat size)) (Buffer.cur pre rest sp, w) vs =
    Ret (Buffer.cur (pre ++ compacts size vs) (drop (length (compacts size vs)) rest) sp, w').
Proof.
  unfold Bits.pushAll, compacts.
  induction vs as [|v vs IH]; intros pre rest sp w w' Hf Hl Hp; csimpl in *.
  - injection Hp as <-. by rewrite app_nil_r, drop_0.
  - rewrite length_app in Hl. go_inv.
    rewrite writeUintCompact_cur by (done || lia). simpl.
    fold (size_tag size v). rewrite E. simpl.
    rewrite (IH _ _ _ _ w').
    + by rewrite <- app_assoc, drop_drop, length_app.
    + rewrite <- app_assoc. unfold Buffer.fits in *. autorewrite with opera in *.
      unfold zlen in *. rewrite length_drop. lia.
    + rewrite length_drop. lia.
    + done.
Qed.

Lemma writeBools_push w f :
  go_range writeBool w [f] = Bits.pushAll w [if f then 1 else 0].
Proof. by destruct f. Qed.

Lemma writeParents_cur ps : forall pre rest sp,
  Forall id_ok ps -> Buffer.fits (pre ++ rest) ->
  (length (parent_tails ps) <= length rest)%nat ->
  go_range writeParent (Buffer.cur pre rest sp) ps =
    Ret (Buffer.cur (pre ++ parent_tails ps) (drop (length (parent_tails ps)) rest) sp).
Proof.
  unfold parent_tails. induction ps as [|p ps IH]; intros pre rest sp Hok Hf Hl; csimpl in *.
  - by rewrite app_nil_r, drop_0.
  - apply Forall_cons in Hok as [[Hp _] Hok]. rewrite length_app in Hl.
    assert (slice_from (Slice p []) 4 = Ret (Slice (drop 4 p) [])) as Hs
      by (unfold slice_from, slice_len, zlen; cbn [vis]; by rewrite Hp).
    unfold writeParent at 2. rewrite Hs. cbn [mbind go_bind vis].
    rewrite Buffer.Write_cur by (done || lia). cbn [mbind go_bind]. rewrite IH.
    + rewrite <- app_assoc, drop_drop, length_app. done.
    + done.
    + rewrite <- app_assoc. unfold Buffer.fits in *. autorewrite with opera in *.
      unfold zlen in *. rewrite !length_drop in *. lia.
    + rewrite !length_drop in *. lia.
Qed.

Lemma size_tag_range size v b :
  (0 < size)%nat -> Z.of_nat size <= 2 ^ b -> is_uint b (size_tag size v).
Proof.
  intros Hs Hb. unfold size_tag, is_uint, zlen.
  pose proof (compact_length size v). pose proof (compact_pos size v Hs). lia.
Qed.

Lemma tags3_range e : is_uint 4 (version (ext e)) -> Forall (is_uint 4) (tags3 e).
Proof.
  intros Hv. apply Forall_cons. split; [done|].
  apply Forall_fmap, Forall_true. intros v. apply size_tag_range; lia.
Qed.

Lemma tags2_range e : Forall (is_uint 2) (tags2 e).
Proof.
  apply Forall_app. split.
  - apply Forall_fmap, Forall_true. intros v. apply size_tag_range; lia.
  - apply Forall_singleton. unfold is_uint. destruct (isRoot (base e)); lia.
Qed.

(** The bytes the buffer is given are enough for the body. *)
Lemma body_length e :
  fields_ok (base e) (ext e) ->
  (length (body e) <= 8 + 24 + 28 * length (parents (base e)) + length (payload (ext e)) + 64)%nat.
Proof.
  intros Hok. unfold body. rewrite !length_app, parent_tails_length by apply Hok.
  pose proof (compacts_length 8 (fields64_of e)). pose proof (compacts_length 4 (fields32_of e)).
  change (length (fields64_of e)) with 1%nat in *.
  change (length (fields32_of e)) with 6%nat in *.
  rewrite (proj1 (ok_sig _ _ Hok)). lia.
Qed.

(** The three sub-slices of a zeroed [raw]. *)
Lemma raw_slices m :
  let raw := Slice (replicate (3 + m) 0) [] in
  slice_range raw 0 (0 + 1) = Ret (Slice [0] (replicate (2 + m) 0)) /\
  slice_range raw (0 + 1) (0 + 1 + 2) = Ret (Slice [0; 0] (replicate m 0)) /\
  slice_from raw (0 + 1 + 2) = Ret (Slice (replicate m 0) []).
Proof.
  unfold slice_range, slice_from, slice_cap, slice_len. cbn [vis spare].
  rewrite !app_nil_r, !zlen_replicate. rewrite !bool_decide_true by lia. done.
Qed.

(** Cutting [raw] at the final cursor drops what was not written. *)
Lemma final_cut (h3 h2 done rest : list Z) n :
  n = zlen h3 + zlen h2 + zlen done ->
  slice_range (Slice (h3 ++ h2 ++ done ++ rest) []) 0 n =
    Ret (Slice (h3 ++ h2 ++ done) rest).
Proof.
  intros ->. unfold slice_range, slice_cap. cbn [vis spare]. rewrite app_nil_r.
  pose proof (zlen_nonneg h3). pose proof (zlen_nonneg h2). pose proof (zlen_nonneg done).
  pose proof (zlen_nonneg rest).
  rewrite bool_decide_true by (autorewrite with opera; lia). f_equal.
  rewrite Z.sub_0_r. change (Z.to_nat 0) with O. rewrite drop_0.
  replace (Z.to_nat _) with (length (h3 ++ h2 ++ done))
    by (unfold zlen; rewrite !length_app; lia).
  rewrite !app_assoc, take_app_length, drop_app_length. done.
Qed.

Ltac solve_cap :=
  unfold Buffer.fits, zlen in *; rewrite ?length_app, ?length_drop, ?length_replicate; try change (length (@nil Z)) with O; lia.

(** Functional refinement of the encoder: both headers are packed number
    lists, followed by the body. *)
Lemma MarshalBinary_layout e h3 h2 :
  fields_ok (base e) (ext e) -> sizes_ok (base e) (ext e) ->
  Bits.encodeAll 4 (tags3 e) = Ret h3 -> length h3 = 1%nat ->
  Bits.encodeAll 2 (tags2 e) = Ret h2 -> length h2 = 2%nat ->
  MarshalBinary e = Ret (h3 ++ h2 ++ body e).
Proof.
  intros Hok [Hps Hpay] E3 L3 E2 L2.
  rewrite Bits.encodeAll_fresh in E3, E2 by (done || (unfold Bits.width_ok; lia)).
  pose proof (body_length e Hok) as Hbody.
  apply bind_Ret_inv in E3 as (w3 & P3 & [= <-]). apply bind_Ret_inv in E2 as (w2 & P2 & [= <-]).
  set (m := (32 + 28 * length (parents (base e)) + 64 + length (payload (ext e)))%nat).
  assert (Hm : Z.to_nat (1 + 2 + 1 * 8 + 6 * 4 + zlen (parents (base e)) * (32 - 4) +
                 zlen (sig (ext e)) + zlen (payload (ext e))) = (3 + m)%nat)
    by (unfold zlen; rewrite (proj1 (ok_sig _ _ Hok)); lia).
  assert (Hfits : zlen (body e) <= Z.of_nat m < 2 ^ 62) by (unfold zlen in *; lia).
  destruct (raw_slices m) as (S3 & S2 & Sb).
  unfold MarshalBinary.
  change (Bits.NewBitArray 4 _) with (Ret (Bits.MkBitArray 4 2 0 1)).
  change (Bits.NewBitArray 2 _) with (Ret (Bits.MkBitArray 2 7 0 2)).
  cbn [mbind go_bind Bits.Size Bits.size].
  change (zlen (fields64_of e)) with 1. change (zlen (fields32_of e)) with 6.
  rewrite Hm, S3, S2, Sb. cbn [mbind go_bind vis].
  change (Bits.Writer (Bits.MkBitArray 4 2 0 1) [0]) with (Ret (Bits.fresh 4 2)).
  change (Bits.Writer (Bits.MkBitArray 2 7 0 2) [0; 0]) with (Ret (Bits.fresh 2 7)).
  cbn [mbind go_bind]. rewrite Buffer.NewBuffer_cur.
  change (zlen (tags3 e)) with 2 in P3. change (zlen (tags2 e)) with 7 in P2.
  unfold tags3, Bits.pushAll in P3. cbn [go_range] in P3.
  apply bind_Ret_inv in P3 as (w3' & Pv & P3). rewrite Pv. cbn [mbind go_bind].
  unfold tags2, Bits.pushAll in P2. rewrite go_range_app in P2.
  apply bind_Ret_inv in P2 as (w2' & P2 & Pb).
  assert (L : (length (compacts 8 (fields64_of e)) + length (compacts 4 (fields32_of e)) +
               length (parent_tails (parents (base e))) +
               length (payload (ext e)) + length (sig (ext e)) <= m)%nat).
  { unfold body in Hbody. rewrite !length_app in Hbody.
    rewrite (proj1 (ok_sig _ _ Hok)) in *. lia. }
  change 8 with (Z.of_nat 8) at 1. rewrite (writeFields_cur 8 _ _ _ _ _ w3); [|solve_cap|solve_cap|done].
  cbn [mbind go_bind]. rewrite app_nil_l.
  change 4 with (Z.of_nat 4) at 1. rewrite (writeFields_cur 4 _ _ _ _ _ w2'); [|solve_cap|solve_cap|done].
  cbn [mbind go_bind]. rewrite writeBools_push. unfold Bits.pushAll. rewrite Pb.
  cbn [mbind go_bind]. rewrite writeParents_cur; [|apply Hok|solve_cap|solve_cap].
  cbn [mbind go_bind]. rewrite Buffer.Write_cur by solve_cap.
  cbn [mbind go_bind]. rewrite Buffer.Write_cur by solve_cap.
  cbn [mbind go_bind]. unfold Buffer.Position, Buffer.cur. cbn [Buffer.buf Buffer.offset vis].
  rewrite final_cut by (unfold zlen in *; lia). cbn [mbind go_bind vis].
  unfold body. by rewrite <- !app_assoc.
Qed.

(** Both headers of an event of a version below 16 can be packed. *)
Lemma headers_spec e :
  fields_ok (base e) (ext e) -> version (ext e) < 16 ->
  exists h3 h2,
    Bits.encodeAll 4 (tags3 e) = Ret h3 /\ Bits.encodeAll 2 (tags2 e) = Ret h2 /\
    length h3 = 1%nat /\ length h2 = 2%nat /\ is_bytes h3 /\ is_bytes h2 /\
    (forall i v, tags3 e !! i = Some v -> Bits.part 4 h3 (Z.of_nat i) = v) /\
    (forall i v, tags2 e !! i = Some v -> Bits.part 2 h2 (Z.of_nat i) = v) /\
    Bits.part 2 h2 7 = 0.
Proof.
  intros Hok Hv.
  assert (Hv4 : is_uint 4 (version (ext e))) by (destruct (ok_version _ _ Hok); split; lia).
  destruct (Bits.encodeAll_spec 4 (tags3 e)) as (h3 & E3 & L3 & B3 & P3 & _);
    [unfold Bits.width_ok; lia|done|by apply tags3_range|].
  destruct (Bits.encodeAll_spec 2 (tags2 e)) as (h2 & E2 & L2 & B2 & P2 & O2);
    [unfold Bits.width_ok; lia|done|apply tags2_range|].
  change (zlen (tags3 e)) with 2 in L3. change (zlen (tags2 e)) with 7 in L2, O2.
  assert (length h3 = 1%nat) by (unfold zlen in L3; vm_compute ((4 * 2 + 7) / 8) in L3; lia).
  assert (length h2 = 2%nat) by (unfold zlen in L2; vm_compute ((2 * 7 + 7) / 8) in L2; lia).
  exists h3, h2. split_and!; try done. apply O2. lia.
Qed.

(** The encoder never panics on an event of a version below 16, and this is
    what it writes. *)
Lemma MarshalBinary_spec e :
  fields_ok (base e) (ext e) -> sizes_ok (base e) (ext e) -> version (ext e) < 16 ->
  exists h3 h2,
    MarshalBinary e = Ret (h3 ++ h2 ++ body e) /\
    length h3 = 1%nat /\ length h2 = 2%nat /\ is_bytes h3 /\ is_bytes h2 /\
    (forall i v, tags3 e !! i = Some v -> Bits.part 4 h3 (Z.of_nat i) = v) /\
    (forall i v, tags2 e !! i = Some v -> Bits.part 2 h2 (Z.of_nat i) = v) /\
    Bits.part 2 h2 7 = 0.
Proof.
  intros Hok Hsz Hv. destruct (headers_spec e Hok Hv) as (h3 & h2 & E3 & E2 & L3 & L2 & H).
  exists h3, h2. split_and!; try apply H; try done. by apply MarshalBinary_layout.
Qed.

(** ** The decoder on what the encoder writes *)

Lemma compact_last size v :
  is_uint (8 * Z.of_nat size) v -> (1 < length (compact size v))%nat ->
  List.last (compact size v) 0 <> 0.
Proof.
  revert v. induction size as [|n IH]; intros v Hv Hl; [simpl in Hl; lia|].
  cbn [compact] in *. destruct (Z.eqb_spec (Z.shiftr v 8) 0) as [E|E]; [simpl in Hl; lia|].
  assert (Hv' : is_uint (8 * Z.of_nat n) (Z.shiftr v 8)).
  { unfold is_uint in *. rewrite shiftr8. replace (8 * Z.of_nat (S n)) with (8 + 8 * Z.of_nat n) in Hv by lia.
    rewrite Z.pow_add_r in Hv by lia. split; [apply Z.div_pos; lia|].
    apply Z.div_lt_upper_bound; lia. }
  destruct n as [|n].
  { unfold is_uint in Hv'. rewrite Z.mul_0_r, Z.pow_0_r in Hv'. lia. }
  assert (Hlast : List.last (compact (S n) (Z.shiftr v 8)) 0 <> 0).
  { destruct (compact (S n) (Z.shiftr v 8)) as [|x [|y l]] eqn:Ec.
    - pose proof (compact_pos (S n) (Z.shiftr v 8)). rewrite Ec in H. simpl in H. lia.
    - pose proof (le_val_compact (S n) (Z.shiftr v 8) ltac:(lia) Hv') as Hval.
      rewrite Ec in Hval. simpl in Hval. simpl. lia.
    - rewrite <- Ec. apply IH; [done|]. rewrite Ec. simpl. lia. }
  destruct (compact (S n) (Z.shiftr v 8)); [done|]. exact Hlast.
Qed.

Lemma readUintCompact_cur size pre rest sp v :
  (0 < size <= 8)%nat -> is_uint (8 * Z.of_nat size) v ->
  Buffer.fits (pre ++ compact size v ++ rest) ->
  readUintCompact (Buffer.cur pre (compact size v ++ rest) sp) (size_tag size v + 1) =
    Ret (v, Buffer.cur (pre ++ compact size v) rest sp).
Proof.
  intros Hs Hv Hf. unfold size_tag. rewrite Z.sub_add. unfold zlen.
  erewrite readUintCompact_eq by (apply Buffer.Read_cur; [done|rewrite length_app; lia]).
  rewrite take_app_length, drop_app_length, le_val_compact by (done || lia).
  rewrite u64_id.
  2: { unfold is_uint in *. assert (2 ^ (8 * Z.of_nat size) <= 2 ^ 64) by (apply Z.pow_le_mono_r; lia). lia. }
  destruct (Z.gtb_spec (Z.of_nat (length (compact size v))) 1); [|done].
  destruct (Z.eqb_spec (List.last (compact size v) 0) 0) as [E|]; [|done].
  exfalso. revert E. apply compact_last; [done|lia].
Qed.

Lemma readFields_cur conv size b vs : forall raw c z k pre rest sp,
  (0 < size <= 8)%nat -> Bits.width_ok b -> 0 <= k -> k + zlen vs < 2 ^ 60 ->
  (k + zlen vs) * b <= 8 * zlen raw ->
  Forall (is_uint (8 * Z.of_nat size)) vs ->
  (forall i v, vs !! i = Some v -> Bits.part b raw (k + Z.of_nat i) = size_tag size v) ->
  Buffer.fits (pre ++ compacts size vs ++ rest) ->
  readFields conv (length vs) (Bits.MkReader (Bits.MkBitArray b c k z) raw)
             (Buffer.cur pre (compacts size vs ++ rest) sp) =
    Ret (conv <$> vs, Bits.MkReader (Bits.MkBitArray b c (k + zlen vs) z) raw,
         Buffer.cur (pre ++ compacts size vs) rest sp).
Proof.
  unfold compacts. induction vs as [|v vs IH]; intros raw c z k pre rest sp Hs Hb Hk Hk2 Hlen Hvs Hp Hf.
  - simpl. by rewrite app_nil_r, Z.add_0_r.
  - rewrite zlen_cons in *. pose proof (zlen_nonneg vs). apply Forall_cons in Hvs as [Hv Hvs].
    cbn [length readFields]. rewrite (Bits.Pop_spec _ b k); simpl.
    2: done. 2: { unfold Bits.at_pos; simpl; lia. } 2: { Bits.widths Hb; dlia. }
    replace (Bits.part b raw k) with (size_tag size v)
      by (rewrite <- (Hp O v eq_refl); f_equal; simpl; lia).
    csimpl in *. rewrite <- app_assoc in *. rewrite readUintCompact_cur by done. simpl.
    rewrite IH; [|done|done|lia|lia|lia|done| |by rewrite <- app_assoc].
    + simpl. rewrite <- app_assoc. do 4 f_equal. f_equal. lia.
    + intros i x Hx. rewrite <- (Hp (S i) x Hx). f_equal. lia.
Qed.

Section Decode.
Context `{LBL : LachesisBaseLaws}.

Lemma readParents_cur ep ps : forall pre rest sp,
  Forall id_ok ps -> Forall (fun p => take 4 p = epoch_bytes ep) ps ->
  Buffer.fits (pre ++ parent_tails ps ++ rest) ->
  readParents ep (length ps) (Buffer.cur pre (parent_tails ps ++ rest) sp) =
    Ret (ps, Buffer.cur (pre ++ parent_tails ps) rest sp).
Proof.
  unfold parent_tails. induction ps as [|p ps IH]; intros pre rest sp Hok Hep Hf.
  - simpl. by rewrite app_nil_r.
  - apply Forall_cons in Hok as [[Hp _] Hok]. apply Forall_cons in Hep as [He Hep].
    assert (Hl : length (drop 4 p) = 28%nat) by (rewrite length_drop; lia).
    cbn [length readParents]. rewrite fmap_cons in *. cbn [concat] in *. rewrite <- app_assoc in *.
    change (32 - 4) with (Z.of_nat 28). rewrite Buffer.Read_cur by (done || (rewrite length_app; lia)).
    rewrite <- Hl, take_app_length, drop_app_length. cbn [mbind go_bind].
    rewrite IH by (done || by rewrite <- app_assoc). cbn [mbind go_bind].
    unfold copy_bytes. rewrite !length_replicate, epoch_bytes_length, Hl, !Nat.min_id.
    rewrite !(drop_ge (replicate _ _)) by (rewrite length_replicate; lia).
    rewrite !take_ge by (rewrite ?epoch_bytes_length; lia).
    rewrite !app_nil_r, <- He, take_drop, <- app_assoc. done.
Qed.

Definition parsed_of (e : Event) : parsed :=
  MkParsed (version (ext e)) (rawTime (base e)) (epoch (base e)) (seq (base e)) (frame (base e))
           (creator (base e)) (lamport (base e)) (isRoot (base e)) (parents (base e))
           (payload (ext e)) (sig (ext e)).

Lemma encoded_slices (h3 h2 bd sp : list Z) :
  length h3 = 1%nat -> length h2 = 2%nat ->
  let raw := Slice (h3 ++ h2 ++ bd) sp in
  slice_range raw 0 (0 + 1) = Ret (Slice h3 (h2 ++ bd ++ sp)) /\
  slice_range raw (0 + 1) (0 + 1 + 2) = Ret (Slice h2 (bd ++ sp)) /\
  slice_from raw (0 + 1 + 2) = Ret (Slice bd sp).
Proof.
  intros L3 L2. destruct h3 as [|a [|]]; try done. destruct h2 as [|b [|c [|]]]; try done.
  unfold slice_range, slice_from, slice_cap, slice_len. cbn [vis spare].
  pose proof (zlen_nonneg bd). pose proof (zlen_nonneg sp).
  rewrite !bool_decide_true by (autorewrite with opera; lia). done.
Qed.

Lemma fields32_range e :
  Forall (is_uint (8 * Z.of_nat 4)) (fields32_of e).
Proof. unfold fields32_of. change (8 * Z.of_nat 4) with 32. repeat constructor; apply u32_uint. Qed.

(** The readers [UnmarshalBinary] starts from. *)
Definition reader3 (h3 : list Z) := Bits.MkReader (Bits.MkBitArray 4 2 0 1) h3.
Definition reader2 (h2 : list Z) := Bits.MkReader (Bits.MkBitArray 2 7 0 2) h2.

Lemma unmarshal_parse_split h3 h2 bd sp :
  length h3 = 1%nat -> length h2 = 2%nat ->
  unmarshal_parse (Slice (h3 ++ h2 ++ bd) sp) =
  unmarshal_fields (reader3 h3) (reader2 h2) (Slice bd sp).
Proof.
  intros L3 L2. destruct (encoded_slices h3 h2 bd sp L3 L2) as (S3 & S2 & Sb).
  unfold unmarshal_parse, unmarshal_headers_then.
  change (Bits.NewBitArray 4 _) with (Ret (Bits.MkBitArray 4 2 0 1)).
  change (Bits.NewBitArray 2 _) with (Ret (Bits.MkBitArray 2 7 0 2)).
  cbn [mbind go_bind Bits.Size Bits.size]. rewrite S3, S2, Sb. cbn [mbind go_bind vis].
  unfold Bits.Reader, zlen. cbn [Bits.size]. rewrite L3, L2. done.
Qed.

Lemma pop_reader h b c k z :
  Bits.width_ok b -> 0 <= k < 2 ^ 60 -> k * b / 8 < zlen h ->
  Bits.Pop (Bits.MkReader (Bits.MkBitArray b c k z) h) =
    Ret (Bits.part b h k, Bits.MkReader (Bits.MkBitArray b c (k + 1) z) h).
Proof. intros Hb Hk Hl. by rewrite (Bits.Pop_spec _ b k). Qed.

Lemma fields32_decoded e :
  fields_ok (base e) (ext e) -> sizes_ok (base e) (ext e) ->
  u32 <$> fields32_of e =
    [epoch (base e); seq (base e); frame (base e); creator (base e); lamport (base e);
     zlen (parents (base e))].
Proof.
  intros Hok [Hn _]. unfold fields32_of. cbn [fmap list_fmap].
  rewrite !(u32_id (u32 _)) by apply u32_uint.
  rewrite !u32_id; try apply Hok; [done|]. split; [apply zlen_nonneg|done].
Qed.

Lemma fields64_decoded e :
  fields_ok (base e) (ext e) -> (fun x => x) <$> fields64_of e = [rawTime (base e)].
Proof. intros Hok. unfold fields64_of. cbn [fmap list_fmap]. by rewrite u64_id by apply Hok. Qed.

(** The decoder behind the fields. *)
Lemma unmarshal_tail_cur ver f64 f32 root ps pay sg pre sp :
  Forall id_ok ps -> Forall (fun p => take 4 p = epoch_bytes (nth 0 f32 0)) ps ->
  nth 5 f32 0 = zlen ps -> length sg = 64%nat ->
  Buffer.fits (pre ++ parent_tails ps ++ pay ++ sg) ->
  unmarshal_tail (Slice (pre ++ parent_tails ps ++ pay ++ sg) sp) ver f64 f32 root
                 (Buffer.cur pre (parent_tails ps ++ pay ++ sg) sp) =
    Ret (MkParsed ver (nth 0 f64 0) (nth 0 f32 0) (nth 1 f32 0) (nth 2 f32 0) (nth 3 f32 0)
                  (nth 4 f32 0) root ps pay sg).
Proof.
  intros Hok Hep Hn Hsg Hf. unfold unmarshal_tail. rewrite Hn.
  replace (Z.to_nat (zlen ps)) with (length ps) by (unfold zlen; lia).
  rewrite readParents_cur by done. cbn [mbind go_bind].
  set (pre' := pre ++ parent_tails ps).
  assert (Hpos : slice_len (Slice (pre ++ parent_tails ps ++ pay ++ sg) sp) -
                 Buffer.Position (Buffer.cur pre' (pay ++ sg) sp) = Z.of_nat (length pay) + SigSize).
  { unfold slice_len, Buffer.Position, Buffer.cur, SigSize. cbn [vis Buffer.offset].
    subst pre'. autorewrite with opera. unfold zlen. lia. }
  rewrite Hpos, (proj2 (Z.ltb_ge _ SigSize)), Z.add_simpl_r by lia.
  assert (Hf2 : Buffer.fits (pre' ++ pay ++ sg)) by (subst pre'; by rewrite <- !app_assoc).
  rewrite Buffer.Read_cur by (done || (rewrite length_app; lia)).
  rewrite take_app_length, drop_app_length. cbn [mbind go_bind].
  change SigSize with (Z.of_nat 64).
  rewrite Buffer.Read_cur by (lia || by rewrite <- app_assoc).
  cbn [mbind go_bind]. by rewrite take_ge by lia.
Qed.

(** The decoder, from the two headers and the body that the encoder wrote. *)
Lemma unmarshal_fields_encoded e h3 h2 sp :
  fields_ok (base e) (ext e) -> sizes_ok (base e) (ext e) -> parents_in_epoch (base e) ->
  version (ext e) = 0 ->
  length h3 = 1%nat -> length h2 = 2%nat ->
  (forall i v, tags3 e !! i = Some v -> Bits.part 4 h3 (Z.of_nat i) = v) ->
  (forall i v, tags2 e !! i = Some v -> Bits.part 2 h2 (Z.of_nat i) = v) ->
  unmarshal_fields (reader3 h3) (reader2 h2) (Slice (body e) sp) = Ret (parsed_of e).
Proof.
  intros Hok Hsz Hep Hv L3 L2 P3 P2.
  pose proof (body_length e Hok) as Hbl. pose proof Hsz as [Hnp Hny].
  assert (Hfit : zlen (body e) < 2 ^ 62) by (unfold zlen in *; lia).
  pose proof (P3 O (version (ext e)) eq_refl) as Pv. change (Z.of_nat 0) with 0 in Pv.
  unfold unmarshal_fields, unmarshal_fields_then, reader3. rewrite Buffer.NewBuffer_cur.
  rewrite pop_reader by (unfold Bits.width_ok, zlen; rewrite ?L3; dlia). cbn [mbind go_bind].
  rewrite Pv, Hv. cbn [negb Z.eqb]. unfold body in Hfit |- *.
  rewrite (readFields_cur _ 8 4 (fields64_of e));
    [|lia|unfold Bits.width_ok; lia|lia|done|unfold zlen; rewrite L3; done
     |repeat constructor; apply u64_uint| |exact Hfit].
  2: { intros [|[|]] v Hx; try done. injection Hx as <-. by apply (P3 1%nat). }
  cbn [mbind go_bind]. rewrite app_nil_l.
  change (readFields u32 6) with (readFields u32 (length (fields32_of e))). unfold reader2.
  rewrite (readFields_cur u32 4 2 (fields32_of e));
    [|lia|unfold Bits.width_ok; lia|lia|done|unfold zlen; rewrite L2; done
     |apply fields32_range| |exact Hfit].
  2: { intros i v Hx. apply P2. unfold tags2. rewrite lookup_app_l.
       - by rewrite list_lookup_fmap, Hx.
       - rewrite length_fmap. by eapply lookup_lt_Some. }
  cbn [mbind go_bind].
  rewrite pop_reader by (unfold Bits.width_ok, zlen; rewrite ?L2; simpl; dlia).
  cbn [mbind go_bind]. rewrite fields32_decoded, fields64_decoded by done.
  change (0 + zlen (fields32_of e)) with (Z.of_nat 6).
  rewrite (P2 6%nat (if isRoot (base e) then 1 else 0) eq_refl), app_assoc.
  rewrite unmarshal_tail_cur; [|apply Hok|apply Hep|done|apply Hok|by rewrite <- app_assoc].
  unfold parsed_of. rewrite Hv. by destruct (isRoot (base e)).
Qed.

(** ** The decoder on arbitrary input *)

(** [bs] stands at offset [o] of [all]. *)
Definition seg (all : list Z) (o : Z) (bs : list Z) : Prop :=
  exists pre post, all = pre ++ bs ++ post /\ zlen pre = o.

Lemma seg_app all o bs1 bs2 :
  seg all o bs1 -> seg all (o + zlen bs1) bs2 -> seg all o (bs1 ++ bs2).
Proof.
  intros (p1 & q1 & E1 & L1) (p2 & q2 & E2 & L2).
  assert (p2 = p1 ++ bs1) as ->.
  { rewrite E1, app_assoc in E2. apply app_inj_1 in E2 as [-> _]; [done|].
    unfold zlen in *. rewrite length_app. lia. }
  exists p1, q2. split; [|done]. by rewrite E2, <- !app_assoc.
Qed.

Lemma seg_nil all o : 0 <= o <= zlen all -> seg all o [].
Proof.
  intros Ho. exists (take (Z.to_nat o) all), (drop (Z.to_nat o) all). simpl.
  rewrite take_drop. split; [done|]. unfold zlen in *. rewrite length_take. lia.
Qed.

(** A segment from the start as long as the shown part is the shown part. *)
Lemma seg_whole s bs : seg (vis s ++ spare s) 0 bs -> zlen bs = slice_len s -> vis s = bs.
Proof.
  intros (pre & post & E & Hpre) Hl.
  assert (pre = []) as ->
    by (destruct pre; [done|rewrite zlen_cons in Hpre; pose proof (zlen_nonneg pre); lia]).
  rewrite app_nil_l in E. apply app_inj_1 in E as [-> _]; [done|].
  unfold slice_len, zlen in Hl. lia.
Qed.

Lemma seg_bytes all o bs : is_bytes all -> seg all o bs -> is_bytes bs.
Proof. intros H (p & q & -> & _). apply Forall_app in H as [_ H]. by apply Forall_app in H as [? _]. Qed.

(** The cursor stays on the same slice, between 0 and the capacity. *)
Definition cursor_in (s : slice) (b : Buffer.Buffer) : Prop :=
  Buffer.buf b = s /\ 0 <= Buffer.offset b <= slice_cap s.

Definition data (s : slice) : list Z := vis s ++ spare s.

Lemma Read_seg s b n bs b' :
  cursor_in s b -> slice_cap s < 2 ^ 60 -> 0 <= n < 2 ^ 61 -> Buffer.Read b n = Ret (bs, b') ->
  cursor_in s b' /\ Buffer.offset b' = Buffer.offset b + n /\ zlen bs = n /\
  seg (data s) (Buffer.offset b) bs.
Proof.
  intros [<- Ho] Hc Hn E. apply Buffer.Read_inv in E as (Eb & Eo & Hcap & ->); [|lia|lia].
  unfold cursor_in, data. rewrite Eb, Eo.
  set (all := vis (Buffer.buf b) ++ spare (Buffer.buf b)) in *.
  unfold slice_cap in *. fold all in Ho, Hcap, Hc |- *.
  assert (Hl : zlen (take (Z.to_nat n) (drop (Z.to_nat (Buffer.offset b)) all)) = n)
    by (unfold zlen in *; rewrite length_take, length_drop; lia).
  split_and!; [done|lia|lia|done|done|].
  exists (take (Z.to_nat (Buffer.offset b)) all),
         (drop (Z.to_nat n) (drop (Z.to_nat (Buffer.offset b)) all)).
  rewrite take_drop, take_drop. split; [done|]. unfold zlen in *. rewrite length_take. lia.
Qed.

(** A field that the decoder accepts is in compact form, when its announced
    size is one the type can have. *)
Lemma readUintCompact_inv s size b n v b' :
  cursor_in s b -> slice_cap s < 2 ^ 60 -> is_bytes (data s) ->
  (0 < size <= 8)%nat -> 1 <= n <= Z.of_nat size -> readUintCompact b n = Ret (v, b') ->
  cursor_in s b' /\ is_uint (8 * Z.of_nat size) v /\ size_tag size v = n - 1 /\
  Buffer.offset b' = Buffer.offset b + zlen (compact size v) /\
  seg (data s) (Buffer.offset b) (compact size v).
Proof.
  intros Hb Hc Hd Hs Hn E. unfold readUintCompact in E. apply bind_Ret_inv in E as ([bs b1] & ER & E).
  pose proof (Read_seg s b n bs b1 Hb Hc ltac:(lia) ER) as (Hb1 & Ho & Hl & Hseg).
  pose proof (readUintCompact_eq b bs b1 n ER) as Heq. unfold readUintCompact in Heq.
  rewrite ER in Heq. cbn [mbind go_bind] in Heq. rewrite Heq in E. clear Heq.
  destruct ((n >? 1) && (List.last bs 0 =? 0)) eqn:Hcan; [done|]. injection E as <- <-.
  pose proof (seg_bytes _ _ _ Hd Hseg) as Hbytes. pose proof (le_val_range bs Hbytes) as Hr.
  assert (Hpow : 2 ^ (8 * zlen bs) <= 2 ^ (8 * Z.of_nat size)) by (apply Z.pow_le_mono_r; lia).
  assert (2 ^ (8 * Z.of_nat size) <= 2 ^ 64) by (apply Z.pow_le_mono_r; lia).
  rewrite u64_id by (unfold is_uint in *; lia).
  assert (Hcomp : compact size (le_val bs) = bs).
  { apply compact_le_val; [done|unfold zlen in Hl; lia|]. intros H1 H2.
    rewrite H2, (proj2 (Z.gtb_gt n 1)) in Hcan by (unfold zlen in Hl; lia). done. }
  unfold size_tag. rewrite Hcomp, Hl. split_and!; try done; unfold is_uint in *; lia.
Qed.

Lemma readFields_inv conv s size b raw c z (Hs : (0 < size <= 8)%nat) (Hb : Bits.width_ok b)
  (Hc : slice_cap s < 2 ^ 60) (Hd : is_bytes (data s)) : forall k pos buf xs hdr' buf',
  cursor_in s buf -> 0 <= pos -> pos + Z.of_nat k < 2 ^ 60 -> (pos + Z.of_nat k) * b <= 8 * zlen raw ->
  (forall i, (i < k)%nat -> Bits.part b raw (pos + Z.of_nat i) < Z.of_nat size) ->
  readFields conv k (Bits.MkReader (Bits.MkBitArray b c pos z) raw) buf = Ret (xs, hdr', buf') ->
  exists vs, xs = conv <$> vs /\ length vs = k /\ Forall (is_uint (8 * Z.of_nat size)) vs /\
    hdr' = Bits.MkReader (Bits.MkBitArray b c (pos + Z.of_nat k) z) raw /\
    cursor_in s buf' /\ Buffer.offset buf' = Buffer.offset buf + zlen (compacts size vs) /\
    seg (data s) (Buffer.offset buf) (compacts size vs) /\
    (forall i v, vs !! i = Some v -> Bits.part b raw (pos + Z.of_nat i) = size_tag size v).
Proof.
  induction k as [|k IH]; intros pos buf xs hdr' buf' Hcur Hp Hk Hlen Hsz E.
  - injection E as <- <- <-. exists []. unfold compacts. simpl. rewrite !Z.add_0_r.
    split_and!; try done. destruct Hcur as [_ Ho]. by apply seg_nil.
  - cbn [readFields] in E. rewrite pop_reader in E by (done || lia || (Bits.widths Hb; dlia)).
    cbn [mbind go_bind] in E. apply bind_Ret_inv in E as ([x buf1] & E1 & E).
    apply bind_Ret_inv in E as ([[xs2 hdr2] buf2] & E2 & E). injection E as <- <- <-.
    pose proof (Bits.part_range b raw pos Hb) as Hr.
    pose proof (Hsz O ltac:(lia)) as Hs0. rewrite Z.add_0_r in Hs0.
    apply (readUintCompact_inv s size) in E1 as (Hc1 & Hu & Ht & Ho1 & Hseg1); try done; [|lia].
    apply IH in E2 as (vs & -> & Hl & Hvs & -> & Hc2 & Ho2 & Hseg2 & Ht2); try done; try lia.
    2: { intros i Hi. specialize (Hsz (S i) ltac:(lia)).
         replace (pos + 1 + Z.of_nat i) with (pos + Z.of_nat (S i)) by lia. done. }
    exists (x :: vs). unfold compacts in *. csimpl. split_and!; try done.
    + by rewrite Hl.
    + by apply Forall_cons.
    + do 2 f_equal. lia.
    + rewrite zlen_app. lia.
    + apply seg_app; [done|]. by rewrite <- Ho1.
    + intros [|i] v Hv; simpl in Hv; [injection Hv as <-; rewrite Z.add_0_r; lia|].
      rewrite <- (Ht2 i v Hv). f_equal. lia.
Qed.

Lemma copy_bytes_full dst src : length dst = length src -> copy_bytes dst src = src.
Proof.
  intros E. unfold copy_bytes. rewrite E, Nat.min_id, firstn_all, drop_ge by lia. apply app_nil_r.
Qed.

Lemma readParents_inv s ep (Hc : slice_cap s < 2 ^ 60) (Hd : is_bytes (data s)) : forall n buf ps buf',
  cursor_in s buf -> readParents ep n buf = Ret (ps, buf') ->
  length ps = n /\ Forall id_ok ps /\ Forall (fun p => take 4 p = epoch_bytes ep) ps /\
  cursor_in s buf' /\ Buffer.offset buf' = Buffer.offset buf + zlen (parent_tails ps) /\
  seg (data s) (Buffer.offset buf) (parent_tails ps).
Proof.
  induction n as [|n IH]; intros buf ps buf' Hcur E; cbn [readParents] in E.
  - injection E as <- <-. unfold parent_tails. simpl. rewrite Z.add_0_r.
    split_and!; try done. destruct Hcur as [_ Ho]. by apply seg_nil.
  - apply bind_Ret_inv in E as ([bs b1] & E1 & E). apply bind_Ret_inv in E as ([ps2 b2] & E2 & E).
    apply (Read_seg s) in E1 as (Hc1 & Ho1 & Hl & Hseg); [|done|done|lia].
    apply IH in E2 as (Hn & Hok & Hep & Hc2 & Ho2 & Hseg2); [|done].
    assert (L28 : length bs = 28%nat) by (unfold zlen in Hl; lia).
    rewrite !copy_bytes_full in E by (rewrite length_replicate, ?epoch_bytes_length; done).
    injection E as <- <-.
    unfold parent_tails in *. csimpl.
    assert (drop 4 (epoch_bytes ep ++ bs) = bs) as ->
      by (rewrite <- (epoch_bytes_length ep); apply drop_app_length).
    split_and!; [by rewrite Hn| | |done|rewrite zlen_app; lia|].
    + apply Forall_cons. split; [|done]. split; [rewrite length_app, epoch_bytes_length; lia|].
      apply Forall_app. split; [apply epoch_bytes_bytes|by eapply seg_bytes].
    + apply Forall_cons. split; [|done]. rewrite <- (epoch_bytes_length ep). apply take_app_length.
    + apply seg_app; [done|]. replace (_ + zlen bs) with (Buffer.offset b1) by lia. done.
Qed.

(** Everything behind the fields lies in the shown part of the slice, once the
    signature check has passed. *)
Lemma unmarshal_tail_inv s ver f64 f32 root buf p (Hc : slice_cap s < 2 ^ 60) (Hd : is_bytes (data s)) :
  cursor_in s buf -> unmarshal_tail s ver f64 f32 root buf = Ret p ->
  exists ps pay sg,
    p = MkParsed ver (nth 0 f64 0) (nth 0 f32 0) (nth 1 f32 0) (nth 2 f32 0) (nth 3 f32 0)
                 (nth 4 f32 0) root ps pay sg /\
    length ps = Z.to_nat (nth 5 f32 0) /\ Forall id_ok ps /\
    Forall (fun q => take 4 q = epoch_bytes (nth 0 f32 0)) ps /\ length sg = 64%nat /\
    seg (data s) (Buffer.offset buf) (parent_tails ps ++ pay ++ sg) /\
    Buffer.offset buf + zlen (parent_tails ps ++ pay ++ sg) = slice_len s.
Proof.
  intros Hcur E. unfold unmarshal_tail in E. apply bind_Ret_inv in E as ([ps b1] & E1 & E).
  apply (readParents_inv s) in E1 as (Hn & Hok & Hep & Hc1 & Ho1 & Hseg1); try done.
  unfold Buffer.Position, SigSize in E. destruct (Z.ltb_spec (slice_len s - Buffer.offset b1) 64); [done|].
  assert (Hlc : slice_len s <= slice_cap s)
    by (unfold slice_len, slice_cap; rewrite zlen_app; pose proof (zlen_nonneg (spare s)); lia).
  pose proof Hc1 as [_ Hr1].
  apply bind_Ret_inv in E as ([pay b2] & E2 & E). apply bind_Ret_inv in E as ([sg b3] & E3 & E).
  injection E as <-.
  apply (Read_seg s) in E2 as (Hc2 & Ho2 & Hl2 & Hseg2); [|done|done|lia].
  apply (Read_seg s) in E3 as (Hc3 & Ho3 & Hl3 & Hseg3); [|done|done|lia].
  exists ps, pay, sg. split_and!; try done.
  - unfold zlen in Hl3. lia.
  - apply seg_app; [done|]. rewrite <- Ho1. apply seg_app; [done|]. by rewrite Hl2, <- Ho2.
  - autorewrite with opera. lia.
Qed.

(** Accepted input splits into the two headers and the rest. *)
Lemma unmarshal_parse_inv raw sp p :
  unmarshal_parse (Slice raw sp) = Ret p ->
  exists h3 h2 bd, raw = h3 ++ h2 ++ bd /\ length h3 = 1%nat /\ length h2 = 2%nat /\
    unmarshal_fields (reader3 h3) (reader2 h2) (Slice bd sp) = Ret p.
Proof.
  intros E. destruct (decide (3 <= length raw)%nat) as [Hl|Hl].
  - exists (take 1 raw), (take 2 (drop 1 raw)), (drop 2 (drop 1 raw)).
    assert (raw = take 1 raw ++ take 2 (drop 1 raw) ++ drop 2 (drop 1 raw)) as Hs
      by (by rewrite !take_drop).
    assert (length (take 1 raw) = 1%nat) by (rewrite length_take; lia).
    assert (length (take 2 (drop 1 raw)) = 2%nat) by (rewrite length_take, length_drop; lia).
    split_and!; try done. rewrite Hs in E. by rewrite unmarshal_parse_split in E.
  - exfalso. unfold unmarshal_parse, unmarshal_headers_then in E.
    change (Bits.NewBitArray 4 _) with (Ret (Bits.MkBitArray 4 2 0 1)) in E.
    change (Bits.NewBitArray 2 _) with (Ret (Bits.MkBitArray 2 7 0 2)) in E.
    cbn [mbind go_bind Bits.Size Bits.size] in E. go_inv. unfold slice_from, slice_len, zlen in *.
    rewrite bool_decide_false in * by (cbn [vis]; lia). done.
Qed.

(** What the decoder does with the size of a field: any 64-bit value. *)
Lemma readFields_frame conv s b raw c z (Hb : Bits.width_ok b) (Hc : slice_cap s < 2 ^ 60) :
  forall k pos buf xs hdr' buf',
  cursor_in s buf -> 0 <= pos -> pos + Z.of_nat k < 2 ^ 60 -> (pos + Z.of_nat k) * b <= 8 * zlen raw ->
  readFields conv k (Bits.MkReader (Bits.MkBitArray b c pos z) raw) buf = Ret (xs, hdr', buf') ->
  length xs = k /\ (exists vs, xs = conv <$> vs /\ Forall (is_uint 64) vs) /\
  hdr' = Bits.MkReader (Bits.MkBitArray b c (pos + Z.of_nat k) z) raw /\ cursor_in s buf'.
Proof.
  induction k as [|k IH]; intros pos buf xs hdr' buf' Hcur Hp Hk Hlen E.
  - injection E as <- <- <-. rewrite Z.add_0_r. split_and!; try done. by exists [].
  - cbn [readFields] in E. rewrite pop_reader in E by (done || lia || (Bits.widths Hb; dlia)).
    cbn [mbind go_bind] in E. apply bind_Ret_inv in E as ([x buf1] & E1 & E).
    apply bind_Ret_inv in E as ([[xs2 hdr2] buf2] & E2 & E). injection E as <- <- <-.
    pose proof (Bits.part_range b raw pos Hb) as Hr.
    assert (Hb16 : 2 ^ b <= 16) by (Bits.widths Hb; lia).
    pose proof E1 as E1'. unfold readUintCompact in E1'. apply bind_Ret_inv in E1' as ([bs b1] & ER & _).
    rewrite (readUintCompact_eq _ _ _ _ ER) in E1. destruct (_ && _); [done|]. injection E1 as <- <-.
    apply (Read_seg s) in ER as (Hc1 & _); [|done|done|lia].
    apply IH in E2 as (Hl & (vs & -> & Hvs) & -> & Hc2); try done; try lia.
    split_and!; [by simpl; rewrite Hl| |do 2 f_equal; lia|done].
    exists (u64 (le_val bs) :: vs). split; [done|]. apply Forall_cons. split; [apply u64_uint|done].
Qed.

Definition event_of (p : parsed) : Event :=
  MkEvent (MkBase (p_epoch p) (p_seq p) (p_frame p) (p_isRoot p) (p_creator p) (p_parents p)
                  (p_lamport p) [] (p_rawTime p))
          (MkExt (p_ver p) (p_payload p) (p_sig p) 0 None).

(** The event behind accepted bytes is well-formed, of version 0, with parents
    of its own epoch. *)
Lemma unmarshal_parse_wf raw sp p :
  slice_cap (Slice raw sp) < 2 ^ 60 -> is_bytes (raw ++ sp) ->
  unmarshal_parse (Slice raw sp) = Ret p ->
  p_ver p = 0 /\ fields_ok (base (event_of p)) (ext (event_of p)) /\
  parents_in_epoch (base (event_of p)) /\ zlen (p_parents p) < 2 ^ 32 /\ 67 <= zlen raw.
Proof.
  intros Hcap Hby E. apply unmarshal_parse_inv in E as (h3 & h2 & bd & -> & L3 & L2 & E).
  assert (Hcap' : slice_cap (Slice bd sp) < 2 ^ 60).
  { unfold slice_cap in *. cbn [vis spare] in *. autorewrite with opera in *.
    pose proof (zlen_nonneg h3). pose proof (zlen_nonneg h2). lia. }
  assert (Hd : is_bytes (data (Slice bd sp))).
  { unfold data. cbn [vis spare]. rewrite <- !app_assoc in Hby.
    apply Forall_app in Hby as [_ Hby]. by apply Forall_app in Hby as [_ Hby]. }
  unfold unmarshal_fields, unmarshal_fields_then, reader3, reader2 in E.
  rewrite pop_reader in E by (unfold Bits.width_ok, zlen; rewrite ?L3; dlia). cbn [mbind go_bind] in E.
  destruct (Z.eqb_spec (Bits.part 4 h3 0) 0) as [Hv|]; [|done]. cbn [negb] in E.
  assert (Hcur : cursor_in (Slice bd sp) (Buffer.NewBuffer (Slice bd sp))).
  { split; [done|]. unfold slice_cap. pose proof (zlen_nonneg (bd ++ sp)). cbn. lia. }
  apply bind_Ret_inv in E as ([[f64 r3] b1] & E1 & E).
  apply (readFields_frame _ (Slice bd sp)) in E1 as (Lf64 & (v64 & -> & R64) & _ & Hc1);
    [|unfold Bits.width_ok; lia|done|done|lia|lia|unfold zlen; rewrite L3; lia].
  apply bind_Ret_inv in E as ([[f32 r2] b2] & E2 & E).
  apply (readFields_frame _ (Slice bd sp)) in E2 as (Lf32 & (v32 & -> & R32) & -> & Hc2);
    [|unfold Bits.width_ok; lia|done|done|lia|lia|unfold zlen; rewrite L2; lia].
  rewrite pop_reader in E by (unfold Bits.width_ok, zlen; rewrite ?L2; dlia). cbn [mbind go_bind] in E.
  apply unmarshal_tail_inv in E as (ps & pay & sg & -> & Hn & Hok & Hep & Lsg & Hseg & Hlen); try done.
  rewrite length_fmap in Lf64, Lf32.
  destruct v64 as [|t [|]]; try done. destruct v32 as [|a0 [|a1 [|a2 [|a3 [|a4 [|a5 [|]]]]]]]; try done.
  apply Forall_cons in R64 as [Rt _]. cbn [fmap list_fmap nth] in *.
  pose proof (seg_bytes _ _ _ Hd Hseg) as Hb. apply Forall_app in Hb as [_ Hb].
  apply Forall_app in Hb as [Hb1 Hb2].
  unfold event_of. cbn. rewrite Hv. split_and!; [done| |done| |].
  - constructor; cbn; try apply u32_uint; done.
  - unfold zlen. rewrite Hn. pose proof (u32_uint a5) as Hu. unfold is_uint in Hu. lia.
  - destruct Hc2 as [_ Ho]. unfold slice_len in Hlen. cbn [vis] in Hlen.
    autorewrite with opera in *. unfold zlen in *. rewrite L3, L2. lia.
Qed.

Lemma headers_cut (h3 h2 bd : list Z) :
  length h3 = 1%nat -> length h2 = 2%nat ->
  take 1 (h3 ++ h2 ++ bd) = h3 /\ take 2 (drop 1 (h3 ++ h2 ++ bd)) = h2.
Proof.
  intros L3 L2. destruct h3 as [|a [|]]; try done. by destruct h2 as [|b [|c [|]]].
Qed.

(** The header bits that the encoder leaves at fixed values and the decoder
    does not look at: the size of the time field is at most 8 bytes, the root
    flag is 0 or 1, and the last two bits are 0. *)
Definition canonical_header (raw : list Z) : Prop :=
  Bits.part 4 (take 1 raw) 1 < 8 /\
  Bits.part 2 (take 2 (drop 1 raw)) 6 < 2 /\
  Bits.part 2 (take 2 (drop 1 raw)) 7 = 0.

(** The fields of accepted bytes with a canonical header, as the decoder read
    them and as they stand in the bytes. *)
Lemma unmarshal_fields_canonical h3 h2 bd sp p :
  length h3 = 1%nat -> length h2 = 2%nat ->
  slice_cap (Slice bd sp) < 2 ^ 60 -> is_bytes (bd ++ sp) -> Bits.part 4 h3 1 < 8 ->
  unmarshal_fields (reader3 h3) (reader2 h2) (Slice bd sp) = Ret p ->
  Bits.part 4 h3 0 = 0 /\ p_ver p = 0 /\
  p_isRoot p = negb (Bits.part 2 h2 6 =? 0) /\
  Bits.part 4 h3 1 = size_tag 8 (p_rawTime p) /\
  (forall i v, fields32_of (event_of p) !! i = Some v ->
               Bits.part 2 h2 (Z.of_nat i) = size_tag 4 v) /\
  bd = body (event_of p).
Proof.
  intros L3 L2 Hcap Hd Hsz E. unfold unmarshal_fields, unmarshal_fields_then, reader3, reader2 in E.
  rewrite pop_reader in E by (unfold Bits.width_ok, zlen; rewrite ?L3; dlia). cbn [mbind go_bind] in E.
  destruct (Z.eqb_spec (Bits.part 4 h3 0) 0) as [Hv|]; [|done]. cbn [negb] in E.
  assert (Hcur : cursor_in (Slice bd sp) (Buffer.NewBuffer (Slice bd sp))).
  { split; [done|]. unfold slice_cap. pose proof (zlen_nonneg (bd ++ sp)). cbn. lia. }
  apply bind_Ret_inv in E as ([[f64 r3] b1] & E1 & E).
  apply (readFields_inv _ (Slice bd sp) 8) in E1
    as (v64 & -> & Lf64 & R64 & _ & Hc1 & Ho1 & Hs1 & T64);
    [|lia|unfold Bits.width_ok; lia|done|done|done|lia|lia|unfold zlen; rewrite L3; lia
     |intros [|] ?; [done|lia]].
  apply bind_Ret_inv in E as ([[f32 r2] b2] & E2 & E).
  apply (readFields_inv _ (Slice bd sp) 4) in E2
    as (v32 & -> & Lf32 & R32 & -> & Hc2 & Ho2 & Hs2 & T32);
    [|lia|unfold Bits.width_ok; lia|done|done|done|lia|lia|unfold zlen; rewrite L2; lia
     |intros i ?; apply (Bits.part_range 2); unfold Bits.width_ok; lia].
  rewrite pop_reader in E by (unfold Bits.width_ok, zlen; rewrite ?L2; dlia). cbn [mbind go_bind] in E.
  apply unmarshal_tail_inv in E as (ps & pay & sg & -> & Hn & Hok & Hep & Lsg & Hseg & Hlen); try done.
  destruct v64 as [|t [|]]; try done. destruct v32 as [|a0 [|a1 [|a2 [|a3 [|a4 [|a5 [|]]]]]]]; try done.
  cbn [fmap list_fmap nth] in *. change (0 + Z.of_nat 6) with 6 in *.
  change (8 * Z.of_nat 4) with 32 in R32. repeat (apply Forall_cons in R32 as [?R R32]).
  apply Forall_cons in R64 as [Rt _]. rewrite !u32_id in * by done.
  set (p := MkParsed _ _ _ _ _ _ _ _ _ _ _).
  assert (F64 : fields64_of (event_of p) = [t]) by (unfold fields64_of; cbn; by rewrite u64_id).
  assert (F32 : fields32_of (event_of p) = [a0; a1; a2; a3; a4; a5]).
  { unfold fields32_of, zlen. cbn. rewrite Hn, Z2Nat.id by (unfold is_uint in *; lia).
    by rewrite !u32_id. }
  split_and!; try done.
  - by apply (T64 O).
  - rewrite F32. apply T32.
  - unfold body. rewrite F64, F32. subst p. cbn [event_of base ext parents payload sig p_parents p_payload p_sig].
    change (Buffer.offset (Buffer.NewBuffer _)) with 0 in *.
    assert (Hall : seg (data (Slice bd sp)) 0
              (compacts 8 [t] ++ compacts 4 [a0; a1; a2; a3; a4; a5] ++ parent_tails ps ++ pay ++ sg)).
    { apply seg_app; [done|]. rewrite <- Ho1. apply seg_app; [done|]. by rewrite <- Ho2. }
    apply seg_whole in Hall; [done|]. autorewrite with opera in *. lia.
Qed.

(** A decoded event with a canonical header encodes to the bytes it came from. *)
Lemma unmarshal_parse_canonical raw sp p :
  slice_cap (Slice raw sp) < 2 ^ 60 -> is_bytes (raw ++ sp) -> canonical_header raw ->
  unmarshal_parse (Slice raw sp) = Ret p ->
  sizes_ok (base (event_of p)) (ext (event_of p)) /\ MarshalBinary (event_of p) = Ret raw.
Proof.
  intros Hcap Hby (C1 & C2 & C3) E.
  pose proof (unmarshal_parse_wf raw sp p Hcap Hby E) as (Hv & Hok & _ & Hnp & _).
  apply unmarshal_parse_inv in E as (h3 & h2 & bd & -> & L3 & L2 & E).
  destruct (headers_cut h3 h2 bd L3 L2) as [Et Ed]. rewrite Et in C1. rewrite Ed in C2, C3.
  rewrite <- !app_assoc in Hby. apply Forall_app in Hby as [B3 Hby]. apply Forall_app in Hby as [B2 Hd].
  unfold slice_cap in Hcap. cbn [vis spare] in Hcap. autorewrite with opera in Hcap.
  pose proof (zlen_nonneg h3). pose proof (zlen_nonneg h2). pose proof (zlen_nonneg sp).
  apply unmarshal_fields_canonical in E as (Pv & _ & Hroot & Pt & P32 & ->); try done;
    [|unfold slice_cap; cbn [vis spare]; autorewrite with opera; lia].
  assert (Hsz : sizes_ok (base (event_of p)) (ext (event_of p))).
  { split; [done|]. unfold body in Hcap. autorewrite with opera in Hcap.
    pose proof (zlen_nonneg (compacts 8 (fields64_of (event_of p)))).
    pose proof (zlen_nonneg (compacts 4 (fields32_of (event_of p)))).
    pose proof (zlen_nonneg (parent_tails (parents (base (event_of p))))).
    pose proof (zlen_nonneg (sig (ext (event_of p)))). lia. }
  split; [done|]. apply MarshalBinary_layout; try done.
  - apply Bits.encodeAll_unique; try done; [unfold Bits.width_ok; lia| | | |].
    + apply tags3_range. cbn. rewrite Hv. done.
    + unfold zlen at 1. by rewrite L3.
    + intros [|[|]] v Hx; try done; injection Hx as <-; [by rewrite Hv|].
      cbn [event_of base rawTime]. by rewrite u64_id by apply (ok_rawTime _ _ Hok).
    + unfold zlen at 2. rewrite L3. change (zlen (tags3 (event_of p))) with 2. lia.
  - apply Bits.encodeAll_unique; try done; [unfold Bits.width_ok; lia|apply tags2_range| | |].
    + unfold zlen at 1. by rewrite L2.
    + intros i v Hx. unfold tags2 in Hx. apply lookup_app_Some in Hx as [Hx|[Hge Hx]].
      * apply list_lookup_fmap_Some in Hx as (y & -> & Hy). by apply P32.
      * change (length (size_tag 4 <$> fields32_of (event_of p))) with 6%nat in *.
        destruct (i - 6)%nat as [|] eqn:Ei; [|done]. injection Hx as <-.
        replace (Z.of_nat i) with 6 by lia. cbn. rewrite Hroot.
        pose proof (Bits.part_range 2 h2 6 ltac:(unfold Bits.width_ok; lia)).
        destruct (Z.eqb_spec (Bits.part 2 h2 6) 0); simpl; lia.
    + unfold zlen at 2. rewrite L2. change (zlen (tags2 (event_of p))) with 7.
      intros j Hj1 Hj2. replace j with 7 by lia. done.
Qed.

End Decode.

(** ** The decoder as a whole *)

(** The receiver [m] after decoding the event [e] from [raw]: the fields of
    [e], the id it had, and the caches of [raw]. *)
Definition decoded (m : MutableEvent) (e : Event) (raw : list Z) : MutableEvent :=
  MkMutable
    (MkBase (epoch (base e)) (seq (base e)) (frame (base e)) (isRoot (base e)) (creator (base e))
            (parents (base e)) (lamport (base e)) (id (mbase m)) (rawTime (base e)))
    (MkExt (version (ext e)) (payload (ext e)) (sig (ext e)) (zlen raw)
           (Some (Sha256.sum256 (take (length raw - 64) raw)))).

Lemma unmarshal_store_ok m p raw sp :
  length (p_sig p) = 64%nat -> is_uint 8 (p_ver p) -> 64 <= zlen raw ->
  unmarshal_store m p (Slice raw sp) = (decoded m (event_of p) raw, Ret tt).
Proof.
  intros Hs Hv Hl. unfold unmarshal_store, BytesToSignature, SigSize, zlen. rewrite Hs. change (Z.of_nat 64 =? 64) with true. cbn [negb].
  unfold fillCaches. cbn [vis]. rewrite eventHashToSign_long by exact Hl.
  by rewrite (u8_id (p_ver p)).
Qed.

(** The decoder contains no call that ends the process. *)
Lemma Pop_no_exit r : no_exit (Bits.Pop r).
Proof. unfold Bits.Pop, Bits.nextPart. solve_no_exit. Qed.

Lemma Read_no_exit b n : no_exit (Buffer.Read b n).
Proof. unfold Buffer.Read. solve_no_exit. Qed.

#[local] Hint Resolve Pop_no_exit Read_no_exit : opera.

Lemma readFields_no_exit conv k : forall h b, no_exit (readFields conv k h b).
Proof.
  induction k as [|k IH]; intros h b; cbn [readFields]; [done|]. unfold readUintCompact.
  apply no_exit_bind; [solve_no_exit|]. intros [n h']. apply no_exit_bind.
  - apply no_exit_bind; [solve_no_exit|]. intros [bs b']. destruct (readUint_loop bs 0 0 0). solve_no_exit.
  - intros [x b']. solve_no_exit.
Qed.

Lemma readParents_no_exit `{LachesisBase} ep n : forall b, no_exit (readParents ep n b).
Proof. induction n as [|n IH]; intros b; cbn [readParents]; solve_no_exit. Qed.

#[local] Hint Resolve readFields_no_exit readParents_no_exit : opera.

Lemma unmarshal_parse_no_exit `{LachesisBase} raw : no_exit (unmarshal_parse raw).
Proof.
  unfold unmarshal_parse, unmarshal_headers_then, unmarshal_fields, unmarshal_fields_then, unmarshal_tail, Bits.NewBitArray, Bits.Reader. solve_no_exit.
Qed.

(** Accepting is parsing, storing the fields and caching size and hash. *)
Lemma UnmarshalBinary_accept `{LBL : LachesisBaseLaws} m raw sp p :
  slice_cap (Slice raw sp) < 2 ^ 60 -> is_bytes (raw ++ sp) ->
  unmarshal_parse (Slice raw sp) = Ret p ->
  UnmarshalBinary m (Slice raw sp) = (decoded m (event_of p) raw, Ret tt).
Proof.
  intros Hcap Hby E. pose proof (unmarshal_parse_wf raw sp p Hcap Hby E) as (Hv & Hok & _ & _ & Hl).
  unfold UnmarshalBinary. rewrite E. rewrite unmarshal_store_ok; [done|apply Hok|by rewrite Hv|lia].
Qed.

Lemma UnmarshalBinary_inv `{LBL : LachesisBaseLaws} m raw sp m' :
  slice_cap (Slice raw sp) < 2 ^ 60 -> is_bytes (raw ++ sp) ->
  UnmarshalBinary m (Slice raw sp) = (m', Ret tt) ->
  exists p, unmarshal_parse (Slice raw sp) = Ret p /\ m' = decoded m (event_of p) raw.
Proof.
  intros Hcap Hby E. destruct (unmarshal_parse (Slice raw sp)) as [p|x|x|x] eqn:Ep.
  - exists p. split; [done|]. rewrite (UnmarshalBinary_accept m raw sp p) in E by done. congruence.
  - unfold UnmarshalBinary in E. rewrite Ep in E. done.
  - unfold UnmarshalBinary in E. rewrite Ep in E. done.
  - unfold UnmarshalBinary in E. rewrite Ep in E. done.
Qed.

(** What the encoder writes is read back, in full. *)
Lemma UnmarshalBinary_encoded `{LBL : LachesisBaseLaws} e m sp :
  fields_ok (base e) (ext e) -> sizes_ok (base e) (ext e) -> parents_in_epoch (base e) ->
  version (ext e) = 0 ->
  exists raw, MarshalBinary e = Ret raw /\
              UnmarshalBinary m (Slice raw sp) = (decoded m e raw, Ret tt).
Proof.
  intros Hok Hsz Hep Hv.
  destruct (MarshalBinary_spec e Hok Hsz ltac:(lia)) as (h3 & h2 & E & L3 & L2 & _ & _ & P3 & P2 & _).
  exists (h3 ++ h2 ++ body e). split; [done|].
  assert (Ep : unmarshal_parse (Slice (h3 ++ h2 ++ body e) sp) = Ret (parsed_of e))
    by (rewrite unmarshal_parse_split by done; by apply unmarshal_fields_encoded).
  unfold UnmarshalBinary. rewrite Ep, unmarshal_store_ok; [done|apply Hok|cbn; by rewrite Hv|].
  unfold body. autorewrite with opera. pose proof (proj1 (ok_sig _ _ Hok)) as Ls.
  unfold zlen in *. lia.
Qed.

(** The encoding of an event of a version below 16: bytes, and how many. *)
Lemma MarshalBinary_bounds e :
  fields_ok (base e) (ext e) -> sizes_ok (base e) (ext e) -> version (ext e) < 16 ->
  exists raw, MarshalBinary e = Ret raw /\ is_bytes raw /\
    74 <= zlen raw - 28 * zlen (parents (base e)) - zlen (payload (ext e)) <= 99.
Proof.
  intros Hok Hsz Hv.
  destruct (MarshalBinary_spec e Hok Hsz Hv) as (h3 & h2 & E & L3 & L2 & B3 & B2 & _).
  exists (h3 ++ h2 ++ body e). split_and!; [done| | |].
  - unfold body, parent_tails. rewrite !Forall_app. split_and!; try apply Hok; try done;
      try (apply Forall_concat, Forall_fmap, Forall_true; intros; apply compact_bytes).
    apply Forall_concat, Forall_fmap. eapply Forall_impl; [apply (ok_parents _ _ Hok)|].
    intros p [_ Hp]. by apply Forall_drop.
  - rewrite !zlen_app. unfold body. rewrite !zlen_app. unfold zlen. rewrite L3, L2.
    rewrite parent_tails_length by apply Hok. rewrite (proj1 (ok_sig _ _ Hok)).
    pose proof (compacts_count 8 (fields64_of e) ltac:(lia)).
    pose proof (compacts_count 4 (fields32_of e) ltac:(lia)).
    change (length (fields64_of e)) with 1%nat in *. change (length (fields32_of e)) with 6%nat in *. lia.
  - rewrite !zlen_app. pose proof (body_length e Hok). unfold zlen. rewrite L3, L2. lia.
Qed.

(** ** Properties *)

(** C6: encoding a well-formed version-0 event and decoding the bytes gives
    every field back, whatever the receiver held and whatever lies behind the
    bytes in their backing array; the caches become the size and the hash of
    those bytes. *)
Theorem unmarshal_marshal `{LBL : LachesisBaseLaws} (e : Event) (m : MutableEvent) (sp : list Z) :
  fields_ok (base e) (ext e) -> sizes_ok (base e) (ext e) -> parents_in_epoch (base e) ->
  version (ext e) = 0 ->
  exists raw, MarshalBinary e = Ret raw /\
              UnmarshalBinary m (Slice raw sp) = (decoded m e raw, Ret tt).
Proof. apply UnmarshalBinary_encoded. Qed.

(** C33: decoding is injective on bytes with a canonical header: an event decoded
    from such bytes encodes to exactly these bytes. *)
Theorem marshal_unmarshal `{LBL : LachesisBaseLaws} (m m' : MutableEvent) (raw sp : list Z) :
  zlen raw + zlen sp < 2 ^ 60 -> is_bytes (raw ++ sp) -> canonical_header raw ->
  UnmarshalBinary m (Slice raw sp) = (m', Ret tt) ->
  MarshalBinary (immutable m') = Ret raw.
Proof.
  intros Hcap Hby Hcan E.
  assert (Hc : slice_cap (Slice raw sp) < 2 ^ 60) by (unfold slice_cap; cbn [vis spare]; by rewrite zlen_app).
  apply UnmarshalBinary_inv in E as (p & Ep & ->); try done.
  by apply (unmarshal_parse_canonical raw sp p).
Qed.

(** C7: the decoder is total and safe: on any byte slice it returns (no panic
    escapes, the process does not exit), a refused input leaves the receiver as
    it was, and an accepted one gives a well-formed version-0 event whose
    parents belong to its epoch. *)
Theorem unmarshal_safe `{LBL : LachesisBaseLaws} (m : MutableEvent) (raw sp : list Z) :
  zlen raw + zlen sp < 2 ^ 60 -> is_bytes (raw ++ sp) ->
  let '(m', r) := UnmarshalBinary m (Slice raw sp) in
  (exists x, r = Err x /\ m' = m) \/
  (r = Ret tt /\ version (mext m') = 0 /\ fields_ok (mbase m') (mext m') /\
   parents_in_epoch (mbase m') /\ _size (mext m') = zlen raw /\ 67 <= zlen raw).
Proof.
  intros Hcap Hby.
  assert (Hc : slice_cap (Slice raw sp) < 2 ^ 60) by (unfold slice_cap; cbn [vis spare]; by rewrite zlen_app).
  destruct (unmarshal_parse (Slice raw sp)) as [p|x|x|x] eqn:Ep.
  - rewrite (UnmarshalBinary_accept m raw sp p) by done. right.
    pose proof (unmarshal_parse_wf raw sp p Hc Hby Ep) as (Hv & Hok & Hep & _ & Hl).
    split_and!; try done. destruct Hok; by constructor.
  - unfold UnmarshalBinary. rewrite Ep. eauto.
  - unfold UnmarshalBinary. rewrite Ep. eauto.
  - exfalso. by apply (unmarshal_parse_no_exit (Slice raw sp) x).
Qed.

(** The encoder returns exactly on events of a version below 16 (the header
    has 4 bits for it, any other version panics), and the encoding has between
    74 and 99 bytes plus 28 per parent plus the payload. *)
Theorem marshal_size (e : Event) :
  fields_ok (base e) (ext e) -> sizes_ok (base e) (ext e) ->
  if version (ext e) <? 16
  then exists raw, MarshalBinary e = Ret raw /\ is_bytes raw /\
         74 <= zlen raw - 28 * zlen (parents (base e)) - zlen (payload (ext e)) <= 99
  else MarshalBinary e = Panics (PanicMsg "too big number").
Proof.
  intros Hok Hsz. destruct (Z.ltb_spec (version (ext e)) 16) as [Hv|Hv].
  - by apply MarshalBinary_bounds.
  - unfold MarshalBinary.
    change (Bits.NewBitArray 4 _) with (Ret (Bits.MkBitArray 4 2 0 1)).
    change (Bits.NewBitArray 2 _) with (Ret (Bits.MkBitArray 2 7 0 2)).
    cbn [mbind go_bind Bits.Size Bits.size].
    change (zlen (fields64_of e)) with 1. change (zlen (fields32_of e)) with 6.
    set (n := Z.to_nat _).
    assert (exists k, n = (3 + k)%nat) as [k ->].
    { exists (n - 3)%nat. pose proof (zlen_nonneg (parents (base e))).
      pose proof (zlen_nonneg (sig (ext e))). pose proof (zlen_nonneg (payload (ext e))). lia. }
    destruct (raw_slices k) as (S3 & S2 & Sb). rewrite S3, S2, Sb.
    cbn [mbind go_bind vis]. change (Bits.Writer (Bits.MkBitArray 4 2 0 1) [0]) with (Ret (Bits.fresh 4 2)).
    change (Bits.Writer (Bits.MkBitArray 2 7 0 2) [0; 0]) with (Ret (Bits.fresh 2 7)).
    cbn [mbind go_bind]. unfold Bits.Push. change (i64 (Z.shiftl 1 (Bits.bits (Bits.warr (Bits.fresh 4 2))))) with 16.
    rewrite (proj2 (Z.ltb_ge _ 0)), Z.geb_leb, (proj2 (Z.leb_le 16 _)) by lia. done.
Qed.

(** ** Concrete events *)

Definition sample_event : Event :=
  MkEvent (MkBase 3 7 300 true 5 [Sha256.be32 3 ++ replicate 28 9] 70000 [] 1597727000000000000)
          (MkExt 0 [1; 2; 3] (replicate 64 5) 0 None).

Definition sample_raw : list Z := Eval vm_compute in
  match MarshalBinary sample_event with Ret r => r | _ => [] end.

Definition sample_decoded : MutableEvent := Eval vm_compute in
  fst (@UnmarshalBinary lachesis_be MutableEvent_zero (Slice sample_raw [])).

Lemma sample_ok : fields_ok (base sample_event) (ext sample_event).
Proof. constructor; by_decide. Qed.

Lemma unmarshal_marshal_witness :
  exists raw, MarshalBinary sample_event = Ret raw /\
    @UnmarshalBinary lachesis_be MutableEvent_zero (Slice raw [17; 4]) =
      (decoded MutableEvent_zero sample_event raw, Ret tt).
Proof.
  apply (unmarshal_marshal (LBL := lachesis_be_laws) sample_event MutableEvent_zero [17; 4]).
  - exact sample_ok.
  - vm_compute. split; reflexivity.
  - unfold parents_in_epoch. by_decide.
  - reflexivity.
Defined.

Lemma marshal_unmarshal_witness : MarshalBinary (immutable sample_decoded) = Ret sample_raw.
Proof.
  apply (marshal_unmarshal (LBL := lachesis_be_laws) MutableEvent_zero sample_decoded sample_raw []).
  - vm_compute. reflexivity.
  - by_decide.
  - vm_compute. repeat split; reflexivity.
  - vm_compute. reflexivity.
Defined.

Lemma unmarshal_safe_witness :
  let '(m', r) := @UnmarshalBinary lachesis_be MutableEvent_zero (Slice sample_raw [1]) in
  (exists x, r = Err x /\ m' = MutableEvent_zero) \/
  (r = Ret tt /\ version (mext m') = 0 /\ fields_ok (mbase m') (mext m') /\
   @parents_in_epoch lachesis_be (mbase m') /\ _size (mext m') = zlen sample_raw /\
   67 <= zlen sample_raw).
Proof.
  apply (unmarshal_safe (LBL := lachesis_be_laws) MutableEvent_zero sample_raw [1]).
  - vm_compute. reflexivity.
  - by_decide.
Defined.

Lemma marshal_size_witness :
  exists raw, MarshalBinary sample_event = Ret raw /\ is_bytes raw /\
    74 <= zlen raw - 28 * 1 - 3 <= 99.
Proof.
  apply (marshal_size sample_event).
  - exact sample_ok.
  - vm_compute. split; reflexivity.
Defined.

(** ** Encodings the decoder accepts and the encoder never writes

    [sample_raw] with the two unused header bits set, with the root flag
    stored as 2, and with a ninth byte in the time field. *)

Definition spare_bits_set : list Z := <[2%nat := Z.lor 0xC0 (nth 2 sample_raw 0)]> sample_raw.

Definition root_flag_two : list Z :=
  <[2%nat := Z.lor 0x20 (Z.land 0xCF (nth 2 sample_raw 0))]> sample_raw.

Definition nine_byte_time : list Z :=
  [Z.lor 0x80 (Z.land 0x0F (nth 0 sample_raw 0))] ++ take 2 (drop 1 sample_raw) ++
  take 8 (drop 3 sample_raw) ++ [7] ++ drop 11 sample_raw.

(** Each of the three is accepted and read as the same event, carries a
    different hash (hence a different id), and does not survive re-encoding. *)
Theorem decoder_accepts_noncanonical :
  Forall (fun raw' =>
    raw' <> sample_raw /\
    let '(m', r) := @UnmarshalBinary lachesis_be MutableEvent_zero (Slice raw' []) in
    r = Ret tt /\ mbase m' = mbase sample_decoded /\
    _hashToSign (mext m') <> _hashToSign (mext sample_decoded) /\
    MarshalBinary (immutable m') = Ret sample_raw)
  [spare_bits_set; root_flag_two; nine_byte_time].
Proof.
  repeat apply Forall_cons_2; [..|by apply Forall_nil]; vm_compute; split_and!;
    first [reflexivity | discriminate].
Qed.

(** A message of 14 bytes that is refused, after 2^32 - 1 ids, 128 gigabytes, have
    been allocated for it. *)
Definition greedy_raw : list Z := [0; 0; 12; 1; 1; 1; 1; 1; 1; 255; 255; 255; 255; 0].

Lemma decoder_allocates_before_checks `{LBL : LachesisBaseLaws} m : zlen greedy_raw = 14 /\ parents_requested (Slice greedy_raw []) = Ret (2 ^ 32 - 1) /\
  snd (UnmarshalBinary m (Slice greedy_raw [])) <> Ret tt.
Proof.
  split; [reflexivity|]. split; [vm_compute; reflexivity|]. destruct (UnmarshalBinary m (Slice greedy_raw [])) as [m' r] eqn:E.
  cbn [snd]. intros ->. apply UnmarshalBinary_inv in E as (p & Ep & _); [|reflexivity|by_decide].
  apply unmarshal_parse_wf in Ep as (_ & _ & _ & _ & Hl); [|reflexivity|by_decide]. change (zlen greedy_raw) with 14 in Hl. lia.
Qed.

End Serializer.
