(* ===== verification/EventBuild.v ===== *)
(** * inter/event.go, events.go and the RLP hooks: building events

    [Build] turns a [MutableEvent] into an immutable [Event]: it derives the id
    from the hash to sign and fills the caches, reusing them when they are set.
    The theorems say that a built event is coherent (its id, hash and size are
    those of its own encoding), that signing does not change the id, and that
    an event survives the wire unchanged, id and caches included. *)

From Stdlib Require Import ZArith Lia Bool.
From stdpp Require Import base list numbers option strings.
From S2P Require Import Prelude Kv Sha256 Fast Event Serializer.
Import Event Serializer.
Local Open Scope Z_scope.

(** The part of the rlp package the hooks call: [rlp.Encode] of a byte slice
    and [Stream.Bytes], which returns a byte slice and the rest of the input. *)
Class Rlp := {
  rlp_encode : list Z -> list Z;
  rlp_bytes : list Z -> go (slice * list Z)
}.

(** The documented behaviour: a byte string is read back, whatever follows. *)
Class RlpLaws (R : Rlp) : Prop := {
  rlp_bytes_encode : forall b rest, is_bytes b -> zlen b < 2 ^ 62 ->
    exists sp, rlp_bytes (rlp_encode b ++ rest) = Ret (Slice b sp, rest)
}.

(** An instance: an eight-byte little-endian length before the bytes. *)
Definition le_bytes (n : Z) : list Z := (fun i => u8 (Z.shiftr n (8 * Z.of_nat i))) <$> List.seq 0 8.

Definition rlp_length_prefix : Rlp := {|
  rlp_encode b := le_bytes (zlen b) ++ b;
  rlp_bytes raw :=
    let n := Z.to_nat (le_val (take 8 raw)) in
    let rest := drop 8 raw in
    if bool_decide (8 <= length raw /\ n <= length rest)%nat
    then Ret (Slice (take n rest) [], drop n rest)
    else Err (Error "rlp: value size exceeds available input length")
|}.

Lemma le_val_le_bytes n : is_uint 64 n -> le_val (le_bytes n) = n.
Proof.
  unfold is_uint, le_bytes, u8. intros H. simpl.
  rewrite !Z.shiftr_div_pow2 by lia. change (2 ^ 0) with 1. rewrite Z.div_1_r.
  dlia.
Qed.

Lemma rlp_length_prefix_laws : RlpLaws rlp_length_prefix.
Proof.
  split. intros b rest _ Hb. exists []. pose proof (zlen_nonneg b).
  unfold rlp_bytes, rlp_encode, rlp_length_prefix.
  rewrite <- app_assoc. rewrite take_app_length', drop_app_length' by done.
  rewrite le_val_le_bytes by (unfold is_uint; lia).
  unfold zlen. rewrite Nat2Z.id, take_app_length, drop_app_length.
  rewrite bool_decide_true; [done|]. rewrite !length_app. change (length (le_bytes _)) with 8%nat. lia.
Qed.

Module EventBuild.

(** [b, err := e.immutable().MarshalBinary(); if err != nil { panic(..) }]. *)
Definition encode_or_panic (e : MutableEvent) : go (list Z) :=
  match MarshalBinary (immutable e) with
  | Err (Error m) => Panics (PanicMsg ("can't encode: " +:+ m))
  | r => r
  end.

Definition hashToSign (e : MutableEvent) : go (list Z) :=
  b ← encode_or_panic e; eventHashToSign b.

Definition size (e : MutableEvent) : go Z :=
  b ← encode_or_panic e; Ret (zlen b).

(** [MutableEvent.HashToSign] and [MutableEvent.Size]. *)
Definition MutableHashToSign (e : MutableEvent) : go (list Z) := hashToSign e.
Definition MutableSize (e : MutableEvent) : go Z := size e.

Section Build.
Context `{LachesisBase}.

Definition Build (e : MutableEvent) : go Event :=
  let c := e in
  c ← match _hashToSign (mext c) with
      | Some h => Ret (SetID c (calcEventID h))
      | None => h ← hashToSign e; Ret (SetID c (calcEventID h))
      end;
  if negb (_size (mext c) =? 0) && bool_decide (is_Some (_hashToSign (mext c)))
  then Ret (immutable c)
  else
    b ← encode_or_panic e;
    let '(c, r) := fillCaches c b in
    _ ← r;
    Ret (immutable c).

(** ** RLP hooks (event_serializer.go) *)

Definition EncodeRLP `{Rlp} (e : Event) : go (list Z) :=
  bytes ← MarshalBinary e; Ret (rlp_encode bytes).

(** [MutableEvent.DecodeRLP]: the receiver, the outcome and the rest of the
    stream. *)
Definition MutableDecodeRLP `{Rlp} (e : MutableEvent) (src : list Z)
  : MutableEvent * go (list Z) :=
  match rlp_bytes src with
  | Ret (bytes, rest) => let '(e', r) := UnmarshalBinary e bytes in (e', _ ← r; Ret rest)
  | Err x => (e, Err x)
  | Panics x => (e, Panics x)
  | Exits x => (e, Exits x)
  end.

(** [Event.DecodeRLP] assigns the receiver only on success. *)
Definition DecodeRLP `{Rlp} (src : list Z) : go (Event * list Z) :=
  let '(mutE, r) := MutableDecodeRLP MutableEvent_zero src in
  rest ← r;
  e ← Build mutE;
  Ret (e, rest).

End Build.

(** ** events.go *)

Definition Add (ee es : list Event) : list Event := ee ++ es.

Definition IDs (ee : list Event) : list (list Z) :=
  foldl (fun res e => res ++ [id (base e)]) [] ee.

Definition Bases (ee : list Event) : list BaseEvent :=
  foldl (fun res e => res ++ [base e]) [] ee.

Definition Len (ee : list Event) : Z := zlen ee.

Definition Swap (ee : list Event) (i j : Z) : go (list Event) :=
  x ← go_index ee j; y ← go_index ee i; ee ← go_update ee i x; go_update ee j y.

Definition Less (ee : list Event) (i j : Z) : go bool :=
  x ← go_index ee i; y ← go_index ee j; Ret (bytes_lt (id (base x)) (id (base y))).

(** ** Coherent events *)

(** The id, the hash and the size of an event are those of its encoding. *)
Definition coherent `{LachesisBase} (e : Event) : Prop :=
  exists raw h, MarshalBinary e = Ret raw /\ Size e = zlen raw /\
    HashToSign e = Ret h /\ eventHashToSign raw = Ret h /\
    id (base e) = base_id (epoch (base e)) (lamport (base e)) (calcEventID h).

(** The caches of a mutable event are empty, or those of its encoding. *)
Definition caches_valid (e : MutableEvent) : Prop :=
  _hashToSign (mext e) = None \/
  exists raw h, MarshalBinary (immutable e) = Ret raw /\ eventHashToSign raw = Ret h /\
    _hashToSign (mext e) = Some h /\ (_size (mext e) = 0 \/ _size (mext e) = zlen raw).

(** Everything but the id and the caches. *)
Definition same_fields (e1 e2 : Event) : Prop :=
  epoch (base e1) = epoch (base e2) /\ seq (base e1) = seq (base e2) /\
  frame (base e1) = frame (base e2) /\ isRoot (base e1) = isRoot (base e2) /\
  creator (base e1) = creator (base e2) /\ parents (base e1) = parents (base e2) /\
  lamport (base e1) = lamport (base e2) /\ rawTime (base e1) = rawTime (base e2) /\
  version (ext e1) = version (ext e2) /\ payload (ext e1) = payload (ext e2) /\
  sig (ext e1) = sig (ext e2).

(** The events that can be built: in the domain of their Go types, of a version
    the header can hold. *)
Definition buildable (e : MutableEvent) : Prop :=
  fields_ok (mbase e) (mext e) /\ sizes_ok (mbase e) (mext e) /\ version (mext e) < 16.

(** ** Lemmas *)

(** The encoding reads neither the id nor the caches. *)
Lemma MarshalBinary_same e1 e2 : same_fields e1 e2 -> MarshalBinary e1 = MarshalBinary e2.
Proof.
  destruct e1 as [[] []], e2 as [[] []]. unfold same_fields. cbn.
  intros (-> & -> & -> & -> & -> & -> & -> & -> & -> & -> & ->). reflexivity.
Qed.

(** The encoding is the unsigned bytes followed by the signature, and the
    unsigned bytes do not depend on it. *)
Lemma MarshalBinary_unsigned e :
  buildable e ->
  exists pre, forall s, length s = 64%nat -> is_bytes s ->
    MarshalBinary (immutable (SetSig e s)) = Ret (pre ++ s).
Proof.
  intros (Hok & Hsz & Hv).
  destruct (headers_spec (immutable e) Hok Hv) as (h3 & h2 & E3 & E2 & L3 & L2 & _).
  exists (h3 ++ h2 ++ compacts 8 (fields64_of (immutable e)) ++ compacts 4 (fields32_of (immutable e)) ++
          parent_tails (parents (mbase e)) ++ payload (mext e)).
  intros s Ls Bs. rewrite (MarshalBinary_layout _ h3 h2);
    [|destruct Hok; by constructor|exact Hsz|exact E3|exact L3|exact E2|exact L2].
  f_equal. unfold body. by rewrite <- !app_assoc.
Qed.

Lemma SetSig_id e : immutable (SetSig e (sig (mext e))) = immutable e.
Proof. by destruct e as [? []]. Qed.

Lemma encode_or_panic_Ret e raw : MarshalBinary (immutable e) = Ret raw -> encode_or_panic e = Ret raw.
Proof. intros E. unfold encode_or_panic. by rewrite E. Qed.

(** The encoding of a buildable event, with the hash of its unsigned bytes. *)
Lemma buildable_encodes e :
  buildable e -> exists pre, MarshalBinary (immutable e) = Ret (pre ++ sig (mext e)) /\
    eventHashToSign (pre ++ sig (mext e)) = Ret (Sha256.sum256 pre).
Proof.
  intros Hb. destruct (MarshalBinary_unsigned e Hb) as (pre & H).
  destruct (ok_sig _ _ (proj1 Hb)) as [Ls Bs]. exists pre.
  rewrite <- (SetSig_id e), H by done. split; [done|].
  apply eventHashToSign_app. unfold zlen. by rewrite Ls.
Qed.

(** The result of [Build]: the fields of [e], the derived id, full caches. *)
Definition built `{LachesisBase} (e : MutableEvent) (raw h : list Z) : Event :=
  MkEvent
    (MkBase (epoch (mbase e)) (seq (mbase e)) (frame (mbase e)) (isRoot (mbase e)) (creator (mbase e))
            (parents (mbase e)) (lamport (mbase e))
            (base_id (epoch (mbase e)) (lamport (mbase e)) (calcEventID h)) (rawTime (mbase e)))
    (MkExt (version (mext e)) (payload (mext e)) (sig (mext e)) (zlen raw) (Some h)).

Lemma Build_spec `{LachesisBase} e raw h :
  MarshalBinary (immutable e) = Ret raw -> eventHashToSign raw = Ret h -> caches_valid e ->
  Build e = Ret (built e raw h).
Proof.
  intros E Eh Hc. unfold Build, hashToSign. rewrite (encode_or_panic_Ret e raw E).
  cbn [mbind go_bind]. rewrite Eh. cbn [mbind go_bind].
  destruct e as [[] [ver pl sg sz ho]], Hc as [Hn|(raw' & h' & E' & Eh' & Hs & Hz)].
  - cbn in Hn. subst ho. cbn [_hashToSign mext SetID set_base mbind go_bind _size].
    rewrite (bool_decide_false (is_Some None)) by (by intros [? ?]). rewrite andb_false_r.
    unfold fillCaches. rewrite Eh. done.
  - rewrite E in E'. injection E' as <-. rewrite Eh in Eh'. injection Eh' as <-.
    cbn in Hs, Hz. subst ho. cbn [_hashToSign mext SetID set_base mbind go_bind _size].
    rewrite (bool_decide_true (is_Some _)) by eauto. rewrite andb_true_r.
    unfold fillCaches. rewrite Eh. destruct (Z.eqb_spec sz 0) as [->|Hne]; [done|].
    destruct Hz as [->| ->]; [done|]. done.
Qed.

Lemma built_same `{LachesisBase} e raw h : same_fields (built e raw h) (immutable e).
Proof. unfold same_fields. cbn. tauto. Qed.

Lemma decoded_same m e raw : same_fields (immutable (decoded m e raw)) e.
Proof. unfold same_fields. cbn. tauto. Qed.

Lemma built_coherent `{LachesisBase} e raw h :
  MarshalBinary (immutable e) = Ret raw -> eventHashToSign raw = Ret h -> coherent (built e raw h).
Proof.
  intros E Eh. exists raw, h. split; [rewrite <- E; apply MarshalBinary_same, built_same|]. by split_and!.
Qed.

(** Hashing, signing and building an event. *)
Lemma signed_build `{LachesisBase} e s :
  buildable e -> _hashToSign (mext e) = None -> length s = 64%nat -> is_bytes s ->
  exists h ev, MutableHashToSign e = Ret h /\ Build (SetSig e s) = Ret ev /\ coherent ev /\
    HashToSign ev = Ret h /\ same_fields ev (immutable (SetSig e s)).
Proof.
  intros Hb Hn Ls Bs. destruct (MarshalBinary_unsigned e Hb) as (pre & H').
  destruct (ok_sig _ _ (proj1 Hb)) as [Ls0 Bs0].
  assert (Hh : forall t, length t = 64%nat -> eventHashToSign (pre ++ t) = Ret (Sha256.sum256 pre))
    by (intros t Lt; apply eventHashToSign_app; unfold zlen; by rewrite Lt).
  exists (Sha256.sum256 pre), (built (SetSig e s) (pre ++ s) (Sha256.sum256 pre)). split_and!.
  - unfold MutableHashToSign, hashToSign. rewrite (encode_or_panic_Ret e (pre ++ sig (mext e)));
      [by apply Hh|]. by rewrite <- (H' (sig (mext e))), SetSig_id by done.
  - apply Build_spec; [by apply H'|by apply Hh|]. left. done.
  - apply built_coherent; [by apply H'|by apply Hh].
  - done.
  - apply built_same.
Qed.

(** The wire form of a coherent event is read back. *)
Lemma DecodeRLP_encoded `{LBL : LachesisBaseLaws} `{RL : RlpLaws} (e : Event) (rest : list Z) :
  fields_ok (base e) (ext e) -> sizes_ok (base e) (ext e) -> parents_in_epoch (base e) ->
  version (ext e) = 0 -> coherent e ->
  exists w, EncodeRLP e = Ret w /\ DecodeRLP (w ++ rest) = Ret (e, rest).
Proof.
  intros Hok Hsz Hep Hv (raw & h & E & Hz & Hh & Eh & Hid).
  destruct (MarshalBinary_bounds e Hok Hsz ltac:(lia)) as (raw' & E' & Braw & Lraw).
  rewrite E in E'. injection E' as <-. destruct Hsz as [Hp Hpl] eqn:?.
  destruct (rlp_bytes_encode raw rest Braw ltac:(lia)) as (sp & Er).
  exists (rlp_encode raw). split; [unfold EncodeRLP; by rewrite E|].
  destruct (UnmarshalBinary_encoded e MutableEvent_zero sp Hok Hsz Hep Hv) as (raw' & E' & Eu).
  rewrite E in E'. injection E' as <-.
  unfold DecodeRLP, MutableDecodeRLP. rewrite Er, Eu. cbn [mbind go_bind].
  assert (Em : MarshalBinary (immutable (decoded MutableEvent_zero e raw)) = Ret raw)
    by (rewrite <- E; apply MarshalBinary_same, decoded_same).
  assert (Hd : h = Sha256.sum256 (take (length raw - 64) raw)).
  { rewrite eventHashToSign_long in Eh by (unfold SigSize; pose proof (zlen_nonneg (parents (base e)));
      pose proof (zlen_nonneg (payload (ext e))); lia). congruence. }
  rewrite (Build_spec _ raw h Em Eh); [|right; exists raw, h; rewrite Hd in *; by auto].
  cbn [mbind go_bind]. do 2 f_equal. revert Hz Hh Hid. unfold Size, HashToSign.
  destruct e as [[] [? ? ? ? [h'|]]]; cbn; [|done]. intros -> [= ->] ->. done.
Qed.

(** ** Properties *)

(** C32: [Build] returns on every event that can be encoded and whose caches are
    empty or valid; the event it returns has the fields it was given and is
    coherent: its id is derived from the hash of its own encoding without the
    signature, and both caches hold the values of that encoding. *)
Theorem build_coherent `{LachesisBase} (e : MutableEvent) :
  buildable e -> caches_valid e ->
  exists ev, Build e = Ret ev /\ same_fields ev (immutable e) /\ coherent ev /\
    MutableHashToSign e = HashToSign ev /\ MutableSize e = Ret (Size ev).
Proof.
  intros Hb Hc. destruct (buildable_encodes e Hb) as (pre & E & Eh).
  exists (built e (pre ++ sig (mext e)) (Sha256.sum256 pre)).
  split; [by apply Build_spec|]. split; [apply built_same|]. split; [by apply built_coherent|].
  unfold MutableHashToSign, MutableSize, hashToSign, size.
  rewrite (encode_or_panic_Ret _ _ E). cbn [mbind go_bind]. by rewrite Eh.
Qed.

(** A signer hashes the unsigned event, stores any 64-byte signature and
    builds; the built event has that very hash, and an id derived from it, so
    the signature covers the id and does not change it. *)
Theorem sign_then_build `{LachesisBase} (e : MutableEvent) (s : list Z) :
  buildable e -> _hashToSign (mext e) = None -> length s = 64%nat -> is_bytes s ->
  exists h ev, MutableHashToSign e = Ret h /\ Build (SetSig e s) = Ret ev /\
    HashToSign ev = Ret h /\ sig (ext ev) = s /\
    id (base ev) = base_id (epoch (mbase e)) (lamport (mbase e)) (calcEventID h).
Proof.
  intros Hb Hn Ls Bs. destruct (signed_build e s Hb Hn Ls Bs) as (h & ev & Eh & Eb & Hc & Ehv & Hs).
  exists h, ev. split_and!; [done|done|done|apply Hs|].
  destruct Hc as (raw & h' & _ & _ & Eh' & _ & Hid). rewrite Ehv in Eh'. injection Eh' as <-. rewrite Hid.
  destruct Hs as (-> & _ & _ & _ & _ & _ & -> & _). done.
Qed.

(** C31: an event survives the wire: a coherent version-0 event written with
    [EncodeRLP] is read back by [DecodeRLP] as the same event, its id and caches
    included, and the rest of the stream is left untouched. *)
Theorem rlp_roundtrip `{LBL : LachesisBaseLaws} `{RL : RlpLaws} (e : Event) (rest : list Z) :
  fields_ok (base e) (ext e) -> sizes_ok (base e) (ext e) -> parents_in_epoch (base e) ->
  version (ext e) = 0 -> coherent e ->
  exists w, EncodeRLP e = Ret w /\ DecodeRLP (w ++ rest) = Ret (e, rest).
Proof. apply DecodeRLP_encoded. Qed.

(** ** Concrete events *)

Definition sample_mutable : MutableEvent := MutableFrom sample_event.

Definition sample_built : Event := Eval vm_compute in
  match @Build lachesis_be sample_mutable with Ret e => e | _ => sample_event end.

Lemma sample_buildable : buildable sample_mutable.
Proof. split_and!; [exact sample_ok|vm_compute; split; reflexivity..]. Qed.

Lemma build_coherent_witness :
  exists ev, @Build lachesis_be sample_mutable = Ret ev /\ same_fields ev (immutable sample_mutable) /\
    @coherent lachesis_be ev /\
    MutableHashToSign sample_mutable = HashToSign ev /\ MutableSize sample_mutable = Ret (Size ev).
Proof.
  apply (@build_coherent lachesis_be sample_mutable).
  - exact sample_buildable.
  - left. reflexivity.
Defined.

Lemma sign_then_build_witness :
  exists h ev, MutableHashToSign sample_mutable = Ret h /\
    @Build lachesis_be (SetSig sample_mutable (replicate 64 200)) = Ret ev /\
    HashToSign ev = Ret h /\ sig (ext ev) = replicate 64 200 /\
    id (base ev) = @base_id lachesis_be (epoch (mbase sample_mutable)) (lamport (mbase sample_mutable))
                     (calcEventID h).
Proof.
  apply (@sign_then_build lachesis_be sample_mutable (replicate 64 200)).
  - exact sample_buildable.
  - reflexivity.
  - reflexivity.
  - by_decide.
Defined.

Lemma sample_built_coherent : @coherent lachesis_be sample_built.
Proof.
  exists sample_raw, (Sha256.sum256 (take (length sample_raw - 64) sample_raw)).
  vm_compute. split_and!; reflexivity.
Qed.

Lemma rlp_roundtrip_witness :
  exists w, @EncodeRLP rlp_length_prefix sample_built = Ret w /\
    @DecodeRLP lachesis_be rlp_length_prefix (w ++ [1; 2]) = Ret (sample_built, [1; 2]).
Proof.
  apply (rlp_roundtrip (LBL := lachesis_be_laws) (RL := rlp_length_prefix_laws) sample_built [1; 2]).
  - constructor; by_decide.
  - vm_compute. split; reflexivity.
  - unfold parents_in_epoch. by_decide.
  - reflexivity.
  - exact sample_built_coherent.
Defined.

(** The setters leave the caches alone: an event that was built, made mutable
    again and changed is built with the id, the hash and the size it had. *)
Lemma rebuilt_keeps_stale_id :
  exists ev, @Build lachesis_be (SetPayload (MutableFrom sample_built) [9]) = Ret ev /\
    payload (ext ev) = [9] /\ base ev = base sample_built /\ Size ev = Size sample_built /\
    HashToSign ev <> MutableHashToSign (SetPayload (MutableFrom sample_built) [9]).
Proof.
  exists (immutable (SetPayload (MutableFrom sample_built) [9])).
  vm_compute. split_and!; first [reflexivity | discriminate].
Qed.

End EventBuild.
