(* ===== verification/RandSelect.v ===== *)
(** * gossip/randselect.go: the weighted random selection tree

    A tree of eight-way nodes stores the items; every node caches the number
    and the total weight of the items below it, and a map gives the position of
    each item.  The abstract view of a node of level [l] is its list of
    [8 ^ (l + 1)] slots, each empty or holding an item with its weight; an
    item's position is its index in that list.  Every operation of the tree is
    shown to be the obvious operation on the slots, and the whole structure to
    refine a finite map from items to positive weights.

    Recursion follows the level of a node; the [fuel] of the definitions is that
    level plus one, and the theorems show that this is enough. *)

From Stdlib Require Import ZArith Lia Bool.
From stdpp Require Import base list numbers option strings gmap.
From S2P Require Import Prelude.
Local Open Scope Z_scope.

Module RandSelect.

Definition wrsBranches : Z := 8.

Section Tree.
Context {K : Type} `{Countable K}.

(** The dynamic types behind [items [wrsBranches]interface{}]. *)
Inductive wrsNode :=
| MkNode (items : list branch_item) (weights : list Z) (sumWeight level itemCnt maxItems : Z)
with branch_item :=
| INil
| IItem (i : K)
| INode (n : wrsNode).

Definition items (n : wrsNode) := let '(MkNode x _ _ _ _ _) := n in x.
Definition weights (n : wrsNode) := let '(MkNode _ x _ _ _ _) := n in x.
Definition sumWeight (n : wrsNode) := let '(MkNode _ _ x _ _ _) := n in x.
Definition level (n : wrsNode) := let '(MkNode _ _ _ x _ _) := n in x.
Definition itemCnt (n : wrsNode) := let '(MkNode _ _ _ _ x _) := n in x.
Definition maxItems (n : wrsNode) := let '(MkNode _ _ _ _ _ x) := n in x.

Record weightedRandomSelect := MkWRS { root : wrsNode; idx : gmap K Z }.

Definition empty_items : list branch_item := replicate 8 INil.
Definition no_weights : list Z := replicate 8 0.

Definition newWeightedRandomSelect : weightedRandomSelect :=
  MkWRS (MkNode empty_items no_weights 0 0 0 wrsBranches) ∅.

Definition type_assertion : panic := PanicMsg "interface conversion".
Definition stack_overflow : panic := PanicMsg "stack overflow".

(** The condition of insert's loop: this branch takes no more items. *)
Definition occupied (lvl : Z) (b : branch_item) : go bool :=
  match b with
  | INil => Ret false
  | IItem _ => if lvl =? 0 then Ret true else Panics type_assertion
  | INode m => if lvl =? 0 then Ret true else Ret (itemCnt m =? maxItems m)
  end.

(** [for n.items[branch] != nil && .. { branch++; if branch == wrsBranches { panic(nil) } }]. *)
Fixpoint insert_branch (lvl : Z) (its : list branch_item) (branch : Z) : go Z :=
  match its with
  | [] => Panics NilPanic
  | b :: its' =>
      full ← occupied lvl b;
      if (full : bool) then insert_branch lvl its' (branch + 1) else Ret branch
  end.

Fixpoint insert (fuel : nat) (n : wrsNode) (item : K) (weight : Z) : go (wrsNode * Z) :=
  match fuel with
  | O => Panics stack_overflow
  | S fuel =>
      branch ← insert_branch (level n) (items n) 0;
      let cnt := itemCnt n + 1 in
      let sum := i64 (sumWeight n + weight) in
      w ← go_index (weights n) branch;
      ws ← go_update (weights n) branch (i64 (w + weight));
      if level n =? 0 then
        its ← go_update (items n) branch (IItem item);
        Ret (MkNode its ws sum (level n) cnt (maxItems n), branch)
      else
        b ← go_index (items n) branch;
        subNode ← match b with
                  | INil => Ret (MkNode empty_items no_weights 0 (level n - 1) 0
                                   (Z.quot (maxItems n) wrsBranches))
                  | IItem _ => Panics type_assertion
                  | INode m => Ret m
                  end;
        '(subNode, subIdx) ← insert fuel subNode item weight;
        its ← go_update (items n) branch (INode subNode);
        Ret (MkNode its ws sum (level n) cnt (maxItems n), maxItems subNode * branch + subIdx)
  end.

(** [wrsNode.setWeight]: the node and the returned change of weight. *)
Fixpoint setWeight_node (fuel : nat) (n : wrsNode) (idx weight : Z) : go (wrsNode * Z) :=
  match fuel with
  | O => Panics stack_overflow
  | S fuel =>
      if level n =? 0 then
        oldWeight ← go_index (weights n) idx;
        ws ← go_update (weights n) idx weight;
        let diff := i64 (weight - oldWeight) in
        let sum := i64 (sumWeight n + diff) in
        if weight =? 0 then
          its ← go_update (items n) idx INil;
          Ret (MkNode its ws sum (level n) (itemCnt n - 1) (maxItems n), diff)
        else Ret (MkNode (items n) ws sum (level n) (itemCnt n) (maxItems n), diff)
      else
        let branchItems := Z.quot (maxItems n) wrsBranches in
        let branch := Z.quot idx branchItems in
        b ← go_index (items n) branch;
        m ← match b with INode m => Ret m | _ => Panics type_assertion end;
        '(m, diff) ← setWeight_node fuel m (idx - branch * branchItems) weight;
        its ← go_update (items n) branch (INode m);
        w ← go_index (weights n) branch;
        ws ← go_update (weights n) branch (i64 (w + diff));
        let sum := i64 (sumWeight n + diff) in
        Ret (MkNode its ws sum (level n) (if weight =? 0 then itemCnt n - 1 else itemCnt n)
               (maxItems n), diff)
  end.

(** The range loop of [wrsNode.choose]; [rec] is the call on a sub-node. *)
Fixpoint choose_loop (rec : wrsNode -> Z -> go (K * Z)) (lvl : Z)
  (its : list branch_item) (ws : list Z) (val : Z) : go (K * Z) :=
  match its, ws with
  | b :: its', w :: ws' =>
      if val <? w then
        if lvl =? 0
        then match b with IItem i => Ret (i, w) | _ => Panics type_assertion end
        else match b with INode m => rec m val | _ => Panics type_assertion end
      else choose_loop rec lvl its' ws' (i64 (val - w))
  | _, _ => Panics NilPanic
  end.

Fixpoint choose_node (fuel : nat) (n : wrsNode) (val : Z) : go (K * Z) :=
  match fuel with
  | O => Panics stack_overflow
  | S fuel => choose_loop (choose_node fuel) (level n) (items n) (weights n) val
  end.

Definition node_fuel (n : wrsNode) : nat := S (Z.to_nat (level n)).

(** [weightedRandomSelect.setWeight]. *)
Definition setWeight (w : weightedRandomSelect) (item : K) (weight : Z) : go weightedRandomSelect :=
  match idx w !! item with
  | Some i =>
      '(r, _) ← setWeight_node (node_fuel (root w)) (root w) i weight;
      Ret (MkWRS r (if weight =? 0 then delete item (idx w) else idx w))
  | None =>
      if weight =? 0 then Ret w
      else
        let r := root w in
        let r := if itemCnt r =? maxItems r
                 then MkNode (<[0%nat := INode r]> empty_items) (<[0%nat := sumWeight r]> no_weights)
                        (sumWeight r) (level r + 1) (itemCnt r) (i64 (maxItems r * wrsBranches))
                 else r in
        '(r, i) ← insert (node_fuel r) r item weight;
        Ret (MkWRS r (<[item := i]> (idx w)))
  end.

Section Choose.
(** [item.Weight()], which may change the items ([St] is their state), and the
    [k]-th result of [rand.Int63n(n)]. *)
Context {St : Type} (Weight : St -> K -> go (Z * St)) (Int63n : nat -> Z -> Z).

Definition update (s : St) (w : weightedRandomSelect) (item : K) : go (weightedRandomSelect * St) :=
  '(weight, s) ← Weight s item;
  w ← setWeight w item weight;
  Ret (w, s).

Definition rand_Int63n (k : nat) (n : Z) : go Z :=
  if n <=? 0 then Panics (PanicMsg "invalid argument to Int63n") else Ret (Int63n k n).

(** The state of choose's loop: random numbers drawn, tree, items. *)
Abbreviation choose_state := (nat * weightedRandomSelect * St)%type.

(** One iteration: [inl] goes on, [inr] returns. *)
Definition choose_step (st : choose_state) : go (choose_state + option K * choose_state) :=
  let '(k, w, s) := st in
  if sumWeight (root w) =? 0 then Ret (inr (None, st))
  else
    val ← rand_Int63n k (sumWeight (root w));
    '(choice, lastWeight) ← choose_node (node_fuel (root w)) (root w) val;
    '(weight, s) ← Weight s choice;
    w ← (if negb (weight =? lastWeight) then setWeight w choice weight else Ret w);
    if weight >=? lastWeight then Ret (inr (Some choice, (S k, w, s)))
    else
      r ← rand_Int63n (S k) lastWeight;
      if r <? weight then Ret (inr (Some choice, (S (S k), w, s)))
      else Ret (inl (S (S k), w, s)).

(** The loop; [None] when [fuel] iterations have not returned. *)
Fixpoint choose (fuel : nat) (st : choose_state) : option (go (option K * choose_state)) :=
  match fuel with
  | O => None
  | S fuel =>
      match choose_step st with
      | Ret (inr res) => Some (Ret res)
      | Ret (inl st') => choose fuel st'
      | Err e => Some (Err e)
      | Panics p => Some (Panics p)
      | Exits m => Some (Exits m)
      end
  end.

(** [p] iterations, or fewer when one of them returns: [inl] when none has. *)
Fixpoint choose_upto (p : positive) (st : choose_state) : go (choose_state + option K * choose_state) :=
  let next q (r : choose_state + option K * choose_state) := match r with inl st => choose_upto q st | inr _ => Ret r end in
  match p with
  | xH => choose_step st
  | xO q => r ← choose_upto q st; next q r
  | xI q => r ← choose_step st; r ← next q r; next q r
  end.

Lemma choose_upto_spec p : forall n st,
  match choose_upto p st with
  | Ret (inr res) => choose (Pos.to_nat p + n) st = Some (Ret res)
  | Ret (inl st') => choose (Pos.to_nat p + n) st = choose n st'
  | Err e => choose (Pos.to_nat p + n) st = Some (Err e)
  | Panics x => choose (Pos.to_nat p + n) st = Some (Panics x)
  | Exits m => choose (Pos.to_nat p + n) st = Some (Exits m)
  end.
Proof.
  assert (Hone : forall n st, match choose_step st with
    | Ret (inr res) => choose (S n) st = Some (Ret res) | Ret (inl st') => choose (S n) st = choose n st'
    | Err e => choose (S n) st = Some (Err e) | Panics x => choose (S n) st = Some (Panics x) | Exits m => choose (S n) st = Some (Exits m) end).
  { intros n st. cbn [choose]. by destruct (choose_step st) as [[?|?]|?|?|?]. }
  induction p as [p IH|p IH|]; intros n st; cbn [choose_upto]; [| |exact (Hone n st)].
  - replace (Pos.to_nat p~1 + n)%nat with (S (Pos.to_nat p + (Pos.to_nat p + n)))%nat by lia. specialize (Hone (Pos.to_nat p + (Pos.to_nat p + n))%nat st).
    destruct (choose_step st) as [[st1|res]|x|x|x]; cbn [mbind go_bind]; [rewrite Hone; clear Hone|done..].
    pose proof (IH (Pos.to_nat p + n)%nat st1) as H1. destruct (choose_upto p st1) as [[st2|res]|x|x|x]; cbn [mbind go_bind]; [rewrite H1; apply IH|done..].
  - replace (Pos.to_nat p~0 + n)%nat with (Pos.to_nat p + (Pos.to_nat p + n))%nat by lia.
    pose proof (IH (Pos.to_nat p + n)%nat st) as H1. destruct (choose_upto p st) as [[st2|res]|x|x|x]; cbn [mbind go_bind]; [rewrite H1; apply IH|done..].
Qed.

End Choose.

Definition remove (w : weightedRandomSelect) (item : K) := setWeight w item 0.

End Tree.
Arguments wrsNode K : clear implicits.
Arguments branch_item K : clear implicits.
Arguments weightedRandomSelect K {_ _}.

(** ** The slots of a node *)

Section Slots.
Context {K : Type} `{Countable K}.
Abbreviation slot := (option (K * Z)).

Definition slot_weight (s : slot) : Z := match s with Some (_, w) => w | None => 0 end.
Definition slot_count (s : slot) : Z := match s with Some _ => 1 | None => 0 end.

Abbreviation total := (zsum slot_weight).
Abbreviation cnt := (zsum slot_count).

Definition leaf_slot (b : branch_item K) (w : Z) : slot :=
  match b with IItem i => Some (i, w) | _ => None end.

(** The number of slots of a node of level [l]. *)
Definition cap (l : nat) : nat := (8 ^ S l)%nat.

Fixpoint slots (l : nat) (n : wrsNode K) : list slot :=
  match l with
  | O => zip_with leaf_slot (items n) (weights n)
  | S l' =>
      concat ((fun b => match b with INode m => slots l' m | _ => replicate (cap l') None end)
                <$> items n)
  end.

Definition branch_slots (l : nat) (b : branch_item K) : list slot :=
  match b with INode m => slots l m | _ => replicate (cap l) None end.

Definition leaf_ok (b : branch_item K) (w : Z) : Prop :=
  match b with INil => w = 0 | IItem _ => 0 < w | INode _ => False end.

(** The representation invariant of a node of level [l]. *)
Fixpoint wf (l : nat) (n : wrsNode K) : Prop :=
  level n = Z.of_nat l /\ maxItems n = Z.of_nat (cap l) /\
  length (items n) = 8%nat /\
  sumWeight n = total (slots l n) /\ itemCnt n = cnt (slots l n) /\
  match l with
  | O => Forall2 leaf_ok (items n) (weights n)
  | S l' => Forall2 (fun b w => match b with
                                | INil => w = 0
                                | IItem _ => False
                                | INode m => wf l' m /\ w = sumWeight m
                                end) (items n) (weights n)
  end.

Definition branch_ok (l : nat) (b : branch_item K) (w : Z) : Prop :=
  match b with INil => w = 0 | IItem _ => False | INode m => wf l m /\ w = sumWeight m end.

Lemma slots_S l n : slots (S l) n = concat (branch_slots l <$> items n).
Proof. reflexivity. Qed.

Lemma cap_S l : cap (S l) = (8 * cap l)%nat.
Proof. reflexivity. Qed.

Lemma cap_pos l : (0 < cap l)%nat.
Proof. induction l; [by apply Nat.lt_0_succ|]. rewrite cap_S. lia. Qed.

Lemma branch_slots_length l its ws :
  (forall n, wf l n -> length (slots l n) = cap l) ->
  Forall2 (branch_ok l) its ws -> Forall (fun x => length x = cap l) (branch_slots l <$> its).
Proof.
  intros Hl Hf. apply Forall_fmap. induction Hf as [|b w its ws Hb _ IH]; constructor; [|done].
  destruct b; simpl; [by rewrite length_replicate|by destruct Hb|by apply Hl, Hb].
Qed.

Lemma slots_length l : forall n, wf l n -> length (slots l n) = cap l.
Proof.
  induction l as [|l IH]; intros n (Hlv & Hmx & Hli & Hs & Hc & Hf).
  - simpl. rewrite length_zip_with, <- (Forall2_length _ _ _ Hf), Hli. reflexivity.
  - rewrite slots_S, (concat_uniform_length (cap l)) by by eapply branch_slots_length.
    rewrite length_fmap, Hli, cap_S. lia.
Qed.

Lemma uniform_slots l its ws :
  Forall2 (branch_ok l) its ws -> Forall (fun x => length x = cap l) (branch_slots l <$> its).
Proof. apply branch_slots_length, slots_length. Qed.

(** Stored weights are positive. *)
Lemma slots_pos l : forall n k i w, wf l n -> slots l n !! k = Some (Some (i, w)) -> 0 < w.
Proof.
  induction l as [|l IH]; intros n k i w (Hlv & Hmx & Hli & Hs & Hc & Hf) E.
  - simpl in E. apply lookup_zip_with_Some in E as (b & w' & E & Eb & Ew).
    destruct b; try discriminate. injection E as -> ->.
    by apply (Forall2_lookup_lr _ _ _ _ _ _ Hf Eb Ew).
  - rewrite slots_S in E. apply list_elem_of_lookup_2 in E.
    apply list_elem_of_In, in_concat in E as (x & Hx & Hi).
    apply list_elem_of_In, list_elem_of_fmap in Hx as (b & -> & Hb).
    apply list_elem_of_In in Hi.
    apply list_elem_of_lookup in Hb as (j & Hj).
    destruct (Forall2_lookup_l _ _ _ _ _ Hf Hj) as (wb & _ & Hok). destruct b as [| |m]; simpl in *.
    + by apply elem_of_replicate in Hi as [? _].
    + done.
    + apply list_elem_of_lookup in Hi as (k' & Hk'). by apply (IH m k' i w (proj1 Hok)).
Qed.

Lemma slot_weights_nonneg l n : wf l n -> Forall (fun s => 0 <= slot_weight s) (slots l n).
Proof.
  intros Hwf. apply Forall_lookup_2. intros k [[i w]|] E; simpl; [|lia].
  apply (slots_pos l n k i w) in E; [lia|done].
Qed.

Lemma total_take_nonneg l n k : wf l n -> 0 <= total (take k (slots l n)).
Proof. intros Hwf. apply zsum_nonneg, Forall_take. by eapply slot_weights_nonneg. Qed.

Lemma total_nonneg l n : wf l n -> 0 <= total (slots l n).
Proof. intros Hwf. by eapply zsum_nonneg, slot_weights_nonneg. Qed.

(** A slot's weight is part of the total. *)
Lemma slot_le_total l n k s : wf l n -> slots l n !! k = Some s ->
  0 <= slot_weight s /\ total (take k (slots l n)) + slot_weight s <= total (slots l n).
Proof.
  intros Hwf E. pose proof (slot_weights_nonneg l n Hwf) as Hp. split.
  - by apply (Forall_lookup_1 _ _ _ _ Hp E).
  - rewrite (zsum_split _ _ _ _ E). assert (0 <= total (drop (S k) (slots l n)))
      by by apply zsum_nonneg, Forall_drop. lia.
Qed.

Lemma cnt_le_cap l n : wf l n -> cnt (slots l n) <= Z.of_nat (cap l).
Proof.
  intros Hwf. rewrite <- (slots_length l n Hwf).
  pose proof (zsum_le_bound slot_count (slots l n) 1). rewrite Z.mul_1_r in *.
  apply H0. apply Forall_true. intros [?|]; simpl; lia.
Qed.

(** The weight of a branch is the total of its slots. *)
Lemma branch_total l b w : branch_ok l b w -> w = total (branch_slots l b).
Proof.
  destruct b as [|i|m]; simpl; [|done|].
  - intros ->. rewrite zsum_replicate. simpl. lia.
  - intros [Hwf ->]. destruct l; apply Hwf.
Qed.

Lemma branch_totals l its ws i :
  Forall2 (branch_ok l) its ws ->
  total (concat (take i (branch_slots l <$> its))) = zsum id (take i ws).
Proof.
  intros Hf. revert i. induction Hf as [|b w its ws Hb _ IH]; intros [|i]; csimpl; try done.
  rewrite zsum_app, zsum_cons, IH, <- (branch_total l b w Hb). done.
Qed.

(** Replacing one slot of one branch replaces one slot of the node. *)
Lemma branch_update l n i b m' j x s sum' cnt' :
  wf (S l) n -> items n !! i = Some b -> branch_slots l b !! j = Some s ->
  wf l m' -> slots l m' = <[j := x]> (branch_slots l b) ->
  sum' = sumWeight n - slot_weight s + slot_weight x ->
  cnt' = itemCnt n - slot_count s + slot_count x ->
  let n' := MkNode (<[i := INode m']> (items n)) (<[i := sumWeight m']> (weights n)) sum'
              (level n) cnt' (maxItems n) in
  wf (S l) n' /\ slots (S l) n' = <[(i * cap l + j)%nat := x]> (slots (S l) n).
Proof.
  intros (Hlv & Hmx & Hli & Hs & Hc & Hf) Hb Hj Hm Hsl -> -> n'.
  pose proof (uniform_slots _ _ _ Hf) as Hu.
  assert (Hbi : (branch_slots l <$> items n) !! i = Some (branch_slots l b))
    by by rewrite list_lookup_fmap, Hb.
  assert (Hjc : (j < cap l)%nat).
  { rewrite <- (Forall_lookup_1 _ _ _ _ Hu Hbi). by eapply lookup_lt_Some. }
  assert (Hcell : slots (S l) n !! (i * cap l + j)%nat = Some s)
    by (rewrite slots_S, (concat_lookup (cap l) _ i (branch_slots l b)); done).
  assert (Hslots : slots (S l) n' = <[(i * cap l + j)%nat := x]> (slots (S l) n)).
  { rewrite !slots_S. subst n'. cbn [items]. rewrite list_fmap_insert. simpl. rewrite Hsl.
    by apply concat_insert. }
  split; [|done]. repeat split; try done.
  - subst n'. cbn [items]. by rewrite length_insert.
  - rewrite Hslots, (zsum_insert _ _ _ _ _ Hcell). subst n'. cbn [sumWeight itemCnt]. lia.
  - rewrite Hslots, (zsum_insert _ _ _ _ _ Hcell). subst n'. cbn [sumWeight itemCnt]. lia.
  - subst n'. cbn. by apply Forall2_insert.
Qed.

Definition fresh_node (l : nat) : wrsNode K :=
  MkNode empty_items no_weights 0 (Z.of_nat l) 0 (Z.of_nat (cap l)).

Lemma slots_fresh l : slots l (fresh_node l) = replicate (cap l) None.
Proof.
  destruct l; [reflexivity|]. rewrite slots_S. cbn [items fresh_node]. unfold empty_items.
  rewrite fmap_replicate, cap_S. cbn [branch_slots]. apply concat_replicate.
Qed.

Lemma wf_fresh l : wf l (fresh_node l).
Proof.
  destruct l; (split_and!; [done|done|done| | |repeat constructor]); cbn [sumWeight itemCnt fresh_node];
    rewrite slots_fresh, zsum_replicate; simpl; lia.
Qed.

(** A branch is part of the total. *)
Lemma branch_le_total l n i b wi :
  wf (S l) n -> items n !! i = Some b -> weights n !! i = Some wi ->
  0 <= zsum id (take i (weights n)) /\ 0 <= wi /\
  zsum id (take i (weights n)) + wi <= total (slots (S l) n).
Proof.
  intros (_ & _ & _ & _ & _ & Hf) Hi Hwi.
  assert (Hp : Forall (fun w => 0 <= id w) (weights n)).
  { apply Forall_lookup_2. intros j w Hj. destruct (Forall2_lookup_r _ _ _ _ _ Hf Hj) as (b' & _ & Hok).
    rewrite (branch_total l b' w Hok). unfold id. destruct b' as [|?|m]; simpl; [|done|].
    - rewrite zsum_replicate. simpl. lia.
    - by apply total_nonneg, Hok. }
  pose proof (branch_totals l _ _ (length (items n)) Hf) as Ht.
  rewrite take_ge in Ht by by rewrite length_fmap.
  rewrite take_ge in Ht by by rewrite (Forall2_length _ _ _ Hf).
  rewrite <- slots_S in Ht. rewrite Ht, (zsum_split id _ _ _ Hwi).
  assert (0 <= zsum id (drop (S i) (weights n))) by by apply zsum_nonneg, Forall_drop.
  assert (0 <= zsum id (take i (weights n))) by by apply zsum_nonneg, Forall_take.
  pose proof (Forall_lookup_1 _ _ _ _ Hp Hwi) as H3. unfold id in *. lia.
Qed.

(** ** insert *)

Lemma insert_branch_first lvl (full : branch_item K -> bool) its : forall k,
  Forall (fun b => occupied lvl b = Ret (full b)) its -> Exists (fun b => full b = false) its ->
  exists i b, its !! i = Some b /\ full b = false /\ insert_branch lvl its k = Ret (k + Z.of_nat i).
Proof.
  induction its as [|b its IH]; intros k Ho Hx; [by inversion Hx|].
  inversion Ho as [|? ? Hb Ho' ]; subst. simpl. rewrite Hb. simpl. destruct (full b) eqn:Eb.
  - destruct (IH (k + 1)) as (i & b' & Hi & Hf & E); [done|inversion Hx; [congruence|done]|].
    exists (S i), b'. rewrite E. split_and!; [done|done|]. f_equal. lia.
  - exists O, b. split_and!; [done|done|]. f_equal. lia.
Qed.

(** Some branch is not full as long as the node is not. *)
Lemma exists_not_full {B} (full : B -> bool) (c : Z) (f : B -> Z) its :
  Forall (fun b => full b = true -> f b = c) its -> zsum f its < Z.of_nat (length its) * c ->
  Exists (fun b => full b = false) its.
Proof.
  intros Hf Hlt. destruct (decide (Exists (fun b => full b = false) its)) as [|Hn]; [done|].
  exfalso. rewrite (zsum_all_eq f its c) in Hlt; [lia|]. rewrite Forall_forall in *.
  intros b Hb. apply (Hf b Hb). destruct (full b) eqn:E; [done|].
  exfalso. apply Hn, Exists_exists. eauto.
Qed.

Definition leaf_full (b : branch_item K) : bool := match b with INil => false | _ => true end.
Definition node_full (b : branch_item K) : bool :=
  match b with INode m => itemCnt m =? maxItems m | _ => false end.

Lemma leaf_count its ws :
  Forall2 leaf_ok its ws ->
  cnt (zip_with leaf_slot its ws) = zsum (fun b => if leaf_full b then 1 else 0) its.
Proof.
  induction 1 as [|b w its ws Hb _ IH]; [done|]. simpl. rewrite !zsum_cons, IH.
  by destruct b.
Qed.

Lemma node_count l its : cnt (concat (branch_slots l <$> its)) = zsum (fun b => cnt (branch_slots l b)) its.
Proof. rewrite zsum_concat. induction its as [|b its IH]; [done|]. csimpl. by rewrite zsum_cons, IH. Qed.

Lemma wf_facts l n : wf l n ->
  level n = Z.of_nat l /\ maxItems n = Z.of_nat (cap l) /\ length (items n) = 8%nat /\
  sumWeight n = total (slots l n) /\ itemCnt n = cnt (slots l n).
Proof. destruct l; intros (H1 & H2 & H3 & H4 & H5 & _); done. Qed.

Lemma insert_leaf_branch n : wf 0 n -> itemCnt n < maxItems n ->
  exists i, items n !! i = Some INil /\ insert_branch (level n) (items n) 0 = Ret (Z.of_nat i).
Proof.
  intros (Hlv & Hmx & Hli & Hs & Hc & Hf) Hlt. rewrite Hlv.
  destruct (insert_branch_first 0 leaf_full (items n) 0) as (i & b & Hi & Hb & E).
  - apply Forall_true. by intros [].
  - apply (exists_not_full leaf_full 1 (fun b => if leaf_full b then 1 else 0)).
    + apply Forall_true. by intros b ->.
    + rewrite <- (leaf_count _ _ Hf), Hli. change (cap 0) with 8%nat in Hmx. simpl in Hc. lia.
  - exists i. rewrite Hi. by destruct b.
Qed.

Lemma insert_node_branch l n : wf (S l) n -> itemCnt n < maxItems n ->
  exists i b, items n !! i = Some b /\ node_full b = false /\
    insert_branch (level n) (items n) 0 = Ret (Z.of_nat i).
Proof.
  intros (Hlv & Hmx & Hli & Hs & Hc & Hf) Hlt. rewrite Hlv.
  assert (Hb : Forall (fun b => exists w, branch_ok l b w) (items n)).
  { apply Forall_lookup_2. intros i b Hi. destruct (Forall2_lookup_l _ _ _ _ _ Hf Hi) as (w & _ & ?).
    by exists w. }
  apply (insert_branch_first _ node_full (items n) 0).
  - eapply Forall_impl; [exact Hb|]. intros b [w Hw]. unfold occupied.
    rewrite (proj2 (Z.eqb_neq _ _)) by lia. by destruct b.
  - apply (exists_not_full node_full (Z.of_nat (cap l)) (fun b => cnt (branch_slots l b))).
    + eapply Forall_impl; [exact Hb|]. intros [| |m] [w Hw] Hn; try discriminate. simpl.
      destruct (wf_facts l m (proj1 Hw)) as (_ & Hm & _ & _ & Hcm). simpl in Hn.
      apply Z.eqb_eq in Hn. lia.
    + rewrite <- node_count, <- slots_S, Hli, cap_S in *. lia.
Qed.

(** Replacing an item or its weight in a leaf. *)
Lemma leaf_update n i b w b' w' sum' cnt' :
  wf 0 n -> items n !! i = Some b -> weights n !! i = Some w -> leaf_ok b' w' ->
  sum' = sumWeight n - slot_weight (leaf_slot b w) + slot_weight (leaf_slot b' w') ->
  cnt' = itemCnt n - slot_count (leaf_slot b w) + slot_count (leaf_slot b' w') ->
  let n' := MkNode (<[i := b']> (items n)) (<[i := w']> (weights n)) sum' (level n) cnt' (maxItems n) in
  wf 0 n' /\ slots 0 n' = <[i := leaf_slot b' w']> (slots 0 n).
Proof.
  intros (Hlv & Hmx & Hli & Hs & Hc & Hf) Hb Hw Hok -> -> n'.
  assert (Hslots : slots 0 n' = <[i := leaf_slot b' w']> (slots 0 n))
    by (subst n'; simpl; by rewrite insert_zip_with).
  assert (Hcell : slots 0 n !! i = Some (leaf_slot b w))
    by (simpl; rewrite lookup_zip_with, Hb; simpl; by rewrite Hw).
  split; [|done]. split_and!; [done|done| | | |].
  - subst n'. cbn [items]. by rewrite length_insert.
  - rewrite Hslots, (zsum_insert _ _ _ _ _ Hcell). subst n'. cbn [sumWeight]. lia.
  - rewrite Hslots, (zsum_insert _ _ _ _ _ Hcell). subst n'. cbn [itemCnt]. lia.
  - subst n'. cbn. by apply Forall2_insert.
Qed.

Lemma leaf_insert_spec n item w :
  wf 0 n -> itemCnt n < maxItems n -> 0 < w -> total (slots 0 n) + w < 2 ^ 63 ->
  exists n' k, insert 1 n item w = Ret (n', Z.of_nat k) /\ wf 0 n' /\
    slots 0 n !! k = Some None /\ slots 0 n' = <[k := Some (item, w)]> (slots 0 n).
Proof.
  intros Hwf Hlt Hw Hov. destruct (insert_leaf_branch n Hwf Hlt) as (i & Hi & E).
  pose proof (total_nonneg _ _ Hwf) as H0. destruct (wf_facts _ _ Hwf) as (Hlv & _ & _ & Hs & _).
  destruct Hwf as (? & ? & Hli & ? & ? & Hf) eqn:Hwf'. clear Hwf'.
  destruct (Forall2_lookup_l _ _ _ _ _ Hf Hi) as (wi & Hwi & Hok). simpl in Hok. subst wi.
  destruct (leaf_update n i INil 0 (IItem item) w (i64 (sumWeight n + w)) (itemCnt n + 1))
    as (Hwf' & Hsl); try done; [by simpl; rewrite i64_id by lia; lia|simpl; lia|].
  eexists _, i. split; [|split; [exact Hwf'|split; [|exact Hsl]]].
  - cbn [insert]. rewrite E. cbn [mbind go_bind]. rewrite (go_index_Ret _ _ _ Hwi). cbn [mbind go_bind].
    rewrite go_update_Ret by by eapply lookup_lt_Some. cbn [mbind go_bind]. rewrite Hlv. cbn [Z.of_nat Z.eqb].
    rewrite go_update_Ret by by eapply lookup_lt_Some. cbn [mbind go_bind].
    by rewrite (i64_id (0 + w)) by lia.
  - simpl. rewrite lookup_zip_with, Hi. simpl. by rewrite Hwi.
Qed.

Lemma insert_spec l : forall n item w,
  wf l n -> itemCnt n < maxItems n -> 0 < w -> total (slots l n) + w < 2 ^ 63 ->
  exists n' k, insert (S l) n item w = Ret (n', Z.of_nat k) /\ wf l n' /\
    slots l n !! k = Some None /\ slots l n' = <[k := Some (item, w)]> (slots l n).
Proof.
  induction l as [|l IH]; [exact leaf_insert_spec|]. intros n item w Hwf Hlt Hw Hov.
  destruct (insert_node_branch l n Hwf Hlt) as (i & b & Hi & Hb & E).
  pose proof (total_nonneg _ _ Hwf) as H0. destruct (wf_facts _ _ Hwf) as (Hlv & Hmx & Hli & Hs & Hc).
  pose proof Hwf as (_ & _ & _ & _ & _ & Hf).
  destruct (Forall2_lookup_l _ _ _ _ _ Hf Hi) as (wi & Hwi & Hok).
  pose proof (branch_total l b wi Hok) as Hbt.
  destruct (branch_le_total l n i b wi Hwf Hi Hwi) as (Hp0 & Hw0 & Hple).
  set (sub := match b with INode m => m | _ => fresh_node l end).
  assert (Hsub : wf l sub /\ slots l sub = branch_slots l b /\ itemCnt sub < maxItems sub).
  { destruct b as [|?|m]; [|done|].
    - pose proof (wf_fresh l). pose proof (cap_pos l). split_and!; [done|apply slots_fresh|simpl; lia].
    - subst sub. split_and!; [apply Hok|done|]. destruct (wf_facts l m (proj1 Hok)) as (_ & Hm & _ & _ & Hcm).
      pose proof (cnt_le_cap l m (proj1 Hok)). simpl in Hb. apply Z.eqb_neq in Hb. lia. }
  destruct Hsub as (Hsw & Hss & Hsc).
  destruct (IH sub item w Hsw Hsc Hw) as (m' & k & Em & Hwm & Hk & Hsm); [rewrite Hss, <- Hbt; lia|].
  rewrite Hss in Hk, Hsm. pose proof (zsum_insert slot_weight _ _ _ (Some (item, w)) Hk) as Htm.
  destruct (wf_facts l m' Hwm) as (_ & Hm' & _ & Hsum' & _). rewrite Hsm, Htm, <- Hbt in Hsum'. simpl in Hsum'.
  destruct (branch_update l n i b m' k (Some (item, w)) None (i64 (sumWeight n + w)) (itemCnt n + 1))
    as (Hwf' & Hsl); try done; [simpl; rewrite i64_id by lia; lia|simpl; lia|].
  eexists _, (i * cap l + k)%nat. split; [|split; [exact Hwf'|split; [|exact Hsl]]].
  - set (f := S l) in Em |- *. clearbody f. cbn [insert]. rewrite E. cbn [mbind go_bind]. rewrite (go_index_Ret _ _ _ Hwi). cbn [mbind go_bind].
    rewrite (go_update_Ret (weights n)) by by eapply lookup_lt_Some. cbn [mbind go_bind].
    rewrite (proj2 (Z.eqb_neq (level n) 0)) by lia.
    rewrite (go_index_Ret _ _ _ Hi). cbn [mbind go_bind].
    assert (Hd : match b with
        | INil => Ret (MkNode empty_items no_weights 0 (level n - 1) 0 (Z.quot (maxItems n) wrsBranches))
        | IItem _ => Panics type_assertion
        | INode m => Ret m
        end = Ret sub).
    { destruct b; [|done|done]. subst sub. unfold fresh_node, wrsBranches. do 2 f_equal; [lia|].
      rewrite Hmx, cap_S, Nat2Z.inj_mul, Z.mul_comm. apply Z.quot_mul. lia. }
    rewrite Hd. cbn [mbind go_bind]. rewrite Em. cbn [mbind go_bind].
    rewrite (go_update_Ret (items n)) by by eapply lookup_lt_Some. cbn [mbind go_bind].
    rewrite Hm', !i64_id by lia. replace (sumWeight m') with (wi + w) by lia. do 2 f_equal. lia.
  - rewrite slots_S, (concat_lookup (cap l) _ i (branch_slots l b)); [done|by eapply uniform_slots| |].
    + by rewrite list_lookup_fmap, Hi.
    + apply lookup_lt_Some in Hk. by rewrite <- Hss, (slots_length l sub Hsw) in Hk.
Qed.

(** ** setWeight *)

Definition new_slot (item : K) (w : Z) : slot := if w =? 0 then None else Some (item, w).

Lemma new_slot_weight item w : slot_weight (new_slot item w) = w.
Proof. unfold new_slot. destruct (Z.eqb_spec w 0); by subst. Qed.

Lemma leaf_setWeight_spec n k item old w :
  wf 0 n -> slots 0 n !! k = Some (Some (item, old)) -> 0 <= w ->
  total (slots 0 n) - old + w < 2 ^ 63 -> total (slots 0 n) < 2 ^ 63 ->
  exists n', setWeight_node 1 n (Z.of_nat k) w = Ret (n', w - old) /\ wf 0 n' /\
    slots 0 n' = <[k := new_slot item w]> (slots 0 n).
Proof.
  intros Hwf Hk Hw Hov Hlt. pose proof (slots_pos _ _ _ _ _ Hwf Hk) as Hold.
  destruct (slot_le_total _ _ _ _ Hwf Hk) as (_ & Hle). cbn [slot_weight] in Hle.
  pose proof (total_take_nonneg 0 n k Hwf) as Ht0.
  destruct (wf_facts _ _ Hwf) as (Hlv & _ & _ & Hs & Hc).
  simpl in Hk. apply lookup_zip_with_Some in Hk as (b & w0 & E & Hb & Hw0).
  destruct b as [|i|]; try discriminate. injection E as <- <-.
  set (b' := if w =? 0 then INil else IItem item).
  assert (Hb' : leaf_ok b' w /\ leaf_slot b' w = new_slot item w).
  { subst b'. unfold new_slot. destruct (Z.eqb_spec w 0); simpl; split; done || lia. }
  destruct Hb' as [Hok Hsl]. pose proof (new_slot_weight item w) as Hnw. rewrite <- Hsl in Hnw |- *.
  destruct (leaf_update n k (IItem item) old b' w (i64 (sumWeight n + i64 (w - old)))
              (if w =? 0 then itemCnt n - 1 else itemCnt n)) as (Hwf' & Hs'); try done.
  { rewrite (i64_id (w - old)), i64_id by lia. rewrite Hnw. cbn [slot_weight leaf_slot]. lia. }
  { subst b'. destruct (w =? 0); simpl; lia. }
  eexists. split; [|by split; [exact Hwf'|]]. cbn [setWeight_node].
  rewrite (proj2 (Z.eqb_eq (level n) 0)) by done.
  rewrite (go_index_Ret _ _ _ Hw0). cbn [mbind go_bind].
  rewrite (go_update_Ret (weights n)) by by eapply lookup_lt_Some. cbn [mbind go_bind].
  rewrite (i64_id (w - old)) by lia. subst b'. destruct (w =? 0).
  - by rewrite (go_update_Ret (items n)) by by eapply lookup_lt_Some.
  - by rewrite (list_insert_id (items n)) by done.
Qed.

(** A position splits into a branch and a position inside it. *)
Lemma position_split l k : (k < cap (S l))%nat ->
  exists i j, k = (i * cap l + j)%nat /\ (i < 8)%nat /\ (j < cap l)%nat /\
    Z.quot (Z.of_nat k) (Z.of_nat (cap l)) = Z.of_nat i.
Proof.
  intros Hk. rewrite cap_S in Hk. pose proof (cap_pos l) as Hc.
  exists (k / cap l)%nat, (k mod cap l)%nat. split_and!.
  - rewrite Nat.mul_comm. apply Nat.div_mod. lia.
  - apply Nat.Div0.div_lt_upper_bound. lia.
  - apply Nat.mod_upper_bound. lia.
  - rewrite Z.quot_div_nonneg by lia. by rewrite Nat2Z.inj_div.
Qed.

(** The slot at a position of an inner node lies in a sub-node. *)
Lemma node_slot l n k item old :
  wf (S l) n -> slots (S l) n !! k = Some (Some (item, old)) ->
  exists i j m, k = (i * cap l + j)%nat /\ (j < cap l)%nat /\
    Z.quot (Z.of_nat k) (Z.of_nat (cap l)) = Z.of_nat i /\
    items n !! i = Some (INode m) /\ weights n !! i = Some (sumWeight m) /\ wf l m /\
    slots l m !! j = Some (Some (item, old)).
Proof.
  intros Hwf Hk. destruct (wf_facts _ _ Hwf) as (_ & _ & Hli & _).
  destruct (position_split l k) as (i & j & -> & Hi & Hj & Hq).
  { apply lookup_lt_Some in Hk. by rewrite slots_length in Hk. }
  pose proof Hwf as (_ & _ & _ & _ & _ & Hf).
  destruct (lookup_lt_is_Some_2 (items n) i) as [b Hb]; [lia|].
  destruct (Forall2_lookup_l _ _ _ _ _ Hf Hb) as (wi & Hwi & Hok).
  rewrite slots_S, (concat_lookup (cap l) _ i (branch_slots l b)) in Hk;
    [|by eapply uniform_slots|by rewrite list_lookup_fmap, Hb|done].
  exists i, j. destruct b as [|?|m]; simpl in *; [|done|].
  - by apply lookup_replicate_1 in Hk as [? _].
  - destruct Hok as [Hm ->]. exists m. split_and!; done.
Qed.

Lemma setWeight_node_spec l : forall n k item old w,
  wf l n -> slots l n !! k = Some (Some (item, old)) -> 0 <= w ->
  total (slots l n) - old + w < 2 ^ 63 -> total (slots l n) < 2 ^ 63 ->
  exists n', setWeight_node (S l) n (Z.of_nat k) w = Ret (n', w - old) /\ wf l n' /\
    slots l n' = <[k := new_slot item w]> (slots l n).
Proof.
  induction l as [|l IH]; [exact leaf_setWeight_spec|]. intros n k item old w Hwf Hk Hw Hov Hlt.
  pose proof (slots_pos _ _ _ _ _ Hwf Hk) as Hold.
  destruct (slot_le_total _ _ _ _ Hwf Hk) as (_ & Hle). cbn [slot_weight] in Hle.
  pose proof (total_take_nonneg (S l) n k Hwf) as Ht0.
  destruct (wf_facts _ _ Hwf) as (Hlv & Hmx & Hli & Hs & Hc).
  destruct (node_slot l n k item old Hwf Hk) as (i & j & m & -> & Hj & Hq & Hi & Hwi & Hm & Hsj).
  destruct (branch_le_total l n i _ _ Hwf Hi Hwi) as (Hp0 & Hw0 & Hple).
  destruct (wf_facts _ _ Hm) as (_ & _ & _ & Hsm & _).
  destruct (slot_le_total _ _ _ _ Hm Hsj) as (_ & Hlem). cbn [slot_weight] in Hlem.
  pose proof (total_take_nonneg l m j Hm).
  destruct (IH m j item old w Hm Hsj Hw) as (m' & Em & Hm' & Hsl'); [lia|lia|].
  destruct (wf_facts _ _ Hm') as (_ & _ & _ & Hsm' & _).
  rewrite Hsl', (zsum_insert _ _ _ _ _ Hsj), new_slot_weight in Hsm'. cbn [slot_weight] in Hsm'.
  destruct (branch_update l n i (INode m) m' j (new_slot item w) (Some (item, old))
              (i64 (sumWeight n + (w - old))) (if w =? 0 then itemCnt n - 1 else itemCnt n))
    as (Hwf' & Hs'); try done.
  { rewrite new_slot_weight. cbn [slot_weight]. rewrite i64_id by lia. lia. }
  { unfold new_slot. destruct (w =? 0); cbn [slot_count]; lia. }
  eexists. split; [|by split; [exact Hwf'|]].
  set (f := S l) in Em |- *. clearbody f. cbn [setWeight_node].
  rewrite (proj2 (Z.eqb_neq (level n) 0)) by lia.
  assert (Hbi : Z.quot (maxItems n) wrsBranches = Z.of_nat (cap l)).
  { unfold wrsBranches. rewrite Hmx, cap_S, Nat2Z.inj_mul, Z.mul_comm. apply Z.quot_mul. lia. }
  rewrite Hbi, Hq. rewrite (go_index_Ret _ _ _ Hi). cbn [mbind go_bind].
  replace (Z.of_nat (i * cap l + j) - Z.of_nat i * Z.of_nat (cap l)) with (Z.of_nat j) by lia.
  rewrite Em. cbn [mbind go_bind]. rewrite (go_update_Ret (items n)) by by eapply lookup_lt_Some.
  cbn [mbind go_bind]. rewrite (go_index_Ret _ _ _ Hwi). cbn [mbind go_bind].
  rewrite go_update_Ret by by eapply lookup_lt_Some. cbn [mbind go_bind].
  rewrite (i64_id (sumWeight m + (w - old))) by lia.
  replace (sumWeight m + (w - old)) with (sumWeight m') by lia. done.
Qed.

(** ** choose *)

(** The loop skips the branches before the one whose interval holds [val]. *)
Lemma choose_loop_skip (rec : wrsNode K -> Z -> go (K * Z)) lvl its ws val i b w :
  Forall (fun w => 0 <= id w) ws -> zsum id ws < 2 ^ 63 ->
  its !! i = Some b -> ws !! i = Some w ->
  zsum id (take i ws) <= val < zsum id (take i ws) + w ->
  choose_loop rec lvl its ws val =
    if lvl =? 0
    then match b with IItem i => Ret (i, w) | _ => Panics type_assertion end
    else match b with INode m => rec m (val - zsum id (take i ws)) | _ => Panics type_assertion end.
Proof.
  intros Hp. revert its i val. induction Hp as [|w0 ws Hw0 Hp IH]; intros its i val Hlt Hi Hw Hv; [done|].
  destruct its as [|b0 its]; [done|]. destruct i as [|i]; simpl in *.
  - injection Hi as ->. injection Hw as ->. change (zsum id []) with 0 in *.
    rewrite (proj2 (Z.ltb_lt _ _)) by lia. by rewrite Z.sub_0_r.
  - rewrite zsum_cons in *. pose proof (zsum_split id _ _ _ Hw) as Hsp. unfold id in *.
    assert (0 <= zsum (fun x => x) (take i ws)) by by apply zsum_nonneg, Forall_take.
    assert (0 <= zsum (fun x => x) (drop (S i) ws)) by by apply zsum_nonneg, Forall_drop.
    rewrite (proj2 (Z.ltb_ge val w0)), i64_id by lia.
    rewrite (IH its i) by (done || lia). by replace (val - (w0 + _)) with
      (val - w0 - zsum (fun x => x) (take i ws)) by lia.
Qed.

(** The weights of a node add up to the total of its slots. *)
Lemma leaf_weights n k : wf 0 n ->
  Forall (fun w => 0 <= id w) (weights n) /\ zsum id (take k (weights n)) = total (take k (slots 0 n)).
Proof.
  intros (_ & _ & _ & _ & _ & Hf). split.
  - apply Forall_lookup_2. intros j w Hj. destruct (Forall2_lookup_r _ _ _ _ _ Hf Hj) as (b & _ & Hok).
    unfold id. destruct b; simpl in Hok; lia.
  - simpl. revert k. induction Hf as [|b w its ws Hb _ IH]; intros [|k]; simpl; try done.
    rewrite !zsum_cons, IH. destruct b; simpl in *; unfold id; [lia|lia|done].
Qed.

Lemma node_weights l n k : wf (S l) n ->
  Forall (fun w => 0 <= id w) (weights n) /\
  zsum id (take k (weights n)) = total (concat (take k (branch_slots l <$> items n))).
Proof.
  intros Hwf. pose proof Hwf as (_ & _ & _ & _ & _ & Hf). split; [|by rewrite (branch_totals l _ _ _ Hf)].
  apply Forall_lookup_2. intros j w Hj. destruct (Forall2_lookup_r _ _ _ _ _ Hf Hj) as (b & Hb & _).
  by destruct (branch_le_total l n j b w Hwf Hb Hj) as (_ & Hw0 & _).
Qed.

Lemma choose_node_spec l : forall n k item w val,
  wf l n -> total (slots l n) < 2 ^ 63 -> slots l n !! k = Some (Some (item, w)) ->
  total (take k (slots l n)) <= val < total (take k (slots l n)) + w ->
  choose_node (S l) n val = Ret (item, w).
Proof.
  induction l as [|l IH]; intros n k item w val Hwf Hov Hk Hv;
    destruct (wf_facts _ _ Hwf) as (Hlv & _ & Hli & Hs & _).
  - destruct (leaf_weights n k Hwf) as (Hp & Ht).
    destruct (leaf_weights n (length (weights n)) Hwf) as (_ & Htt).
    rewrite take_ge, take_ge in Htt by (done || (simpl; rewrite length_zip_with; lia)).
    simpl in Hk. apply lookup_zip_with_Some in Hk as (b & w' & E & Hb & Hw').
    destruct b; try discriminate. injection E as -> ->.
    cbn [choose_node]. rewrite (choose_loop_skip _ _ _ _ _ k (IItem i) w' Hp) by (done || lia).
    by rewrite Hlv.
  - destruct (node_slot l n k item w Hwf Hk) as (i & j & m & -> & Hj & _ & Hi & Hwi & Hm & Hsj).
    destruct (node_weights l n i Hwf) as (Hp & Ht).
    destruct (branch_le_total l n i _ _ Hwf Hi Hwi) as (Hp0 & Hw0 & Hple).
    destruct (wf_facts _ _ Hm) as (_ & _ & _ & Hsm & _).
    destruct (slot_le_total _ _ _ _ Hm Hsj) as (_ & Hlem). cbn [slot_weight] in Hlem.
    pose proof (total_take_nonneg l m j Hm) as Hj0. pose proof Hwf as (_ & _ & _ & _ & _ & Hf).
    rewrite slots_S, (concat_take_middle (cap l) _ i (slots l m)), zsum_app, <- Ht in Hv;
      [|by eapply uniform_slots|by rewrite list_lookup_fmap, Hi|lia].
    assert (Htot : zsum id (weights n) = total (slots (S l) n)).
    { destruct (node_weights l n (length (items n)) Hwf) as (_ & Htt).
      rewrite take_ge, take_ge in Htt; [by rewrite slots_S| |]; rewrite ?length_fmap; [done|].
      by rewrite <- (Forall2_length _ _ _ Hf). }
    cbn [choose_node]. fold (@choose_node K). change (choose_loop (choose_node (S l)) (level n) (items n) (weights n) val = Ret (item, w)).
    rewrite (choose_loop_skip _ _ _ _ _ i (INode m) (sumWeight m) Hp) by (done || lia).
    rewrite Hlv, (proj2 (Z.eqb_neq _ 0)) by lia. apply (IH m j); [done|lia|done|lia].
Qed.

(** Every number below the total falls into the interval of exactly one slot. *)
Lemma pick_slot (sl : list slot) val :
  Forall (fun s => 0 <= slot_weight s) sl -> 0 <= val < total sl ->
  exists k item w, sl !! k = Some (Some (item, w)) /\ total (take k sl) <= val < total (take k sl) + w.
Proof.
  intros Hp. revert val. induction Hp as [|s sl Hs Hp IH]; intros val Hv.
  { change (total []) with 0 in Hv. lia. }
  rewrite zsum_cons in Hv. destruct (Z.lt_ge_cases val (slot_weight s)) as [Hlt|Hge].
  - destruct s as [[item w]|]; simpl in *; [|lia]. exists O, item, w. change (total (take 0 _)) with 0. split; [done|lia].
  - destruct (IH (val - slot_weight s)) as (k & item & w & Hk & Hkv); [lia|].
    exists (S k), item, w. simpl. rewrite zsum_cons. split; [done|lia].
Qed.

(** ** The whole structure refines a map from items to weights *)

(** Items are where [idx] says, and [m] holds the weights of the slots. *)
Definition indexed (w : weightedRandomSelect K) (m : gmap K Z) (sl : list slot) : Prop :=
  (forall k item wt, sl !! k = Some (Some (item, wt)) ->
     idx w !! item = Some (Z.of_nat k) /\ m !! item = Some wt) /\
  (forall item i, idx w !! item = Some i ->
     exists k wt, i = Z.of_nat k /\ sl !! k = Some (Some (item, wt))) /\
  (forall item wt, m !! item = Some wt -> is_Some (idx w !! item)).

Definition refines (w : weightedRandomSelect K) (m : gmap K Z) : Prop :=
  exists l, (l <= 19)%nat /\ wf l (root w) /\ sumWeight (root w) < 2 ^ 63 /\
            indexed w m (slots l (root w)).

(** The abstract operation: a zero weight removes the item. *)
Definition set_weight (m : gmap K Z) (item : K) (wt : Z) : gmap K Z :=
  if wt =? 0 then delete item m else <[item := wt]> m.

(** A stored item, seen from the map. *)
Lemma indexed_lookup w m sl item wt : indexed w m sl -> m !! item = Some wt ->
  exists k, idx w !! item = Some (Z.of_nat k) /\ sl !! k = Some (Some (item, wt)).
Proof.
  intros (HA & HB & HC) Hm. destruct (HC _ _ Hm) as [i Hi].
  destruct (HB _ _ Hi) as (k & wt' & -> & Hk). exists k. destruct (HA _ _ _ Hk) as [_ E].
  split; [done|]. congruence.
Qed.

(** Two items at different positions are different. *)
Ltac idx_ne := intros <-; match goal with
  | H1 : idx ?w !! ?i = Some (Z.of_nat ?a), H2 : idx ?w !! ?i = Some (Z.of_nat ?b), Hn : ?x <> ?y |- _ =>
      rewrite H1 in H2; injection H2 as H2; lia end.

Lemma indexed_set w m sl r item k old wt :
  indexed w m sl -> sl !! k = Some (Some (item, old)) ->
  indexed (MkWRS r (if wt =? 0 then delete item (idx w) else idx w)) (set_weight m item wt)
          (<[k := new_slot item wt]> sl).
Proof.
  intros (HA & HB & HC) Hk. destruct (HA _ _ _ Hk) as [Hik Hmk].
  pose proof (lookup_lt_Some _ _ _ Hk) as Hlt. unfold set_weight, new_slot, indexed.
  destruct (Z.eqb_spec wt 0) as [->|Hne]; cbn [idx]; split_and!.
  - intros j it w' Hj. apply list_lookup_insert_Some in Hj as [(-> & [=] & _)|[Hjk Hj]].
    destruct (HA _ _ _ Hj). rewrite !lookup_delete_ne by idx_ne. done.
  - intros it i Hi. apply lookup_delete_Some in Hi as [Hne Hi].
    destruct (HB _ _ Hi) as (j & w' & -> & Hj). exists j, w'. split; [done|].
    rewrite list_lookup_insert_ne; [done|]. congruence.
  - intros it w' Hw. apply lookup_delete_Some in Hw as [Hne Hw].
    rewrite lookup_delete_ne by done. eauto.
  - intros j it w' Hj. apply list_lookup_insert_Some in Hj as [(-> & [= <- <-] & _)|[Hjk Hj]].
    + by rewrite lookup_insert_eq.
    + destruct (HA _ _ _ Hj). rewrite lookup_insert_ne by idx_ne. done.
  - intros it i Hi. destruct (HB _ _ Hi) as (j & w' & -> & Hj). exists j.
    destruct (decide (j = k)) as [->|Hjk].
    + exists wt. rewrite list_lookup_insert_eq by done. split; [done|]. congruence.
    + exists w'. by rewrite list_lookup_insert_ne.
  - intros it w' Hw. apply lookup_insert_Some in Hw as [[<- _]|[_ Hw]]; eauto.
Qed.

Lemma indexed_insert w m sl r item k wt :
  indexed w m sl -> sl !! k = Some None -> idx w !! item = None ->
  indexed (MkWRS r (<[item := Z.of_nat k]> (idx w))) (<[item := wt]> m) (<[k := Some (item, wt)]> sl).
Proof.
  intros (HA & HB & HC) Hk Hn. pose proof (lookup_lt_Some _ _ _ Hk) as Hlt. unfold indexed. cbn [idx]. split_and!.
  - intros j it w' Hj. apply list_lookup_insert_Some in Hj as [(-> & [= <- <-] & _)|[Hjk Hj]].
    + by rewrite !lookup_insert_eq.
    + destruct (HA _ _ _ Hj). rewrite !lookup_insert_ne by congruence. done.
  - intros it i Hi. apply lookup_insert_Some in Hi as [[<- <-]|[Hne Hi]].
    + exists k, wt. by rewrite list_lookup_insert_eq.
    + destruct (HB _ _ Hi) as (j & w' & -> & Hj). exists j, w'. rewrite list_lookup_insert_ne; [done|]. congruence.
  - intros it w' Hw. destruct (decide (item = it)) as [->|Hne]; [rewrite lookup_insert_eq; eauto|].
    rewrite lookup_insert_ne in Hw |- * by done. eauto.
Qed.

(** ** A new level *)

Definition grown (r : wrsNode K) : wrsNode K :=
  MkNode (<[0%nat := INode r]> empty_items) (<[0%nat := sumWeight r]> no_weights)
         (sumWeight r) (level r + 1) (itemCnt r) (i64 (maxItems r * wrsBranches)).

Lemma cap_pow l : Z.of_nat (cap l) = 8 ^ Z.of_nat (S l).
Proof. unfold cap. by rewrite Nat2Z.inj_pow. Qed.

Lemma cap_bound l c : (l <= c)%nat -> Z.of_nat (cap l) <= 8 ^ Z.of_nat (S c).
Proof. intros. rewrite cap_pow. apply Z.pow_le_mono_r; lia. Qed.

Lemma slots_grown l r : slots (S l) (grown r) = slots l r ++ replicate (7 * cap l) None.
Proof. rewrite slots_S. simpl. f_equal. by rewrite <- (concat_replicate (cap l) 7). Qed.

Lemma grown_wf l r : wf l r -> (l <= 18)%nat -> wf (S l) (grown r).
Proof.
  intros Hwf Hl. destruct (wf_facts _ _ Hwf) as (Hlv & Hmx & Hli & Hs & Hc).
  pose proof (cap_bound (S l) 19 ltac:(lia)) as Hcb. rewrite cap_S in Hcb.
  assert (8 ^ Z.of_nat 20 < 2 ^ 63) by (vm_compute; reflexivity).
  split_and!; try done; cbn [grown level maxItems sumWeight itemCnt].
  - lia.
  - rewrite Hmx, cap_S. unfold wrsBranches. rewrite i64_id by lia. lia.
  - rewrite slots_grown, zsum_app, zsum_replicate. cbn [slot_weight]. lia.
  - rewrite slots_grown, zsum_app, zsum_replicate. cbn [slot_count]. lia.
  - cbn. repeat constructor; done.
Qed.

Lemma indexed_grown w m sl n : indexed w m sl -> indexed w m (sl ++ replicate n None).
Proof.
  intros (HA & HB & HC). split_and!; [| |done].
  - intros k it wt Hk. apply lookup_app_Some in Hk as [Hk|[_ Hk]]; [eauto|].
    by apply lookup_replicate in Hk as [? _].
  - intros it i Hi. destruct (HB _ _ Hi) as (k & wt & -> & Hk). exists k, wt.
    split; [done|]. by apply lookup_app_l_Some.
Qed.

(** ** The operations *)

Lemma refines_new : refines newWeightedRandomSelect ∅.
Proof.
  exists O. split_and!; [lia|exact (wf_fresh 0)|done|]. change (slots 0 _) with (replicate 8 (@None (K * Z))).
  split_and!; cbn [newWeightedRandomSelect idx].
  - intros k it wt Hk. by apply lookup_replicate in Hk as [? _].
  - intros it i Hi. by rewrite lookup_empty in Hi.
  - intros it i Hi. by rewrite lookup_empty in Hi.
Qed.

Lemma setWeight_present w m item old wt :
  refines w m -> m !! item = Some old -> 0 <= wt -> sumWeight (root w) + wt < 2 ^ 63 ->
  exists w', setWeight w item wt = Ret w' /\ refines w' (set_weight m item wt) /\
    sumWeight (root w') = sumWeight (root w) - old + wt.
Proof.
  intros (l & Hl & Hwf & Hov & Hix) Hm Hwt Hsum.
  destruct (indexed_lookup _ _ _ _ _ Hix Hm) as (k & Hi & Hk).
  destruct (wf_facts _ _ Hwf) as (Hlv & _ & _ & Hs & _). pose proof (slots_pos _ _ _ _ _ Hwf Hk).
  destruct (setWeight_node_spec l (root w) k item old wt Hwf Hk Hwt) as (r & E & Hr & Hsl); [lia|lia|].
  eexists. unfold setWeight, node_fuel. rewrite Hi, Hlv, Nat2Z.id, E. cbn [mbind go_bind].
  assert (Hsr : sumWeight r = sumWeight (root w) - old + wt).
  { destruct (wf_facts _ _ Hr) as (_ & _ & _ & -> & _). rewrite Hsl, (zsum_insert _ _ _ _ _ Hk), new_slot_weight.
    cbn [slot_weight]. lia. }
  split; [done|]. split; [|done]. exists l. cbn [root]. split_and!; [done|done|lia|].
  rewrite Hsl. by eapply indexed_set.
Qed.

Lemma setWeight_absent w m item wt :
  refines w m -> m !! item = None -> 0 <= wt -> sumWeight (root w) + wt < 2 ^ 63 ->
  itemCnt (root w) < 2 ^ 57 ->
  exists w', setWeight w item wt = Ret w' /\ refines w' (set_weight m item wt) /\
    sumWeight (root w') = sumWeight (root w) + wt.
Proof.
  intros (l & Hl & Hwf & Hov & Hix) Hm Hwt Hsum Hcnt.
  assert (Hi : idx w !! item = None).
  { destruct (idx w !! item) as [i|] eqn:E; [|done]. destruct Hix as (HA & HB & _).
    destruct (HB _ _ E) as (k & w' & -> & Hk). apply HA in Hk as [_ Hk]. congruence. }
  unfold setWeight, set_weight. rewrite Hi. destruct (Z.eqb_spec wt 0) as [->|Hne].
  { exists w. split_and!; [done| |lia]. exists l. rewrite delete_id by done. done. }
  set (r := if _ =? _ then _ else _).
  assert (Hr : exists l', (l' <= 19)%nat /\ wf l' r /\ sumWeight r = sumWeight (root w) /\
    itemCnt r < maxItems r /\ indexed w m (slots l' r)).
  { destruct (wf_facts _ _ Hwf) as (Hlv & Hmx & _ & Hs & Hc). subst r.
    destruct (Z.eqb_spec (itemCnt (root w)) (maxItems (root w))) as [Hfull|Hn].
    - assert (Hl' : (l < 18)%nat).
      { rewrite Hfull, Hmx, cap_pow in Hcnt. change (2 ^ 57) with (8 ^ 19) in Hcnt.
        apply Z.pow_lt_mono_r_iff in Hcnt; lia. }
      pose proof (grown_wf l (root w) Hwf ltac:(lia)) as Hg. exists (S l). fold (grown (root w)).
      split_and!; [lia|done|done| |].
      + destruct (wf_facts _ _ Hg) as (_ & -> & _). cbn [grown itemCnt]. rewrite Hfull, Hmx, cap_S.
        pose proof (cap_pos l). lia.
      + rewrite slots_grown. by apply indexed_grown.
    - exists l. split_and!; try done. pose proof (cnt_le_cap _ _ Hwf). lia. }
  destruct Hr as (l' & Hl' & Hwr & Hsr & Hroom & Hxr). clearbody r.
  destruct (wf_facts _ _ Hwr) as (Hlv & _ & _ & Hs & _).
  destruct (insert_spec l' r item wt Hwr Hroom) as (r' & k & E & Hr' & Hk & Hsl); [lia|lia|].
  eexists. unfold node_fuel. rewrite Hlv, Nat2Z.id, E. cbn [mbind go_bind].
  assert (Hs' : sumWeight r' = sumWeight (root w) + wt).
  { destruct (wf_facts _ _ Hr') as (_ & _ & _ & -> & _). rewrite Hsl, (zsum_insert _ _ _ _ _ Hk).
    cbn [slot_weight]. lia. }
  split; [done|]. split; [|done]. exists l'. cbn [root]. split_and!; [done|done|lia|].
  rewrite Hsl. by apply (indexed_insert w m).
Qed.

(** The draw [val] selects a stored item, with its stored weight. *)
Lemma choose_node_refines w m val :
  refines w m -> 0 <= val < sumWeight (root w) ->
  exists item wt, choose_node (node_fuel (root w)) (root w) val = Ret (item, wt) /\
    m !! item = Some wt /\ 0 < wt.
Proof.
  intros (l & Hl & Hwf & Hov & Hix) Hv. destruct (wf_facts _ _ Hwf) as (Hlv & _ & _ & Hs & _).
  destruct (pick_slot (slots l (root w)) val) as (k & item & wt & Hk & Hkv);
    [by eapply slot_weights_nonneg|lia|].
  exists item, wt. unfold node_fuel. rewrite Hlv, Nat2Z.id.
  split_and!; [|by apply Hix in Hk as [_ ?]|by eapply slots_pos].
  by apply (choose_node_spec l (root w) k); [|lia|..].
Qed.

Lemma refines_sum w m : refines w m ->
  0 <= sumWeight (root w) < 2 ^ 63 /\ (sumWeight (root w) = 0 -> m = ∅).
Proof.
  intros (l & Hl & Hwf & Hov & Hix). destruct (wf_facts _ _ Hwf) as (_ & _ & _ & Hs & _).
  pose proof (total_nonneg _ _ Hwf). split; [lia|]. intros H0'. apply map_empty. intros item.
  destruct (m !! item) as [wt|] eqn:E; [|done]. exfalso.
  destruct (indexed_lookup _ _ _ _ _ Hix E) as (k & _ & Hk). pose proof (slots_pos _ _ _ _ _ Hwf Hk).
  destruct (slot_le_total _ _ _ _ Hwf Hk) as (_ & Hle). cbn [slot_weight] in Hle.
  pose proof (total_take_nonneg _ _ k Hwf). lia.
Qed.

Lemma setWeight_refines_map (w : weightedRandomSelect K) (m : gmap K Z) (item : K) (wt : Z) :
  refines w m -> 0 <= wt -> sumWeight (root w) + wt < 2 ^ 63 -> itemCnt (root w) < 2 ^ 57 ->
  exists w', setWeight w item wt = Ret w' /\ refines w' (set_weight m item wt) /\
    sumWeight (root w') = sumWeight (root w) - default 0 (m !! item) + wt.
Proof.
  intros Hr Hwt Hsum Hcnt. destruct (m !! item) as [old|] eqn:E; cbn [default].
  - by apply setWeight_present.
  - destruct (setWeight_absent w m item wt) as (w' & ? & ? & ?); try done.
    exists w'. split_and!; [done|done|lia].
Qed.

(** ** Properties *)

(** C28: the selection structure refines a map from items to positive weights:
    as long as the weights add up to an [int64], [setWeight] (hence [update] and
    [remove]) returns, the new structure holds the updated map, a zero weight
    removing the item, and the cached total changes accordingly. *)
Theorem setWeight_refines (w : weightedRandomSelect K) (m : gmap K Z) (item : K) (wt : Z) :
  refines w m -> 0 <= wt -> sumWeight (root w) + wt < 2 ^ 63 -> itemCnt (root w) < 2 ^ 57 ->
  exists w', setWeight w item wt = Ret w' /\ refines w' (set_weight m item wt) /\
    sumWeight (root w') = sumWeight (root w) - default 0 (m !! item) + wt.
Proof. apply setWeight_refines_map. Qed.

(** C29: selection is proportional: each stored item owns an interval of the
    draws whose length is its weight, it is selected exactly by the draws of
    that interval, and every draw below the total selects a stored item. *)
Theorem choose_proportional (w : weightedRandomSelect K) (m : gmap K Z) (item : K) (wt : Z) :
  refines w m -> m !! item = Some wt ->
  exists lo, 0 <= lo /\ lo + wt <= sumWeight (root w) /\
    forall val, 0 <= val < sumWeight (root w) ->
      exists i wi, choose_node (node_fuel (root w)) (root w) val = Ret (i, wi) /\
        m !! i = Some wi /\ (i = item <-> lo <= val < lo + wt).
Proof.
  intros (l & Hl & Hwf & Hov & Hix) Hm. destruct (wf_facts _ _ Hwf) as (Hlv & _ & _ & Hs & _).
  destruct (indexed_lookup _ _ _ _ _ Hix Hm) as (k & Hi & Hk).
  destruct (slot_le_total _ _ _ _ Hwf Hk) as (_ & Hle). cbn [slot_weight] in Hle.
  exists (total (take k (slots l (root w)))). split_and!; [by apply total_take_nonneg|lia|].
  intros val Hv. destruct (pick_slot (slots l (root w)) val) as (k' & i & wi & Hk' & Hkv);
    [by eapply slot_weights_nonneg|lia|].
  assert (E : choose_node (node_fuel (root w)) (root w) val = Ret (i, wi)).
  { unfold node_fuel. rewrite Hlv, Nat2Z.id. by apply (choose_node_spec l (root w) k'); [|lia|..]. }
  destruct Hix as (HA & _). destruct (HA _ _ _ Hk') as [Hi' Hm'].
  exists i, wi. split_and!; [done|done|]. split.
  - intros ->. assert (k' = k) as -> by (rewrite Hi in Hi'; injection Hi'; lia). rewrite Hk in Hk'.
    injection Hk' as <-. done.
  - intros Hv'. unfold node_fuel in E. rewrite Hlv, Nat2Z.id in E.
    rewrite (choose_node_spec l (root w) k item wt val) in E by (done || lia). congruence.
Qed.

Section Draws.
(** The weights do not change while [choose] runs, except that an item may
    refresh its own statistics when it is asked. *)
Context {St : Type} (Weight : St -> K -> go (Z * St)) (Int63n : nat -> Z -> Z) (Wt : K -> Z).
Hypothesis Wt_nonneg : forall i, 0 <= Wt i.
Hypothesis Int63n_range : forall k n, 0 < n -> 0 <= Int63n k n < n.

(** In a state of [I], and after any number of queries, the weights of the
    items of [m] are given by [Wt]. *)
Definition steady (I : St -> Prop) (m : gmap K Z) : Prop :=
  forall s i, I s -> is_Some (m !! i) -> exists s', Weight s i = Ret (Wt i, s') /\ I s'.

(** The items whose stored weight is not their current one. *)
Definition stale (m : gmap K Z) : gmap K Z := filter (fun p => p.2 <> Wt p.1) m.

Lemma stale_set m item old :
  m !! item = Some old -> old <> Wt item ->
  (size (stale (set_weight m item (Wt item))) < size (stale m))%nat.
Proof.
  intros Hm Hne.
  assert (Hs : stale m !! item = Some old) by by apply map_lookup_filter_Some.
  assert (E : stale (set_weight m item (Wt item)) = delete item (stale m)).
  { apply map_eq. intros j. unfold stale, set_weight. destruct (decide (item = j)) as [->|Hj].
    - rewrite lookup_delete_eq. apply map_lookup_filter_None. right. intros x Hx.
      destruct (Z.eqb_spec (Wt j) 0) as [E0|]; [by rewrite lookup_delete_eq in Hx|].
      rewrite lookup_insert_eq in Hx. injection Hx as <-. simpl. tauto.
    - rewrite lookup_delete_ne by done. apply option_eq. intros x. rewrite !map_lookup_filter_Some.
      destruct (Wt item =? 0); [by rewrite lookup_delete_ne|by rewrite lookup_insert_ne]. }
  rewrite E, map_size_delete, Hs. assert (size (stale m) <> 0%nat); [|lia].
  apply map_size_ne_0_lookup. eauto.
Qed.

(** One iteration: it returns an item with a positive weight, or lowers the
    stored weight of one stale item and goes on. *)
Lemma choose_step_spec I k w s m :
  steady I m -> I s -> refines w m -> (forall i, sumWeight (root w) + Wt i < 2 ^ 63) ->
  sumWeight (root w) <> 0 ->
  exists item old k' w' s', m !! item = Some old /\ refines w' (set_weight m item (Wt item)) /\ I s' /\
    ((choose_step Weight Int63n (k, w, s) = Ret (inr (Some item, (k', w', s'))) /\ 0 < Wt item) \/
     (choose_step Weight Int63n (k, w, s) = Ret (inl (k', w', s')) /\ Wt item < old /\
      sumWeight (root w') <= sumWeight (root w))).
Proof.
  intros Hst HI Hr Hb Hne. destruct (refines_sum w m Hr) as [[H0 H1] _].
  destruct (choose_node_refines w m (Int63n k (sumWeight (root w))) Hr) as (item & old & E & Hm & Hold);
    [apply Int63n_range; lia|].
  destruct (Hst s item HI) as (s' & EW & HI'); [eauto|].
  assert (Hset : exists w', (if negb (Wt item =? old) then setWeight w item (Wt item) else Ret w) = Ret w' /\
    refines w' (set_weight m item (Wt item)) /\ sumWeight (root w') = sumWeight (root w) - old + Wt item).
  { destruct (Z.eqb_spec (Wt item) old) as [Eq|Hn]; cbn [negb].
    - exists w. rewrite Eq. split_and!; [done| |lia]. unfold set_weight.
      rewrite (proj2 (Z.eqb_neq _ _)) by lia. by rewrite insert_id.
    - apply setWeight_present; [done|done|apply Wt_nonneg|apply Hb]. }
  destruct Hset as (w' & Ew & Hr' & Hsum). unfold choose_step, rand_Int63n.
  rewrite (proj2 (Z.eqb_neq _ _)) by done. rewrite (proj2 (Z.leb_gt _ _)) by lia. cbn [mbind go_bind].
  rewrite E. cbn [mbind go_bind]. rewrite EW. cbn [mbind go_bind]. rewrite Ew. cbn [mbind go_bind]. rewrite Z.geb_leb.
  destruct (Z.leb_spec old (Wt item)) as [Hge|Hlt].
  { exists item, old, (S k), w', s'. split_and!; [done|done|done|]. left. split; [done|lia]. }
  exists item, old, (S (S k)), w', s'. split_and!; [done|done|done|].
  rewrite (proj2 (Z.leb_gt old 0)) by lia. cbn [mbind go_bind].
  destruct (Z.ltb_spec (Int63n (S k) old) (Wt item)) as [Hl|Hl].
  - left. split; [done|]. pose proof (Int63n_range (S k) old Hold). lia.
  - right. split; [done|]. lia.
Qed.

(** Whatever a query preserves, [choose] preserves. *)
Lemma choose_preserves (J : St -> Prop) fuel : forall k w s res k' w' s',
  (forall s i x s', Weight s i = Ret (x, s') -> J s -> J s') ->
  choose Weight Int63n fuel (k, w, s) = Some (Ret (res, (k', w', s'))) -> J s -> J s'.
Proof.
  induction fuel as [|fuel IH]; intros k w s res k' w' s' HW; [done|]. cbn [choose].
  destruct (choose_step Weight Int63n (k, w, s)) as [[[[k1 w1] s1]|[res1 [[k1 w1] s1]]]|x|x|x] eqn:E; try done;
    (assert (HJ : J s -> J s1);
     [unfold choose_step in E; destruct (sumWeight (root w) =? 0);
       [by injection E as <- <- <- <- || discriminate|]; go_inv; destruct v0 as [c lw]; go_inv;
       destruct v0 as [wt s2]; go_inv; specialize (HW _ _ _ _ E2);
       destruct (wt >=? lw); go_inv; try (destruct (v1 <? wt); go_inv); simplify_eq; auto|]).
  - intros E'. eauto.
  - intros [= <- <- <- <-]. done.
Qed.

Lemma choose_returns I fuel : forall w m k s,
  steady I m -> I s -> refines w m -> (forall i, sumWeight (root w) + Wt i < 2 ^ 63) ->
  (size (stale m) < fuel)%nat ->
  exists res k' w' s' m', choose Weight Int63n fuel (k, w, s) = Some (Ret (res, (k', w', s'))) /\
    refines w' m' /\ I s' /\ (forall i, is_Some (m' !! i) -> is_Some (m !! i)) /\
    match res with
    | None => m' = ∅
    | Some i => is_Some (m !! i) /\ 0 < Wt i /\ m' !! i = Some (Wt i)
    end.
Proof.
  induction fuel as [|fuel IH]; intros w m k s Hst HI Hr Hb Hf; [lia|]. cbn [choose].
  destruct (refines_sum w m Hr) as [H0 Hempty].
  destruct (decide (sumWeight (root w) = 0)) as [Hz|Hnz].
  { unfold choose_step. rewrite (proj2 (Z.eqb_eq _ _) Hz). exists None, k, w, s, m. split_and!; auto. }
  destruct (choose_step_spec I k w s m Hst HI Hr Hb Hnz)
    as (item & old & k' & w' & s' & Hm & Hr' & HI' & [[E Hpos]|(E & Hlt & Hsum)]); rewrite E.
  - exists (Some item), k', w', s', (set_weight m item (Wt item)). unfold set_weight in *.
    rewrite (proj2 (Z.eqb_neq _ 0)) in * by lia. split_and!; [done|done|done| |by eauto|done|by rewrite lookup_insert_eq].
    intros i. destruct (decide (item = i)) as [->|]; [eauto|]. by rewrite lookup_insert_ne.
  - assert (Hd' : forall i, is_Some (set_weight m item (Wt item) !! i) -> is_Some (m !! i)).
    { intros i. destruct (decide (item = i)) as [->|]; [eauto|]. unfold set_weight.
      destruct (Wt item =? 0); [by rewrite lookup_delete_ne|by rewrite lookup_insert_ne]. }
    destruct (IH w' (set_weight m item (Wt item)) k' s') as (res & k2 & w2 & s2 & m' & Ec & Hr2 & HI2 & Hd & Hres).
    + intros t i Ht Hi. by apply Hst, Hd'.
    + done.
    + done.
    + intros i. specialize (Hb i). lia.
    + pose proof (stale_set m item old Hm). lia.
    + exists res, k2, w2, s2, m'. split_and!; [done|done|done|by eauto|]. destruct res; [|done].
      destruct Hres as (? & ? & ?). split_and!; [by eauto|done|done].
Qed.

(** [choose] terminates: whatever the random numbers, it returns after at
    most one iteration per item with an outdated weight plus one; it returns nil
    exactly when the structure has become empty, and otherwise an item that was
    stored, has a positive current weight and is stored with it. *)
Theorem choose_terminates (I : St -> Prop) (w : weightedRandomSelect K) (m : gmap K Z) (k fuel : nat) (s : St) :
  steady I m -> I s -> refines w m -> (forall i, sumWeight (root w) + Wt i < 2 ^ 63) ->
  (size (stale m) < fuel)%nat ->
  exists res k' w' s' m', choose Weight Int63n fuel (k, w, s) = Some (Ret (res, (k', w', s'))) /\
    refines w' m' /\ I s' /\ (forall i, is_Some (m' !! i) -> is_Some (m !! i)) /\
    match res with
    | None => m' = ∅
    | Some i => is_Some (m !! i) /\ 0 < Wt i /\ m' !! i = Some (Wt i)
    end.
Proof. intros. by apply choose_returns. Qed.

End Draws.

(** ** The sum of the weights *)

Lemma zsum_perm {A} (f : A -> Z) (l l' : list A) : l ≡ₚ l' -> zsum f l = zsum f l'.
Proof. induction 1; rewrite ?zsum_cons; lia. Qed.

Definition msum (m : gmap K Z) : Z := zsum snd (map_to_list m).

Lemma msum_insert m i x : m !! i = None -> msum (<[i := x]> m) = x + msum m.
Proof. intros Hi. unfold msum. rewrite (zsum_perm snd _ _ (map_to_list_insert m i x Hi)). apply zsum_cons. Qed.

Lemma msum_delete m i x : m !! i = Some x -> msum (delete i m) = msum m - x.
Proof. intros Hi. rewrite <- (insert_delete_id m i x Hi) at 2. rewrite msum_insert by apply lookup_delete_eq. lia. Qed.

Lemma msum_set m i old x : m !! i = Some old -> msum (set_weight m i x) = msum m - old + x.
Proof.
  intros Hi. unfold set_weight. destruct (Z.eqb_spec x 0) as [->|_]; [rewrite (msum_delete _ _ old Hi); lia|].
  rewrite <- insert_delete_eq, msum_insert by apply lookup_delete_eq. rewrite (msum_delete _ _ old Hi). lia.
Qed.

(** A structure with the weights [m], of which none is more than [B]. *)
Record tree_ok (B : Z) (w : weightedRandomSelect K) (m : gmap K Z) : Prop := {
  to_refines : refines w m;
  to_sum : sumWeight (root w) = msum m;
  to_bound : forall i x, m !! i = Some x -> x <= B
}.

Lemma tree_sum_bound B w m : 0 <= B -> tree_ok B w m -> sumWeight (root w) <= B * Z.of_nat (size m).
Proof.
  intros HB [_ -> Hb]. revert Hb. induction m as [|i x m Hi IH] using map_ind; intros Hb; [rewrite map_size_empty; vm_compute; destruct B; lia || done|].
  rewrite msum_insert, map_size_insert_None by done. pose proof (Hb i x ltac:(apply lookup_insert_eq)).
  assert (msum m <= B * Z.of_nat (size m)) by (apply IH; intros j y Hj; apply (Hb j y); rewrite lookup_insert_ne by congruence; done). lia.
Qed.

Section Ends.
(** The items may report any weights, and another one each time. *)
Context {St : Type} (Weight : St -> K -> go (Z * St)) (Int63n : nat -> Z -> Z) (B : Z).
Hypothesis Int63n_range : forall k n, 0 < n -> 0 <= Int63n k n < n.

(** The items of [m] report weights from 0 to [B], in a state of [J]. *)
Definition reports (J : St -> Prop) (m : gmap K Z) : Prop :=
  forall s i, J s -> is_Some (m !! i) -> exists x s', Weight s i = Ret (x, s') /\ 0 <= x <= B /\ J s'.

(** One iteration stores what its item reports; it returns the item, or what the
    item reports is less than what was stored. *)
Lemma choose_step_reports J k w s m : reports J m -> J s -> refines w m -> sumWeight (root w) + B < 2 ^ 63 -> sumWeight (root w) <> 0 ->
  exists item old x k' w' s', m !! item = Some old /\ Weight s item = Ret (x, s') /\ 0 <= x <= B /\ J s' /\
    refines w' (set_weight m item x) /\ sumWeight (root w') = sumWeight (root w) - old + x /\
    ((choose_step Weight Int63n (k, w, s) = Ret (inr (Some item, (k', w', s'))) /\ 0 < x) \/
     (choose_step Weight Int63n (k, w, s) = Ret (inl (k', w', s')) /\ x < old)).
Proof.
  intros HJ Hs Hr Hb Hne. destruct (refines_sum w m Hr) as [[H0 H1] _].
  destruct (choose_node_refines w m (Int63n k (sumWeight (root w))) Hr) as (item & old & E & Hm & Hold); [apply Int63n_range; lia|].
  destruct (HJ s item Hs) as (x & s' & EW & Hx & Hs'); [eauto|].
  assert (Hset : exists w', (if negb (x =? old) then setWeight w item x else Ret w) = Ret w' /\
    refines w' (set_weight m item x) /\ sumWeight (root w') = sumWeight (root w) - old + x).
  { destruct (Z.eqb_spec x old) as [->|Hn]; cbn [negb]; [|apply setWeight_present; [done|done|lia|lia]].
    exists w. split_and!; [done| |lia]. unfold set_weight. rewrite (proj2 (Z.eqb_neq _ _)) by lia. by rewrite insert_id. }
  destruct Hset as (w' & Ew & Hr' & Hsum). unfold choose_step, rand_Int63n.
  rewrite (proj2 (Z.eqb_neq _ _)) by done. rewrite (proj2 (Z.leb_gt _ _)) by lia. cbn [mbind go_bind].
  rewrite E. cbn [mbind go_bind]. rewrite EW. cbn [mbind go_bind]. rewrite Ew. cbn [mbind go_bind]. rewrite Z.geb_leb.
  destruct (Z.leb_spec old x) as [Hge|Hlt].
  { exists item, old, x, (S k), w', s'. split_and!; [done|done|lia|lia|done|done|lia|]. left. split; [done|lia]. }
  exists item, old, x, (S (S k)), w', s'. split_and!; [done|done|lia|lia|done|done|lia|].
  rewrite (proj2 (Z.leb_gt old 0)) by lia. cbn [mbind go_bind]. destruct (Z.ltb_spec (Int63n (S k) old) x) as [Hl|Hl]; [left|by right].
  split; [done|]. pose proof (Int63n_range (S k) old Hold). lia.
Qed.

Lemma choose_ends_spec J fuel : forall w m k s, reports J m -> J s -> refines w m -> sumWeight (root w) + B < 2 ^ 63 ->
  sumWeight (root w) < Z.of_nat fuel ->
  exists res k' w' s' m', choose Weight Int63n fuel (k, w, s) = Some (Ret (res, (k', w', s'))) /\ refines w' m' /\ J s' /\
    (forall i, is_Some (m' !! i) -> is_Some (m !! i)) /\
    match res with
    | None => m' = ∅
    | Some i => exists s1 x, J s1 /\ is_Some (m !! i) /\ Weight s1 i = Ret (x, s') /\ 0 < x /\ m' !! i = Some x
    end /\
    (tree_ok B w m -> tree_ok B w' m') /\
    ((forall s i x s', Weight s i = Ret (x, s') -> 0 < x) -> forall i, is_Some (m !! i) -> is_Some (m' !! i)).
Proof.
  induction fuel as [|fuel IH]; intros w m k s HJ Hs Hr Hb Hf; destruct (refines_sum w m Hr) as [H0 Hempty]; [lia|]. cbn [choose].
  destruct (decide (sumWeight (root w) = 0)) as [Hz|Hnz].
  { unfold choose_step. rewrite (proj2 (Z.eqb_eq _ _) Hz). exists None, k, w, s, m. split_and!; auto. }
  destruct (choose_step_reports J k w s m HJ Hs Hr Hb Hnz) as (item & old & x & k' & w' & s' & Hm & EW & Hx & Hs' & Hr' & Hsum & Hc).
  assert (Hd' : forall i, is_Some (set_weight m item x !! i) -> is_Some (m !! i)).
  { intros i. destruct (decide (item = i)) as [->|]; [eauto|]. unfold set_weight. destruct (x =? 0); [by rewrite lookup_delete_ne|by rewrite lookup_insert_ne]. }
  assert (Ht : tree_ok B w m -> tree_ok B w' (set_weight m item x)).
  { intros [_ T2 T3]. constructor; [done|rewrite (msum_set _ _ _ _ Hm); lia|]. intros i y. unfold set_weight.
    destruct (x =? 0); [intros Hy%lookup_delete_Some; by eapply T3, Hy|]. intros [[<- <-]|[_ Hy]]%lookup_insert_Some; [lia|by eapply T3]. }
  assert (Hp : (forall s i x s', Weight s i = Ret (x, s') -> 0 < x) -> forall i, is_Some (m !! i) -> is_Some (set_weight m item x !! i)).
  { intros Hpos i Hi. unfold set_weight. rewrite (proj2 (Z.eqb_neq _ 0)) by (specialize (Hpos _ _ _ _ EW); lia). apply lookup_insert_is_Some. destruct (decide (item = i)); auto. }
  destruct Hc as [[E Hpos]|[E Hlt]]; rewrite E.
  - exists (Some item), k', w', s', (set_weight m item x). split_and!; [done|done|done|done| |done|done]. exists s, x. split_and!; [done|eauto|done|done|].
    unfold set_weight. rewrite (proj2 (Z.eqb_neq _ 0)) by lia. by rewrite lookup_insert_eq.
  - destruct (IH w' (set_weight m item x) k' s') as (res & k2 & w2 & s2 & m' & Ec & Hr2 & HI2 & Hd & Hres & Ht2 & Hp2); [|done|done|lia|lia|].
    { intros t i Hti Hi. by apply HJ, Hd'. }
    exists res, k2, w2, s2, m'. split_and!; [done|done|done|by eauto| |by auto|by auto]. destruct res as [i|]; [|done].
    destruct Hres as (s3 & y & H1 & H2 & H3 & H4 & H5). exists s3, y. split_and!; eauto.
Qed.

(** C26: [choose] always returns.  Whatever weights the items report, and even if
    they report another one each time, and whatever the random numbers, it
    returns after at most as many iterations as the sum of the weights, plus one.
    It returns nil only when no item is left in the structure, and otherwise an
    item that has just reported a positive weight and is stored with it. *)
Theorem choose_ends (J : St -> Prop) (w : weightedRandomSelect K) (m : gmap K Z) (k fuel : nat) (s : St) :
  reports J m -> J s -> refines w m -> sumWeight (root w) + B < 2 ^ 63 -> sumWeight (root w) < Z.of_nat fuel ->
  exists res k' w' s' m', choose Weight Int63n fuel (k, w, s) = Some (Ret (res, (k', w', s'))) /\ refines w' m' /\ J s' /\
    (forall i, is_Some (m' !! i) -> is_Some (m !! i)) /\
    match res with
    | None => m' = ∅
    | Some i => exists s1 x, Weight s1 i = Ret (x, s') /\ 0 < x /\ m' !! i = Some x
    end.
Proof.
  intros HJ Hs Hr Hb Hf. destruct (choose_ends_spec J fuel w m k s HJ Hs Hr Hb Hf) as (res & k' & w' & s' & m' & E & A1 & A2 & A3 & A4 & _).
  exists res, k', w', s', m'. split_and!; [done..|]. destruct res as [i|]; [|done]. destruct A4 as (s1 & x & _ & _ & A4). by exists s1, x.
Qed.

End Ends.

End Slots.

(** ** A concrete structure: nine items, so that the tree has two levels *)

Definition sample_items : list (Z * Z) := (fun i => (Z.of_nat i, Z.of_nat i + 1)) <$> seq 0 9.

Definition checked_fill (w : weightedRandomSelect Z) (l : list (Z * Z)) : go (weightedRandomSelect Z) :=
  go_range (fun w '(i, wt) =>
    if bool_decide (0 <= wt /\ sumWeight (root w) + wt < 2 ^ 63 /\ itemCnt (root w) < 2 ^ 57)
    then setWeight w i wt else Err (Error "out of range")) w l.

Lemma checked_fill_refines l : forall w m w',
  refines w m -> checked_fill w l = Ret w' ->
  refines w' (foldl (fun m '(i, wt) => set_weight m i wt) m l).
Proof.
  induction l as [|[i wt] l IH]; intros w m w' Hr E; unfold checked_fill in E; cbn [go_range] in E.
  - injection E as <-. done.
  - case_test; [|done]. apply bind_Ret_inv in E as (w1 & E1 & E).
    destruct (setWeight_refines_map w m i wt) as (w2 & E2 & Hr2 & _); try tauto.
    assert (w1 = w2) as -> by congruence. by apply (IH w2).
Qed.

Definition sample_wrs : weightedRandomSelect Z := Eval vm_compute in
  match checked_fill newWeightedRandomSelect sample_items with
  | Ret w => w | _ => newWeightedRandomSelect end.

Definition sample_map : gmap Z Z := Eval vm_compute in
  foldl (fun m '(i, wt) => set_weight m i wt) ∅ sample_items.

Lemma sample_refines : refines sample_wrs sample_map.
Proof.
  assert (E : foldl (fun m '(i, wt) => set_weight m i wt) ∅ sample_items = sample_map)
    by (vm_compute; reflexivity). rewrite <- E.
  apply (checked_fill_refines sample_items newWeightedRandomSelect ∅); [apply refines_new|].
  vm_compute. reflexivity.
Qed.

Lemma setWeight_refines_witness :
  exists w', setWeight sample_wrs 3 0 = Ret w' /\ refines w' (set_weight sample_map 3 0) /\
    sumWeight (root w') = sumWeight (root sample_wrs) - default 0 (sample_map !! 3) + 0.
Proof.
  apply (setWeight_refines sample_wrs sample_map 3 0).
  - exact sample_refines.
  - lia.
  - vm_compute. reflexivity.
  - vm_compute. reflexivity.
Defined.

Lemma choose_proportional_witness :
  exists lo, 0 <= lo /\ lo + 9 <= sumWeight (root sample_wrs) /\
    forall val, 0 <= val < sumWeight (root sample_wrs) ->
      exists i wi, choose_node (node_fuel (root sample_wrs)) (root sample_wrs) val = Ret (i, wi) /\
        sample_map !! i = Some wi /\ (i = 8 <-> lo <= val < lo + 9).
Proof.
  apply (choose_proportional sample_wrs sample_map 8 9).
  - exact sample_refines.
  - vm_compute. reflexivity.
Defined.

(** Every weight has dropped to 1 since it was stored; the draws are all 0. *)
Lemma choose_terminates_witness :
  exists res k' w' s' m',
    choose (fun (s : unit) (_ : Z) => Ret (1, s)) (fun _ _ => 0) 9 (O, sample_wrs, tt) =
      Some (Ret (res, (k', w', s'))) /\
    refines w' m' /\ True /\ (forall i, is_Some (m' !! i) -> is_Some (sample_map !! i)) /\
    match res with
    | None => m' = ∅
    | Some i => is_Some (sample_map !! i) /\ 0 < 1 /\ m' !! i = Some 1
    end.
Proof.
  apply (choose_terminates (fun (s : unit) _ => Ret (1, s)) (fun _ _ => 0) (fun _ => 1)) with (m := sample_map) (I := fun _ => True).
  - lia.
  - intros _ n Hn. lia.
  - intros s i _ _. exists s. split; [reflexivity|exact I].
  - exact I.
  - exact sample_refines.
  - intros _. vm_compute. reflexivity.
  - vm_compute. lia.
Defined.

(** Nine items whose weights change with every question. *)
Lemma choose_ends_witness :
  exists res k' w' s' m', choose (fun (s : Z) (i : Z) => Ret ((s + i) mod 3, s + 1)) (fun _ _ => 0) 100 (O, sample_wrs, 0) = Some (Ret (res, (k', w', s'))) /\
    refines w' m' /\ True /\ (forall i, is_Some (m' !! i) -> is_Some (sample_map !! i)) /\
    match res with
    | None => m' = ∅
    | Some i => exists s1 x, Ret ((s1 + i) mod 3, s1 + 1) = Ret (x, s') /\ 0 < x /\ m' !! i = Some x
    end.
Proof.
  apply (choose_ends (fun (s : Z) (i : Z) => Ret ((s + i) mod 3, s + 1)) (fun _ _ => 0) 2) with (m := sample_map) (J := fun _ => True).
  - intros _ n Hn. lia.
  - intros s i _ _. exists ((s + i) mod 3), (s + 1). split; [reflexivity|]. split; [|exact I]. pose proof (Z.mod_pos_bound (s + i) 3). lia.
  - exact I.
  - exact sample_refines.
  - vm_compute. reflexivity.
  - vm_compute. reflexivity.
Defined.

End RandSelect.
