(* ===== verification/PoolQueue.v ===== *)
(** * gossip/serverpool.go: poolEntryQueue

    A queue of pool entries ordered by their last access: a map from positions
    to entries between two counters, where every entry remembers its position
    ([queueIdx]).  Its abstract value is the list of its entries from the oldest
    to the latest; the theorem gives each operation as an operation on that
    list, with the eviction of the oldest entry when the queue is full, and with
    it the termination of the search for the oldest entry.

    Entries are pointers; [P] is their type.  The field [queueIdx] of the
    entries is a function, which the caller keeps. *)

From Stdlib Require Import ZArith Lia Bool.
From stdpp Require Import base list numbers option strings gmap functions.
From S2P Require Import Prelude.
Local Open Scope Z_scope.

Module PoolQueue.

Section Queue.
Context {P : Type} `{EqDecision P}.

Record poolEntryQueue := MkQueue {
  queue : gmap Z P;
  newPtr : Z;
  oldPtr : Z;
  maxCnt : Z
}.

Definition newPoolEntryQueue (maxCnt : Z) : poolEntryQueue := MkQueue ∅ 0 0 maxCnt.

Definition qlen (q : poolEntryQueue) : Z := Z.of_nat (size (queue q)).

(** [for { if e := q.queue[q.oldPtr]; e != nil { .. return e }; q.oldPtr++ }]; the
    positions that can hold an entry lie below [newPtr], which bounds the loop. *)
Fixpoint fetch_loop (fuel : nat) (q : poolEntryQueue) : go (P * poolEntryQueue) :=
  match fuel with
  | O => Panics (PanicMsg "unbounded loop")
  | S fuel =>
      match queue q !! oldPtr q with
      | Some e => Ret (e, MkQueue (delete (oldPtr q) (queue q)) (newPtr q) (oldPtr q + 1) (maxCnt q))
      | None => fetch_loop fuel (MkQueue (queue q) (newPtr q) (oldPtr q + 1) (maxCnt q))
      end
  end.

Definition fetchOldest (q : poolEntryQueue) : go (option P * poolEntryQueue) :=
  if qlen q =? 0 then Ret (None, q)
  else
    '(e, q') ← fetch_loop (Z.to_nat (newPtr q - oldPtr q)) q;
    Ret (Some e, q').

(** [q.queue[entry.queueIdx] == entry]. *)
Definition holds (queueIdx : P -> Z) (q : poolEntryQueue) (entry : P) : bool :=
  bool_decide (queue q !! queueIdx entry = Some entry).

Definition remove (queueIdx : P -> Z) (q : poolEntryQueue) (entry : P) : poolEntryQueue :=
  if holds queueIdx q entry
  then MkQueue (delete (queueIdx entry) (queue q)) (newPtr q) (oldPtr q) (maxCnt q)
  else q.

(** The queue, the new value of [entry.queueIdx] and the entry handed to the
    callback [removeFromPool], if any. *)
Definition setLatest (queueIdx : P -> Z) (q : poolEntryQueue) (entry : P)
  : go (poolEntryQueue * Z * option P) :=
  '(q, evicted) ←
    (if holds queueIdx q entry
     then Ret (MkQueue (delete (queueIdx entry) (queue q)) (newPtr q) (oldPtr q) (maxCnt q), None)
     else if qlen q =? maxCnt q then
       '(e, q) ← fetchOldest q;
       match e with
       | None => Panics NilDeref
       | Some e => Ret (remove queueIdx q e, Some e)
       end
     else Ret (q, None));
  let i := newPtr q in
  Ret (MkQueue (<[i := entry]> (queue q)) (newPtr q + 1) (oldPtr q) (maxCnt q), i, evicted).

(** ** The abstract queue *)

Definition positions (q : poolEntryQueue) : list Z := seqZ (oldPtr q) (newPtr q - oldPtr q).

(** From the least to the most recently accessed entry. *)
Definition contents (q : poolEntryQueue) : list P := omap (fun i => queue q !! i) (positions q).

(** Every entry lies between the counters, at the position it remembers. *)
Definition queue_ok (queueIdx : P -> Z) (q : poolEntryQueue) : Prop :=
  oldPtr q <= newPtr q /\
  forall i e, queue q !! i = Some e -> oldPtr q <= i < newPtr q /\ queueIdx e = i.

(** The abstract operations. *)
Definition without (e : P) (l : list P) : list P := List.filter (fun x => bool_decide (x <> e)) l.

Definition latest (maxCnt : Z) (e : P) (l : list P) : list P * option P :=
  if bool_decide (e ∈ l) then (without e l ++ [e], None)
  else if zlen l =? maxCnt then (tail l ++ [e], head l)
  else (l ++ [e], None).

(** ** Lemmas *)

Lemma omap_delete (m : gmap Z P) i e l :
  (forall j x, m !! j = Some x -> (x = e <-> j = i)) ->
  omap (fun j => delete i m !! j) l = without e (omap (fun j => m !! j) l).
Proof.
  intros Hm. induction l as [|j l IH]; [done|]. csimpl. destruct (decide (i = j)) as [->|Hne].
  - rewrite lookup_delete_eq. destruct (m !! j) as [x|] eqn:E; csimpl; [|done].
    rewrite bool_decide_false; [done|]. intros Hx. apply Hx. by apply (Hm j x).
  - rewrite lookup_delete_ne by done. destruct (m !! j) as [x|] eqn:E; csimpl; [|done].
    rewrite bool_decide_true; [by rewrite IH|]. intros Hx. by apply Hne, eq_sym, (Hm j x).
Qed.

Lemma without_notin e l : e ∉ l -> without e l = l.
Proof.
  induction l as [|x l IH]; [done|]. intros Hn. apply not_elem_of_cons in Hn as [Hx Hl]. csimpl.
  rewrite bool_decide_true by congruence. by rewrite IH.
Qed.

Lemma omap_ext_in {A B} (f g : A -> option B) (l : list A) :
  (forall x, x ∈ l -> f x = g x) -> omap f l = omap g l.
Proof.
  intros H. induction l as [|x l IH]; [done|]. csimpl. rewrite (H x) by left.
  rewrite IH by (intros; apply H; by right). done.
Qed.

Lemma elem_of_contents idxs q e :
  queue_ok idxs q -> (e ∈ contents q <-> queue q !! idxs e = Some e).
Proof.
  intros [Hle Hq]. unfold contents. rewrite list_elem_of_omap. split.
  - intros (i & _ & E). destruct (Hq i e E) as [_ <-]. done.
  - intros E. exists (idxs e). destruct (Hq _ _ E) as [Hr _]. split; [|done].
    apply elem_of_seqZ. lia.
Qed.

Lemma holds_contents idxs q e : queue_ok idxs q -> holds idxs q e = bool_decide (e ∈ contents q).
Proof. intros Hq. unfold holds. by apply bool_decide_ext; rewrite elem_of_contents. Qed.

Lemma omap_size n : forall (m : gmap Z P) lo,
  (forall i e, m !! i = Some e -> lo <= i < lo + Z.of_nat n) ->
  length (omap (fun i => m !! i) (seqZ lo (Z.of_nat n))) = size m.
Proof.
  induction n as [|n IH]; intros m lo Hm.
  - assert (m = ∅) as ->; [|by rewrite map_size_empty]. apply map_empty. intros i.
    destruct (m !! i) as [e|] eqn:E; [|done]. apply Hm in E. lia.
  - rewrite seqZ_cons by lia. replace (Z.pred (Z.of_nat (S n))) with (Z.of_nat n) by lia. csimpl.
    assert (Hd : length (omap (fun i => delete lo m !! i) (seqZ (Z.succ lo) (Z.of_nat n))) = size (delete lo m)).
    { apply IH. intros i e E. apply lookup_delete_Some in E as [Hne E]. apply Hm in E. lia. }
    assert (Ho : omap (fun i => delete lo m !! i) (seqZ (Z.succ lo) (Z.of_nat n)) =
                 omap (fun i => m !! i) (seqZ (Z.succ lo) (Z.of_nat n))).
    { apply omap_ext_in. intros i Hi%elem_of_seqZ. rewrite lookup_delete_ne; [done|lia]. }
    rewrite Ho in Hd. destruct (m !! lo) as [e|] eqn:E; csimpl; rewrite Hd.
    + rewrite map_size_delete_Some by eauto. assert (size m <> 0%nat); [|lia].
      apply map_size_ne_0_lookup. eauto.
    + by rewrite delete_id.
Qed.

Lemma contents_length idxs q : queue_ok idxs q -> zlen (contents q) = qlen q.
Proof.
  intros [Hle Hq]. unfold zlen, qlen, contents, positions. f_equal.
  replace (newPtr q - oldPtr q) with (Z.of_nat (Z.to_nat (newPtr q - oldPtr q))) by lia.
  apply omap_size. intros i e E. apply Hq in E. lia.
Qed.

Lemma contents_NoDup idxs q : queue_ok idxs q -> NoDup (contents q).
Proof.
  intros [Hle Hq]. unfold contents, positions.
  assert (Hn : NoDup (seqZ (oldPtr q) (newPtr q - oldPtr q))) by apply NoDup_seqZ.
  induction Hn as [|i l Hi Hn IH]; [constructor|]. csimpl.
  destruct (queue q !! i) as [e|] eqn:E; [|done]. constructor; [|done].
  rewrite list_elem_of_omap. intros (j & Hj & E').
  destruct (Hq _ _ E) as [_ <-]. destruct (Hq _ _ E') as [_ <-]. done.
Qed.

(** The search stops at the oldest entry. *)
Lemma fetch_loop_spec idxs fuel : forall q,
  queue_ok idxs q -> queue q <> ∅ -> newPtr q - oldPtr q <= Z.of_nat fuel ->
  exists e q', fetch_loop fuel q = Ret (e, q') /\ queue_ok idxs q' /\ maxCnt q' = maxCnt q /\
    newPtr q' = newPtr q /\ contents q = e :: contents q' /\ e ∉ contents q'.
Proof.
  induction fuel as [|fuel IH]; intros q [Hle Hq] Hne Hf.
  { exfalso. apply map_choose in Hne as (i & e & E). apply Hq in E. lia. }
  assert (Hlt : oldPtr q < newPtr q) by (apply map_choose in Hne as (i & e & E); apply Hq in E; lia).
  cbn [fetch_loop]. destruct (queue q !! oldPtr q) as [e|] eqn:E.
  - destruct (Hq _ _ E) as [_ Hie].
    set (q' := MkQueue (delete (oldPtr q) (queue q)) (newPtr q) (oldPtr q + 1) (maxCnt q)).
    assert (Hok : queue_ok idxs q').
    { split; [csimpl; lia|]. intros i x Hx. csimpl in Hx. apply lookup_delete_Some in Hx as [Hne' Hx].
      destruct (Hq _ _ Hx). csimpl. split; [lia|done]. }
    exists e, q'. split_and!; [done|done|done|done| |].
    + unfold contents, positions. rewrite seqZ_cons by lia. csimpl. rewrite E. f_equal.
      replace (newPtr q - (oldPtr q + 1)) with (Z.pred (newPtr q - oldPtr q)) by lia.
      apply omap_ext_in. intros i Hi%elem_of_seqZ. rewrite lookup_delete_ne; [done|lia].
    + rewrite (elem_of_contents idxs) by done. csimpl. by rewrite Hie, lookup_delete_eq.
  - set (q1 := MkQueue (queue q) (newPtr q) (oldPtr q + 1) (maxCnt q)).
    assert (Hok : queue_ok idxs q1).
    { split; [csimpl; lia|]. intros i x Hx. csimpl in Hx. destruct (Hq _ _ Hx) as [? ?].
      csimpl. split; [|done]. assert (i <> oldPtr q) by congruence. lia. }
    destruct (IH q1 Hok Hne) as (e & q' & Ef & Hok' & Hm & Hp & Hc & Hn); [csimpl; lia|].
    exists e, q'. split_and!; try done. rewrite <- Hc. unfold contents, positions.
    rewrite (seqZ_cons (oldPtr q)) by lia. csimpl. rewrite E. csimpl.
    by replace (newPtr q - (oldPtr q + 1)) with (Z.pred (newPtr q - oldPtr q)) by lia.
Qed.

Lemma fetchOldest_spec idxs q :
  queue_ok idxs q ->
  exists q', fetchOldest q = Ret (head (contents q), q') /\ queue_ok idxs q' /\
    maxCnt q' = maxCnt q /\ newPtr q' = newPtr q /\ contents q' = tail (contents q).
Proof.
  intros Hok. unfold fetchOldest. rewrite <- (contents_length idxs q Hok).
  destruct (contents q) as [|e l] eqn:E; autorewrite with opera.
  - exists q. split_and!; done.
  - pose proof (zlen_nonneg l). rewrite (proj2 (Z.eqb_neq _ 0)) by lia.
    destruct (fetch_loop_spec idxs (Z.to_nat (newPtr q - oldPtr q)) q Hok) as (e' & q' & Ef & Hok' & Hm & Hp & Hc & _).
    + intros Hq. unfold contents in E. rewrite Hq in E. clear -E. induction (positions q); csimpl in E; [done|].
      by rewrite lookup_empty in E.
    + destruct Hok. lia.
    + exists q'. rewrite Ef. rewrite E in Hc. injection Hc as <- ->. split_and!; done.
Qed.

Lemma queue_delete idxs q e :
  queue_ok idxs q -> queue q !! idxs e = Some e ->
  let q' := MkQueue (delete (idxs e) (queue q)) (newPtr q) (oldPtr q) (maxCnt q) in
  queue_ok idxs q' /\ contents q' = without e (contents q).
Proof.
  intros [Hle Hq] He q'. split.
  - split; [done|]. intros i x Hx. csimpl in Hx. apply lookup_delete_Some in Hx as [_ Hx]. by apply Hq.
  - unfold contents, q', positions. csimpl. apply omap_delete. intros j x Hx.
    destruct (Hq _ _ Hx) as [_ <-]. split; [by intros ->|]. intros Hij. rewrite Hij in Hx. congruence.
Qed.

Lemma remove_spec idxs q e :
  queue_ok idxs q ->
  queue_ok idxs (remove idxs q e) /\ contents (remove idxs q e) = without e (contents q) /\
  maxCnt (remove idxs q e) = maxCnt q /\ newPtr (remove idxs q e) = newPtr q.
Proof.
  intros Hok. unfold remove. rewrite (holds_contents idxs q e Hok).
  destruct (bool_decide_reflect (e ∈ contents q)) as [Hin|Hn].
  - destruct (queue_delete idxs q e Hok) as [? ?]; [by apply elem_of_contents|]. done.
  - by rewrite without_notin.
Qed.

(** Appending an entry that is not in the queue. *)
Lemma queue_push idxs q e :
  queue_ok idxs q -> e ∉ contents q ->
  let q' := MkQueue (<[newPtr q := e]> (queue q)) (newPtr q + 1) (oldPtr q) (maxCnt q) in
  queue_ok (<[e := newPtr q]> idxs) q' /\ contents q' = contents q ++ [e].
Proof.
  intros Hok Hn q'. pose proof Hok as [Hle Hq]. split.
  - split; [csimpl; lia|]. intros i x Hx. csimpl in Hx.
    apply lookup_insert_Some in Hx as [[<- <-]|[Hne Hx]]; csimpl.
    + rewrite fn_lookup_insert. lia.
    + destruct (Hq _ _ Hx) as [Hr Hi]. rewrite fn_lookup_insert_ne; [split; [lia|done]|].
      intros ->. apply Hn. apply (elem_of_contents idxs); [done|]. by rewrite Hi.
  - unfold contents, q', positions. csimpl.
    replace (newPtr q + 1 - oldPtr q) with ((newPtr q - oldPtr q) + 1) by lia.
    rewrite seqZ_app by lia. rewrite omap_app. f_equal.
    + apply omap_ext_in. intros i Hi%elem_of_seqZ. rewrite lookup_insert_ne; [done|lia].
    + replace (oldPtr q + (newPtr q - oldPtr q)) with (newPtr q) by lia. csimpl. by rewrite lookup_insert_eq.
Qed.

Lemma without_elem e l : e ∉ without e l.
Proof.
  intros Hin. unfold without in Hin. apply list_elem_of_In, filter_In in Hin as [_ Hb].
  apply bool_decide_eq_true in Hb. done.
Qed.

Lemma without_length e l : (length (without e l) <= length l)%nat.
Proof. induction l as [|x l IH]; simpl; [done|]. case_bool_decide; simpl; lia. Qed.

Lemma without_shorter e l : e ∈ l -> (length (without e l) < length l)%nat.
Proof.
  induction l as [|x l IH]; intros Hin; [by apply elem_of_nil in Hin|]. simpl.
  apply elem_of_cons in Hin as [->|Hin].
  - rewrite bool_decide_false by tauto. pose proof (without_length x l). lia.
  - specialize (IH Hin). case_bool_decide; simpl; lia.
Qed.

Lemma setLatest_spec idxs q e :
  queue_ok idxs q -> 0 < maxCnt q ->
  exists q', setLatest idxs q e = Ret (q', newPtr q, snd (latest (maxCnt q) e (contents q))) /\
    queue_ok (<[e := newPtr q]> idxs) q' /\ maxCnt q' = maxCnt q /\
    contents q' = fst (latest (maxCnt q) e (contents q)).
Proof.
  intros Hok Hmax. unfold setLatest, latest. rewrite (holds_contents idxs q e Hok).
  destruct (bool_decide_reflect (e ∈ contents q)) as [Hin|Hn]; cbn [mbind go_bind].
  - destruct (queue_delete idxs q e Hok) as [Hok' Hc]; [by apply elem_of_contents|].
    destruct (queue_push idxs _ e Hok') as [Hok2 Hc2]; [rewrite Hc; apply without_elem|].
    eexists. split; [done|]. cbn [newPtr oldPtr maxCnt queue] in *. split_and!; [done|done|].
    cbn [fst]. by rewrite Hc2, Hc.
  - rewrite (contents_length idxs q Hok). destruct (Z.eqb_spec (qlen q) (maxCnt q)) as [Hfull|Hroom].
    + destruct (fetchOldest_spec idxs q Hok) as (q1 & Ef & Hok1 & Hm1 & Hp1 & Hc1). rewrite Ef. cbn [mbind go_bind].
      pose proof (contents_NoDup idxs q Hok) as Hnd.
      destruct (contents q) as [|old l] eqn:E.
      { pose proof (contents_length idxs q Hok) as Hl. rewrite E in Hl. autorewrite with opera in Hl. lia. }
      cbn [head tail] in *. destruct (remove_spec idxs q1 old Hok1) as (Hok2 & Hc2 & Hm2 & Hp2).
      rewrite Hc1, without_notin in Hc2 by by inversion Hnd. cbn [mbind go_bind].
      assert (He : e ∉ contents (remove idxs q1 old)).
      { rewrite Hc2. intros Hl. apply Hn. by right. }
      destruct (queue_push idxs _ e Hok2 He) as [Hok3 Hc3]. rewrite Hp2, Hp1 in *.
      eexists. split; [done|]. cbn [maxCnt fst]. split_and!; [done|congruence|]. by rewrite Hc3, Hc2.
    + cbn [mbind go_bind]. destruct (queue_push idxs q e Hok Hn) as [Hok2 Hc2].
      eexists. split; [done|]. cbn [fst]. done.
Qed.

End Queue.
Arguments poolEntryQueue P : clear implicits.

(** ** Property *)

(** C30: the queue refines a list of entries from the least to the most recently
    accessed: [fetchOldest] takes the first one (its search terminates),
    [remove] takes one out wherever it is, and [setLatest] moves an entry to the
    end, evicting the oldest one when a new entry meets a full queue; none of
    them fails, and the length never exceeds the limit. *)
Theorem queue_refines_list {P} `{EqDecision P} (idxs : P -> Z) (q : poolEntryQueue P) (e : P) :
  queue_ok idxs q -> 0 < maxCnt q -> zlen (contents q) <= maxCnt q ->
  (exists q', fetchOldest q = Ret (head (contents q), q') /\ queue_ok idxs q' /\
     contents q' = tail (contents q)) /\
  (queue_ok idxs (remove idxs q e) /\ contents (remove idxs q e) = without e (contents q)) /\
  (exists q' i evicted, setLatest idxs q e = Ret (q', i, evicted) /\ queue_ok (<[e := i]> idxs) q' /\
     (contents q', evicted) = latest (maxCnt q) e (contents q) /\ zlen (contents q') <= maxCnt q).
Proof.
  intros Hok Hmax Hlen. split_and!.
  - destruct (fetchOldest_spec idxs q Hok) as (q' & ? & ? & ? & ? & ?). eauto.
  - by apply remove_spec.
  - by apply remove_spec.
  - destruct (setLatest_spec idxs q e Hok Hmax) as (q' & E & Hok' & Hm & Hc).
    eexists _, _, _. split; [exact E|]. split; [done|]. split; [by rewrite Hc; destruct (latest _ _ _)|].
    rewrite Hc. unfold latest. pose proof (contents_NoDup idxs q Hok) as Hnd.
    destruct (bool_decide_reflect (e ∈ contents q)) as [Hin|Hn]; [|destruct (Z.eqb_spec (zlen (contents q)) (maxCnt q))];
      cbn [fst]; autorewrite with opera.
    + pose proof (without_shorter e _ Hin). unfold zlen in *. change (length [e]) with 1%nat in *. simpl. lia.
    + destruct (contents q); autorewrite with opera in *; [lia|]. simpl. lia.
    + lia.
Qed.

(** A full queue of two entries, 10 older than 20. *)
Definition sample_queue : poolEntryQueue Z := MkQueue (<[3 := 10]> (<[5 := 20]> ∅)) 6 2 2.
Definition sample_idx (e : Z) : Z := if e =? 10 then 3 else 5.

Lemma sample_queue_ok : queue_ok sample_idx sample_queue.
Proof.
  split; [vm_compute; discriminate|]. intros i e. unfold sample_queue. cbn [queue oldPtr newPtr].
  rewrite !lookup_insert_Some, lookup_empty.
  intros [[<- <-]|[_ [[<- <-]|[_ [=]]]]]; (split; [lia|reflexivity]).
Qed.

Lemma queue_refines_list_witness :
  (exists q', fetchOldest sample_queue = Ret (Some 10, q') /\ queue_ok sample_idx q' /\ contents q' = [20]) /\
  (queue_ok sample_idx (remove sample_idx sample_queue 30) /\
   contents (remove sample_idx sample_queue 30) = without 30 [10; 20]) /\
  (exists q' i evicted, setLatest sample_idx sample_queue 30 = Ret (q', i, evicted) /\
     queue_ok (<[30 := i]> sample_idx) q' /\ (contents q', evicted) = ([20; 30], Some 10) /\
     zlen (contents q') <= 2).
Proof.
  assert (E : contents sample_queue = [10; 20]) by (vm_compute; reflexivity).
  assert (L : latest 2 30 [10; 20] = ([20; 30], Some 10)) by (vm_compute; reflexivity).
  pose proof (queue_refines_list sample_idx sample_queue 30 sample_queue_ok) as H.
  rewrite E in H. change (maxCnt sample_queue) with 2 in H. rewrite L in H. cbn [head tail] in H.
  apply H; [lia|vm_compute; discriminate].
Defined.

End PoolQueue.
