(* ===== verification/ServerPool.v ===== *)
(** * gossip/serverpool.go: the pool of servers to connect to

    The pool keeps discovered and known nodes, dials them and counts the
    connections it has selected.  Its event loop is a state machine: every case
    of the loop's [select] is a handler on the pool state.  Entries and
    addresses are shared, mutable objects, so they live in heaps and are named
    by pointers; the selection trees and the queues hold these pointers.

    Parameters: the [float64] operations (the statistics are kept as the code
    computes them, nothing is assumed about rounding), one reading of the clock
    per handler, and the results of [rand.Int63n].

    Not modelled: the goroutines that feed the loop (their messages are the
    handlers' arguments), discovery itself, persistence of the entries. *)

From Stdlib Require Import ZArith Lia Bool.
From stdpp Require Import base list numbers option strings gmap pretty.
From S2P Require Import Prelude RandSelect PoolQueue.
Local Open Scope Z_scope.

(** Go's float64, as the statistics use it. *)
Class Float64 := {
  float : Type;
  f_of_Z : Z -> float;                    (** [float64(x)] of an integer *)
  f_to_i64 : float -> Z;                  (** [int64(x)] *)
  fadd : float -> float -> float;
  fsub : float -> float -> float;
  fmul : float -> float -> float;
  fdiv : float -> float -> float;
  fneg : float -> float;
  fgt : float -> float -> bool;
  feq : float -> float -> bool;
  fexp : float -> float;                  (** [math.Exp] *)
  fpow : float -> float -> float;         (** [math.Pow] *)
  fln2 : float                            (** [math.Ln2] *)
}.

Module ServerPool.

(** ** Constants (nanoseconds) *)

Definition second : Z := 1000000000.
Definition shortRetryCnt : Z := 5.
Definition shortRetryDelay : Z := 5 * second.
Definition longRetryDelay : Z := 600 * second.
Definition maxNewEntries : Z := 1000.
Definition maxKnownEntries : Z := 1000.
Definition targetServerCount : Z := 5.
Definition targetKnownSelect : Z := 3.
Definition targetConnTime : Z := 600 * second.
Definition discoverExpireStart : Z := 1200 * second.
Definition discoverExpireConst : Z := 1200 * second.
Definition pstatReturnToMeanTC : Z := 3600 * second.
Definition responseScoreTC : Z := 100000000.
Definition delayScoreTC : Z := 5 * second.
Definition timeoutPow : Z := 10.
Definition initStatsWeight : Z := 1.

(** Pointers to entries and to addresses. *)
Abbreviation ptr := Z (only parsing).
Abbreviation aptr := Z (only parsing).
(** [enode.ID], compared for equality only. *)
Abbreviation ID := Z (only parsing).

(** What the pool reads of an [enode.Node]. *)
Record enode := MkEnode { node_ID : ID; node_IP : string; node_TCP : Z }.

Section Pool.
Context `{Float64}.

(** ** poolStats *)

Record poolStats := MkStats {
  sum : float; weight : float; avg : float; recent : float; lastRecalc : Z
}.

Definition zero_stats : poolStats :=
  MkStats (f_of_Z 0) (f_of_Z 0) (f_of_Z 0) (f_of_Z 0) 0.

Definition stats_init (now : Z) (s w : float) : poolStats :=
  let avg := if fgt w (f_of_Z 0) then fdiv s w else f_of_Z 0 in
  MkStats s w avg avg now.

Definition recalc (now : Z) (s : poolStats) : poolStats :=
  let rec := fadd (avg s)
    (fmul (fsub (recent s) (avg s))
          (fexp (fdiv (fneg (f_of_Z (now - lastRecalc s))) (f_of_Z pstatReturnToMeanTC)))) in
  let avg' :=
    if feq (sum s) (f_of_Z 0) then f_of_Z 0
    else if fgt (sum s) (fmul (weight s) (f_of_Z (10 ^ 30))) then f_of_Z (10 ^ 30)
    else fdiv (sum s) (weight s) in
  MkStats (sum s) (weight s) avg' rec now.

Definition stats_add (now : Z) (s : poolStats) (value w : float) : poolStats :=
  recalc now (MkStats (fadd (sum s) (fmul value w)) (fadd (weight s) w)
                (avg s) (recent s) (lastRecalc s)).

Definition recentAvg (now : Z) (s : poolStats) : float * poolStats :=
  let s := recalc now s in (recent s, s).

(** ** Addresses and entries *)

Record poolEntryAddress := MkAddr { ip : string; port : Z; lastSeen : Z; fails : Z }.

Definition strKey (a : poolEntryAddress) : string := ip a +:+ ":" +:+ pretty (port a).

Definition addr_Weight (now : Z) (a : poolEntryAddress) : Z :=
  let t := now - lastSeen a in
  i64 (f_to_i64 (fmul (f_of_Z 1000000)
         (fexp (fsub (fdiv (fneg (f_of_Z t)) (f_of_Z discoverExpireConst))
                     (fmul (f_of_Z (fails a)) fln2)))) + 1).

Inductive poolState := psNotConnected | psDialed | psConnected | psRegistered.

#[export] Instance poolState_eq_dec : EqDecision poolState.
Proof. solve_decision. Defined.

Record poolEntry := MkEntry {
  e_peer : option Z;
  addr : gmap string aptr;
  node : enode;
  lastConnected : option aptr;
  dialed : option aptr;
  addrSelect : RandSelect.weightedRandomSelect aptr;
  lastDiscovered : Z;
  known : bool;
  knownSelected : bool;
  connectStats : poolStats;
  delayStats : poolStats;
  responseStats : poolStats;
  timeoutStats : poolStats;
  state : poolState;
  regTime : Z;
  queueIdx : Z;
  removed : bool;
  delayedRetry : bool;
  shortRetry : Z
}.

(** [discoveredEntry.Weight]. *)
Definition discovered_Weight (now : Z) (e : poolEntry) : Z :=
  if bool_decide (state e <> psNotConnected) || delayedRetry e then 0
  else
    let t := now - lastDiscovered e in
    if t <=? discoverExpireStart then 1000000000
    else f_to_i64 (fmul (f_of_Z 1000000000)
           (fexp (fdiv (fneg (f_of_Z (t - discoverExpireStart))) (f_of_Z discoverExpireConst)))).

(** Field updates. *)
Definition set_e_peer v (e : poolEntry) : poolEntry :=
  MkEntry v (addr e) (node e) (lastConnected e) (dialed e) (addrSelect e) (lastDiscovered e) (known e)
    (knownSelected e) (connectStats e) (delayStats e) (responseStats e) (timeoutStats e) (state e)
    (regTime e) (queueIdx e) (removed e) (delayedRetry e) (shortRetry e).
Definition set_addr v (e : poolEntry) : poolEntry :=
  MkEntry (e_peer e) v (node e) (lastConnected e) (dialed e) (addrSelect e) (lastDiscovered e) (known
    e) (knownSelected e) (connectStats e) (delayStats e) (responseStats e) (timeoutStats e) (state e)
    (regTime e) (queueIdx e) (removed e) (delayedRetry e) (shortRetry e).
Definition set_lastConnected v (e : poolEntry) : poolEntry :=
  MkEntry (e_peer e) (addr e) (node e) v (dialed e) (addrSelect e) (lastDiscovered e) (known e)
    (knownSelected e) (connectStats e) (delayStats e) (responseStats e) (timeoutStats e) (state e)
    (regTime e) (queueIdx e) (removed e) (delayedRetry e) (shortRetry e).
Definition set_dialed v (e : poolEntry) : poolEntry :=
  MkEntry (e_peer e) (addr e) (node e) (lastConnected e) v (addrSelect e) (lastDiscovered e) (known e)
    (knownSelected e) (connectStats e) (delayStats e) (responseStats e) (timeoutStats e) (state e)
    (regTime e) (queueIdx e) (removed e) (delayedRetry e) (shortRetry e).
Definition set_addrSelect v (e : poolEntry) : poolEntry :=
  MkEntry (e_peer e) (addr e) (node e) (lastConnected e) (dialed e) v (lastDiscovered e) (known e)
    (knownSelected e) (connectStats e) (delayStats e) (responseStats e) (timeoutStats e) (state e)
    (regTime e) (queueIdx e) (removed e) (delayedRetry e) (shortRetry e).
Definition set_lastDiscovered v (e : poolEntry) : poolEntry :=
  MkEntry (e_peer e) (addr e) (node e) (lastConnected e) (dialed e) (addrSelect e) v (known e)
    (knownSelected e) (connectStats e) (delayStats e) (responseStats e) (timeoutStats e) (state e)
    (regTime e) (queueIdx e) (removed e) (delayedRetry e) (shortRetry e).
Definition set_known v (e : poolEntry) : poolEntry :=
  MkEntry (e_peer e) (addr e) (node e) (lastConnected e) (dialed e) (addrSelect e) (lastDiscovered e)
    v (knownSelected e) (connectStats e) (delayStats e) (responseStats e) (timeoutStats e) (state e)
    (regTime e) (queueIdx e) (removed e) (delayedRetry e) (shortRetry e).
Definition set_knownSelected v (e : poolEntry) : poolEntry :=
  MkEntry (e_peer e) (addr e) (node e) (lastConnected e) (dialed e) (addrSelect e) (lastDiscovered e)
    (known e) v (connectStats e) (delayStats e) (responseStats e) (timeoutStats e) (state e) (regTime e)
    (queueIdx e) (removed e) (delayedRetry e) (shortRetry e).
Definition set_connectStats v (e : poolEntry) : poolEntry :=
  MkEntry (e_peer e) (addr e) (node e) (lastConnected e) (dialed e) (addrSelect e) (lastDiscovered e)
    (known e) (knownSelected e) v (delayStats e) (responseStats e) (timeoutStats e) (state e) (regTime
    e) (queueIdx e) (removed e) (delayedRetry e) (shortRetry e).
Definition set_delayStats v (e : poolEntry) : poolEntry :=
  MkEntry (e_peer e) (addr e) (node e) (lastConnected e) (dialed e) (addrSelect e) (lastDiscovered e)
    (known e) (knownSelected e) (connectStats e) v (responseStats e) (timeoutStats e) (state e) (regTime
    e) (queueIdx e) (removed e) (delayedRetry e) (shortRetry e).
Definition set_responseStats v (e : poolEntry) : poolEntry :=
  MkEntry (e_peer e) (addr e) (node e) (lastConnected e) (dialed e) (addrSelect e) (lastDiscovered e)
    (known e) (knownSelected e) (connectStats e) (delayStats e) v (timeoutStats e) (state e) (regTime e)
    (queueIdx e) (removed e) (delayedRetry e) (shortRetry e).
Definition set_timeoutStats v (e : poolEntry) : poolEntry :=
  MkEntry (e_peer e) (addr e) (node e) (lastConnected e) (dialed e) (addrSelect e) (lastDiscovered e)
    (known e) (knownSelected e) (connectStats e) (delayStats e) (responseStats e) v (state e) (regTime
    e) (queueIdx e) (removed e) (delayedRetry e) (shortRetry e).
Definition set_state v (e : poolEntry) : poolEntry :=
  MkEntry (e_peer e) (addr e) (node e) (lastConnected e) (dialed e) (addrSelect e) (lastDiscovered e)
    (known e) (knownSelected e) (connectStats e) (delayStats e) (responseStats e) (timeoutStats e) v
    (regTime e) (queueIdx e) (removed e) (delayedRetry e) (shortRetry e).
Definition set_regTime v (e : poolEntry) : poolEntry :=
  MkEntry (e_peer e) (addr e) (node e) (lastConnected e) (dialed e) (addrSelect e) (lastDiscovered e)
    (known e) (knownSelected e) (connectStats e) (delayStats e) (responseStats e) (timeoutStats e)
    (state e) v (queueIdx e) (removed e) (delayedRetry e) (shortRetry e).
Definition set_queueIdx v (e : poolEntry) : poolEntry :=
  MkEntry (e_peer e) (addr e) (node e) (lastConnected e) (dialed e) (addrSelect e) (lastDiscovered e)
    (known e) (knownSelected e) (connectStats e) (delayStats e) (responseStats e) (timeoutStats e)
    (state e) (regTime e) v (removed e) (delayedRetry e) (shortRetry e).
Definition set_removed v (e : poolEntry) : poolEntry :=
  MkEntry (e_peer e) (addr e) (node e) (lastConnected e) (dialed e) (addrSelect e) (lastDiscovered e)
    (known e) (knownSelected e) (connectStats e) (delayStats e) (responseStats e) (timeoutStats e)
    (state e) (regTime e) (queueIdx e) v (delayedRetry e) (shortRetry e).
Definition set_delayedRetry v (e : poolEntry) : poolEntry :=
  MkEntry (e_peer e) (addr e) (node e) (lastConnected e) (dialed e) (addrSelect e) (lastDiscovered e)
    (known e) (knownSelected e) (connectStats e) (delayStats e) (responseStats e) (timeoutStats e)
    (state e) (regTime e) (queueIdx e) (removed e) v (shortRetry e).
Definition set_shortRetry v (e : poolEntry) : poolEntry :=
  MkEntry (e_peer e) (addr e) (node e) (lastConnected e) (dialed e) (addrSelect e) (lastDiscovered e)
    (known e) (knownSelected e) (connectStats e) (delayStats e) (responseStats e) (timeoutStats e)
    (state e) (regTime e) (queueIdx e) (removed e) (delayedRetry e) v.

Definition with_stats (e : poolEntry) c d r t : poolEntry :=
  set_connectStats c (set_delayStats d (set_responseStats r (set_timeoutStats t e))).

(** [knownEntry.Weight]: asking for the averages refreshes the statistics.
    [fails] is the failure count of [e.lastConnected]. *)
Definition known_Weight (now : Z) (fails : option Z) (e : poolEntry) : go (Z * poolEntry) :=
  if bool_decide (state e <> psNotConnected) || negb (known e) || delayedRetry e then Ret (0, e)
  else
    let '(c, cs) := recentAvg now (connectStats e) in
    match fails with
    | None => Panics NilDeref
    | Some f =>
        let '(r, rs) := recentAvg now (responseStats e) in
        let '(d, ds) := recentAvg now (delayStats e) in
        let '(t, ts) := recentAvg now (timeoutStats e) in
        let failDropLn := fdiv (f_of_Z 1) (f_of_Z 10) in
        let x := fexp (fsub (fsub (fmul (fneg (f_of_Z f)) failDropLn)
                                  (fdiv r (f_of_Z responseScoreTC)))
                            (fdiv d (f_of_Z delayScoreTC))) in
        let y := fpow (fsub (f_of_Z 1) t) (f_of_Z timeoutPow) in
        Ret (f_to_i64 (fmul (fmul (fmul (f_of_Z 1000000000) c) x) y), with_stats e cs ds rs ts)
    end.

(** ** The pool *)

Record serverPool := MkPool {
  heap : gmap ptr poolEntry;
  addrs : gmap aptr poolEntryAddress;
  nextPtr : Z;
  entries : gmap ID ptr;
  trustedNodes : gmap ID enode;
  knownQueue : PoolQueue.poolEntryQueue ptr;
  newQueue : PoolQueue.poolEntryQueue ptr;
  knownSelect : RandSelect.weightedRandomSelect ptr;
  newSelect : RandSelect.weightedRandomSelect ptr;
  knownSelectedCnt : Z;
  newSelectedCnt : Z;
  fastDiscover : bool;
  server : bool;          (** [pool.server != nil] *)
  connWg : Z;
  lookupCnt : Z;
  convTime : Z;
  draws : nat             (** random numbers taken so far *)
}.

Definition set_heap v (p : serverPool) : serverPool :=
  MkPool v (addrs p) (nextPtr p) (entries p) (trustedNodes p) (knownQueue p) (newQueue p) (knownSelect
    p) (newSelect p) (knownSelectedCnt p) (newSelectedCnt p) (fastDiscover p) (server p) (connWg p)
    (lookupCnt p) (convTime p) (draws p).
Definition set_addrs v (p : serverPool) : serverPool :=
  MkPool (heap p) v (nextPtr p) (entries p) (trustedNodes p) (knownQueue p) (newQueue p) (knownSelect
    p) (newSelect p) (knownSelectedCnt p) (newSelectedCnt p) (fastDiscover p) (server p) (connWg p)
    (lookupCnt p) (convTime p) (draws p).
Definition set_nextPtr v (p : serverPool) : serverPool :=
  MkPool (heap p) (addrs p) v (entries p) (trustedNodes p) (knownQueue p) (newQueue p) (knownSelect p)
    (newSelect p) (knownSelectedCnt p) (newSelectedCnt p) (fastDiscover p) (server p) (connWg p)
    (lookupCnt p) (convTime p) (draws p).
Definition set_entries v (p : serverPool) : serverPool :=
  MkPool (heap p) (addrs p) (nextPtr p) v (trustedNodes p) (knownQueue p) (newQueue p) (knownSelect p)
    (newSelect p) (knownSelectedCnt p) (newSelectedCnt p) (fastDiscover p) (server p) (connWg p)
    (lookupCnt p) (convTime p) (draws p).
Definition set_knownQueue v (p : serverPool) : serverPool :=
  MkPool (heap p) (addrs p) (nextPtr p) (entries p) (trustedNodes p) v (newQueue p) (knownSelect p)
    (newSelect p) (knownSelectedCnt p) (newSelectedCnt p) (fastDiscover p) (server p) (connWg p)
    (lookupCnt p) (convTime p) (draws p).
Definition set_newQueue v (p : serverPool) : serverPool :=
  MkPool (heap p) (addrs p) (nextPtr p) (entries p) (trustedNodes p) (knownQueue p) v (knownSelect p)
    (newSelect p) (knownSelectedCnt p) (newSelectedCnt p) (fastDiscover p) (server p) (connWg p)
    (lookupCnt p) (convTime p) (draws p).
Definition set_knownSelect v (p : serverPool) : serverPool :=
  MkPool (heap p) (addrs p) (nextPtr p) (entries p) (trustedNodes p) (knownQueue p) (newQueue p) v
    (newSelect p) (knownSelectedCnt p) (newSelectedCnt p) (fastDiscover p) (server p) (connWg p)
    (lookupCnt p) (convTime p) (draws p).
Definition set_newSelect v (p : serverPool) : serverPool :=
  MkPool (heap p) (addrs p) (nextPtr p) (entries p) (trustedNodes p) (knownQueue p) (newQueue p)
    (knownSelect p) v (knownSelectedCnt p) (newSelectedCnt p) (fastDiscover p) (server p) (connWg p)
    (lookupCnt p) (convTime p) (draws p).
Definition set_knownSelectedCnt v (p : serverPool) : serverPool :=
  MkPool (heap p) (addrs p) (nextPtr p) (entries p) (trustedNodes p) (knownQueue p) (newQueue p)
    (knownSelect p) (newSelect p) v (newSelectedCnt p) (fastDiscover p) (server p) (connWg p) (lookupCnt
    p) (convTime p) (draws p).
Definition set_newSelectedCnt v (p : serverPool) : serverPool :=
  MkPool (heap p) (addrs p) (nextPtr p) (entries p) (trustedNodes p) (knownQueue p) (newQueue p)
    (knownSelect p) (newSelect p) (knownSelectedCnt p) v (fastDiscover p) (server p) (connWg p)
    (lookupCnt p) (convTime p) (draws p).
Definition set_fastDiscover v (p : serverPool) : serverPool :=
  MkPool (heap p) (addrs p) (nextPtr p) (entries p) (trustedNodes p) (knownQueue p) (newQueue p)
    (knownSelect p) (newSelect p) (knownSelectedCnt p) (newSelectedCnt p) v (server p) (connWg p)
    (lookupCnt p) (convTime p) (draws p).
Definition set_server v (p : serverPool) : serverPool :=
  MkPool (heap p) (addrs p) (nextPtr p) (entries p) (trustedNodes p) (knownQueue p) (newQueue p)
    (knownSelect p) (newSelect p) (knownSelectedCnt p) (newSelectedCnt p) (fastDiscover p) v (connWg p)
    (lookupCnt p) (convTime p) (draws p).
Definition set_connWg v (p : serverPool) : serverPool :=
  MkPool (heap p) (addrs p) (nextPtr p) (entries p) (trustedNodes p) (knownQueue p) (newQueue p)
    (knownSelect p) (newSelect p) (knownSelectedCnt p) (newSelectedCnt p) (fastDiscover p) (server p) v
    (lookupCnt p) (convTime p) (draws p).
Definition set_lookupCnt v (p : serverPool) : serverPool :=
  MkPool (heap p) (addrs p) (nextPtr p) (entries p) (trustedNodes p) (knownQueue p) (newQueue p)
    (knownSelect p) (newSelect p) (knownSelectedCnt p) (newSelectedCnt p) (fastDiscover p) (server p)
    (connWg p) v (convTime p) (draws p).
Definition set_convTime v (p : serverPool) : serverPool :=
  MkPool (heap p) (addrs p) (nextPtr p) (entries p) (trustedNodes p) (knownQueue p) (newQueue p)
    (knownSelect p) (newSelect p) (knownSelectedCnt p) (newSelectedCnt p) (fastDiscover p) (server p)
    (connWg p) (lookupCnt p) v (draws p).
Definition set_draws v (p : serverPool) : serverPool :=
  MkPool (heap p) (addrs p) (nextPtr p) (entries p) (trustedNodes p) (knownQueue p) (newQueue p)
    (knownSelect p) (newSelect p) (knownSelectedCnt p) (newSelectedCnt p) (fastDiscover p) (server p)
    (connWg p) (lookupCnt p) (convTime p) v.

Definition newServerPool (trusted : gmap ID enode) : serverPool :=
  MkPool ∅ ∅ 1 ∅ trusted (PoolQueue.newPoolEntryQueue maxKnownEntries)
    (PoolQueue.newPoolEntryQueue maxNewEntries)
    RandSelect.newWeightedRandomSelect RandSelect.newWeightedRandomSelect
    0 0 true false 0 0 0 O.

(** ** Primitive accesses to the heaps *)

Abbreviation P := (stm serverPool).

Definition get_entry (e : ptr) : P poolEntry :=
  p ← gets id; lift (match heap p !! e with Some x => Ret x | None => Panics NilDeref end).

Definition upd_entry (e : ptr) (f : poolEntry -> poolEntry) : P unit :=
  x ← get_entry e; modify (fun p => set_heap (<[e := f x]> (heap p)) p).

Definition get_addr (a : aptr) : P poolEntryAddress :=
  p ← gets id; lift (match addrs p !! a with Some x => Ret x | None => Panics NilDeref end).

Definition upd_addr (a : aptr) (f : poolEntryAddress -> poolEntryAddress) : P unit :=
  x ← get_addr a; modify (fun p => set_addrs (<[a := f x]> (addrs p)) p).

Definition alloc : P Z :=
  i ← gets nextPtr; _ ← modify (set_nextPtr (i + 1)); mret i.

Definition idx_of (p : serverPool) (e : ptr) : Z :=
  match heap p !! e with Some x => queueIdx x | None => 0 end.

Section Handlers.
Context (now : Z) (Int63n : nat -> Z -> Z).

(** Weights as the selection trees ask for them. *)
Definition new_weight (h : gmap ptr poolEntry) (e : ptr) : go (Z * gmap ptr poolEntry) :=
  match h !! e with
  | None => Panics NilDeref
  | Some x => Ret (discovered_Weight now x, h)
  end.

Definition known_weight (as_ : gmap aptr poolEntryAddress) (h : gmap ptr poolEntry) (e : ptr)
  : go (Z * gmap ptr poolEntry) :=
  match h !! e with
  | None => Panics NilDeref
  | Some x =>
      '(w, x) ← known_Weight now (a ← lastConnected x; fails <$> (as_ !! a)) x;
      Ret (w, <[e := x]> h)
  end.

Definition address_weight (as_ : gmap aptr poolEntryAddress) (u : unit) (a : aptr) : go (Z * unit) :=
  match as_ !! a with
  | None => Panics NilDeref
  | Some x => Ret (addr_Weight now x, u)
  end.

(** The loops of [choose] and [checkDial] are given as many iterations as they
    can need ([run_choose_ends], [checkDial_ends]); running out stands for a loop
    that does not end. *)
Definition unbounded : panic := PanicMsg "unbounded loop".

Definition run_choose {K St} `{Countable K} (W : St -> K -> go (Z * St))
  (k : nat) (w : RandSelect.weightedRandomSelect K) (s : St)
  : go (option K * (nat * RandSelect.weightedRandomSelect K * St)) :=
  r ← RandSelect.choose_upto W Int63n (Z.to_pos (RandSelect.sumWeight (RandSelect.root w) + 1)) (k, w, s);
  match r with
  | inr r => Ret r
  | inl _ => Panics unbounded
  end.

Definition choose_known : P (option ptr) := fun p =>
  '(r, (k, w, h)) ← run_choose (known_weight (addrs p)) (draws p) (knownSelect p) (heap p);
  Ret (r, set_draws k (set_knownSelect w (set_heap h p))).

Definition choose_new : P (option ptr) := fun p =>
  '(r, (k, w, h)) ← run_choose new_weight (draws p) (newSelect p) (heap p);
  Ret (r, set_draws k (set_newSelect w (set_heap h p))).

(** The type assertion on [entry.addrSelect.choose()] panics on nil. *)
Definition choose_addr (e : ptr) : P aptr := fun p =>
  match heap p !! e with
  | None => Panics NilDeref
  | Some x =>
      '(r, (k, w, _)) ← run_choose (address_weight (addrs p)) (draws p) (addrSelect x) tt;
      match r with
      | None => Panics (PanicMsg "interface conversion")
      | Some a => Ret (a, set_draws k (set_heap (<[e := set_addrSelect w x]> (heap p)) p))
      end
  end.

(** ** Operations of the pool *)

(** [removeEntry], the callback of both queues. *)
Definition removeEntry (e : ptr) : P unit :=
  p ← gets id;
  ns ← lift (RandSelect.remove (newSelect p) e);
  _ ← modify (set_newSelect ns);
  ks ← lift (RandSelect.remove (knownSelect p) e);
  _ ← modify (set_knownSelect ks);
  _ ← upd_entry e (set_removed true);
  x ← get_entry e;
  modify (fun p => set_entries (delete (node_ID (node x)) (entries p)) p).

Definition setLatest_new (e : ptr) : P unit :=
  p ← gets id;
  '(q, i, evicted) ← lift (PoolQueue.setLatest (idx_of p) (newQueue p) e);
  _ ← match evicted with Some old => removeEntry old | None => mret tt end;
  _ ← upd_entry e (set_queueIdx i);
  modify (set_newQueue q).

Definition setLatest_known (e : ptr) : P unit :=
  p ← gets id;
  '(q, i, evicted) ← lift (PoolQueue.setLatest (idx_of p) (knownQueue p) e);
  _ ← match evicted with Some old => removeEntry old | None => mret tt end;
  _ ← upd_entry e (set_queueIdx i);
  modify (set_knownQueue q).

(** The goroutine that [setRetryDial] starts sends the entry to [enableRetry]
    after the delay; the delay takes one random number. *)
Definition setRetryDial (e : ptr) : P unit :=
  x ← get_entry e;
  delay ← (if shortRetry x >? 0
           then _ ← upd_entry e (set_shortRetry (shortRetry x - 1)); mret shortRetryDelay
           else mret longRetryDelay);
  k ← gets draws;
  r ← lift (RandSelect.rand_Int63n Int63n k (delay + 1));
  _ ← modify (set_draws (S k));
  upd_entry e (set_delayedRetry true).

Definition count_selected (kn : bool) (d : Z) : P unit :=
  if kn then modify (fun p => set_knownSelectedCnt (knownSelectedCnt p + d) p)
  else modify (fun p => set_newSelectedCnt (newSelectedCnt p + d) p).

(** The dialing goroutine sends the entry to [timeout] after [dialTimeout]. *)
Definition dial (e : ptr) (kn : bool) : P unit :=
  x ← get_entry e;
  srv ← gets server;
  if negb srv || bool_decide (state x <> psNotConnected) then mret tt
  else
    _ ← upd_entry e (fun x => set_knownSelected kn (set_state psDialed x));
    _ ← count_selected kn 1;
    a ← choose_addr e;
    _ ← get_addr a;
    upd_entry e (set_dialed (Some a)).

(** [for cond { entry := choose(); if entry == nil { break }; dial(entry) }];
    the result tells whether the loop was left by the break. *)
Fixpoint dial_loop (fuel : nat) (cond : serverPool -> bool) (choose : P (option ptr)) (kn : bool) : P bool :=
  c ← gets cond;
  if negb c then mret false
  else
    r ← choose;
    match r, fuel with
    | None, _ => mret true
    | Some e, O => lift (Panics unbounded)
    | Some e, S fuel => _ ← dial e kn; dial_loop fuel cond choose kn
    end.

(** Five dials are the most a loop can make from non-negative counters. *)
Definition dial_fuel (p : serverPool) : nat :=
  Z.to_nat (targetServerCount - Z.min 0 (knownSelectedCnt p) - Z.min 0 (newSelectedCnt p)).

Definition checkDial : P unit :=
  fd ← gets fastDiscover;
  f ← gets dial_fuel;
  broke ← dial_loop f (fun p => knownSelectedCnt p <? targetKnownSelect) choose_known true;
  let fillWithKnownSelects := negb fd && negb broke in
  _ ← dial_loop f (fun p => knownSelectedCnt p + newSelectedCnt p <? targetServerCount) choose_new false;
  if fillWithKnownSelects : bool
  then _ ← dial_loop f (fun p => knownSelectedCnt p <? targetServerCount) choose_known true; mret tt
  else mret tt.

Definition updateCheckDial (e : ptr) : P unit :=
  p ← gets id;
  '(ns, h) ← lift (RandSelect.update new_weight (heap p) (newSelect p) e);
  _ ← modify (fun p => set_newSelect ns (set_heap h p));
  p ← gets id;
  '(ks, h) ← lift (RandSelect.update (known_weight (addrs p)) (heap p) (knownSelect p) e);
  _ ← modify (fun p => set_knownSelect ks (set_heap h p));
  checkDial.

Definition checkDialTimeout (e : ptr) : P unit :=
  x ← get_entry e;
  if bool_decide (state x <> psDialed) then mret tt
  else
    _ ← upd_entry e (set_state psNotConnected);
    _ ← count_selected (knownSelected x) (-1);
    _ ← upd_entry e (fun x => set_connectStats (stats_add now (connectStats x) (f_of_Z 0) (f_of_Z 1)) x);
    a ← lift (match dialed x with Some a => Ret a | None => Panics NilDeref end);
    _ ← upd_addr a (fun x => MkAddr (ip x) (port x) (lastSeen x) (fails x + 1));
    setRetryDial e.

(** [entry.addrSelect.update(addr)]. *)
Definition update_addrSelect (e : ptr) (a : aptr) : P unit :=
  p ← gets id;
  x ← get_entry e;
  '(w, _) ← lift (RandSelect.update (address_weight (addrs p)) tt (addrSelect x) a);
  upd_entry e (set_addrSelect w).

Definition new_entry (n : enode) : poolEntry :=
  let s v := stats_add now zero_stats v (f_of_Z initStatsWeight) in
  MkEntry None ∅ n None None RandSelect.newWeightedRandomSelect 0 false false
    (s (f_of_Z 1)) (s (f_of_Z 0)) (s (f_of_Z 0)) (s (f_of_Z 0))
    psNotConnected 0 0 false false shortRetryCnt.

(** [entry = &poolEntry{..}; pool.entries[id] = entry]. *)
Definition alloc_entry (x : poolEntry) : P ptr :=
  e ← alloc;
  _ ← modify (fun p => set_heap (<[e := x]> (heap p))
                         (set_entries (<[node_ID (node x) := e]> (entries p)) p));
  mret e.

Definition findOrNewNode (n : enode) : P ptr :=
  p ← gets id;
  e ← match entries p !! node_ID n with
      | Some e => mret e
      | None => alloc_entry (new_entry n)
      end;
  _ ← upd_entry e (set_lastDiscovered now);
  x ← get_entry e;
  let fresh := MkAddr (node_IP n) (u16 (node_TCP n)) 0 0 in
  a ← match addr x !! strKey fresh with
      | Some a => mret a
      | None =>
          a ← alloc;
          _ ← modify (fun p => set_addrs (<[a := fresh]> (addrs p)) p);
          _ ← upd_entry e (fun x => set_addr (<[strKey fresh := a]> (addr x)) x);
          mret a
      end;
  _ ← upd_addr a (fun x => MkAddr (ip x) (port x) now (fails x));
  _ ← update_addrSelect e a;
  x ← get_entry e;
  _ ← (if known x then mret tt else setLatest_new e);
  mret e.

(** ** The cases of the event loop *)

Definition onTimeout (e : ptr) : P unit :=
  x ← get_entry e;
  if removed x then mret tt else checkDialTimeout e.

Definition onEnableRetry (e : ptr) : P unit :=
  x ← get_entry e;
  if removed x then mret tt
  else _ ← upd_entry e (set_delayedRetry false); updateCheckDial e.

Inductive adjustType := pseResponseTime | pseResponseTimeout.

Definition onAdjustStats (t : adjustType) (e : ptr) (time : Z) : P unit :=
  match t with
  | pseResponseTime =>
      _ ← upd_entry e (fun x => set_responseStats (stats_add now (responseStats x) (f_of_Z time) (f_of_Z 1)) x);
      upd_entry e (fun x => set_timeoutStats (stats_add now (timeoutStats x) (f_of_Z 0) (f_of_Z 1)) x)
  | pseResponseTimeout =>
      upd_entry e (fun x => set_timeoutStats (stats_add now (timeoutStats x) (f_of_Z 1) (f_of_Z 1)) x)
  end.

Definition onDiscNode (n : enode) : P unit :=
  p ← gets id;
  if bool_decide (is_Some (trustedNodes p !! node_ID n)) then mret tt
  else e ← findOrNewNode n; updateCheckDial e.

Definition onDiscLookup (conv : bool) : P unit :=
  if negb conv then mret tt
  else
    p ← gets id;
    _ ← (if lookupCnt p =? 0 then modify (set_convTime now) else mret tt);
    _ ← modify (set_lookupCnt (lookupCnt p + 1));
    p ← gets id;
    if fastDiscover p && ((lookupCnt p =? 50) || (60 * second <? now - convTime p))
    then modify (set_fastDiscover false)
    else mret tt.

(** The entry returned to the caller of [connect], or nil. *)
Definition onConnect (peerID : ID) (n : enode) : P (option ptr) :=
  p ← gets id;
  if bool_decide (is_Some (trustedNodes p !! peerID)) then mret None
  else
    e ← match entries p !! peerID with
        | Some e => mret e
        | None => findOrNewNode n
        end;
    x ← get_entry e;
    if bool_decide (state x = psConnected) || bool_decide (state x = psRegistered) then mret None
    else
      _ ← modify (fun p => set_connWg (connWg p + 1) p);
      _ ← upd_entry e (fun x => set_state psConnected (set_e_peer (Some peerID) x));
      a ← alloc;
      let new := MkAddr (node_IP n) (u16 (node_TCP n)) now 0 in
      _ ← modify (fun p => set_addrs (<[a := new]> (addrs p)) p);
      _ ← upd_entry e (fun x => set_addrSelect RandSelect.newWeightedRandomSelect
                                  (set_addr {[ strKey new := a ]} (set_lastConnected (Some a) x)));
      _ ← update_addrSelect e a;
      mret (Some e).

Definition onRegister (e : ptr) : P unit :=
  _ ← upd_entry e (fun x => set_regTime now (set_state psRegistered x));
  x ← get_entry e;
  _ ← (if negb (known x)
       then p ← gets id;
            _ ← modify (set_newQueue (PoolQueue.remove (idx_of p) (newQueue p) e));
            upd_entry e (set_known true)
       else mret tt);
  _ ← setLatest_known e;
  upd_entry e (set_shortRetry shortRetryCnt).

Definition onDisconnect (e : ptr) (stopped : bool) : P unit :=
  x ← get_entry e;
  _ ← (if bool_decide (state x = psRegistered)
       then
         let c := fdiv (f_of_Z (now - regTime x)) (f_of_Z targetConnTime) in
         let c := if fgt c (f_of_Z 1) then f_of_Z 1 else c in
         upd_entry e (fun x => set_connectStats
           (if stopped then stats_add now (connectStats x) (f_of_Z 1) c
            else stats_add now (connectStats x) c (f_of_Z 1)) x)
       else mret tt);
  _ ← upd_entry e (set_state psNotConnected);
  _ ← count_selected (knownSelected x) (-1);
  _ ← setRetryDial e;
  modify (fun p => set_connWg (connWg p - 1) p).

Inductive event :=
| EvTimeout (e : ptr)
| EvEnableRetry (e : ptr)
| EvAdjustStats (t : adjustType) (e : ptr) (time : Z)
| EvDiscNode (n : enode)
| EvDiscLookup (conv : bool)
| EvConnect (peerID : ID) (n : enode)
| EvRegister (e : ptr)
| EvDisconnect (e : ptr) (stopped : bool).

(** One turn of [eventLoop]. *)
Definition handle (ev : event) : P unit :=
  match ev with
  | EvTimeout e => onTimeout e
  | EvEnableRetry e => onEnableRetry e
  | EvAdjustStats t e time => onAdjustStats t e time
  | EvDiscNode n => onDiscNode n
  | EvDiscLookup conv => onDiscLookup conv
  | EvConnect i n => _ ← onConnect i n; mret tt
  | EvRegister e => onRegister e
  | EvDisconnect e stopped => onDisconnect e stopped
  end.

End Handlers.

(** ** Persistence *)

(** The persistent part of an entry; the key and the address are those of the
    node that [DecodeRLP] builds, the statistics their sum and weight. *)
Record poolEntryEnc := MkEnc {
  enc_node : enode;
  enc_fails : Z;
  enc_CStat : float * float;
  enc_DStat : float * float;
  enc_RStat : float * float;
  enc_TStat : float * float
}.

Definition stats_encode (s : poolStats) : float * float := (sum s, weight s).

(** [EncodeRLP] reads the address the entry was last connected at. *)
Definition entry_encode (p : serverPool) (x : poolEntry) : go poolEntryEnc :=
  match a ← lastConnected x; addrs p !! a with
  | None => Panics NilDeref
  | Some a =>
      Ret (MkEnc (MkEnode (node_ID (node x)) (ip a) (port a)) (fails a) (stats_encode (connectStats x))
             (stats_encode (delayStats x)) (stats_encode (responseStats x)) (stats_encode (timeoutStats x)))
  end.

(** [DecodeRLP]: a known entry with one address; the result of the allocation
    of that address is in the pool. *)
Definition entry_decode (now : Z) (enc : poolEntryEnc) : P poolEntry :=
  let n := enc_node enc in
  let new := MkAddr (node_IP n) (u16 (node_TCP n)) now (enc_fails enc) in
  a ← alloc;
  _ ← modify (fun p => set_addrs (<[a := new]> (addrs p)) p);
  p ← gets id;
  '(w, _) ← lift (RandSelect.update (address_weight now (addrs p)) tt RandSelect.newWeightedRandomSelect a);
  let st s := stats_init now s.1 s.2 in
  mret (MkEntry None {[ strKey new := a ]} n (Some a) None w 0 true false
          (st (enc_CStat enc)) (st (enc_DStat enc)) (st (enc_RStat enc)) (st (enc_TStat enc))
          psNotConnected 0 0 false false shortRetryCnt).

(** The loop body of [loadNodes]. *)
Definition loadNode (now : Z) (enc : poolEntryEnc) : P unit :=
  x ← entry_decode now enc;
  e ← alloc_entry x;
  p ← gets id;
  if bool_decide (is_Some (trustedNodes p !! node_ID (node x))) then mret tt
  else
    _ ← setLatest_known e;
    p ← gets id;
    '(ks, h) ← lift (RandSelect.update (known_weight now (addrs p)) (heap p) (knownSelect p) e);
    modify (fun p => set_knownSelect ks (set_heap h p)).

Fixpoint loadNodes (now : Z) (l : list poolEntryEnc) : P unit :=
  match l with
  | [] => mret tt
  | enc :: l => _ ← loadNode now enc; loadNodes now l
  end.

(** [start]: the server is set, the saved nodes are loaded and the first dials
    are made. *)
Definition start (now : Z) (Int63n : nat -> Z -> Z) (saved : list poolEntryEnc) : P unit :=
  _ ← modify (set_server true);
  _ ← loadNodes now saved;
  checkDial now Int63n.

(** The entries that [saveNodes] writes, oldest first. *)
Fixpoint fetch_all (n : nat) (q : PoolQueue.poolEntryQueue ptr) : go (list (option ptr)) :=
  match n with
  | O => Ret []
  | S n => '(e, q) ← PoolQueue.fetchOldest q; l ← fetch_all n q; Ret (e :: l)
  end.

Definition saveNodes (p : serverPool) : go (list (option ptr)) :=
  fetch_all (size (PoolQueue.queue (knownQueue p))) (knownQueue p).

(** ** The abstract pool: active entries and the two counters

    An entry is active when it is dialed, connected or registered; an active
    entry carries the counter it was selected under. *)

Record abs := MkAbs { act : gmap ptr (poolState * bool); kcnt : Z; ncnt : Z }.

Definition entry_view (x : poolEntry) : option (poolState * bool) :=
  if bool_decide (state x = psNotConnected) then None else Some (state x, knownSelected x).

Definition active (h : gmap ptr poolEntry) : gmap ptr (poolState * bool) := omap entry_view h.

Definition abs_of (p : serverPool) : abs := MkAbs (active (heap p)) (knownSelectedCnt p) (newSelectedCnt p).

(** Pointers are allocated once. *)
Definition fresh_ok (p : serverPool) : Prop := forall e, is_Some (heap p !! e) -> e < nextPtr p.

(** Changes that the abstract pool does not see. *)
Definition quiet (p p' : serverPool) : Prop :=
  fresh_ok p -> abs_of p' = abs_of p /\ fresh_ok p' /\ nextPtr p <= nextPtr p' /\
    (forall e x, heap p !! e = Some x -> exists x', heap p' !! e = Some x' /\
       state x' = state x /\ knownSelected x' = knownSelected x) /\ server p' = server p.

Definition silent {A} (m : P A) : Prop := forall p a p', m p = Ret (a, p') -> quiet p p'.

Lemma quiet_refl p : quiet p p.
Proof. intros Hf. split_and!; [done|done|lia|eauto|done]. Qed.

Lemma quiet_trans p q r : quiet p q -> quiet q r -> quiet p r.
Proof.
  intros H1 H2 Hf. destruct (H1 Hf) as (A1 & F1 & N1 & E1 & S1). destruct (H2 F1) as (A2 & F2 & N2 & E2 & S2).
  split_and!; [congruence|done|lia| |congruence]. intros e x Hx.
  destruct (E1 e x Hx) as (y & Hy & ? & ?). destruct (E2 e y Hy) as (z & Hz & ? & ?).
  exists z. split_and!; congruence.
Qed.

Lemma silent_bind {A B} (m : P A) (f : A -> P B) :
  silent m -> (forall a, silent (f a)) -> silent (m ≫= f).
Proof.
  intros Hm Hf p b p' E. apply stm_bind_Ret_inv in E as (a & q & E1 & E2).
  eapply quiet_trans; [by eapply Hm|by eapply Hf].
Qed.

Lemma silent_ret {A} (a : A) : silent (mret a).
Proof. intros p b p' [= _ <-]. apply quiet_refl. Qed.

Lemma silent_gets {A} (f : serverPool -> A) : silent (gets f).
Proof. intros p b p' [= _ <-]. apply quiet_refl. Qed.

Lemma silent_lift {A} (m : go A) : silent (lift m).
Proof. intros p b p' E. stm_prim E. apply quiet_refl. Qed.

Lemma silent_if {A} (b : bool) (m n : P A) : silent m -> silent n -> silent (if b then m else n).
Proof. by destruct b. Qed.

(** A change outside the heap, the counters and the allocator. *)
Lemma silent_modify f :
  (forall p, heap (f p) = heap p /\ nextPtr (f p) = nextPtr p /\ server (f p) = server p /\
     knownSelectedCnt (f p) = knownSelectedCnt p /\ newSelectedCnt (f p) = newSelectedCnt p) ->
  silent (modify f).
Proof.
  intros Hf p b p' [= _ <-] Hok. destruct (Hf p) as (H1 & H2 & H3 & H4 & H5). unfold abs_of, fresh_ok.
  rewrite H1, H2, H3, H4, H5. split_and!; [done|done|lia|eauto|done].
Qed.

Lemma get_entry_inv e p x p' : get_entry e p = Ret (x, p') -> p' = p /\ heap p !! e = Some x.
Proof.
  unfold get_entry. intros E. go_inv. unfold gets in E0. injection E0 as <- <-. unfold lift, id in E.
  destruct (heap p !! e) eqn:He; cbn in E; [|discriminate]. injection E as <- <-. done.
Qed.

Lemma silent_get_entry e : silent (get_entry e).
Proof. intros p x p' E. apply get_entry_inv in E as [-> _]. apply quiet_refl. Qed.

Lemma silent_get_addr a : silent (get_addr a).
Proof. apply silent_bind; [apply silent_gets|]. intros. apply silent_lift. Qed.

Lemma upd_entry_inv e f p b p' : upd_entry e f p = Ret (b, p') ->
  exists x, heap p !! e = Some x /\ p' = set_heap (<[e := f x]> (heap p)) p.
Proof.
  unfold upd_entry. intros E. go_inv. apply get_entry_inv in E0 as [-> Hx].
  unfold modify in E. injection E as _ <-. eauto.
Qed.

Lemma active_insert h e x : active (<[e := x]> h) =
  match entry_view x with Some v => <[e := v]> (active h) | None => delete e (active h) end.
Proof.
  unfold active. destruct (entry_view x) as [v|] eqn:E.
  - by rewrite (omap_insert_Some _ _ _ _ _ E).
  - by rewrite (omap_insert_None _ _ _ _ E).
Qed.

(** A heap whose entries keep their state and flag. *)
Lemma quiet_heap p h :
  (forall e, entry_view <$> (h !! e) = entry_view <$> (heap p !! e)) ->
  (forall e x, heap p !! e = Some x -> exists x', h !! e = Some x' /\
     state x' = state x /\ knownSelected x' = knownSelected x) ->
  quiet p (set_heap h p).
Proof.
  intros Hv Hx Hf. split_and!; [|..|done]; cbn.
  - unfold abs_of. cbn. f_equal. apply map_eq. intros e. unfold active. rewrite !lookup_omap.
    specialize (Hv e). destruct (h !! e), (heap p !! e); csimpl in *; congruence.
  - intros e He. apply Hf. cbn in He. specialize (Hv e).
    destruct (h !! e), (heap p !! e); csimpl in *; eauto; destruct He; discriminate.
  - lia.
  - done.
Qed.

Definition keeps_state (f : poolEntry -> poolEntry) : Prop :=
  forall x, state (f x) = state x /\ knownSelected (f x) = knownSelected x.

Lemma keeps_view f x : keeps_state f -> entry_view (f x) = entry_view x.
Proof. intros Hf. unfold entry_view. destruct (Hf x) as [-> ->]. done. Qed.

Lemma quiet_upd p e x y :
  heap p !! e = Some x -> state y = state x -> knownSelected y = knownSelected x ->
  quiet p (set_heap (<[e := y]> (heap p)) p).
Proof.
  intros Hx Hs Hk. apply quiet_heap.
  - intros e'. destruct (decide (e = e')) as [<-|Hne].
    + rewrite lookup_insert_eq, Hx. simpl. f_equal. unfold entry_view. by rewrite Hs, Hk.
    + by rewrite lookup_insert_ne.
  - intros e' x' Hx'. destruct (decide (e = e')) as [<-|Hne].
    + exists y. rewrite lookup_insert_eq. split_and!; congruence.
    + exists x'. by rewrite lookup_insert_ne.
Qed.

Lemma silent_upd_entry e f : keeps_state f -> silent (upd_entry e f).
Proof.
  intros Hf p b p' E. apply upd_entry_inv in E as (x & Hx & ->).
  eapply quiet_upd; [exact Hx|apply Hf|apply Hf].
Qed.

Lemma silent_upd_addr a f : silent (upd_addr a f).
Proof.
  apply silent_bind; [apply silent_get_addr|]. intros x. by apply silent_modify.
Qed.

Lemma silent_alloc : silent alloc.
Proof.
  intros p i p' E. unfold alloc in E. go_inv. unfold gets, modify in *. simplify_eq. intros Hf.
  injection E as <- <-. split_and!; try done; cbn; [|lia|eauto].
  intros e He. specialize (Hf e He). cbn. lia.
Qed.

End Pool.

Ltac silent :=
  repeat first
    [ assumption
    | apply silent_ret | apply silent_gets | apply silent_lift | apply silent_get_entry
    | apply silent_get_addr | apply silent_upd_addr | apply silent_alloc
    | apply silent_upd_entry; intros ?; split; reflexivity
    | apply silent_modify; intros ?; repeat split; reflexivity
    | apply silent_bind; [|intros [[? ?] ?] || intros [? ?] || intros ?]
    | apply silent_if
    | match goal with |- silent (match ?x with _ => _ end) => destruct x end
    | progress cbn beta iota ].

(** Use a statement that the abstract pool does not see. *)
Tactic Notation "quietly" hyp(E) constr(Hf) "as" ident(HA) ident(Hf1) :=
  lazymatch type of E with
  | ?m ?p = Ret (?a, ?p') =>
      let Hs := fresh in
      assert (Hs : silent m) by (unfold setRetryDial, update_addrSelect; silent);
      destruct (Hs _ _ _ E Hf) as (HA & Hf1 & _); clear Hs
  end.

Section Refine.
Context `{Float64} (now : Z) (Int63n : nat -> Z -> Z).
Abbreviation P := (stm serverPool).

(** ** Operations the abstract pool does not see *)

Lemma silent_removeEntry e : silent (removeEntry e).
Proof. unfold removeEntry. silent. Qed.

Lemma silent_setLatest_new e : silent (setLatest_new e).
Proof. unfold setLatest_new. silent. Qed.

Lemma silent_setLatest_known e : silent (setLatest_known e).
Proof. unfold setLatest_known. silent. Qed.

Lemma silent_setRetryDial e : silent (setRetryDial Int63n e).
Proof. unfold setRetryDial. silent. Qed.

Lemma silent_update_addrSelect e a : silent (update_addrSelect now e a).
Proof. unfold update_addrSelect. silent. Qed.

(** A query for a weight changes at most the statistics of the entry. *)
Definition same_views (h0 h : gmap ptr poolEntry) : Prop :=
  forall e, (entry_view <$> (h !! e) = entry_view <$> (h0 !! e)) /\
    forall x, h0 !! e = Some x -> exists x', h !! e = Some x' /\
      state x' = state x /\ knownSelected x' = knownSelected x.

Lemma known_Weight_keeps f x w x' : known_Weight now f x = Ret (w, x') ->
  state x' = state x /\ knownSelected x' = knownSelected x.
Proof.
  unfold known_Weight. case_match; [by intros [= _ <-]|]. cbn.
  destruct f; [|done]. cbn. intros [= _ <-]. done.
Qed.

Lemma known_weight_views as_ h0 h e w h' :
  known_weight now as_ h e = Ret (w, h') -> same_views h0 h -> same_views h0 h'.
Proof.
  unfold known_weight. destruct (h !! e) as [x|] eqn:E; [|done]. intros E' Hs. go_inv. destruct v as [w1 x1].
  go_inv. simplify_eq. apply known_Weight_keeps in E0 as [Hst Hk]. intros e'. destruct (Hs e') as [H1 H2].
  destruct (decide (e = e')) as [<-|Hne]; [|by rewrite lookup_insert_ne].
  rewrite lookup_insert_eq. rewrite E in *. split.
  - rewrite <- H1. simpl. f_equal. unfold entry_view. by rewrite Hst, Hk.
  - intros y Hy. destruct (H2 y Hy) as (x2 & [= <-] & ? & ?). exists x1. split_and!; congruence.
Qed.

Lemma new_weight_views h0 h e w h' :
  new_weight now h e = Ret (w, h') -> same_views h0 h -> same_views h0 h'.
Proof. unfold new_weight. destruct (h !! e); [|done]. by intros [= _ <-]. Qed.

Lemma same_views_refl h : same_views h h.
Proof. intros e. split; [done|eauto]. Qed.

Lemma same_views_quiet p h : same_views (heap p) h -> quiet p (set_heap h p).
Proof. intros Hs. apply quiet_heap; intros e; apply (Hs e). Qed.

Lemma run_choose_choose {K St} `{Countable K} (W : St -> K -> go (Z * St)) k w s r :
  run_choose Int63n W k w s = Ret r ->
  RandSelect.choose W Int63n (Pos.to_nat (Z.to_pos (RandSelect.sumWeight (RandSelect.root w) + 1)) + 0) (k, w, s) = Some (Ret r).
Proof.
  unfold run_choose. pose proof (RandSelect.choose_upto_spec W Int63n (Z.to_pos (RandSelect.sumWeight (RandSelect.root w) + 1)) 0 (k, w, s)) as H1.
  destruct (RandSelect.choose_upto _ _ _ _) as [[st|res]|x|x|x]; cbn [mbind go_bind]; try done. by intros [= <-].
Qed.

Lemma run_choose_preserves {K St} `{Countable K} (W : St -> K -> go (Z * St)) (J : St -> Prop) k w s r k' w' s' :
  (forall s i x s', W s i = Ret (x, s') -> J s -> J s') ->
  run_choose Int63n W k w s = Ret (r, (k', w', s')) -> J s -> J s'.
Proof.
  intros HW E Hs. apply run_choose_choose in E. by eapply (RandSelect.choose_preserves W Int63n J).
Qed.

Lemma silent_choose_known : silent (choose_known now Int63n).
Proof.
  intros p r p' E. unfold choose_known in E. go_inv. destruct v as [r' [[k w] h]]. injection E as <- <-.
  eapply quiet_trans; [apply (same_views_quiet p h)|].
  - eapply run_choose_preserves; [|exact E0|apply same_views_refl]. intros. by eapply known_weight_views.
  - eapply (silent_modify (fun p => set_draws k (set_knownSelect w p))); [|reflexivity]. done.
Qed.

Lemma silent_choose_new : silent (choose_new now Int63n).
Proof.
  intros p r p' E. unfold choose_new in E. go_inv. destruct v as [r' [[k w] h]]. injection E as <- <-.
  eapply quiet_trans; [apply (same_views_quiet p h)|].
  - eapply run_choose_preserves; [|exact E0|apply same_views_refl]. intros. by eapply new_weight_views.
  - eapply (silent_modify (fun p => set_draws k (set_newSelect w p))); [|reflexivity]. done.
Qed.

Lemma silent_choose_addr e : silent (choose_addr now Int63n e).
Proof.
  intros p a p' E. unfold choose_addr in E. destruct (heap p !! e) as [x|] eqn:Hx; [|done]. go_inv.
  destruct v as [r [[k w] u]]. destruct r as [a'|]; [|done]. injection E as <- <-.
  eapply quiet_trans; [by eapply (quiet_upd p e x (set_addrSelect w x))|].
  eapply (silent_modify (set_draws k)); [|reflexivity]. done.
Qed.

(** A new entry is not active. *)
Lemma silent_alloc_entry x : state x = psNotConnected -> silent (alloc_entry x).
Proof.
  intros Hx p a p' E. unfold alloc_entry, alloc, mbind, stm_bind, mret, stm_ret, gets, modify in E.
  cbn beta iota in E. injection E as _ <-. intros Hf.
  assert (Hn : heap p !! nextPtr p = None).
  { destruct (heap p !! nextPtr p) eqn:E; [|done]. specialize (Hf (nextPtr p)). rewrite E in Hf.
    specialize (Hf ltac:(eauto)). lia. }
  split_and!; [| |cbn; lia| |done].
  - change (MkAbs (active (<[nextPtr p := x]> (heap p))) (knownSelectedCnt p) (newSelectedCnt p) = abs_of p).
    unfold abs_of. f_equal. rewrite active_insert. unfold entry_view. rewrite bool_decide_true by done.
    apply delete_id. unfold active. by rewrite lookup_omap, Hn.
  - intros e' He'. cbn in *. destruct (decide (nextPtr p = e')) as [<-|Hne]; [lia|].
    rewrite lookup_insert_ne in He' by done. specialize (Hf e' He'). lia.
  - intros e' y Hy. exists y. cbn. rewrite lookup_insert_ne; [done|]. congruence.
Qed.

Lemma silent_findOrNewNode n : silent (findOrNewNode now n).
Proof.
  unfold findOrNewNode. apply silent_bind; [apply silent_gets|]. intros p0.
  apply silent_bind; [|intros e; silent].
  destruct (entries p0 !! node_ID n) as [e|]; [apply silent_ret|]. by apply silent_alloc_entry.
Qed.

Lemma update_preserves {K St} `{Countable K} (W : St -> K -> go (Z * St)) (J : St -> Prop) s w i w' s' :
  (forall s i x s', W s i = Ret (x, s') -> J s -> J s') ->
  RandSelect.update W s w i = Ret (w', s') -> J s -> J s'.
Proof.
  intros HW E. unfold RandSelect.update in E. go_inv. destruct v as [x s1]. go_inv. simplify_eq. eauto.
Qed.

Lemma quiet_update_known p e ks h :
  RandSelect.update (known_weight now (addrs p)) (heap p) (knownSelect p) e = Ret (ks, h) ->
  quiet p (set_knownSelect ks (set_heap h p)).
Proof.
  intros E. eapply quiet_trans; [apply (same_views_quiet p h)|].
  - eapply update_preserves; [|exact E|apply same_views_refl]. intros. by eapply known_weight_views.
  - by eapply (silent_modify (set_knownSelect ks)).
Qed.

Lemma entry_decode_state enc p x p' : entry_decode now enc p = Ret (x, p') -> state x = psNotConnected.
Proof.
  intros E. unfold entry_decode in E. stm_step E as a s1 E1. stm_step E as u s2 E2. stm_step E as q s3 E3.
  stm_step E as v s4 E4. destruct v as [w w']. stm_prim E. done.
Qed.

Lemma silent_loadNode enc : silent (loadNode now enc).
Proof.
  intros p b p' E. unfold loadNode in E. stm_step E as x s1 E1.
  pose proof (entry_decode_state _ _ _ _ E1) as Hx.
  assert (Hs : silent (entry_decode now enc)) by (unfold entry_decode; silent).
  eapply quiet_trans; [by eapply Hs|]. clear Hs E1. stm_step E as e s2 E2.
  eapply quiet_trans; [by eapply silent_alloc_entry|]. clear E2. stm_step E as q s3 E3. stm_prim E3.
  destruct (bool_decide _). { stm_prim E. apply quiet_refl. }
  stm_step E as u s4 E4. eapply quiet_trans; [by eapply silent_setLatest_known|]. clear E4.
  stm_step E as q' s5 E5. stm_prim E5. stm_step E as v s6 E6. stm_prim E6. destruct v as [ks h].
  stm_prim E. by eapply quiet_update_known.
Qed.

Lemma silent_loadNodes l : silent (loadNodes now l).
Proof.
  induction l as [|enc l IH]; cbn [loadNodes]; [apply silent_ret|].
  apply silent_bind; [apply silent_loadNode|done].
Qed.

(** ** The abstract transitions *)

Definition bump (kn : bool) (d : Z) (A : abs) : abs :=
  if kn then MkAbs (act A) (kcnt A + d) (ncnt A) else MkAbs (act A) (kcnt A) (ncnt A + d).

Definition set_act (m : gmap ptr (poolState * bool)) (A : abs) : abs := MkAbs m (kcnt A) (ncnt A).

(** An inactive entry is dialed while its counter is below the target. *)
Inductive adial : abs -> abs -> Prop :=
| adial_intro A e (kn : bool) :
    act A !! e = None ->
    (if kn then kcnt A < targetServerCount else kcnt A + ncnt A < targetServerCount) ->
    adial A (bump kn 1 (set_act (<[e := (psDialed, kn)]> (act A)) A)).

(** What an event may do to the abstract pool. *)
Inductive aevent : event -> abs -> abs -> Prop :=
| ae_same (ev : event) A : (forall e st, ev <> EvDisconnect e st) -> (forall e, ev <> EvRegister e) -> aevent ev A A
| ae_timeout e kn A : act A !! e = Some (psDialed, kn) ->
    aevent (EvTimeout e) A (bump kn (-1) (set_act (delete e (act A)) A))
| ae_retry e A A' : rtc adial A A' -> aevent (EvEnableRetry e) A A'
| ae_disc n A A' : rtc adial A A' -> aevent (EvDiscNode n) A A'
| ae_connect i n e kn A :
    (act A !! e = Some (psDialed, kn) \/ act A !! e = None) ->
    aevent (EvConnect i n) A (set_act (<[e := (psConnected, kn)]> (act A)) A)
| ae_register e kn A :
    (forall st k, act A !! e = Some (st, k) -> k = kn) ->
    aevent (EvRegister e) A (set_act (<[e := (psRegistered, kn)]> (act A)) A)
| ae_disconnect e st kn A :
    (forall s k, act A !! e = Some (s, k) -> k = kn) ->
    aevent (EvDisconnect e st) A (bump kn (-1) (set_act (delete e (act A)) A)).

(** [m] does to the abstract pool what [R] allows. *)
Definition sim {A} (R : abs -> abs -> Prop) (m : P A) : Prop :=
  forall p a p', m p = Ret (a, p') -> fresh_ok p -> R (abs_of p) (abs_of p') /\ fresh_ok p'.

Lemma silent_sim {A} (m : P A) R : (forall X, R X X) -> silent m -> sim R m.
Proof. intros HR Hm p a p' E Hf. destruct (Hm _ _ _ E Hf) as (-> & Hf' & _). done. Qed.

Lemma sim_rtc_bind {A B} (R : abs -> abs -> Prop) (m : P A) (f : A -> P B) :
  sim (rtc R) m -> (forall a, sim (rtc R) (f a)) -> sim (rtc R) (m ≫= f).
Proof.
  intros Hm Hf p b p' E Hok. apply stm_bind_Ret_inv in E as (a & q & E1 & E2).
  destruct (Hm _ _ _ E1 Hok) as [H1 Hok1]. destruct (Hf a _ _ _ E2 Hok1) as [H2 Hok2].
  split; [|done]. by etrans.
Qed.

Lemma silent_rtc {A} (R : abs -> abs -> Prop) (m : P A) : silent m -> sim (rtc R) m.
Proof. apply silent_sim. intros X. apply rtc_refl. Qed.

(** Changing the state of an entry. *)
Lemma upd_entry_abs e f p b p' x :
  upd_entry e f p = Ret (b, p') -> heap p !! e = Some x -> fresh_ok p ->
  abs_of p' = set_act (match entry_view (f x) with
                       | Some v => <[e := v]> (act (abs_of p))
                       | None => delete e (act (abs_of p)) end) (abs_of p) /\
  fresh_ok p' /\ heap p' !! e = Some (f x) /\ server p' = server p.
Proof.
  intros E Hx Hf. apply upd_entry_inv in E as (y & Hy & ->). assert (y = x) as -> by congruence.
  split_and!; [| |cbn; by rewrite lookup_insert_eq|done].
  - unfold abs_of, set_act. cbn [heap set_heap knownSelectedCnt newSelectedCnt act kcnt ncnt]. f_equal. apply active_insert.
  - intros e' He'. cbn in *. apply Hf. destruct (decide (e = e')) as [<-|]; [eauto|].
    by rewrite lookup_insert_ne in He'.
Qed.

Lemma count_selected_abs kn d p b p' :
  count_selected kn d p = Ret (b, p') ->
  abs_of p' = bump kn d (abs_of p) /\ (fresh_ok p -> fresh_ok p') /\ heap p' = heap p.
Proof. unfold count_selected. destruct kn; intros [= _ <-]; done. Qed.

Lemma active_lookup p e x : heap p !! e = Some x -> act (abs_of p) !! e = entry_view x.
Proof. intros Hx. unfold abs_of, active. cbn [act]. by rewrite lookup_omap, Hx. Qed.

Lemma sim_dial e kn p b p' :
  dial now Int63n e kn p = Ret (b, p') -> fresh_ok p ->
  (if kn then knownSelectedCnt p < targetServerCount
   else knownSelectedCnt p + newSelectedCnt p < targetServerCount) ->
  rtc adial (abs_of p) (abs_of p') /\ fresh_ok p'.
Proof.
  intros E Hf Hg. unfold dial in E. go_inv. apply get_entry_inv in E0 as [-> Hx].
  unfold gets in E1. injection E1 as <- <-.
  destruct (_ || _) eqn:Eb.
  { injection E as _ <-. split; [apply rtc_refl|done]. }
  apply orb_false_iff in Eb as [_ Est]. apply bool_decide_eq_false, dec_stable in Est. go_inv.
  assert (Hnc : entry_view v = None) by (unfold entry_view; by rewrite bool_decide_true).
  destruct (upd_entry_abs _ _ _ _ _ _ E0 Hx Hf) as (HA & Hf1 & _ & _).
  destruct (count_selected_abs _ _ _ _ _ E1) as (HB & Hf2 & _).
  destruct (silent_choose_addr e _ _ _ E2 (Hf2 Hf1)) as (HC & Hf3 & _).
  destruct (silent_get_addr _ _ _ _ E3 Hf3) as (HD & Hf4 & _).
  destruct (silent_upd_entry e (set_dialed (Some v2)) (fun _ => conj eq_refl eq_refl) _ _ _ E Hf4) as (HE & Hf5 & _).
  split; [|done]. rewrite HE, HD, HC, HB, HA. cbn [entry_view].
  apply rtc_once. apply adial_intro; [|by destruct kn]. by rewrite (active_lookup _ _ _ Hx).
Qed.

Lemma sim_dial_loop (kn : bool) (choose : P (option ptr)) cond :
  silent choose ->
  (forall p, cond p = true -> if kn then knownSelectedCnt p < targetServerCount
                              else knownSelectedCnt p + newSelectedCnt p < targetServerCount) ->
  (forall p q, abs_of p = abs_of q -> cond p = cond q) ->
  forall fuel, sim (rtc adial) (dial_loop now Int63n fuel cond choose kn).
Proof.
  intros Hch Hc Hext. induction fuel as [|fuel IH]; intros p b p' E Hf; cbn [dial_loop] in E; go_inv;
    unfold gets in E0; injection E0 as <- <-; destruct (cond p) eqn:Ec; cbn [negb] in E;
    try (injection E as _ <-; split; [apply rtc_refl|done]); go_inv;
    destruct (Hch _ _ _ E0 Hf) as (HA & Hf1 & _); destruct v as [e|];
    try (injection E as _ <-; rewrite HA; split; [apply rtc_refl|done]).
  - discriminate E.
  - go_inv. rewrite <- (Hext _ _ HA) in Ec.
    destruct (sim_dial e kn _ _ _ E1 Hf1 (Hc _ Ec)) as [HB Hf2].
    destruct (IH _ _ _ E Hf2) as [HC Hf3]. split; [|done]. rewrite <- HA. by etrans.
Qed.

Lemma sim_checkDial : sim (rtc adial) (checkDial now Int63n).
Proof.
  unfold checkDial. repeat (apply sim_rtc_bind; [|intros ?]); try by apply silent_rtc, silent_gets.
  - apply sim_dial_loop; [apply silent_choose_known| |].
    + intros p Hp%Z.ltb_lt. unfold targetKnownSelect, targetServerCount in *. lia.
    + intros p q E. injection E as _ -> _. done.
  - apply sim_dial_loop; [apply silent_choose_new|by intros p Hp%Z.ltb_lt|].
    intros p q E. injection E as _ -> ->. done.
  - case_match; [apply sim_rtc_bind|]; [|intros ?|]; try by apply silent_rtc, silent_ret.
    apply sim_dial_loop; [apply silent_choose_known|by intros p Hp%Z.ltb_lt|].
    intros p q E. injection E as _ -> _. done.
Qed.

Lemma sim_updateCheckDial e : sim (rtc adial) (updateCheckDial now Int63n e).
Proof.
  intros p b p' E Hf. unfold updateCheckDial in E.
  stm_step E as q s1 E1. stm_prim E1. stm_step E as v s1 E1. stm_prim E1. destruct v as [ns h].
  stm_step E as u s1 E2. stm_prim E2. stm_step E as q s1 E2. stm_prim E2.
  stm_step E as v s1 E2. stm_prim E2. destruct v as [ks h']. stm_step E as u' s1 E3. stm_prim E3.
  unfold id in *.
  assert (Hq1 : quiet p (set_newSelect ns (set_heap h p))).
  { eapply quiet_trans; [apply (same_views_quiet p h)|].
    - eapply update_preserves; [|exact E1|apply same_views_refl]. intros. by eapply new_weight_views.
    - by eapply (silent_modify (set_newSelect ns)). }
  set (p1 := set_newSelect ns (set_heap h p)) in *.
  pose proof (quiet_update_known _ _ _ _ E2) as Hq2.
  destruct (quiet_trans _ _ _ Hq1 Hq2 Hf) as (HA & Hf2 & _).
  rewrite <- HA. by eapply sim_checkDial.
Qed.

Lemma handle_timeout e p b p' : onTimeout now Int63n e p = Ret (b, p') -> fresh_ok p ->
  aevent (EvTimeout e) (abs_of p) (abs_of p') /\ fresh_ok p'.
Proof.
  intros E Hf. unfold onTimeout in E. go_inv. apply get_entry_inv in E0 as [-> Hx].
  destruct (removed v). { injection E as _ <-. split; [by apply ae_same|done]. }
  unfold checkDialTimeout in E. go_inv. apply get_entry_inv in E0 as [-> Hx'].
  assert (v0 = v) as -> by congruence. destruct (bool_decide_reflect (state v <> psDialed)) as [Hs|Hs].
  { injection E as _ <-. split; [by apply ae_same|done]. }
  apply dec_stable in Hs. go_inv.
  destruct (upd_entry_abs _ _ _ _ _ _ E0 Hx Hf) as (HA & Hf1 & Hx1 & _). cbn [entry_view] in HA.
  destruct (count_selected_abs _ _ _ _ _ E1) as (HB & Hf2 & Hh).
  quietly E2 (Hf2 Hf1) as HC Hf3.
  destruct (silent_lift _ _ _ _ E3 Hf3) as (HD & Hf4 & _).
  destruct (silent_upd_addr _ _ _ _ _ E4 Hf4) as (HE & Hf5 & _).
  destruct (silent_setRetryDial e _ _ _ E Hf5) as (HF & Hf6 & _).
  split; [|done]. rewrite HF, HE, HD, HC, HB, HA. apply ae_timeout.
  rewrite (active_lookup _ _ _ Hx). unfold entry_view. by rewrite bool_decide_false, Hs by congruence.
Qed.

(** A connection is refused, or its entry becomes connected without touching
    the counters. *)
Lemma connect_effect i n p b p' : onConnect now i n p = Ret (b, p') -> fresh_ok p ->
  fresh_ok p' /\
  (abs_of p' = abs_of p \/
   exists e kn, (forall e', entries p !! i = Some e' -> e' = e) /\
     (act (abs_of p) !! e = Some (psDialed, kn) \/ act (abs_of p) !! e = None) /\
     abs_of p' = set_act (<[e := (psConnected, kn)]> (act (abs_of p))) (abs_of p)).
Proof.
  intros E Hf. unfold onConnect in E. stm_step E as q s0 E0. stm_prim E0. unfold id in E.
  destruct (bool_decide _). { stm_prim E. auto. }
  stm_step E as e s E0. assert (Hq : quiet p s).
  { destruct (entries p !! i); [stm_prim E0; apply quiet_refl|by eapply silent_findOrNewNode]. }
  assert (He : forall e', entries p !! i = Some e' -> e' = e).
  { intros e' He'. rewrite He' in E0. by injection E0. }
  destruct (Hq Hf) as (HA & Hf0 & _). stm_step E as x s' E1. apply get_entry_inv in E1 as [-> Hx].
  destruct (_ || _) eqn:Eb. { stm_prim E. auto. }
  apply orb_false_iff in Eb as [Ec%bool_decide_eq_false Er%bool_decide_eq_false].
  stm_step E as u s1 E1. quietly E1 Hf0 as HB Hf1.
  assert (Hx1 : heap s1 !! e = Some x) by (stm_prim E1; done).
  stm_step E as u' s2 E2. destruct (upd_entry_abs _ _ _ _ _ _ E2 Hx1 Hf1) as (HC & Hf2 & _ & _).
  cbn [entry_view] in HC. quietly E Hf2 as HD Hf3. split; [done|]. right.
  exists e, (knownSelected x). split; [done|]. split.
  - rewrite <- HA, (active_lookup _ _ _ Hx). unfold entry_view. destruct (state x); cbn; auto; tauto.
  - rewrite HD, HC, HB, HA. done.
Qed.

Lemma handle_connect i n p b p' : onConnect now i n p = Ret (b, p') -> fresh_ok p ->
  aevent (EvConnect i n) (abs_of p) (abs_of p') /\ fresh_ok p'.
Proof.
  intros E Hf. destruct (connect_effect _ _ _ _ _ E Hf) as (Hf' & [->|(e & kn & _ & Hd & ->)]);
    (split; [|done]); [by apply ae_same|by apply ae_connect].
Qed.

Lemma handle_register e p b p' : onRegister now e p = Ret (b, p') -> fresh_ok p ->
  aevent (EvRegister e) (abs_of p) (abs_of p') /\ fresh_ok p'.
Proof.
  intros E Hf. unfold onRegister in E. apply stm_bind_Ret_inv in E as (u & s1 & E1 & E).
  pose proof E1 as E1'. apply upd_entry_inv in E1' as (x & Hx & _).
  destruct (upd_entry_abs _ _ _ _ _ _ E1 Hx Hf) as (HA & Hf1 & _ & _). cbn [entry_view] in HA.
  quietly E Hf1 as HB Hf2. split; [|done]. rewrite HB, HA. cbn. apply ae_register. intros st k.
  rewrite (active_lookup _ _ _ Hx). unfold entry_view. destruct (bool_decide _); intros Hst; by simplify_eq.
Qed.

Lemma handle_disconnect e st p b p' : onDisconnect now Int63n e st p = Ret (b, p') -> fresh_ok p ->
  aevent (EvDisconnect e st) (abs_of p) (abs_of p') /\ fresh_ok p'.
Proof.
  intros E Hf. unfold onDisconnect in E. go_inv. apply get_entry_inv in E0 as [-> Hx].
  assert (Hs : quiet p s0).
  { destruct (bool_decide _); [|injection E1 as _ <-; apply quiet_refl].
    eapply silent_upd_entry; [|exact E1]. by intros ?. }
  destruct (Hs Hf) as (HA & Hf1 & _ & Hk & _). destruct (Hk _ _ Hx) as (x1 & Hx1 & _ & _).
  destruct (upd_entry_abs _ _ _ _ _ _ E2 Hx1 Hf1) as (HB & Hf2 & _ & _). cbn [entry_view] in HB.
  destruct (count_selected_abs _ _ _ _ _ E3) as (HC & Hf3 & _).
  destruct (silent_setRetryDial e _ _ _ E4 (Hf3 Hf2)) as (HD & Hf4 & _).
  quietly E Hf4 as HE Hf5.
  split; [|done]. rewrite HE, HD, HC, HB, HA. apply ae_disconnect. intros s' k.
  rewrite (active_lookup _ _ _ Hx). unfold entry_view. destruct (bool_decide (state v = psNotConnected)); intros Hst; by simplify_eq.
Qed.

(** Every turn of the event loop is a step of the abstract pool. *)
Lemma handle_refines ev p b p' :
  handle now Int63n ev p = Ret (b, p') -> fresh_ok p ->
  aevent ev (abs_of p) (abs_of p') /\ fresh_ok p'.
Proof.
  intros E Hf. destruct ev; cbn [handle] in E.
  - by eapply handle_timeout.
  - unfold onEnableRetry in E. go_inv. apply get_entry_inv in E0 as [-> Hx].
    destruct (removed v). { injection E as _ <-. split; [by apply ae_same|done]. }
    go_inv. quietly E0 (Hf) as HA Hf1.
    destruct (sim_updateCheckDial e _ _ _ E Hf1) as [HB Hf2]. rewrite HA in HB. split; [by apply ae_retry|done].
  - assert (Hs : silent (onAdjustStats now t e time)) by (unfold onAdjustStats; silent).
    destruct (Hs _ _ _ E Hf) as (-> & Hf1 & _). split; [by apply ae_same|done].
  - unfold onDiscNode in E. go_inv. unfold gets, id in E0. injection E0 as <- <-.
    destruct (bool_decide _). { injection E as _ <-. split; [by apply ae_same|done]. }
    go_inv. destruct (silent_findOrNewNode n _ _ _ E0 Hf) as (HA & Hf1 & _).
    destruct (sim_updateCheckDial v _ _ _ E Hf1) as [HB Hf2]. rewrite HA in HB. split; [by apply ae_disc|done].
  - assert (Hs : silent (onDiscLookup now conv)) by (unfold onDiscLookup; silent).
    destruct (Hs _ _ _ E Hf) as (-> & Hf1 & _). split; [by apply ae_same|done].
  - go_inv. injection E as _ <-. by eapply handle_connect.
  - by eapply handle_register.
  - by eapply handle_disconnect.
Qed.

(** ** The counters *)

(** Active entries selected as known ([true]) or as new ([false]). *)
Definition sel (k : bool) (m : gmap ptr (poolState * bool)) : Z :=
  Z.of_nat (size (filter (fun x => x.2.2 = k) m)).

Definition of_bool (b : bool) : Z := if b then 1 else 0.

Lemma sel_insert_new k m e s kn : m !! e = None ->
  sel k (<[e := (s, kn)]> m) = sel k m + of_bool (Bool.eqb k kn).
Proof.
  intros Hm. unfold sel. destruct (decide (kn = k)) as [->|Hne].
  - rewrite map_filter_insert_True by done. rewrite map_size_insert_None.
    + rewrite eqb_reflx. cbn. lia.
    + apply map_lookup_filter_None. by left.
  - rewrite map_filter_insert_False by done. rewrite delete_id by done.
    rewrite (proj2 (eqb_false_iff k kn)) by congruence. cbn. lia.
Qed.

Lemma sel_delete k m e s kn : m !! e = Some (s, kn) ->
  sel k (delete e m) = sel k m - of_bool (Bool.eqb k kn).
Proof.
  intros Hm. rewrite <- (insert_delete_id m e (s, kn) Hm) at 2.
  rewrite sel_insert_new by apply lookup_delete_eq. lia.
Qed.

Lemma sel_insert_same k m e s s' kn : m !! e = Some (s, kn) -> sel k (<[e := (s', kn)]> m) = sel k m.
Proof.
  intros Hm. rewrite <- insert_delete_eq, sel_insert_new by apply lookup_delete_eq.
  rewrite (sel_delete k m e s kn Hm). lia.
Qed.

Lemma sel_nonneg k m : 0 <= sel k m.
Proof. unfold sel. lia. Qed.

(** Both counters are exact and within the target. *)
Definition matched (A : abs) : Prop :=
  kcnt A = sel true (act A) /\ ncnt A = sel false (act A) /\
  kcnt A <= targetServerCount /\ ncnt A <= targetServerCount.

Lemma adial_matched A A' : rtc adial A A' -> matched A -> matched A'.
Proof.
  induction 1 as [|A B C Hd _ IH]; [done|]. intros (Hk & Hn & Hbk & Hbn). apply IH.
  destruct Hd as [A e kn He Hg]. pose proof (sel_nonneg true (act A)). pose proof (sel_nonneg false (act A)).
  destruct kn; unfold matched, bump, set_act; cbn [act kcnt ncnt];
    rewrite !sel_insert_new by done; cbn; lia.
Qed.

(** The calls the pool is documented to receive: an entry is registered after it
    was connected, disconnected while it is active, and an accepted connection
    belongs to an entry the pool has dialed. *)
Definition disciplined (ev : event) (p : serverPool) : Prop :=
  match ev with
  | EvConnect i _ => exists e, entries p !! i = Some e /\ is_Some (act (abs_of p) !! e)
  | EvRegister e => exists st kn, act (abs_of p) !! e = Some (st, kn)
  | EvDisconnect e _ => exists st kn, act (abs_of p) !! e = Some (st, kn)
  | _ => True
  end.

Lemma connect_matched i n p b p' :
  onConnect now i n p = Ret (b, p') -> fresh_ok p -> disciplined (EvConnect i n) p ->
  matched (abs_of p) -> matched (abs_of p').
Proof.
  intros E Hf (e0 & He0 & [[st k] Hst]) (Hk & Hn & Hbk & Hbn).
  destruct (connect_effect _ _ _ _ _ E Hf) as (_ & [->|(e & kn & He & Hor & ->)]); [done|].
  rewrite (He _ He0) in Hst. destruct Hor as [Hs|Hs]; [|congruence].
  unfold matched, set_act; cbn [act kcnt ncnt]. by rewrite !(sel_insert_same _ _ _ _ _ _ Hs).
Qed.

Lemma aevent_matched ev p A' :
  aevent ev (abs_of p) A' -> disciplined ev p -> (forall i n, ev <> EvConnect i n) ->
  matched (abs_of p) -> matched A'.
Proof.
  intros HA Hd Hc HM. remember (abs_of p) as A eqn:EA.
  destruct HA as [ev A|e kn A He|e A A' Hr|n A A' Hr|i n e kn A _|e kn A He|e st kn A He]; cbn [disciplined] in Hd;
    rewrite <- ?EA in Hd.
  - done.
  - destruct HM as (Hk & Hn & ? & ?). destruct kn; unfold matched, bump, set_act; cbn [act kcnt ncnt];
      rewrite !(sel_delete _ _ _ _ _ He); cbn; lia.
  - by eapply adial_matched.
  - by eapply adial_matched.
  - by destruct (Hc i n).
  - destruct Hd as (st & k & Hst). rewrite (He _ _ Hst) in Hst. destruct HM as (Hk & Hn & ? & ?).
    unfold matched, set_act; cbn [act kcnt ncnt]. by rewrite !(sel_insert_same _ _ _ _ _ _ Hst).
  - destruct Hd as (s & k & Hst). rewrite (He _ _ Hst) in Hst. destruct HM as (Hk & Hn & ? & ?).
    destruct kn; unfold matched, bump, set_act; cbn [act kcnt ncnt]; rewrite !(sel_delete _ _ _ _ _ Hst); cbn; lia.
Qed.

Lemma handle_matched ev p b p' :
  handle now Int63n ev p = Ret (b, p') -> fresh_ok p -> disciplined ev p ->
  matched (abs_of p) -> matched (abs_of p').
Proof.
  intros E Hf Hd HM. destruct (handle_refines ev p b p' E Hf) as [HA _].
  destruct ev as [| | | | |i n| |]; try by eapply aevent_matched.
  cbn [handle] in E. stm_step E as v s E1. stm_prim E. by eapply connect_matched.
Qed.

End Refine.

(** ** The dials of a turn end

    The fuel of [choose] and of [checkDial] is enough on a pool whose selection
    trees hold pointers of its heap and whose weights are in range: [choose]
    returns entries that are not connected, so every dial raises a counter. *)

Section DialEnds.
Context `{Float64} (now : Z) (Int63n : nat -> Z -> Z).
Abbreviation P := (stm serverPool).
Hypothesis Int63n_range : forall k n, 0 < n -> 0 <= Int63n k n < n.

(** Weights computed from statistics that are not degenerate. *)
Definition max_weight : Z := 2 ^ 40.
Definition max_items : Z := 2 ^ 20.
Hypothesis new_range : forall x, 0 <= discovered_Weight now x <= max_weight.
Hypothesis known_range : forall f x w x', known_Weight now (Some f) x = Ret (w, x') -> 0 <= w <= max_weight.
Hypothesis addr_range : forall a, 1 <= addr_Weight now a <= max_weight.

(** A tree over keys that satisfy [Q]. *)
Definition tree_over {K} `{Countable K} (Q : K -> Prop) (w : RandSelect.weightedRandomSelect K) (m : gmap K Z) : Prop :=
  RandSelect.tree_ok max_weight w m /\ Z.of_nat (size m) <= max_items /\ forall i, is_Some (m !! i) -> Q i.

Lemma run_choose_ends {K St} `{Countable K} (Q : K -> Prop) (W : St -> K -> go (Z * St)) (J : St -> Prop) k w s m :
  tree_over Q w m -> J s -> RandSelect.reports W max_weight J m ->
  exists res k' w' s' m', run_choose Int63n W k w s = Ret (res, (k', w', s')) /\ tree_over Q w' m' /\ J s' /\
    match res with None => m' = ∅ | Some i => Q i /\ exists s1 x, J s1 /\ W s1 i = Ret (x, s') /\ 0 < x end /\
    ((forall s i x s', W s i = Ret (x, s') -> 0 < x) -> m <> ∅ -> m' <> ∅).
Proof.
  intros (Ht & Hsz & HQ) Hs HJ. pose proof (RandSelect.tree_sum_bound max_weight w m ltac:(by vm_compute) Ht) as Hsum.
  pose proof Ht as [Hr _ _]. destruct (RandSelect.refines_sum w m Hr) as [Hs0 _].
  destruct (RandSelect.choose_ends_spec W Int63n max_weight Int63n_range J (Pos.to_nat (Z.to_pos (RandSelect.sumWeight (RandSelect.root w) + 1)) + 0) w m k s)
    as (res & k' & w' & s' & m' & E & _ & Hs' & Hd & Hres & Ht' & Hp); [done|done|done|unfold max_weight, max_items in *; lia|lia|].
  exists res, k', w', s', m'. pose proof (RandSelect.choose_upto_spec W Int63n (Z.to_pos (RandSelect.sumWeight (RandSelect.root w) + 1)) 0 (k, w, s)) as Hu.
  split; [|split; [|split; [done|split]]].
  - unfold run_choose. rewrite E in Hu. destruct (RandSelect.choose_upto _ _ _ _) as [[st|r]|x|x|x]; cbn [mbind go_bind]; [done|congruence|congruence..].
  - split; [by apply Ht'|]. split; [|by auto]. assert (size m' <= size m)%nat; [|lia].
    rewrite <- !size_dom. apply subseteq_size. intros i. rewrite !elem_of_dom. apply Hd.
  - destruct res as [i|]; [|done]. destruct Hres as (s1 & x & A1 & A2 & A3 & A4 & _). split; [by apply HQ|by exists s1, x].
  - intros Hpos Hne. destruct (map_choose m Hne) as (i & x & Hi). intros ->. destruct (Hp Hpos i ltac:(eauto)) as [y Hy]. by rewrite lookup_empty in Hy.
Qed.

(** What the weights need of an entry, and dialing it. *)
Definition entry_ok (as_ : gmap aptr poolEntryAddress) (x : poolEntry) : Prop :=
  (known x = true -> exists a, lastConnected x = Some a /\ is_Some (as_ !! a)) /\
  exists m, tree_over (fun a => is_Some (as_ !! a)) (addrSelect x) m /\ m <> ∅.

Definition heap_ok (as_ : gmap aptr poolEntryAddress) (h : gmap ptr poolEntry) : Prop := forall e x, h !! e = Some x -> entry_ok as_ x.

Record pool_ok (p : serverPool) : Prop := {
  pk_server : server p = true;
  pk_new : exists m, tree_over (fun e => is_Some (heap p !! e)) (newSelect p) m;
  pk_known : exists m, tree_over (fun e => is_Some (heap p !! e)) (knownSelect p) m;
  pk_heap : heap_ok (addrs p) (heap p)
}.

(** A heap with the same entries, that are in order. *)
Definition same_entries (as_ : gmap aptr poolEntryAddress) (h h' : gmap ptr poolEntry) : Prop :=
  (forall e, is_Some (h' !! e) <-> is_Some (h !! e)) /\ heap_ok as_ h'.

Lemma tree_over_heap h h' as_ w m : same_entries as_ h h' -> tree_over (fun e => is_Some (h !! e)) w m -> tree_over (fun e => is_Some (h' !! e)) w m.
Proof. intros [Hd _] (H1 & H2 & H3). split_and!; [done..|]. intros e He. by apply Hd, H3. Qed.

Lemma same_entries_insert as_ h0 h e x y : same_entries as_ h0 h -> h !! e = Some x -> entry_ok as_ y -> same_entries as_ h0 (<[e := y]> h).
Proof.
  intros [H1 H2] He Hy. split.
  - intros e'. rewrite <- H1, lookup_insert_is_Some. destruct (decide (e = e')) as [<-|Hne]; [rewrite He; by intuition|by intuition].
  - intros e' z. intros [[<- <-]|[_ Hz]]%lookup_insert_Some; [done|by eapply H2].
Qed.

(** Positive weights belong to entries that are not connected. *)
Lemma discovered_idle x : 0 < discovered_Weight now x -> state x = psNotConnected.
Proof. unfold discovered_Weight. destruct (bool_decide_reflect (state x <> psNotConnected)) as [Hs|Hs]; cbn [orb]; [lia|]. intros _. by apply dec_stable. Qed.

Lemma known_idle f x w x' : known_Weight now f x = Ret (w, x') -> 0 < w -> state x = psNotConnected.
Proof.
  unfold known_Weight. destruct (bool_decide_reflect (state x <> psNotConnected)) as [Hs|Hs]; cbn [orb]; [intros [= <- _]; lia|].
  intros _ _. by apply dec_stable.
Qed.

Lemma known_Weight_ok f x : exists w x', known_Weight now (Some f) x = Ret (w, x') /\ lastConnected x' = lastConnected x /\
  known x' = known x /\ addrSelect x' = addrSelect x.
Proof. unfold known_Weight. destruct (_ || _); [by exists 0, x|]. cbn. eexists _, _. split; [reflexivity|]. by split_and!. Qed.

Definition idle (p : serverPool) (e : ptr) : Prop := exists x, heap p !! e = Some x /\ state x = psNotConnected.

(** The counters, [d] dials after [p]. *)
Definition dials (kn : bool) (d : Z) (p p' : serverPool) : Prop :=
  knownSelectedCnt p' = knownSelectedCnt p + (if kn then d else 0) /\ newSelectedCnt p' = newSelectedCnt p + (if kn then 0 else d).

(** What [checkDial] relies on: a selection that ends, with an entry to dial or none. *)
Definition selects (choose : P (option ptr)) : Prop := forall p, pool_ok p -> exists r p', choose p = Ret (r, p') /\ pool_ok p' /\
  dials true 0 p p' /\ forall e, r = Some e -> idle p' e.

Lemma choose_new_ends : selects (choose_new now Int63n).
Proof.
  intros p [P1 [m P2] P3 P4].
  destruct (run_choose_ends _ (new_weight now) (fun h => h = heap p) (draws p) _ (heap p) m P2 eq_refl) as (r & k & w & h & m' & E & Ht & -> & Hr & _).
  { intros h e -> He. destruct (proj2 (proj2 P2) e He) as [x Hx]. exists (discovered_Weight now x), (heap p). unfold new_weight. rewrite Hx.
    split_and!; [done|apply new_range..|done]. }
  exists r, (set_draws k (set_newSelect w (set_heap (heap p) p))). unfold choose_new. rewrite E. cbn [mbind go_bind].
  split; [done|]. split; [constructor; [done|by exists m'|exact P3|exact P4]|]. split; [split; cbn; lia|]. intros e ->. destruct Hr as (_ & h & x & -> & EW & Hx).
  unfold new_weight in EW. destruct (heap p !! e) as [y|] eqn:Ey; [|done]. injection EW as <-. exists y. split; [done|by apply discovered_idle].
Qed.

Lemma known_weight_ok as_ h0 h e : same_entries as_ h0 h -> is_Some (h0 !! e) ->
  exists w h', known_weight now as_ h e = Ret (w, h') /\ 0 <= w <= max_weight /\ same_entries as_ h0 h' /\
    (0 < w -> exists x, h' !! e = Some x /\ state x = psNotConnected).
Proof.
  intros Hs He. pose proof Hs as [Hd Ho]. apply Hd in He as [x Hx]. unfold known_weight. rewrite Hx. destruct (Ho e x Hx) as [Hk Ha].
  destruct (known x) eqn:Ek.
  - destruct (Hk eq_refl) as (a & -> & [y Hy]). cbn [mbind option_bind]. rewrite Hy. cbn [fmap option_fmap option_map].
    destruct (known_Weight_ok (fails y) x) as (w & x' & E & E1 & E2 & E3). rewrite E. cbn [mbind go_bind]. exists w, (<[e := x']> h).
    split_and!; [done|by apply (known_range _ _ _ _ E)..| |].
    + eapply same_entries_insert; [done|exact Hx|]. unfold entry_ok. rewrite E1, E2, E3. split; [intros _; exact (Hk eq_refl)|exact Ha].
    + intros Hw. exists x'. split; [apply lookup_insert_eq|]. destruct (known_Weight_keeps now _ _ _ _ E) as [-> _]. by eapply known_idle.
  - unfold known_Weight. rewrite Ek, orb_true_r. cbn. exists 0, (<[e := x]> h). split_and!; [done|done|by vm_compute| |lia].
    eapply same_entries_insert; [done|exact Hx|by eapply Ho].
Qed.

Lemma choose_known_ends : selects (choose_known now Int63n).
Proof.
  intros p [P1 P2 [m P3] P4].
  destruct (run_choose_ends _ (known_weight now (addrs p)) (same_entries (addrs p) (heap p)) (draws p) _ (heap p) m P3 ltac:(by split))
    as (r & k & w & h & m' & E & Ht & Hh & Hr & _).
  { intros h e Hh He. destruct (known_weight_ok (addrs p) (heap p) h e Hh (proj2 (proj2 P3) e He)) as (w & h' & A & B & C & _). by exists w, h'. }
  exists r, (set_draws k (set_knownSelect w (set_heap h p))). unfold choose_known. rewrite E. cbn [mbind go_bind]. split; [done|]. split.
  { constructor; [done| |exists m'; by apply (tree_over_heap (heap p) h (addrs p))|apply Hh]. destruct P2 as [m2 P2]. exists m2. by apply (tree_over_heap (heap p) h (addrs p)). }
  split; [split; cbn; lia|]. intros e ->. destruct Hr as (He & h1 & x & Hh1 & EW & Hx).
  destruct (known_weight_ok (addrs p) (heap p) h1 e Hh1 He) as (w' & h' & A & _ & _ & Hi). rewrite EW in A. injection A as <- <-. by apply Hi.
Qed.

Lemma dial_ends e kn p : pool_ok p -> idle p e -> exists p', dial now Int63n e kn p = Ret (tt, p') /\ pool_ok p' /\ dials kn 1 p p'.
Proof.
  intros [P1 P2 P3 P4] (x & Hx & Hst). destruct (P4 e x Hx) as [Hk (m & Ha & Hne)].
  destruct (run_choose_ends _ (address_weight now (addrs p)) (fun _ => True) (draws p) _ tt m Ha I) as (r & k & w & u & m' & E & Ht & _ & Hr & Hpos).
  { intros [] a _ Hi. destruct (proj2 (proj2 Ha) a Hi) as [y Hy]. exists (addr_Weight now y), tt. unfold address_weight. rewrite Hy.
    pose proof (addr_range y). split_and!; [done|lia|lia|done]. }
  assert (Hne' : m' <> ∅).
  { apply Hpos; [|done]. intros [] a w1 [] Ew. unfold address_weight in Ew. destruct (addrs p !! a) as [y|]; [|done]. injection Ew as <-. pose proof (addr_range y). lia. }
  destruct r as [a|]; [|done]. destruct Hr as [[y Hy] _]. set (x' := set_dialed (Some a) (set_addrSelect w (set_knownSelected kn (set_state psDialed x)))).
  set (p1 := set_draws k (set_heap (<[e := x']> (heap p)) p)).
  exists (if kn then set_knownSelectedCnt (knownSelectedCnt p + 1) p1 else set_newSelectedCnt (newSelectedCnt p + 1) p1). split.
  - unfold dial, upd_entry, get_entry, get_addr, count_selected, choose_addr, gets, modify, lift, mbind, stm_bind, mret, stm_ret, id.
    rewrite Hx. cbv beta iota. rewrite P1, Hst, bool_decide_false by (intros []; done). cbn [negb orb]. rewrite Hx. cbv beta iota.
    destruct kn; cbn [heap addrs draws set_heap set_knownSelectedCnt set_newSelectedCnt]; rewrite lookup_insert_eq;
      cbn [addrSelect set_knownSelected set_state]; rewrite E; unfold go_bind; cbv beta iota; cbn [addrs heap set_draws set_heap set_knownSelectedCnt set_newSelectedCnt];
      rewrite Hy; cbv beta iota; cbn [addrs heap set_draws set_heap set_knownSelectedCnt set_newSelectedCnt];
      rewrite lookup_insert_eq; cbv beta iota; cbn [heap set_draws set_heap set_knownSelectedCnt set_newSelectedCnt];
      rewrite !insert_insert_eq; reflexivity.
  - assert (Hs : same_entries (addrs p) (heap p) (<[e := x']> (heap p))).
    { eapply same_entries_insert; [by split|exact Hx|]. split; [exact Hk|]. by exists m'. }
    split; [|by destruct kn; split; cbn; lia]. destruct P2 as [m2 P2], P3 as [m3 P3].
    destruct kn; (constructor; [exact P1| | |apply Hs]); [exists m2|exists m3|exists m2|exists m3]; by apply (tree_over_heap (heap p) _ (addrs p)).
Qed.

(** The loop ends within its fuel: each round raises the counter. *)
Lemma dial_loop_ends choose kn (cnt : serverPool -> Z) target : selects choose ->
  (forall p p' d, dials kn d p p' -> cnt p' = cnt p + d) ->
  forall fuel p, pool_ok p -> target - cnt p <= Z.of_nat fuel ->
  exists b p' d, dial_loop now Int63n fuel (fun p => cnt p <? target) choose kn p = Ret (b, p') /\ pool_ok p' /\ 0 <= d /\ dials kn d p p'.
Proof.
  intros Hch Hcnt. induction fuel as [|fuel IH]; intros p Hp Hf; cbn [dial_loop]; unfold gets, mbind, stm_bind.
  all: destruct (Z.ltb_spec (cnt p) target) as [Hlt|Hge]; cbn [negb];
    [|exists false, p, 0; split; [done|split; [done|split; [lia|destruct kn; split; lia]]]].
  - lia.
  - destruct (Hch p Hp) as (r & p1 & E & Hp1 & [D1 D2] & Hi). rewrite E. destruct r as [e|].
    2: { exists true, p1, 0. split; [done|split; [done|split; [lia|destruct kn; split; lia]]]. }
    destruct (dial_ends e kn p1 Hp1 (Hi e eq_refl)) as (p2 & E2 & Hp2 & Hd2). rewrite E2. pose proof (Hcnt p1 p2 1 Hd2) as Hc2.
    assert (Hc1 : cnt p1 = cnt p) by (rewrite (Hcnt p p1 0); [lia|split; destruct kn; lia]).
    destruct (IH p2 Hp2 ltac:(lia)) as (b & p3 & d & E3 & Hp3 & Hd & [F1 F2]). exists b, p3, (d + 1). destruct Hd2 as [G1 G2].
    split; [exact E3|split; [done|split; [lia|destruct kn; split; lia]]].
Qed.

(** A pool that starts is in order. *)
Lemma pool_ok_new trusted : pool_ok (set_server true (newServerPool trusted)).
Proof.
  assert (Ht : forall Q, tree_over Q (RandSelect.newWeightedRandomSelect (K := ptr)) ∅).
  { intros Q. split; [constructor; [apply RandSelect.refines_new|reflexivity|by intros i x]|]. split; [by vm_compute|]. intros i [x Hx]. by rewrite lookup_empty in Hx. }
  constructor; [done|by exists ∅|by exists ∅|]. intros e x Hx. cbn in Hx. by rewrite lookup_empty in Hx.
Qed.

(** [checkDial] returns: its fuel is enough for the three loops. *)
Theorem checkDial_ends p : pool_ok p -> exists p', checkDial now Int63n p = Ret (tt, p') /\ pool_ok p' /\
  knownSelectedCnt p <= knownSelectedCnt p' /\ newSelectedCnt p <= newSelectedCnt p'.
Proof.
  intros Hp. unfold checkDial, gets, mbind, stm_bind. set (f := dial_fuel p).
  assert (Hf : targetServerCount <= Z.of_nat f + Z.min 0 (knownSelectedCnt p) + Z.min 0 (newSelectedCnt p)) by (unfold f, dial_fuel, targetServerCount; lia).
  destruct (dial_loop_ends _ true knownSelectedCnt targetKnownSelect choose_known_ends ltac:(by intros ? ? ? []) f p Hp
    ltac:(unfold targetKnownSelect, targetServerCount in *; lia)) as (broke & p1 & d1 & E1 & Hp1 & Hd1 & [A1 A2]). rewrite E1. cbv beta iota.
  destruct (dial_loop_ends _ false (fun p => knownSelectedCnt p + newSelectedCnt p) targetServerCount choose_new_ends ltac:(intros ? ? ? []; lia) f p1 Hp1
    ltac:(lia)) as (b2 & p2 & d2 & E2 & Hp2 & Hd2 & [B1 B2]). rewrite E2. cbv beta iota.
  destruct (_ && _); [|exists p2; split_and!; [done|done|lia|lia]].
  destruct (dial_loop_ends _ true knownSelectedCnt targetServerCount choose_known_ends ltac:(by intros ? ? ? []) f p2 Hp2
    ltac:(lia)) as (b3 & p3 & d3 & E3 & Hp3 & Hd3 & [C1 C2]). rewrite E3. exists p3. split_and!; [done|done|lia|lia].
Qed.

End DialEnds.

(** ** Properties *)

Section Properties.
Context `{Float64} (Int63n : nat -> Z -> Z).

(** Every turn of the event loop that returns is a step of the abstract state
    machine: entries go from not connected to dialed (only below the
    targets), from dialed back on a timeout, to connected, to registered, and to
    not connected on a disconnect, and the two counters change exactly on dials,
    timeouts and disconnects.  (That the dials of a turn end is [checkDial_ends].) *)
Theorem pool_refines (now : Z) (ev : event) (p p' : serverPool) :
  handle now Int63n ev p = Ret (tt, p') -> fresh_ok p ->
  aevent ev (abs_of p) (abs_of p') /\ fresh_ok p'.
Proof. apply handle_refines. Qed.

(** The states of a pool that is started and then receives its events in the
    documented order. *)
Inductive reachable : serverPool -> Prop :=
| reach_start trusted saved now p :
    start now Int63n saved (newServerPool trusted) = Ret (tt, p) -> reachable p
| reach_step p ev now p' :
    reachable p -> disciplined ev p -> handle now Int63n ev p = Ret (tt, p') -> reachable p'.

Lemma new_matched trusted saved now p :
  start now Int63n saved (newServerPool trusted) = Ret (tt, p) -> matched (abs_of p) /\ fresh_ok p.
Proof.
  intros E. unfold start in E. stm_step E as u s E1. stm_prim E1.
  set (p0 := set_server true (newServerPool trusted)) in *.
  assert (Hf : fresh_ok p0)
    by (intros e [x Hx]; cbn [p0 heap set_server newServerPool] in Hx; by rewrite lookup_empty in Hx).
  stm_step E as u' s E2. destruct (silent_loadNodes now saved _ _ _ E2 Hf) as (HL & Hf1 & _).
  destruct (sim_checkDial now Int63n _ _ _ E Hf1) as [HA Hf']. split; [|done].
  eapply adial_matched; [exact HA|]. rewrite HL. vm_compute. split_and!; done.
Qed.

Lemma reachable_inv p : reachable p -> matched (abs_of p) /\ fresh_ok p.
Proof.
  induction 1 as [trusted saved now p E|p ev now p' _ [HM Hf] Hd E]; [by eapply new_matched|].
  split; [by eapply handle_matched|]. by eapply handle_refines.
Qed.

(** C27: in every reachable state the two counters are exact: each is the number
    of dialed, connected or registered entries selected under it, and neither
    exceeds the target number of servers. *)
Theorem counters_exact (p : serverPool) :
  reachable p ->
  knownSelectedCnt p = sel true (active (heap p)) /\
  newSelectedCnt p = sel false (active (heap p)) /\
  0 <= knownSelectedCnt p <= targetServerCount /\ 0 <= newSelectedCnt p <= targetServerCount.
Proof.
  intros Hr. destruct (reachable_inv p Hr) as [(Hk & Hn & Hbk & Hbn) _]. cbn [abs_of act kcnt ncnt] in *.
  pose proof (sel_nonneg true (active (heap p))). pose proof (sel_nonneg false (active (heap p))). lia.
Qed.

(** Saving the known nodes writes exactly the entries of the known queue,
    from the least to the most recently connected. *)
Theorem saveNodes_order (p : serverPool) :
  PoolQueue.queue_ok (idx_of p) (knownQueue p) ->
  saveNodes p = Ret (Some <$> PoolQueue.contents (knownQueue p)).
Proof.
  intros Hok. unfold saveNodes. pose proof (PoolQueue.contents_length _ _ Hok) as Hl.
  unfold zlen, PoolQueue.qlen in Hl. replace (size _) with (length (PoolQueue.contents (knownQueue p))) by lia.
  clear Hl. revert Hok. generalize (idx_of p). generalize (knownQueue p). intros q f Hok.
  remember (length (PoolQueue.contents q)) as n eqn:Hn. revert q Hok Hn.
  induction n as [|n IH]; intros q Hok Hn; cbn [fetch_all].
  - destruct (PoolQueue.contents q); [done|discriminate].
  - destruct (PoolQueue.fetchOldest_spec f q Hok) as (q' & E & Hok' & _ & _ & Hc).
    rewrite E. cbn [mbind go_bind]. destruct (PoolQueue.contents q) as [|e l] eqn:Eq; [discriminate|].
    cbn [tail head] in *. rewrite (IH q' Hok'); [|rewrite Hc; by injection Hn]. cbn [mbind go_bind].
    by rewrite Hc.
Qed.

End Properties.

(** ** Concrete runs

    A stand-in for float64 on which the statistics can be evaluated. *)
#[local] Instance float_Z : Float64 := {|
  float := Z; f_of_Z z := z; f_to_i64 z := z; fadd := Z.add; fsub := Z.sub; fmul := Z.mul;
  fdiv := Z.quot; fneg := Z.opp; fgt := Z.gtb; feq := Z.eqb; fexp _ := 1; fpow := Z.pow; fln2 := 1
|}.

Definition no_rand (k : nat) (n : Z) : Z := 0.

Definition run (p : go serverPool) (ev : event) : go serverPool :=
  p ← p; '(_, p) ← handle 1000 no_rand ev p; Ret p.

Definition state_after (p : go serverPool) : serverPool :=
  match p with Ret p => p | _ => newServerPool ∅ end.

Definition started : go serverPool := '(_, p) ← start 1000 no_rand [] (newServerPool ∅); Ret p.

Definition peer7 : enode := MkEnode 7 "10.0.0.7" 5050.

Definition sample_discovered : serverPool := Eval vm_compute in
  state_after (run started (EvDiscNode peer7)).
Definition sample_connected : serverPool := Eval vm_compute in
  state_after (run (Ret sample_discovered) (EvConnect 7 peer7)).
Definition sample_registered : serverPool := Eval vm_compute in
  state_after (run (Ret sample_connected) (EvRegister 1)).

Lemma sample_reachable : reachable no_rand sample_registered.
Proof.
  apply (reach_step no_rand sample_connected (EvRegister 1) 1000); [|vm_compute; eauto|vm_compute; reflexivity].
  apply (reach_step no_rand sample_discovered (EvConnect 7 peer7) 1000);
    [|exists 1; vm_compute; eauto|vm_compute; reflexivity].
  apply (reach_step no_rand (state_after started) (EvDiscNode peer7) 1000); [|exact I|vm_compute; reflexivity].
  apply (reach_start no_rand ∅ [] 1000). vm_compute. reflexivity.
Qed.

Lemma counters_exact_witness :
  knownSelectedCnt sample_registered = sel true (active (heap sample_registered)) /\
  newSelectedCnt sample_registered = sel false (active (heap sample_registered)) /\
  0 <= knownSelectedCnt sample_registered <= targetServerCount /\
  0 <= newSelectedCnt sample_registered <= targetServerCount.
Proof. apply (counters_exact no_rand). exact sample_reachable. Defined.

Lemma pool_refines_witness :
  aevent (EvRegister 1) (abs_of sample_connected) (abs_of sample_registered) /\ fresh_ok sample_registered.
Proof.
  apply (pool_refines no_rand 1000).
  - vm_compute. reflexivity.
  - eapply (reachable_inv no_rand).
    apply (reach_step no_rand sample_discovered (EvConnect 7 peer7) 1000);
      [|exists 1; vm_compute; eauto|vm_compute; reflexivity].
    apply (reach_step no_rand (state_after started) (EvDiscNode peer7) 1000); [|exact I|vm_compute; reflexivity].
    apply (reach_start no_rand ∅ [] 1000). vm_compute. reflexivity.
Defined.

Lemma saveNodes_order_witness :
  saveNodes sample_registered = Ret (Some <$> PoolQueue.contents (knownQueue sample_registered)).
Proof.
  apply saveNodes_order. split; [vm_compute; discriminate|]. intros i e Hi.
  assert (Hq : PoolQueue.queue (knownQueue sample_registered) = {[ 0 := 1 ]}) by (vm_compute; reflexivity).
  rewrite Hq in Hi. apply lookup_singleton_Some in Hi as [<- <-]. vm_compute. split; [split; [discriminate|reflexivity]|reflexivity].
Defined.

(** An incoming connection of a node the pool never dialed is accepted, and its
    end is counted although its beginning was not. *)
Theorem undialed_connect_undercounts :
  let p := state_after (run (run started (EvConnect 7 peer7)) (EvDisconnect 1 false)) in
  active (heap p) = ∅ /\ knownSelectedCnt p = 0 /\ newSelectedCnt p = -1.
Proof. vm_compute. split_and!; reflexivity. Qed.

End ServerPool.
