(* ===== verification/PoolLoop.v ===== *)
(** * Sessions, the event loop of the server pool, and its end

    The request channels of [src/gossip/serverpool.go]: [connect], [registered]
    and [disconnect] are called by the sessions of the protocol manager and served
    by [eventLoop], until [quit] is closed; then the loop serves the remaining
    disconnections, a goroutine closes [disconnCh] when all connections are gone,
    and the known nodes are saved.  The channels are unbuffered: a request is
    taken and served in one step.  What a turn of the loop does to the pool is the
    handler of [ServerPool.v]. *)

From Stdlib Require Import ZArith Lia Bool.
From stdpp Require Import base list numbers option strings gmap fin_maps.
From S2P Require Import Prelude RandSelect PoolQueue ServerPool.
Import ServerPool.
Local Open Scope Z_scope.

Module PoolLoop.

Section Loop.
Context `{Float64} (Int63n : nat -> Z -> Z).

(** Where a session is: in the [select] of [connect]; without an entry; with one,
    registered or not; in the [select] of [registered]; sending on [disconnCh];
    at its end. *)
Inductive session :=
| Connecting (peerID : ID) (n : enode)
| Refused
| Connected (e : ptr) (reg : bool)
| Registering (e : ptr)
| Disconnecting (e : ptr) (stopped : bool)
| Disconnected.

Inductive loop_state := Serving | Draining | Ended.

Record system := MkSystem {
  pool : serverPool;
  sessions : gmap nat session;
  quit : bool;                 (** the channel [quit] is closed *)
  disconnCh_closed : bool;
  loop : loop_state;
  saved : option (go (list (option ptr)))   (** by [saveNodes] *)
}.

Definition move (t : nat) (x : session) (s : system) : system :=
  MkSystem (pool s) (<[t := x]> (sessions s)) (quit s) (disconnCh_closed s) (loop s) (saved s).
Definition set_pool (p : serverPool) (s : system) : system :=
  MkSystem p (sessions s) (quit s) (disconnCh_closed s) (loop s) (saved s).
Definition set_loop (l : loop_state) (s : system) : system :=
  MkSystem (pool s) (sessions s) (quit s) (disconnCh_closed s) l (saved s).

(** ** The other producers of events *)

(** [enode.Parse] with the valid schemes; a text that is not a node is skipped. *)
Definition parseTrustedNodes (Parse : string -> enode + error) (trusted : list string) : gmap ID enode :=
  foldl (fun nodes url => match Parse url with inl n => <[node_ID n := n]> nodes | inr _ => nodes end) ∅ trusted.

(** [adjustResponseTime] sends nothing for a nil entry. *)
Definition adjustResponseTime (entry : option ptr) (time : Z) (timeout : bool) : option event :=
  e ← entry; Some (EvAdjustStats (if timeout then pseResponseTimeout else pseResponseTime) e time).

(** [discoverNodes] passes on the nodes whose public key is valid. *)
Definition discoverNodes {N} (to_enode : N -> option enode) (found : list N) : list event := EvDiscNode <$> omap to_enode found.

(** Exactly the texts that parse name trusted nodes. *)
Lemma parseTrustedNodes_spec Parse trusted :
  (forall i n, parseTrustedNodes Parse trusted !! i = Some n -> node_ID n = i /\ exists url, url ∈ trusted /\ Parse url = inl n) /\
  (forall url n, url ∈ trusted -> Parse url = inl n -> is_Some (parseTrustedNodes Parse trusted !! node_ID n)).
Proof.
  unfold parseTrustedNodes. induction trusted as [|url l IH] using rev_ind; [split; [intros i n; cbn [foldl]; by rewrite lookup_empty|by intros url n ?%elem_of_nil]|].
  rewrite foldl_app. cbn [foldl]. destruct IH as [IH1 IH2]. destruct (Parse url) as [m|e] eqn:Ep; split.
  - intros i n. rewrite lookup_insert_Some. intros [[<- <-]|[_ Hn]]; [split; [done|exists url; split; [apply elem_of_app; right; by left|done]]|].
    apply IH1 in Hn as (Hi & u & Hu & Hp). split; [done|]. exists u. rewrite elem_of_app. auto.
  - intros u n [Hu|Hu]%elem_of_app Hp; [|apply list_elem_of_singleton in Hu as ->; rewrite Ep in Hp; injection Hp as <-; rewrite lookup_insert_eq; by eauto].
    destruct (decide (node_ID m = node_ID n)) as [->|Hne]; [rewrite lookup_insert_eq; by eauto|rewrite lookup_insert_ne by done; by eapply IH2].
  - intros i n Hn. apply IH1 in Hn as (Hi & u & Hu & Hp). split; [done|]. exists u. rewrite elem_of_app. auto.
  - intros u n [Hu|Hu]%elem_of_app Hp; [by eapply IH2|]. apply list_elem_of_singleton in Hu as ->. congruence.
Qed.

(** ** Steps *)

(** The cases of the loop that are not requests of a session. *)
Definition internal (ev : event) : bool :=
  match ev with EvConnect _ _ | EvRegister _ | EvDisconnect _ _ => false | _ => true end.

(** [connect] *)
Inductive connect_step : system -> system -> Prop :=
| st_open s t i n : sessions s !! t = None -> connect_step s (move t (Connecting i n) s)
| st_connect s t i n now r p : sessions s !! t = Some (Connecting i n) -> loop s = Serving ->
    onConnect now i n (pool s) = Ret (r, p) ->
    connect_step s (move t (match r with Some e => Connected e false | None => Refused end) (set_pool p s))
| st_connect_quit s t i n : sessions s !! t = Some (Connecting i n) -> quit s = true -> connect_step s (move t Refused s).

(** [registered] *)
Inductive registered_step : system -> system -> Prop :=
| st_register s t e : sessions s !! t = Some (Connected e false) -> registered_step s (move t (Registering e) s)
| st_registered s t e now p : sessions s !! t = Some (Registering e) -> loop s = Serving ->
    onRegister now e (pool s) = Ret (tt, p) -> registered_step s (move t (Connected e true) (set_pool p s))
| st_registered_quit s t e : sessions s !! t = Some (Registering e) -> quit s = true -> registered_step s (move t (Connected e false) s).

(** [disconnect]: whether [quit] is closed is read before the request is sent. *)
Inductive disconnect_step : system -> system -> Prop :=
| st_disconnect s t e b : sessions s !! t = Some (Connected e b) -> disconnect_step s (move t (Disconnecting e (quit s)) s)
| st_disconnected s t e stopped now p : sessions s !! t = Some (Disconnecting e stopped) -> loop s = Serving ->
    onDisconnect now Int63n e stopped (pool s) = Ret (tt, p) -> disconnect_step s (move t Disconnected (set_pool p s)).

(** The case of the loop for [quit]: the remaining disconnections are served, a
    goroutine closes the channel when the wait group is empty, and then the nodes
    are saved. *)
Inductive quit_step : system -> system -> Prop :=
| st_drain s : quit s = true -> loop s = Serving -> quit_step s (set_loop Draining s)
| st_drained s t e stopped now p : sessions s !! t = Some (Disconnecting e stopped) -> loop s = Draining -> disconnCh_closed s = false ->
    onDisconnect now Int63n e true (pool s) = Ret (tt, p) -> quit_step s (move t Disconnected (set_pool p s))
| st_close s : loop s = Draining -> connWg (pool s) = 0 ->
    quit_step s (MkSystem (pool s) (sessions s) (quit s) true (loop s) (saved s))
| st_end s : loop s = Draining -> disconnCh_closed s = true ->
    quit_step s (MkSystem (pool s) (sessions s) (quit s) (disconnCh_closed s) Ended (Some (saveNodes (pool s)))).

(** The whole: the calls, the loop, its other cases, and the node that quits. *)
Inductive step : system -> system -> Prop :=
| do_connect s s' : connect_step s s' -> step s s'
| do_registered s s' : registered_step s s' -> step s s'
| do_disconnect s s' : disconnect_step s s' -> step s s'
| do_quit s s' : quit_step s s' -> step s s'
| do_event s ev now p : internal ev = true -> loop s = Serving -> handle now Int63n ev (pool s) = Ret (tt, p) -> step s (set_pool p s)
| do_close_quit s : step s (MkSystem (pool s) (sessions s) true (disconnCh_closed s) (loop s) (saved s)).

Definition started (p : serverPool) : system := MkSystem p ∅ false false Serving None.

(** ** Handlers and the wait group of connections *)

Definition same_wg (p p' : serverPool) : Prop := connWg p' = connWg p.

#[local] Instance same_wg_preorder : PreOrder same_wg.
Proof. split; [by intros p|]. unfold same_wg. intros p1 p2 p3 E1 E2. congruence. Qed.

Lemma wg_get_entry e : frames same_wg (get_entry e).
Proof. unfold get_entry. frame. Qed.
#[local] Hint Resolve wg_get_entry : frames.

Lemma wg_upd_entry e f : frames same_wg (upd_entry e f).
Proof. unfold upd_entry. frame. Qed.
#[local] Hint Resolve wg_upd_entry : frames.

Lemma wg_get_addr a : frames same_wg (get_addr a).
Proof. unfold get_addr. frame. Qed.
#[local] Hint Resolve wg_get_addr : frames.

Lemma wg_upd_addr a f : frames same_wg (upd_addr a f).
Proof. unfold upd_addr. frame. Qed.
#[local] Hint Resolve wg_upd_addr : frames.

Lemma wg_alloc : frames same_wg alloc.
Proof. unfold alloc. frame. Qed.
#[local] Hint Resolve wg_alloc : frames.

Lemma wg_choose_known now : frames same_wg (choose_known now Int63n).
Proof. apply frames_unmarked; [apply _|]. intros p x p' E. unfold choose_known in E. go_inv. by repeat case_match; simplify_eq. Qed.

Lemma wg_choose_new now : frames same_wg (choose_new now Int63n).
Proof. apply frames_unmarked; [apply _|]. intros p x p' E. unfold choose_new in E. go_inv. by repeat case_match; simplify_eq. Qed.

Lemma wg_choose_addr now e : frames same_wg (choose_addr now Int63n e).
Proof. apply frames_unmarked; [apply _|]. intros p x p' E. unfold choose_addr in E. case_match; [|done]. go_inv. by repeat case_match; simplify_eq. Qed.
#[local] Hint Resolve wg_choose_known wg_choose_new wg_choose_addr : frames.

Lemma wg_removeEntry e : frames same_wg (removeEntry e).
Proof. unfold removeEntry. frame. Qed.
#[local] Hint Resolve wg_removeEntry : frames.

Lemma wg_setLatest_new e : frames same_wg (setLatest_new e).
Proof. unfold setLatest_new. frame. Qed.

Lemma wg_setLatest_known e : frames same_wg (setLatest_known e).
Proof. unfold setLatest_known. frame. Qed.
#[local] Hint Resolve wg_setLatest_new wg_setLatest_known : frames.

Lemma wg_setRetryDial e : frames same_wg (setRetryDial Int63n e).
Proof. unfold setRetryDial. frame. Qed.

Lemma wg_count_selected kn d : frames same_wg (count_selected kn d).
Proof. unfold count_selected. frame. Qed.
#[local] Hint Resolve wg_setRetryDial wg_count_selected : frames.

Lemma wg_dial now e kn : frames same_wg (dial now Int63n e kn).
Proof. unfold dial. frame. Qed.
#[local] Hint Resolve wg_dial : frames.

Lemma wg_dial_loop now fuel cond ch kn : frames same_wg ch -> frames same_wg (dial_loop now Int63n fuel cond ch kn).
Proof. intros Hc. induction fuel as [|fuel IH]; cbn [dial_loop]; frame; auto. Qed.

Lemma wg_checkDial now : frames same_wg (checkDial now Int63n).
Proof. unfold checkDial. repeat first [apply wg_dial_loop; auto with frames|frame_step]. Qed.
#[local] Hint Resolve wg_checkDial : frames.

Lemma wg_updateCheckDial now e : frames same_wg (updateCheckDial now Int63n e).
Proof. unfold updateCheckDial. frame. Qed.

Lemma wg_update_addrSelect now e a : frames same_wg (update_addrSelect now e a).
Proof. unfold update_addrSelect. frame. Qed.
#[local] Hint Resolve wg_updateCheckDial wg_update_addrSelect : frames.

Lemma wg_findOrNewNode now n : frames same_wg (findOrNewNode now n).
Proof. unfold findOrNewNode, alloc_entry. frame. Qed.
#[local] Hint Resolve wg_findOrNewNode : frames.

Lemma wg_internal now ev : internal ev = true -> frames same_wg (handle now Int63n ev).
Proof. destruct ev; try done; intros _; cbn [handle]; unfold onTimeout, checkDialTimeout, onEnableRetry, onAdjustStats, onDiscNode, onDiscLookup; frame. Qed.

Lemma wg_onRegister now e : frames same_wg (onRegister now e).
Proof. unfold onRegister. frame. Qed.

(** An accepted connection is added to the group, and a disconnection taken from it. *)
Lemma wg_onConnect now i n p r p' : onConnect now i n p = Ret (r, p') ->
  connWg p' = connWg p + match r with Some _ => 1 | None => 0 end.
Proof.
  unfold onConnect. intros E. stm_step E as q s1 E1. stm_prim E1. case_bool_decide; [stm_prim E; lia|].
  stm_step E as e s2 E2. assert (W2 : connWg s2 = connWg p).
  { destruct (entries p !! i); [by stm_prim E2|by eapply wg_findOrNewNode]. }
  stm_step E as x s3 E3. apply wg_get_entry in E3. unfold same_wg in E3. destruct (_ || _); [stm_prim E; lia|].
  stm_step E as u s4 E4. injection E4 as _ E4. assert (W4 : connWg s4 = connWg p + 1) by (rewrite <- E4; cbn; lia).
  stm_step E as u5 s5 E5. apply wg_upd_entry in E5. stm_step E as a s6 E6. apply wg_alloc in E6.
  stm_step E as u7 s7 E7. injection E7 as _ E7. assert (W7 : connWg s7 = connWg s6) by (by rewrite <- E7).
  stm_step E as u8 s8 E8. apply wg_upd_entry in E8. stm_step E as u9 s9 E9. apply wg_update_addrSelect in E9. injection E as <- <-. unfold same_wg in *. lia.
Qed.

Lemma wg_onDisconnect now e stopped p p' : onDisconnect now Int63n e stopped p = Ret (tt, p') -> connWg p' = connWg p - 1.
Proof.
  unfold onDisconnect. intros E. stm_step E as x s1 E1. apply wg_get_entry in E1. stm_step E as u s2 E2.
  assert (W2 : same_wg s1 s2) by (case_bool_decide; [by apply wg_upd_entry in E2|by stm_prim E2]).
  stm_step E as u3 s3 E3. apply wg_upd_entry in E3. stm_step E as u4 s4 E4. apply wg_count_selected in E4.
  stm_step E as u5 s5 E5. apply wg_setRetryDial in E5. injection E as E. rewrite <- E. unfold same_wg in *. cbn. lia.
Qed.

(** ** Every connection is disconnected before the end *)

(** A session that was given an entry and has not been disconnected. *)
Definition holds_entry (x : session) : bool :=
  match x with Connected _ _ | Registering _ | Disconnecting _ _ => true | _ => false end.

Definition holders (m : gmap nat session) : Z := Z.of_nat (size (filter (fun kx => holds_entry kx.2 = true) m)).

Definition one (b : bool) : Z := if b then 1 else 0.
Definition holds_at (m : gmap nat session) (t : nat) : bool := match m !! t with Some x => holds_entry x | None => false end.

Lemma holders_delete m t : holders (delete t m) = holders m - one (holds_at m t).
Proof.
  unfold holders, holds_at. rewrite map_filter_delete. destruct (m !! t) as [x|] eqn:Et.
  - destruct (holds_entry x) eqn:Ex; cbn [one].
    + assert (Hf : filter (fun kx : nat * session => holds_entry kx.2 = true) m !! t = Some x) by (by apply map_lookup_filter_Some).
      rewrite map_size_delete_Some by (by eexists). assert (0 < size (filter (fun kx : nat * session => holds_entry kx.2 = true) m))%nat; [|lia].
      destruct (decide (size (filter (fun kx : nat * session => holds_entry kx.2 = true) m) = 0%nat)) as [E|]; [|lia].
      apply map_size_empty_inv in E. by rewrite E, lookup_empty in Hf.
    + rewrite delete_id; [lia|]. apply map_lookup_filter_None. right. intros y Hy. simplify_eq. cbn. congruence.
  - rewrite delete_id; [cbn; lia|]. apply map_lookup_filter_None. by left.
Qed.

Lemma holders_insert m t x : holders (<[t := x]> m) = holders m - one (holds_at m t) + one (holds_entry x).
Proof.
  rewrite <- holders_delete. rewrite <- insert_delete_eq. unfold holders. destruct (holds_entry x) eqn:Ex; cbn [one].
  - rewrite map_filter_insert_True by done. rewrite map_size_insert_None; [lia|]. apply map_lookup_filter_None. left. by rewrite lookup_delete_eq.
  - rewrite map_filter_insert_not'; [lia|cbn; congruence|]. intros y Hy. by rewrite lookup_delete_eq in Hy.
Qed.

Lemma holders_none m : holders m = 0 <-> forall t x, m !! t = Some x -> holds_entry x = false.
Proof.
  unfold holders. split.
  - intros E t x Hx. destruct (holds_entry x) eqn:Eh; [|done]. assert (size (filter (fun kx : nat * session => holds_entry kx.2 = true) m) = 0%nat) as E0 by lia.
    apply map_size_empty_inv in E0. assert (Hf : filter (fun kx : nat * session => holds_entry kx.2 = true) m !! t = Some x) by (by apply map_lookup_filter_Some).
    by rewrite E0, lookup_empty in Hf.
  - intros Hn. replace (filter _ m) with (∅ : gmap nat session); [by rewrite map_size_empty|]. symmetry. apply map_empty.
    intros t. apply map_lookup_filter_None. right. intros x Hx. cbn. by rewrite (Hn t x Hx).
Qed.

Record system_ok (s : system) : Prop := {
  so_wg : connWg (pool s) = holders (sessions s);
  so_quit : loop s <> Serving -> quit s = true;
  so_closed : disconnCh_closed s = true -> loop s <> Serving /\ holders (sessions s) = 0;
  so_ended : loop s = Ended -> disconnCh_closed s = true /\ is_Some (saved s)
}.

(** A move of a session that takes an entry only from a loop that serves. *)
Lemma system_ok_move s t x p : system_ok s -> connWg p = connWg (pool s) - one (holds_at (sessions s) t) + one (holds_entry x) ->
  (holds_entry x = true -> holds_at (sessions s) t = true \/ loop s = Serving) -> system_ok (move t x (set_pool p s)).
Proof.
  intros [H1 H2 H3 H4] Hp Hx. constructor; cbn [move set_pool pool sessions quit disconnCh_closed loop saved]; try done.
  - rewrite holders_insert. lia.
  - intros Hc. destruct (H3 Hc) as [Hl H0]. split; [done|]. rewrite holders_insert, H0.
    assert (Hn : holds_at (sessions s) t = false).
    { unfold holds_at. destruct (sessions s !! t) eqn:E; [|done]. by eapply holders_none. }
    rewrite Hn in *. destruct (holds_entry x); [|done]. destruct (Hx eq_refl); done.
Qed.

Lemma system_step_ok s s' : system_ok s -> step s s' -> system_ok s'.
Proof.
  intros Hs Hst. assert (Hp : forall t x, system_ok (move t x (set_pool (pool s) s)) -> system_ok (move t x s)) by (intros t x; by destruct s).
  destruct Hst as [s s' Hst|s s' Hst|s s' Hst|s s' Hst|s ev now p Hi Hl E|s]; [destruct Hst as [s t i n Ht|s t i n now r p Ht Hl E|s t i n Ht Hq]|
    destruct Hst as [s t e Ht|s t e now p Ht Hl E|s t e Ht Hq]|destruct Hst as [s t e b Ht|s t e stopped now p Ht Hl E]|
    destruct Hst as [s Hq Hl|s t e stopped now p Ht Hl Hc E|s Hl Hw|s Hl Hc]| | ];
    try (first [apply Hp|idtac]; apply system_ok_move; [done|unfold holds_at; rewrite Ht|unfold holds_at; rewrite Ht; auto; fail]).
  - cbn. lia.
  - apply wg_onConnect in E. rewrite E. by destruct r; cbn; lia.
  - cbn. lia.
  - cbn. lia.
  - apply wg_onRegister in E. unfold same_wg in E. cbn. lia.
  - cbn. lia.
  - cbn. lia.
  - apply wg_onDisconnect in E. cbn. lia.
  - destruct Hs as [H1 H2 H3 H4]. constructor; cbn; try done. intros Hc. by destruct (H3 Hc).
  - apply wg_onDisconnect in E. cbn. lia.
  - destruct Hs as [H1 H2 H3 H4]. constructor; cbn; [done|done|intros _; split; [congruence|lia]|intros He; congruence].
  - destruct Hs as [H1 H2 H3 H4]. constructor; cbn; [done|intros _; apply H2; congruence|intros _; split; [done|by apply H3]|by eauto].
  - apply wg_internal in E; [|done]. destruct Hs as [H1 H2 H3 H4]. constructor; cbn; try done. unfold same_wg in E. lia.
  - destruct Hs as [H1 H2 H3 H4]. by constructor.
Qed.

Lemma wg_loadNodes now l : frames same_wg (loadNodes now l).
Proof. induction l as [|enc l IH]; cbn [loadNodes]; unfold loadNode, entry_decode, alloc_entry; frame; auto. Qed.

Lemma wg_start now l : frames same_wg (start now Int63n l).
Proof. unfold start. repeat first [apply wg_loadNodes|frame_step]. Qed.

(** C14: the server pool ends cleanly.  In every interleaving of sessions, the
    event loop and the end of the node, the wait group counts exactly the sessions
    that were given an entry and are not disconnected yet, so it is never
    negative; [disconnCh] is closed only when there are none, so nobody sends on
    the closed channel or waits for a loop that is gone; once the node quits, no
    [connect] or [registered] blocks; when the last session is disconnected the
    loop can end; and when it has ended the nodes were saved after all of that. *)
Theorem pool_shutdown (now : Z) nodes trusted (p : serverPool) (s : system) :
  start now Int63n nodes (newServerPool trusted) = Ret (tt, p) -> rtc step (started p) s ->
  connWg (pool s) = holders (sessions s) /\
  (disconnCh_closed s = true -> forall t x, sessions s !! t = Some x -> holds_entry x = false) /\
  (forall t e b, sessions s !! t = Some (Disconnecting e b) -> disconnCh_closed s = false /\ loop s <> Ended) /\
  (quit s = true -> (forall t i n, sessions s !! t = Some (Connecting i n) -> step s (move t Refused s)) /\
                    (forall t e, sessions s !! t = Some (Registering e) -> step s (move t (Connected e false) s))) /\
  (loop s = Draining -> (forall t x, sessions s !! t = Some x -> holds_entry x = false) -> exists s', rtc step s s' /\ loop s' = Ended) /\
  (loop s = Ended -> quit s = true /\ disconnCh_closed s = true /\ is_Some (saved s)).
Proof.
  intros Hst Hr. assert (H0 : system_ok (started p)).
  { apply wg_start in Hst. unfold same_wg in Hst. by constructor. }
  assert (Hok : system_ok s). { remember (started p) as s0 eqn:E. clear E Hst. induction Hr; [done|]. eauto using system_step_ok. }
  destruct Hok as [H1 H2 H3 H4]. assert (Hc : disconnCh_closed s = true -> forall t x, sessions s !! t = Some x -> holds_entry x = false).
  { intros Hc. apply holders_none. by apply H3. }
  split; [done|]. split; [done|]. split.
  { intros t e b Ht. assert (Hn : disconnCh_closed s = false) by (apply not_true_iff_false; intros Hcl; by specialize (Hc Hcl t _ Ht)).
    split; [done|]. intros He. destruct (H4 He). congruence. }
  split; [intros Hq; split; intros; [eapply do_connect, st_connect_quit; done|eapply do_registered, st_registered_quit; done]|]. split.
  - intros Hl Hn. apply holders_none in Hn. eexists. split.
    + eapply rtc_l; [apply do_quit, st_close; [done|congruence]|]. eapply rtc_l; [by apply do_quit, st_end|]. apply rtc_refl.
    + reflexivity.
  - intros He. destruct (H4 He). split; [apply H2; congruence|done].
Qed.

End Loop.

(** ** A session that ends with the node *)

Module Sample.
#[local] Existing Instance float_Z.

Definition pool0 : serverPool := match start 1000 no_rand [] (newServerPool ∅) with Ret (_, p) => p | _ => newServerPool ∅ end.

Definition accepted : option ptr * serverPool := match onConnect 2000 7 peer7 pool0 with Ret r => r | _ => (None, pool0) end.

Definition waiting : system := move 0 (Disconnecting 1 true) (MkSystem (snd accepted) {[0%nat := Connected 1 false]} true false Draining None).

Lemma waiting_reached : rtc (step no_rand) (started pool0) waiting.
Proof.
  eapply rtc_l; [apply do_connect, (st_open _ 0%nat 7 peer7); reflexivity|].
  eapply rtc_l; [apply do_connect, (st_connect _ 0%nat 7 peer7 2000 (fst accepted) (snd accepted)); [reflexivity|reflexivity|vm_compute; reflexivity]|].
  eapply rtc_l; [apply do_close_quit|]. eapply rtc_l; [apply do_quit, st_drain; reflexivity|].
  eapply rtc_l; [apply do_disconnect, (st_disconnect _ _ 0%nat 1 false); vm_compute; reflexivity|]. apply rtc_refl.
Qed.

Lemma pool_shutdown_witness : connWg (pool waiting) = 1 /\ holders (sessions waiting) = 1 /\ disconnCh_closed waiting = false.
Proof.
  destruct (pool_shutdown no_rand 1000 [] ∅ pool0 waiting eq_refl waiting_reached) as (H1 & _ & H3 & _).
  split; [vm_compute; reflexivity|]. split; [rewrite <- H1; vm_compute; reflexivity|]. exact (proj1 (H3 0%nat 1 true eq_refl)).
Defined.

End Sample.
End PoolLoop.
