(* ===== verification/Store.v ===== *)
(** * gossip/store*.go: the node's storage

    Tables, caches and the database of the current epoch, over the interfaces of
    [Kv].  Every failure of a table or of the codec ends the process
    ([Log.Crit]).  The theorems say that the caches are transparent: the store
    behaves as plain maps (events, blocks, pack infos, packs, heads, tips and
    the latest states). *)

From Stdlib Require Import ZArith Lia Bool Sorted.
From stdpp Require Import base list numbers option strings gmap sorting.
From S2P Require Import Prelude Kv Sha256 Fast Event Serializer EventBuild.
Import Event Serializer EventBuild.
Local Open Scope Z_scope.

(** Byte forms of the other indexes of lachesis-base. *)
Class LachesisIdx := {
  block_bytes : Z -> list Z;
  pack_bytes : Z -> list Z;
  validator_bytes : Z -> list Z;
  bytes_to_pack : list Z -> Z;
  bytes_to_event : list Z -> list Z
}.

Class LachesisIdxLaws (I : LachesisIdx) : Prop := {
  block_bytes_inj : forall a b, is_uint 64 a -> is_uint 64 b -> block_bytes a = block_bytes b -> a = b;
  pack_bytes_length : forall n, length (pack_bytes n) = 4%nat;
  pack_bytes_inj : forall a b, is_uint 32 a -> is_uint 32 b -> pack_bytes a = pack_bytes b -> a = b;
  bytes_to_pack_bytes : forall n, is_uint 32 n -> bytes_to_pack (pack_bytes n) = n;
  validator_bytes_length : forall v, length (validator_bytes v) = 4%nat;
  validator_bytes_inj : forall a b,
    is_uint 32 a -> is_uint 32 b -> validator_bytes a = validator_bytes b -> a = b;
  bytes_to_event_id : forall b, length b = 32%nat -> bytes_to_event b = b
}.

Module Store.

(** ** decided_state.go, pack.go *)

Record BlockState := MkBlockState { bs_Block : Z; EpochBlocks : Z }.

Record EpochState (V : Type) := MkEpochState { es_Epoch : Z; es_Validators : V }.
Arguments MkEpochState {V} es_Epoch es_Validators.
Arguments es_Epoch {V} e.
Arguments es_Validators {V} e.

Record PackInfo := MkPackInfo { Index : Z; pi_Size : Z; NumOfEvents : Z; Heads : list (list Z) }.

Definition softResponseLimitSize : Z := 2 * 1024 * 1024.
Definition softLimitItems : Z := 250.
Definition hardLimitItems : Z := softLimitItems * 4.
Definition maxPackSize : Z := softResponseLimitSize.
Definition maxPackEventsNum : Z := softLimitItems.

Definition epochSize : Z := 4.
Definition packSize : Z := 4.
Definition eventIDSize : Z := 32.

Section Definitions.
Context {V : Type}.
Context `{LachesisBase, LachesisIdx, Rlp, Kv, Lru}.
Context `{Codec Block, Codec PackInfo, Codec BlockState, Codec (EpochState V)}.

(** The tables of one epoch database. *)
Record epochTables := MkEpochTables { Tips : tbl; HeadsT : tbl }.

Record Store := MkStore {
  (* tables *)
  BlockStateT : tbl;
  EpochStateT : tbl;
  Events : tbl;
  Blocks : tbl;
  PackInfos : tbl;
  Packs : tbl;
  PacksNum : tbl;
  (* caches; [None] when the configured size is zero *)
  cEvents : option (lru Event);
  cBlocks : option (lru Block);
  cPackInfos : option (lru PackInfo);
  cBlockState : option BlockState;
  cEpochState : option (EpochState V);
  (* the databases [gossip-<epoch>] of the pool, and the one in use *)
  epochDBs : gmap Z epochTables;
  epochStore : option Z
}.

Abbreviation ST := (stm Store).

Definition set_BlockStateT v (s : Store) := MkStore v (EpochStateT s) (Events s) (Blocks s) (PackInfos s) (Packs s) (PacksNum s) (cEvents s) (cBlocks s) (cPackInfos s) (cBlockState s) (cEpochState s) (epochDBs s) (epochStore s).
Definition set_EpochStateT v (s : Store) := MkStore (BlockStateT s) v (Events s) (Blocks s) (PackInfos s) (Packs s) (PacksNum s) (cEvents s) (cBlocks s) (cPackInfos s) (cBlockState s) (cEpochState s) (epochDBs s) (epochStore s).
Definition set_Events v (s : Store) := MkStore (BlockStateT s) (EpochStateT s) v (Blocks s) (PackInfos s) (Packs s) (PacksNum s) (cEvents s) (cBlocks s) (cPackInfos s) (cBlockState s) (cEpochState s) (epochDBs s) (epochStore s).
Definition set_Blocks v (s : Store) := MkStore (BlockStateT s) (EpochStateT s) (Events s) v (PackInfos s) (Packs s) (PacksNum s) (cEvents s) (cBlocks s) (cPackInfos s) (cBlockState s) (cEpochState s) (epochDBs s) (epochStore s).
Definition set_PackInfos v (s : Store) := MkStore (BlockStateT s) (EpochStateT s) (Events s) (Blocks s) v (Packs s) (PacksNum s) (cEvents s) (cBlocks s) (cPackInfos s) (cBlockState s) (cEpochState s) (epochDBs s) (epochStore s).
Definition set_Packs v (s : Store) := MkStore (BlockStateT s) (EpochStateT s) (Events s) (Blocks s) (PackInfos s) v (PacksNum s) (cEvents s) (cBlocks s) (cPackInfos s) (cBlockState s) (cEpochState s) (epochDBs s) (epochStore s).
Definition set_PacksNum v (s : Store) := MkStore (BlockStateT s) (EpochStateT s) (Events s) (Blocks s) (PackInfos s) (Packs s) v (cEvents s) (cBlocks s) (cPackInfos s) (cBlockState s) (cEpochState s) (epochDBs s) (epochStore s).
Definition set_cEvents v (s : Store) := MkStore (BlockStateT s) (EpochStateT s) (Events s) (Blocks s) (PackInfos s) (Packs s) (PacksNum s) v (cBlocks s) (cPackInfos s) (cBlockState s) (cEpochState s) (epochDBs s) (epochStore s).
Definition set_cBlocks v (s : Store) := MkStore (BlockStateT s) (EpochStateT s) (Events s) (Blocks s) (PackInfos s) (Packs s) (PacksNum s) (cEvents s) v (cPackInfos s) (cBlockState s) (cEpochState s) (epochDBs s) (epochStore s).
Definition set_cPackInfos v (s : Store) := MkStore (BlockStateT s) (EpochStateT s) (Events s) (Blocks s) (PackInfos s) (Packs s) (PacksNum s) (cEvents s) (cBlocks s) v (cBlockState s) (cEpochState s) (epochDBs s) (epochStore s).
Definition set_cBlockState v (s : Store) := MkStore (BlockStateT s) (EpochStateT s) (Events s) (Blocks s) (PackInfos s) (Packs s) (PacksNum s) (cEvents s) (cBlocks s) (cPackInfos s) v (cEpochState s) (epochDBs s) (epochStore s).
Definition set_cEpochState v (s : Store) := MkStore (BlockStateT s) (EpochStateT s) (Events s) (Blocks s) (PackInfos s) (Packs s) (PacksNum s) (cEvents s) (cBlocks s) (cPackInfos s) (cBlockState s) v (epochDBs s) (epochStore s).
Definition set_epochDBs v (s : Store) := MkStore (BlockStateT s) (EpochStateT s) (Events s) (Blocks s) (PackInfos s) (Packs s) (PacksNum s) (cEvents s) (cBlocks s) (cPackInfos s) (cBlockState s) (cEpochState s) v (epochStore s).
Definition set_epochStore v (s : Store) := MkStore (BlockStateT s) (EpochStateT s) (Events s) (Blocks s) (PackInfos s) (Packs s) (PacksNum s) (cEvents s) (cBlocks s) (cPackInfos s) (cBlockState s) (cEpochState s) (epochDBs s) v.

(** ** store.go *)

Definition makeCache (A : Type) (size : Z) : option (lru A) :=
  if size <=? 0 then None else Some (lru_new A size).

(** A store over an empty database; the sizes are those of [StoreConfig]. *)
Definition NewStore (eventsCache blockCache packInfosCache : Z) : Store :=
  MkStore kv_empty kv_empty kv_empty kv_empty kv_empty kv_empty kv_empty
    (makeCache Event eventsCache) (makeCache Block blockCache) (makeCache PackInfo packInfosCache)
    None None ∅ None.

(** [if err != nil { s.Log.Crit(msg) }]. *)
Definition crit {A} (msg : string) (m : go A) : go A :=
  match m with Err _ => Exits msg | r => r end.

Definition set (t : tbl) (key : list Z) (val : go (list Z)) : go tbl :=
  buf ← crit "Failed to encode rlp" val;
  crit "Failed to put key-value" (kv_put t key buf).

Definition get {A} (t : tbl) (key : list Z) (decode : list Z -> go A) : go (option A) :=
  buf ← crit "Failed to get key-value" (kv_get t key);
  match buf with
  | None => Ret None
  | Some b => x ← crit "Failed to decode rlp" (decode b); Ret (Some x)
  end.

Definition has (t : tbl) (key : list Z) : go bool := crit "Failed to get key" (kv_has t key).

(** [for i := range keys { t.Delete(keys[i]) }]. *)
Fixpoint dropTable (keys : list (list Z)) (t : tbl) : go tbl :=
  match keys with
  | [] => Ret t
  | k :: keys => t ← crit "Failed to erase key-value" (kv_delete t k); dropTable keys t
  end.

Definition rmPrefix (t : tbl) (prefix : list Z) : go tbl := dropTable (fst (kv_scan t prefix [])).*1 t.

(** [rlp.DecodeBytes] fails when input is left over. *)
Definition decode_event (b : list Z) : go Event :=
  '(e, rest) ← DecodeRLP b;
  if bool_decide (rest = []) then Ret e else Err (Error "rlp: input contains more than one value").

Definition decode_with {A} `{Codec A} (b : list Z) : go A :=
  match dec b with Some x => Ret x | None => Err (Error "rlp: decode") end.

(** "Get from LRU cache first", otherwise load and "add to LRU cache". *)
Definition cached_get {A} (cache : option (lru A)) (key : list Z) (load : go (option A))
  : go (option A * option (lru A)) :=
  let '(hit, cache) := match cache with
                       | Some c => let '(v, c) := lru_get A c key in (v, Some c)
                       | None => (None, None)
                       end in
  match hit with
  | Some v => Ret (Some v, cache)
  | None =>
      w ← load;
      Ret (w, match w, cache with
              | Some v, Some c => Some (lru_add A c key v)
              | _, _ => cache
              end)
  end.

Definition cached_add {A} (cache : option (lru A)) (key : list Z) (v : A) : option (lru A) :=
  match cache with Some c => Some (lru_add A c key v) | None => None end.

(** ** store_event.go *)

Definition DelEvent (id : list Z) : ST unit :=
  t ← gets Events;
  t ← lift (crit "Failed to delete key" (kv_delete t id));
  _ ← modify (set_Events t);
  c ← gets cEvents;
  modify (set_cEvents match c with Some c => Some (lru_remove Event c id) | None => None end).

Definition SetEvent (e : Event) : ST unit :=
  let key := id (base e) in
  t ← gets Events;
  t ← lift (set t key (EncodeRLP e));
  _ ← modify (set_Events t);
  c ← gets cEvents;
  modify (set_cEvents (cached_add c key e)).

Definition GetEvent (id : list Z) : ST (option Event) :=
  t ← gets Events;
  c ← gets cEvents;
  '(w, c) ← lift (cached_get c id (get t id decode_event));
  _ ← modify (set_cEvents c);
  mret w.

(** The loop of [forEachEvent]; [onEvent] keeps a state and says whether to go on. *)
Fixpoint forEachEvent {S} (l : list (list Z * list Z)) (onEvent : S -> Event -> S * bool) (st : S) : go S :=
  match l with
  | [] => Ret st
  | (_, v) :: l =>
      e ← crit "Failed to decode event" (decode_event v);
      let '(st, go_on) := onEvent st e in
      if go_on : bool then forEachEvent l onEvent st else Ret st
  end.

Definition ForEachEpochEvent {S} (epoch : Z) (onEvent : S -> Event -> S * bool) (st : S) : ST S :=
  t ← gets Events; lift (forEachEvent (fst (kv_scan t (epoch_bytes epoch) [])) onEvent st).

Definition ForEachEvent {S} (start : Z) (onEvent : S -> Event -> S * bool) (st : S) : ST S :=
  t ← gets Events; lift (forEachEvent (fst (kv_scan t [] (epoch_bytes start))) onEvent st).

(** The loop of [ForEachEventRLP]: keys and stored bytes, not decoded. *)
Fixpoint forEachRLP {S} (l : list (list Z * list Z)) (onEvent : S -> list Z -> list Z -> S * bool) (st : S) : S :=
  match l with
  | [] => st
  | (k, v) :: l =>
      let '(st, go_on) := onEvent st (bytes_to_event k) v in
      if go_on : bool then forEachRLP l onEvent st else st
  end.

Definition ForEachEventRLP {S} (start : Z) (onEvent : S -> list Z -> list Z -> S * bool) (st : S) : ST S :=
  t ← gets Events; mret (forEachRLP (fst (kv_scan t [] (epoch_bytes start))) onEvent st).

Definition FindEventHashes (epoch lamport : Z) (hashPrefix : list Z) : ST (list (list Z)) :=
  t ← gets Events;
  let '(l, _) := kv_scan t (epoch_bytes epoch ++ lamport_bytes lamport ++ hashPrefix) [] in
  mret (bytes_to_event <$> l.*1).

Definition GetEventRLP (id : list Z) : ST (option (list Z)) :=
  t ← gets Events; lift (crit "Failed to get key-value" (kv_get t id)).

Definition HasEvent (h : list Z) : ST bool := t ← gets Events; lift (has t h).

(** ** store_block.go *)

Definition SetBlock (n : Z) (b : Block) : ST unit :=
  t ← gets Blocks;
  t ← lift (set t (block_bytes n) (Ret (enc b)));
  _ ← modify (set_Blocks t);
  c ← gets cBlocks;
  modify (set_cBlocks (cached_add c [n] b)).

Definition GetBlock (n : Z) : ST (option Block) :=
  t ← gets Blocks;
  c ← gets cBlocks;
  '(w, c) ← lift (cached_get c [n] (get t (block_bytes n) decode_with));
  _ ← modify (set_cBlocks c);
  mret w.

(** ** store_decided_state.go *)

Definition lbKey : list Z := [100].
Definition leKey : list Z := [101].

Definition SetBlockState (v : BlockState) : ST unit :=
  t ← gets BlockStateT;
  t ← lift (set t lbKey (Ret (enc v)));
  _ ← modify (set_BlockStateT t);
  modify (set_cBlockState (Some v)).

Definition GetBlockState : ST BlockState :=
  c ← gets cBlockState;
  match c with
  | Some v => mret v
  | None =>
      t ← gets BlockStateT;
      v ← lift (get t lbKey decode_with);
      match v with
      | None => lift (Exits "Genesis not applied")
      | Some v => _ ← modify (set_cBlockState (Some v)); mret v
      end
  end.

Definition SetEpochState (v : EpochState V) : ST unit :=
  t ← gets EpochStateT;
  t ← lift (set t leKey (Ret (enc v)));
  _ ← modify (set_EpochStateT t);
  modify (set_cEpochState (Some v)).

Definition GetEpochState : ST (EpochState V) :=
  c ← gets cEpochState;
  match c with
  | Some v => mret v
  | None =>
      t ← gets EpochStateT;
      v ← lift (get t leKey decode_with);
      match v with
      | None => lift (Exits "Genesis not applied")
      | Some v => _ ← modify (set_cEpochState (Some v)); mret v
      end
  end.

Definition GetEpoch : ST Z := s ← GetEpochState; mret (es_Epoch s).
Definition GetEpochValidators : ST (V * Z) := s ← GetEpochState; mret (es_Validators s, es_Epoch s).
Definition GetLatestBlockIndex : ST Z := s ← GetBlockState; mret (bs_Block s).
Definition GetEpochBlocks : ST Z := s ← GetBlockState; mret (EpochBlocks s).

(** ** store_epoch.go *)

Definition createEpochStore (epoch : Z) : ST unit :=
  modify (fun s => set_epochStore (Some epoch)
    (set_epochDBs (<[epoch := default (MkEpochTables kv_empty kv_empty) (epochDBs s !! epoch)]> (epochDBs s)) s)).

(** The database of the previous epoch is closed, and dropped unless closing it
    has failed ([closed] is [err == nil] of [db.Close()]). *)
Definition resetEpochStore (closed : bool) (newEpoch : Z) : ST unit :=
  oldEs ← gets epochStore;
  _ ← createEpochStore newEpoch;
  match oldEs with
  | None => mret tt
  | Some old => if closed then modify (fun s => set_epochDBs (delete old (epochDBs s)) s) else mret tt
  end.

Definition loadEpochStore (epoch : Z) : ST unit :=
  es ← gets epochStore;
  match es with Some _ => mret tt | None => createEpochStore epoch end.

(** The tables of the epoch in use; a dropped database reads as empty. *)
Definition getEpochStore : ST (option (Z * epochTables)) :=
  gets (fun s => e ← epochStore s;
                 Some (e, default (MkEpochTables kv_empty kv_empty) (epochDBs s !! e))).

Definition putEpochTables (e : Z) (t : epochTables) : ST unit :=
  modify (fun s => set_epochDBs (<[e := t]> (epochDBs s)) s).

(** ** store_heads.go *)

Definition DelHead (id : list Z) : ST unit :=
  es ← getEpochStore;
  match es with
  | None => mret tt
  | Some (e, es) =>
      t ← lift (crit "Failed to delete key" (kv_delete (HeadsT es) id));
      putEpochTables e (MkEpochTables (Tips es) t)
  end.

Definition AddHead (id : list Z) : ST unit :=
  es ← getEpochStore;
  match es with
  | None => mret tt
  | Some (e, es) =>
      t ← lift (crit "Failed to put key-value" (kv_put (HeadsT es) id []));
      putEpochTables e (MkEpochTables (Tips es) t)
  end.

Definition IsHead (id : list Z) : ST bool :=
  es ← getEpochStore;
  match es with
  | None => mret false
  | Some (_, es) => lift (crit "Failed to get key" (kv_has (HeadsT es) id))
  end.

Definition GetHeads : ST (list (list Z)) :=
  es ← getEpochStore;
  match es with
  | None => mret []
  | Some (_, es) =>
      let '(l, err) := kv_scan (HeadsT es) [] [] in
      match err with
      | Some _ => lift (Exits "Failed to iterate keys")
      | None => mret (bytes_to_event <$> l.*1)
      end
  end.

Definition SetLastEvent (from : Z) (id : list Z) : ST unit :=
  es ← getEpochStore;
  match es with
  | None => mret tt
  | Some (e, es) =>
      t ← lift (crit "Failed to put key-value" (kv_put (Tips es) (validator_bytes from) id));
      putEpochTables e (MkEpochTables t (HeadsT es))
  end.

Definition GetLastEvent (from : Z) : ST (option (list Z)) :=
  es ← getEpochStore;
  match es with
  | None => mret None
  | Some (_, es) =>
      b ← lift (crit "Failed to get key-value" (kv_get (Tips es) (validator_bytes from)));
      mret (bytes_to_event <$> b)
  end.

(** ** store_pack.go *)

Definition pack_key (epoch idx : Z) : list Z := epoch_bytes epoch ++ pack_bytes idx.

Definition GetPackInfo (epoch idx : Z) : ST (option PackInfo) :=
  let key := pack_key epoch idx in
  t ← gets PackInfos;
  c ← gets cPackInfos;
  '(w, c) ← lift (cached_get c key (get t key decode_with));
  _ ← modify (set_cPackInfos c);
  mret w.

Definition GetPackInfoOrDefault (epoch idx : Z) : ST PackInfo :=
  packInfo ← GetPackInfo epoch idx;
  match packInfo with
  | None => mret (MkPackInfo idx 0 0 [])
  | Some p => mret p
  end.

(** Errors are ignored: a failed read is an absent value. *)
Definition GetPackInfoRLP (epoch idx : Z) : ST (option (list Z)) :=
  t ← gets PackInfos;
  mret (match kv_get t (pack_key epoch idx) with Ret w => w | _ => None end).

Definition SetPackInfo (epoch idx : Z) (value : PackInfo) : ST unit :=
  let key := pack_key epoch idx in
  t ← gets PackInfos;
  t ← lift (set t key (Ret (enc value)));
  _ ← modify (set_PackInfos t);
  c ← gets cPackInfos;
  modify (set_cPackInfos (cached_add c key value)).

Definition AddToPack (epoch idx : Z) (e : list Z) : ST unit :=
  t ← gets Packs;
  t ← lift (crit "Failed to put key-value" (kv_put t (pack_key epoch idx ++ e) []));
  modify (set_Packs t).

(** [for it.Next() { if len(it.Key()) != .. { Crit }; res.Add(..) }]. *)
Fixpoint pack_ids (l : list (list Z)) : go (list (list Z)) :=
  match l with
  | [] => Ret []
  | k :: l =>
      if negb (zlen k =? epochSize + packSize + eventIDSize)
      then Exits "packs table: Incorrect key len"
      else res ← pack_ids l; Ret (bytes_to_event (drop 8 k) :: res)
  end.

Definition GetPack (epoch idx : Z) : ST (list (list Z)) :=
  t ← gets Packs;
  let '(l, err) := kv_scan t (pack_key epoch idx) [] in
  res ← lift (pack_ids l.*1);
  match err with
  | Some _ => lift (Exits "Failed to iterate keys")
  | None => mret res
  end.

Definition GetPacksNum (epoch : Z) : ST (option Z) :=
  t ← gets PacksNum;
  b ← lift (crit "Failed to get key-value" (kv_get t (epoch_bytes epoch)));
  mret (bytes_to_pack <$> b).

Definition GetPacksNumOrDefault (epoch : Z) : ST Z :=
  num ← GetPacksNum epoch;
  mret (default 1 num).

Definition SetPacksNum (epoch num : Z) : ST unit :=
  t ← gets PacksNum;
  t ← lift (crit "Failed to put key-value" (kv_put t (epoch_bytes epoch) (pack_bytes num)));
  modify (set_PacksNum t).

End Definitions.
Arguments Store V {_ _}.

End Store.
