(* ===== verification/StoreSpec.v ===== *)
(** * The store refines plain maps

    Abstract view of a store: what each table holds, decoded.  [store_ok] says
    that the tables hold only what the store writes and that every cache agrees
    with its table; every operation preserves it, and does to the view what its
    name says.  The statements use [wp]: the call returns, or the process ends
    because a table failed; over tables that do not fail it returns. *)

From Stdlib Require Import ZArith Lia Bool Sorted.
From stdpp Require Import base list numbers option strings gmap sorting.
From S2P Require Import Prelude Kv Sha256 Fast Event Serializer EventBuild Store.
Import Event Serializer EventBuild Store.
Local Open Scope Z_scope.

Module StoreSpec.

(** The events that the theorems about the store speak of: built, of version 0,
    with the parents in the event's epoch, and with the id, hash and size of their
    own canonical encoding ([coherent]).  [Build] makes such events, and so does
    the decoder from a canonical encoding; but it takes other encodings too, which
    no check refuses, and an event of such a one is not read back as it was stored
    ([ServiceSpec.Sample.noncanonical_event_changes]). *)
Record storable `{LachesisBase} (e : Event) : Prop := {
  st_fields : fields_ok (base e) (ext e);
  st_sizes : sizes_ok (base e) (ext e);
  st_parents : parents_in_epoch (base e);
  st_version : version (ext e) = 0;
  st_coherent : coherent e
}.

Section Spec.
Context {V : Type}.
Context {LB : LachesisBase} {LBL : LachesisBaseLaws LB} {LI : LachesisIdx} {LIL : LachesisIdxLaws LI}.
Context {R : Rlp} {RL : RlpLaws R} {K : Kv} {KL : KvLaws K} {L : Lru} {LL : LruLaws L}.
Context {CB : Codec Block} {CBL : CodecLaws Block} {CP : Codec PackInfo} {CPL : CodecLaws PackInfo}.
Context {CS : Codec BlockState} {CSL : CodecLaws BlockState}.
Context {CE : Codec (EpochState V)} {CEL : CodecLaws (EpochState V)}.
Abbreviation Store := (Store V).

(** ** Tables *)

Lemma crit_ok {A} msg (m : go A) Q : or_err kv_may_fail m Q -> or_exit (crit msg m) Q.
Proof. unfold or_err, crit, or_exit. by destruct m. Qed.

Lemma set_spec t key val b :
  val = Ret b -> or_exit (set t key val) (fun t' => kv_map t' = <[key := b]> (kv_map t)).
Proof. intros ->. unfold set. apply or_exit_bind. simpl. apply crit_ok, kv_put_ok. Qed.

Lemma get_spec {A} t key (decode : list Z -> go A) (f : option A) :
  match kv_map t !! key with None => f = None | Some b => exists x, decode b = Ret x /\ f = Some x end ->
  or_exit (get t key decode) (fun r => r = f).
Proof.
  intros Hf. unfold get. apply or_exit_bind. eapply or_exit_mono; [apply crit_ok, kv_get_ok|].
  simpl. intros r ->. destruct (kv_map t !! key) as [b|]; [|done].
  destruct Hf as (x & -> & ->). done.
Qed.

(** ** Caches *)

(** What a cache holds is what the table holds. *)
Definition agrees {A} (cache : option (lru A)) (f : list Z -> option A) : Prop :=
  match cache with
  | None => True
  | Some c => forall k v, lru_view A c !! k = Some v -> f k = Some v
  end.

Lemma cached_get_spec {A} (cache : option (lru A)) key load f :
  agrees cache f -> or_exit load (fun r => r = f key) ->
  or_exit (cached_get cache key load) (fun r => fst r = f key /\ agrees (snd r) f).
Proof.
  intros Ha Hl. unfold cached_get. destruct cache as [c|].
  - destruct (lru_get_ok A c key) as [Hg Hs]. destruct (lru_get A c key) as [hit c'] eqn:E. simpl in Hg, Hs.
    assert (Ha' : agrees (Some c') f) by (intros k v Hk; eapply Ha, lookup_weaken; eauto).
    destruct hit as [v|]; simpl.
    + split; [|done]. symmetry. by apply Ha.
    + apply or_exit_bind. eapply or_exit_mono; [exact Hl|]. intros w Hw. simpl. split; [done|].
      destruct w as [w|]; [|done]. intros k v Hk. eapply lookup_weaken in Hk; [|apply lru_add_ok].
      apply lookup_insert_Some in Hk as [[<- <-]|[_ Hk]]; [done|by apply Ha'].
  - apply or_exit_bind. eapply or_exit_mono; [exact Hl|]. intros w Hw. simpl. split; [done|]. by destruct w.
Qed.

Lemma cached_add_spec {A} (cache : option (lru A)) key v f g :
  agrees cache f -> g key = Some v -> (forall k, k <> key -> g k = f k) ->
  agrees (cached_add cache key v) g.
Proof.
  intros Ha Hv Hk. destruct cache as [c|]; [|done]. intros k x Hx. simpl in Hx.
  eapply lookup_weaken in Hx; [|apply lru_add_ok].
  apply lookup_insert_Some in Hx as [[<- <-]|[Hne Hx]]; [done|]. rewrite Hk by done. by apply Ha.
Qed.

(** ** The view *)

Definition event_at (s : Store) (i : list Z) : option Event :=
  match kv_map (Events s) !! i with
  | Some b => match decode_event b with Ret e => Some e | _ => None end
  | None => None
  end.

Definition decoded_at {A} `{Codec A} (t : tbl) (k : list Z) : option A := b ← kv_map t !! k; dec b.

Definition block_at (s : Store) (n : Z) : option Block := decoded_at (Blocks s) (block_bytes n).
(** The cache of blocks is keyed by the number itself. *)
Definition block_key_at (s : Store) (k : list Z) : option Block :=
  match k with [n] => if decide (is_uint 64 n) then block_at s n else None | _ => None end.
Definition pack_info_at (s : Store) (e i : Z) : option PackInfo := decoded_at (PackInfos s) (pack_key e i).
Definition block_state_at (s : Store) : option BlockState := decoded_at (BlockStateT s) lbKey.
Definition epoch_state_at (s : Store) : option (EpochState V) := decoded_at (EpochStateT s) leKey.
Definition in_pack (s : Store) (e i : Z) (id : list Z) : Prop :=
  is_Some (kv_map (Packs s) !! (pack_key e i ++ id)).

(** Every value of a table can be decoded. *)
Definition readable {A} `{Codec A} (t : tbl) : Prop :=
  forall k b, kv_map t !! k = Some b -> exists x : A, dec b = Some x.

Record store_ok (s : Store) : Prop := {
  ok_events : forall i b, kv_map (Events s) !! i = Some b -> exists e, decode_event b = Ret e;
  ok_cEvents : agrees (cEvents s) (event_at s);
  ok_blocks : readable (A := Block) (Blocks s);
  ok_cBlocks : agrees (cBlocks s) (block_key_at s);
  ok_packInfos : readable (A := PackInfo) (PackInfos s);
  ok_cPackInfos : agrees (cPackInfos s) (decoded_at (PackInfos s));
  ok_packs : forall k v, kv_map (Packs s) !! k = Some v -> length k = 40%nat;
  ok_blockState : readable (A := BlockState) (BlockStateT s);
  ok_cBlockState : forall v, cBlockState s = Some v -> block_state_at s = Some v;
  ok_epochState : readable (A := EpochState V) (EpochStateT s);
  ok_cEpochState : forall v, cEpochState s = Some v -> epoch_state_at s = Some v
}.

Lemma decode_encoded e : storable e -> exists w, EncodeRLP e = Ret w /\ decode_event w = Ret e.
Proof.
  intros [Hf Hs Hp Hv Hc]. destruct (DecodeRLP_encoded e [] Hf Hs Hp Hv Hc) as (w & E & D).
  exists w. split; [done|]. unfold decode_event. rewrite app_nil_r in D. by rewrite D.
Qed.

(** ** Events *)

Lemma event_at_get s i : store_ok s -> or_exit (get (Events s) i decode_event) (fun r => r = event_at s i).
Proof.
  intros Hok. apply get_spec. unfold event_at. destruct (kv_map (Events s) !! i) as [b|] eqn:E; [|done].
  destruct (ok_events s Hok i b E) as (e & He). exists e. by rewrite He.
Qed.

Lemma SetEvent_spec s e : store_ok s -> storable e ->
  wp (SetEvent e) (fun _ s' => store_ok s' /\
    (forall i, event_at s' i = if decide (i = id (base e)) then Some e else event_at s i) /\
    exists t c, s' = set_cEvents c (set_Events t s)) s.
Proof.
  intros Hok He. destruct (decode_encoded e He) as (w & Ew & Dw). unfold SetEvent. wp_run.
  eapply or_exit_mono; [by apply set_spec|]. intros t Ht; cbv beta in Ht. wp_run. cbn [cEvents set_Events].
  set (s' := set_cEvents _ _).
  assert (Hev : forall i, event_at s' i = if decide (i = id (base e)) then Some e else event_at s i).
  { intros i. unfold event_at. cbn [s' Events set_cEvents set_Events]. rewrite Ht. destruct (decide (i = id (base e))) as [->|Hne].
    - by rewrite lookup_insert_eq, Dw.
    - by rewrite lookup_insert_ne. }
  split_and!; [|done|subst s'; eauto]. destruct Hok. constructor; try done; cbn [s' Events set_cEvents set_Events cEvents].
  - intros i b. rewrite Ht, lookup_insert_Some. intros [[<- <-]|[_ Hb]]; eauto.
  - eapply cached_add_spec; [done|rewrite Hev; by rewrite decide_True|]. intros k Hk. rewrite Hev. by rewrite decide_False.
Qed.

Lemma DelEvent_spec s i0 : store_ok s ->
  wp (DelEvent i0) (fun _ s' => store_ok s' /\
    (forall i, event_at s' i = if decide (i = i0) then None else event_at s i) /\
    exists t c, s' = set_cEvents c (set_Events t s)) s.
Proof.
  intros Hok. unfold DelEvent. wp_run. eapply or_exit_mono; [apply crit_ok, kv_delete_ok|]. intros t Ht; cbv beta in Ht.
  wp_run. cbn [cEvents set_Events]. set (s' := set_cEvents _ _).
  assert (Hev : forall i, event_at s' i = if decide (i = i0) then None else event_at s i).
  { intros i. unfold event_at. cbn [s' Events set_cEvents set_Events]. rewrite Ht. destruct (decide (i = i0)) as [->|Hne].
    - by rewrite lookup_delete_eq.
    - by rewrite lookup_delete_ne. }
  split_and!; [|done|subst s'; eauto]. destruct Hok. constructor; try done; cbn [s' Events set_cEvents set_Events cEvents].
  - intros i b. rewrite Ht, lookup_delete_Some. intros [_ Hb]; eauto.
  - destruct (cEvents s) as [c|]; [|done]. intros k v Hk. eapply lookup_weaken in Hk; [|apply lru_remove_ok].
    apply lookup_delete_Some in Hk as [Hne Hk]. rewrite Hev. rewrite decide_False by done. by apply ok_cEvents0.
Qed.

Lemma GetEvent_spec s i : store_ok s ->
  wp (GetEvent i) (fun r s' => r = event_at s i /\ store_ok s' /\ exists c, s' = set_cEvents c s) s.
Proof.
  intros Hok. unfold GetEvent. wp_run.
  eapply or_exit_mono; [apply (cached_get_spec _ _ _ (event_at s))|].
  - apply Hok.
  - by apply event_at_get.
  - intros [w c] [Hw Hc]. wp_run. simpl in Hw, Hc. split_and!; [done| |eauto].
    destruct Hok. by constructor.
Qed.

Lemma HasEvent_spec s i : store_ok s ->
  wp (HasEvent i) (fun r s' => r = bool_decide (is_Some (event_at s i)) /\ s' = s) s.
Proof.
  intros Hok. unfold HasEvent, has. wp_run. eapply or_exit_mono; [apply crit_ok, kv_has_ok|].
  intros r ->. split; [|done]. apply bool_decide_ext. unfold event_at.
  destruct (kv_map (Events s) !! i) as [b|] eqn:E; [|split; intros [? ?]; discriminate].
  destruct (ok_events s Hok i b E) as (e & ->). split; eauto.
Qed.

(** ** Blocks and pack infos *)

Lemma get_decoded {A} `{CA : Codec A} t k :
  readable (A := A) t -> or_exit (get t k decode_with) (fun r => r = (decoded_at t k : option A)).
Proof.
  intros Hr. apply get_spec. unfold decoded_at. destruct (kv_map t !! k) as [b|] eqn:E; [|done].
  destruct (Hr k b E) as (x & Hx). exists x. unfold decode_with. simpl. rewrite Hx. done.
Qed.

Lemma readable_put {A} `{CA : CodecLaws A} (t t' : tbl) k x :
  readable (A := A) t -> kv_map t' = <[k := enc x]> (kv_map t) -> readable (A := A) t'.
Proof.
  intros Hr Ht j b. rewrite Ht, lookup_insert_Some. intros [[<- <-]|[_ Hb]]; [|eauto].
  exists x. apply dec_enc.
Qed.

Lemma decoded_put {A} `{CA : CodecLaws A} (t t' : tbl) k x j :
  kv_map t' = <[k := enc x]> (kv_map t) ->
  decoded_at t' j = if decide (j = k) then Some x else decoded_at t j.
Proof.
  intros Ht. unfold decoded_at. rewrite Ht. destruct (decide (j = k)) as [->|Hne].
  - rewrite lookup_insert_eq. apply dec_enc.
  - by rewrite lookup_insert_ne.
Qed.

Lemma SetBlock_spec s n b : store_ok s -> is_uint 64 n ->
  wp (SetBlock n b) (fun _ s' => store_ok s' /\
    (forall m, is_uint 64 m -> block_at s' m = if decide (m = n) then Some b else block_at s m) /\
    exists t c, s' = set_cBlocks c (set_Blocks t s)) s.
Proof.
  intros Hok Hn. unfold SetBlock. wp_run. eapply or_exit_mono; [by apply set_spec|]. intros t Ht; cbv beta in Ht. wp_run.
  cbn [cBlocks set_Blocks]. set (s' := set_cBlocks _ _).
  assert (Hb : forall m, is_uint 64 m -> block_at s' m = if decide (m = n) then Some b else block_at s m).
  { intros m Hm. unfold block_at. cbn [s' Blocks set_cBlocks set_Blocks]. rewrite (decoded_put _ _ _ _ _ Ht).
    destruct (decide (m = n)) as [->|Hne]; [by rewrite decide_True|]. rewrite decide_False; [done|].
    intros E. by apply Hne, block_bytes_inj. }
  split_and!; [|done|subst s'; eauto]. destruct Hok. constructor; try done; cbn [s' Blocks set_cBlocks set_Blocks cBlocks].
  - by eapply readable_put.
  - eapply cached_add_spec; [done| |].
    + unfold block_key_at. rewrite decide_True by done. rewrite Hb by done. by rewrite decide_True.
    + intros k Hk. unfold block_key_at. destruct k as [|m [|]]; try done. destruct (decide (is_uint 64 m)); [|done].
      rewrite Hb by done. rewrite decide_False; [done|]. congruence.
Qed.

Lemma GetBlock_spec s n : store_ok s -> is_uint 64 n ->
  wp (GetBlock n) (fun r s' => r = block_at s n /\ store_ok s' /\ exists c, s' = set_cBlocks c s) s.
Proof.
  intros Hok Hn. unfold GetBlock. wp_run.
  eapply or_exit_mono; [apply (cached_get_spec _ _ _ (block_key_at s))|].
  - apply Hok.
  - unfold block_key_at. rewrite decide_True by done. apply get_decoded, Hok.
  - intros [w c] [Hw Hc]. wp_run. simpl in Hw, Hc. rewrite decide_True in Hw by done.
    split_and!; [done| |eauto]. destruct Hok. by constructor.
Qed.

Lemma pack_key_inj e i e' i' :
  is_uint 32 e -> is_uint 32 i -> is_uint 32 e' -> is_uint 32 i' ->
  pack_key e i = pack_key e' i' -> e = e' /\ i = i'.
Proof.
  intros. unfold pack_key in *. destruct (app_inj_1 _ _ _ _ ltac:(by rewrite !epoch_bytes_length) H3) as [E1 E2].
  split; [by apply epoch_bytes_inj|by apply pack_bytes_inj].
Qed.

Lemma SetPackInfo_spec s e i v : store_ok s -> is_uint 32 e -> is_uint 32 i ->
  wp (SetPackInfo e i v) (fun _ s' => store_ok s' /\
    (forall e' i', is_uint 32 e' -> is_uint 32 i' ->
       pack_info_at s' e' i' = if decide (e' = e /\ i' = i) then Some v else pack_info_at s e' i') /\
    exists t c, s' = set_cPackInfos c (set_PackInfos t s)) s.
Proof.
  intros Hok He Hi. unfold SetPackInfo. wp_run. eapply or_exit_mono; [by apply set_spec|]. intros t Ht; cbv beta in Ht. wp_run.
  cbn [cPackInfos set_PackInfos]. set (s' := set_cPackInfos _ _). split_and!; [| |subst s'; eauto].
  - destruct Hok. constructor; try done; cbn [s' PackInfos set_cPackInfos set_PackInfos cPackInfos].
    + by eapply readable_put.
    + eapply cached_add_spec; [done| |]; [|intros k Hk]; rewrite (decoded_put _ _ _ _ _ Ht).
      * by rewrite decide_True.
      * by rewrite decide_False.
  - intros e' i' He' Hi'. unfold pack_info_at. cbn [s' PackInfos set_cPackInfos set_PackInfos].
    rewrite (decoded_put _ _ _ _ _ Ht). apply decide_ext. split; [|by intros [-> ->]]. intros E.
    by destruct (pack_key_inj e' i' e i He' Hi' He Hi E).
Qed.

Lemma GetPackInfo_spec s e i : store_ok s ->
  wp (GetPackInfo e i) (fun r s' => r = pack_info_at s e i /\ store_ok s' /\ exists c, s' = set_cPackInfos c s) s.
Proof.
  intros Hok. unfold GetPackInfo. wp_run.
  eapply or_exit_mono; [apply (cached_get_spec _ _ _ (decoded_at (PackInfos s)))|].
  - apply Hok.
  - apply get_decoded, Hok.
  - intros [w c] [Hw Hc]. wp_run. simpl in Hw, Hc. split_and!; [done| |eauto]. destruct Hok. by constructor.
Qed.

Lemma GetPackInfoOrDefault_spec s e i : store_ok s ->
  wp (GetPackInfoOrDefault e i) (fun r s' =>
    r = default (MkPackInfo i 0 0 []) (pack_info_at s e i) /\ store_ok s' /\ exists c, s' = set_cPackInfos c s) s.
Proof.
  intros Hok. unfold GetPackInfoOrDefault. wp_run. eapply wp_mono; [by apply GetPackInfo_spec|].
  intros r s' (-> & Hok' & Hs'). by destruct (pack_info_at s e i); wp_run.
Qed.

(** ** The latest states *)

Lemma SetBlockState_spec s v : store_ok s ->
  wp (SetBlockState v) (fun _ s' => store_ok s' /\ block_state_at s' = Some v /\
    exists t, s' = set_cBlockState (Some v) (set_BlockStateT t s)) s.
Proof.
  intros Hok. unfold SetBlockState. wp_run. eapply or_exit_mono; [by apply set_spec|]. intros t Ht; cbv beta in Ht. wp_run.
  assert (Hd : decoded_at t lbKey = Some v) by (rewrite (decoded_put _ _ _ _ _ Ht); by rewrite decide_True).
  split_and!; [|done|eauto]. destruct Hok. constructor; try done.
  - by eapply readable_put.
  - by intros v' [= <-].
Qed.

Lemma GetBlockState_spec s v : store_ok s -> block_state_at s = Some v ->
  wp GetBlockState (fun r s' => r = v /\ store_ok s' /\ exists c, s' = set_cBlockState c s) s.
Proof.
  intros Hok Hv. unfold GetBlockState. wp_run. destruct (cBlockState s) as [v'|] eqn:Ec; wp_run.
  - split_and!; [|done|exists (cBlockState s); by destruct s]. apply (ok_cBlockState s Hok) in Ec. congruence.
  - eapply or_exit_mono; [apply get_decoded, Hok|]. intros r ->. fold (block_state_at s). rewrite Hv. wp_run.
    split_and!; [done| |eauto]. destruct Hok. constructor; try done. by intros v' [= <-].
Qed.

Lemma SetEpochState_spec s v : store_ok s ->
  wp (SetEpochState v) (fun _ s' => store_ok s' /\ epoch_state_at s' = Some v /\
    exists t, s' = set_cEpochState (Some v) (set_EpochStateT t s)) s.
Proof.
  intros Hok. unfold SetEpochState. wp_run. eapply or_exit_mono; [by apply set_spec|]. intros t Ht; cbv beta in Ht. wp_run.
  assert (Hd : decoded_at t leKey = Some v) by (rewrite (decoded_put _ _ _ _ _ Ht); by rewrite decide_True).
  split_and!; [|done|eauto]. destruct Hok. constructor; try done.
  - by eapply readable_put.
  - by intros v' [= <-].
Qed.

Lemma GetEpochState_spec s v : store_ok s -> epoch_state_at s = Some v ->
  wp GetEpochState (fun r s' => r = v /\ store_ok s' /\ exists c, s' = set_cEpochState c s) s.
Proof.
  intros Hok Hv. unfold GetEpochState. wp_run. destruct (cEpochState s) as [v'|] eqn:Ec; wp_run.
  - split_and!; [|done|exists (cEpochState s); by destruct s]. apply (ok_cEpochState s Hok) in Ec. congruence.
  - eapply or_exit_mono; [apply get_decoded, Hok|]. intros r ->. fold (epoch_state_at s). rewrite Hv. wp_run.
    split_and!; [done| |eauto]. destruct Hok. constructor; try done. by intros v' [= <-].
Qed.

(** ** Packs *)

Lemma AddToPack_spec s e i x : store_ok s -> length x = 32%nat ->
  wp (AddToPack e i x) (fun _ s' => store_ok s' /\
    (exists t, s' = set_Packs t s /\ kv_map t = <[pack_key e i ++ x := []]> (kv_map (Packs s)))) s.
Proof.
  intros Hok Hx. unfold AddToPack. wp_run. eapply or_exit_mono; [apply crit_ok, kv_put_ok|]. intros t Ht; cbv beta in Ht. wp_run.
  split; [|eauto]. destruct Hok. constructor; try done. cbn [Packs set_Packs]. intros k v. rewrite Ht, lookup_insert_Some.
  intros [[<- <-]|[_ Hk]]; [|eauto]. unfold pack_key. rewrite !length_app, epoch_bytes_length, pack_bytes_length. lia.
Qed.

Lemma pack_ids_spec l : Forall (fun k => length k = 40%nat) l -> pack_ids l = Ret (drop 8 <$> l).
Proof.
  induction 1 as [|k l Hk _ IH]; [done|]. cbn [pack_ids fmap list_fmap].
  rewrite (proj2 (Z.eqb_eq _ _)) by (unfold zlen, epochSize, packSize, eventIDSize; lia). simpl.
  rewrite IH. simpl. rewrite bytes_to_event_id by (rewrite length_drop; lia). done.
Qed.

Lemma pack_key_length e i : length (pack_key e i) = 8%nat.
Proof. unfold pack_key. by rewrite length_app, epoch_bytes_length, pack_bytes_length. Qed.

Lemma GetPack_spec s e i : store_ok s ->
  wp (GetPack e i) (fun r s' => s' = s /\ NoDup r /\ StronglySorted bytes_le r /\
    forall x, x ∈ r <-> in_pack s e i x) s.
Proof.
  intros Hok. unfold GetPack. wp_run. pose proof (kv_scan_ok (Packs s) (pack_key e i) []) as Hscan.
  destruct (kv_scan _ _ _) as [l err]. destruct Hscan as (Hnd & Hsort & Hl & Hfail & Hcomp). wp_run.
  assert (Hk : Forall (fun k => exists x, k = pack_key e i ++ x /\ length x = 32%nat) l.*1).
  { apply Forall_fmap, Forall_forall. intros [k v] Hin. apply Hl in Hin as (Hm & [x ->] & _).
    exists x. split; [done|]. apply (ok_packs s Hok) in Hm. rewrite length_app, pack_key_length in Hm. lia. }
  assert (Hdrop : Forall (fun k => k = pack_key e i ++ drop 8 k) l.*1).
  { eapply Forall_impl; [exact Hk|]. intros k (x & -> & _). f_equal.
    by rewrite <- (pack_key_length e i), drop_app_length. }
  rewrite pack_ids_spec.
  2:{ eapply Forall_impl; [exact Hk|]. intros k (x & -> & Hx). rewrite length_app, pack_key_length. lia. }
  simpl. destruct err; wp_run; [by apply Hfail|]. specialize (Hcomp eq_refl). split_and!; [done| | |].
  - clear Hsort Hl Hcomp Hk. induction (l.*1) as [|k ks IH]; [constructor|]. inversion Hnd; subst. inversion Hdrop; subst.
    csimpl. constructor; [|by apply IH]. intros Hin. apply list_elem_of_fmap in Hin as (k' & E & Hk').
    rewrite Forall_forall in H4. specialize (H4 k' Hk'). congruence.
  - clear Hnd Hl Hcomp Hk. induction Hsort as [|k ks Hs IH Hf]; [constructor|]. inversion Hdrop; subst. csimpl.
    constructor; [by apply IH|]. apply Forall_fmap. rewrite Forall_forall in *. intros k' Hk'. simpl.
    specialize (Hf k' Hk'). rewrite H1, (H2 k' Hk') in Hf. revert Hf. unfold bytes_le. generalize (pack_key e i).
    intros p. induction p as [|z p IHp]; [done|]. simpl. by rewrite Z.ltb_irrefl.
  - intros x. unfold in_pack. rewrite list_elem_of_fmap. split.
    + intros (k & -> & Hin). rewrite Forall_forall in Hdrop. rewrite <- (Hdrop k Hin).
      apply list_elem_of_fmap in Hin as ([k' v] & -> & Hin). apply Hl in Hin as (Hm & _). simpl. rewrite Hm. eauto.
    + intros [v Hv]. exists (pack_key e i ++ x). split; [by rewrite <- (pack_key_length e i), drop_app_length|].
      apply list_elem_of_fmap. exists (pack_key e i ++ x, v). split; [done|]. apply Hcomp; [done|by exists x|].
      unfold bytes_le. by destruct (pack_key e i ++ x).
Qed.

(** ** Packs number *)

Definition packs_num_at (s : Store) (e : Z) : option Z :=
  bytes_to_pack <$> kv_map (PacksNum s) !! epoch_bytes e.

Lemma GetPacksNum_spec s e :
  wp (GetPacksNum e) (fun r s' => r = packs_num_at s e /\ s' = s) s.
Proof.
  unfold GetPacksNum. wp_run. eapply or_exit_mono; [apply crit_ok, kv_get_ok|]. intros r ->. wp_run. done.
Qed.

Lemma GetPacksNumOrDefault_spec s e :
  wp (GetPacksNumOrDefault e) (fun r s' => r = default 1 (packs_num_at s e) /\ s' = s) s.
Proof.
  unfold GetPacksNumOrDefault. wp_run. eapply wp_mono; [apply GetPacksNum_spec|].
  intros r s' [-> ->]. wp_run. done.
Qed.

Lemma SetPacksNum_spec s e n : store_ok s -> is_uint 32 e -> is_uint 32 n ->
  wp (SetPacksNum e n) (fun _ s' => store_ok s' /\
    (forall e', is_uint 32 e' -> packs_num_at s' e' = if decide (e' = e) then Some n else packs_num_at s e') /\
    exists t, s' = set_PacksNum t s) s.
Proof.
  intros Hok He Hn. unfold SetPacksNum. wp_run. eapply or_exit_mono; [apply crit_ok, kv_put_ok|].
  intros t Ht; cbv beta in Ht. wp_run. split_and!; [destruct Hok; by constructor| |eauto].
  intros e' He'. unfold packs_num_at. cbn [PacksNum set_PacksNum]. rewrite Ht.
  destruct (decide (e' = e)) as [->|Hne].
  - rewrite lookup_insert_eq. simpl. by rewrite bytes_to_pack_bytes.
  - rewrite lookup_insert_ne; [done|]. intros E. by apply Hne, eq_sym, epoch_bytes_inj.
Qed.

(** ** Clearing a table *)

Lemma dropTable_spec l t :
  or_exit (dropTable l t) (fun t' => forall k, kv_map t' !! k = if decide (k ∈ l) then None else kv_map t !! k).
Proof.
  revert t. induction l as [|x l IH]; intros t; cbn [dropTable].
  - intros k. by rewrite decide_False by apply not_elem_of_nil.
  - apply or_exit_bind. eapply or_exit_mono; [apply crit_ok, kv_delete_ok|]. intros t1 Ht1; cbv beta in Ht1.
    eapply or_exit_mono; [apply IH|]. intros t2 Ht2 k. cbv beta in Ht2. rewrite Ht2, Ht1.
    destruct (decide (k ∈ l)); [by rewrite decide_True by set_solver|].
    destruct (decide (k = x)) as [->|Hne]; [rewrite lookup_delete_eq, decide_True by set_solver; done|].
    rewrite lookup_delete_ne by done. rewrite decide_False; [done|]. rewrite elem_of_cons. tauto.
Qed.

(** Every key with the prefix is gone, and no other. *)
Lemma rmPrefix_spec t p :
  or_exit (rmPrefix t p) (fun t' => snd (kv_scan t p []) = None ->
    forall k, kv_map t' !! k = if decide (p `prefix_of` k) then None else kv_map t !! k).
Proof.
  unfold rmPrefix. pose proof (kv_scan_ok t p []) as Hscan. destruct (kv_scan t p []) as [l err].
  destruct Hscan as (_ & _ & Hl & _ & Hcomp). eapply or_exit_mono; [apply dropTable_spec|].
  intros t' Ht' Herr k. cbv beta in Ht'. simpl in *. rewrite Ht'. specialize (Hcomp Herr).
  destruct (decide (p `prefix_of` k)) as [Hp|Hp].
  - destruct (decide (k ∈ l.*1)) as [|Hk]; [done|]. destruct (kv_map t !! k) as [v|] eqn:E; [|done].
    exfalso. apply Hk, list_elem_of_fmap. exists (k, v). split; [done|]. apply Hcomp; [done..|].
    unfold bytes_le. by destruct k.
  - rewrite decide_False; [done|]. intros Hk. apply list_elem_of_fmap in Hk as ([k' v] & -> & Hk).
    apply Hl in Hk as (_ & ? & _). done.
Qed.

(** ** The database of the epoch *)

Definition cur_tables (s : Store) : option epochTables :=
  e ← epochStore s; Some (default (MkEpochTables kv_empty kv_empty) (epochDBs s !! e)).

Definition cur_heads (s : Store) : gmap (list Z) (list Z) :=
  match cur_tables s with Some t => kv_map (HeadsT t) | None => ∅ end.

Definition cur_tips (s : Store) : gmap (list Z) (list Z) :=
  match cur_tables s with Some t => kv_map (Tips t) | None => ∅ end.

(** A change inside the database of the epoch in use. *)
Definition in_epoch_db (s s' : Store) : Prop :=
  (store_ok s -> store_ok s') /\ epochStore s' = epochStore s /\ exists d, s' = set_epochDBs d s /\
  forall n, is_Some (d !! n) -> is_Some (epochDBs s !! n) \/ epochStore s = Some n.

Lemma putEpochTables_cur s e t : epochStore s = Some e ->
  let s' := set_epochDBs (<[e := t]> (epochDBs s)) s in
  in_epoch_db s s' /\ cur_tables s' = Some t.
Proof.
  intros He s'. split.
  - split_and!; [intros []; by constructor|done|]. eexists. split; [done|]. intros n.
    rewrite lookup_insert_is_Some. intros [<-|[_ ?]]; [by right|by left].
  - unfold cur_tables. cbn [s' epochStore set_epochDBs epochDBs]. rewrite He. simpl. by rewrite lookup_insert_eq.
Qed.

Lemma getEpochStore_spec s : wp getEpochStore (fun r s' => s' = s /\
  match r with
  | None => epochStore s = None
  | Some (e, t) => epochStore s = Some e /\ cur_tables s = Some t
  end) s.
Proof.
  unfold getEpochStore. wp_run. unfold cur_tables. destruct (epochStore s) eqn:E; simpl; done.
Qed.

Lemma DelHead_spec s x :
  wp (DelHead x) (fun _ s' => in_epoch_db s s' /\ cur_heads s' = delete x (cur_heads s) /\ cur_tips s' = cur_tips s) s.
Proof.
  unfold DelHead. wp_run. eapply wp_mono; [apply getEpochStore_spec|]. intros [[e t]|] s' [-> Hc]; wp_run.
  - destruct Hc as [He Ht]. eapply or_exit_mono; [apply crit_ok, kv_delete_ok|]. intros t' Ht'; cbv beta in Ht'.
    unfold putEpochTables. wp_run. destruct (putEpochTables_cur s e (MkEpochTables (Tips t) t') He) as [Hi Hc].
    split; [done|]. unfold cur_heads, cur_tips. rewrite Hc, Ht. done.
  - split_and!; [split_and!; [done|done|exists (epochDBs s); split; [by destruct s|by left]]| |done].
    unfold cur_heads, cur_tables. rewrite Hc. simpl. by rewrite delete_empty.
Qed.

Lemma AddHead_spec s x :
  wp (AddHead x) (fun _ s' => in_epoch_db s s' /\
    cur_heads s' = (if decide (is_Some (epochStore s)) then <[x := []]> (cur_heads s) else ∅) /\
    cur_tips s' = cur_tips s) s.
Proof.
  unfold AddHead. wp_run. eapply wp_mono; [apply getEpochStore_spec|]. intros [[e t]|] s' [-> Hc]; wp_run.
  - destruct Hc as [He Ht]. eapply or_exit_mono; [apply crit_ok, kv_put_ok|]. intros t' Ht'; cbv beta in Ht'.
    unfold putEpochTables. wp_run. destruct (putEpochTables_cur s e (MkEpochTables (Tips t) t') He) as [Hi Hc].
    split; [done|]. rewrite decide_True by eauto. unfold cur_heads, cur_tips. rewrite Hc, Ht. done.
  - split_and!; [split_and!; [done|done|exists (epochDBs s); split; [by destruct s|by left]]| |done].
    rewrite decide_False by (rewrite Hc; by intros [? ?]).
    unfold cur_heads, cur_tables. by rewrite Hc.
Qed.

Lemma SetLastEvent_spec s v x :
  wp (SetLastEvent v x) (fun _ s' => in_epoch_db s s' /\ cur_heads s' = cur_heads s /\
    cur_tips s' = (if decide (is_Some (epochStore s)) then <[validator_bytes v := x]> (cur_tips s) else ∅)) s.
Proof.
  unfold SetLastEvent. wp_run. eapply wp_mono; [apply getEpochStore_spec|]. intros [[e t]|] s' [-> Hc]; wp_run.
  - destruct Hc as [He Ht]. eapply or_exit_mono; [apply crit_ok, kv_put_ok|]. intros t' Ht'; cbv beta in Ht'.
    unfold putEpochTables. wp_run. destruct (putEpochTables_cur s e (MkEpochTables t' (HeadsT t)) He) as [Hi Hc].
    split; [done|]. rewrite decide_True by eauto. unfold cur_heads, cur_tips. rewrite Hc, Ht. done.
  - split_and!; [split_and!; [done|done|exists (epochDBs s); split; [by destruct s|by left]]|done|].
    rewrite decide_False by (rewrite Hc; by intros [? ?]).
    unfold cur_tips, cur_tables. by rewrite Hc.
Qed.

Lemma GetLastEvent_spec s v :
  wp (GetLastEvent v) (fun r s' => s' = s /\ r = bytes_to_event <$> cur_tips s !! validator_bytes v) s.
Proof.
  unfold GetLastEvent. wp_run. eapply wp_mono; [apply getEpochStore_spec|]. intros [[e t]|] s' [-> Hc]; wp_run.
  - destruct Hc as [_ Ht]. eapply or_exit_mono; [apply crit_ok, kv_get_ok|]. intros r ->. wp_run.
    split; [done|]. unfold cur_tips. by rewrite Ht.
  - split; [done|]. unfold cur_tips, cur_tables. rewrite Hc. simpl. by rewrite lookup_empty.
Qed.

Lemma GetHeads_spec s :
  (forall k, is_Some (cur_heads s !! k) -> length k = 32%nat) ->
  wp GetHeads (fun r s' => s' = s /\ NoDup r /\ forall x, x ∈ r <-> is_Some (cur_heads s !! x)) s.
Proof.
  intros Hk. unfold GetHeads. wp_run. eapply wp_mono; [apply getEpochStore_spec|]. intros [[e t]|] s' [-> Hc]; wp_run.
  - destruct Hc as [_ Ht]. pose proof (kv_scan_ok (HeadsT t) [] []) as Hscan.
    destruct (kv_scan _ _ _) as [l err]. destruct Hscan as (Hnd & _ & Hl & Hfail & Hcomp).
    destruct err; wp_run; [by apply Hfail|]. specialize (Hcomp eq_refl).
    assert (Hm : kv_map (HeadsT t) = cur_heads s) by (unfold cur_heads; by rewrite Ht).
    assert (Hin : forall x, x ∈ l.*1 <-> is_Some (cur_heads s !! x)).
    { intros x. rewrite list_elem_of_fmap, <- Hm. split.
      - intros ([k v] & -> & Hin). apply Hl in Hin as (E & _). simpl. eauto.
      - intros [v Hv]. exists (x, v). split; [done|]. apply Hcomp; [done|apply prefix_nil|].
        unfold bytes_le. by destruct x. }
    assert (Hmap : bytes_to_event <$> l.*1 = l.*1).
    { rewrite <- (list_fmap_id l.*1) at 2. apply list_fmap_ext. intros i x Hx. apply bytes_to_event_id, Hk, Hin.
      by eapply list_elem_of_lookup_2. }
    rewrite Hmap. done.
  - split_and!; [done|constructor|]. intros x. unfold cur_heads, cur_tables. rewrite Hc. simpl.
    rewrite lookup_empty. split; [intros Hx; by apply elem_of_nil in Hx|by intros [? ?]].
Qed.

(** Another epoch is opened, the database of the previous one is dropped. *)
Lemma resetEpochStore_spec s n closed :
  epochStore s <> Some n -> epochDBs s !! n = None ->
  wp (resetEpochStore closed n) (fun _ s' => (store_ok s -> store_ok s') /\ epochStore s' = Some n /\
    cur_heads s' = ∅ /\ cur_tips s' = ∅ /\ exists d, s' = set_epochDBs d (set_epochStore (Some n) s) /\
      forall m, is_Some (d !! m) -> is_Some (epochDBs s !! m) \/ m = n) s.
Proof.
  intros Hne Hn. unfold resetEpochStore, createEpochStore. wp_run.
  destruct (epochStore s) as [old|] eqn:Eo; [destruct closed|]; wp_run; cbn [epochDBs set_epochDBs set_epochStore].
  - set (d := delete old _). assert (Hd : d !! n = Some (MkEpochTables kv_empty kv_empty)).
    { unfold d. rewrite lookup_delete_ne by congruence. rewrite lookup_insert_eq, Hn. done. }
    split_and!; [intros []; by constructor|done| | |exists d; split; [done|]; intros m; unfold d;
      rewrite ?lookup_delete_is_Some, lookup_insert_is_Some; intuition auto]; unfold cur_heads, cur_tips, cur_tables;
      simpl; rewrite Hd; apply kv_empty_map.
  - set (d := <[n := _]> (epochDBs s)). assert (Hd : d !! n = Some (MkEpochTables kv_empty kv_empty)).
    { unfold d. rewrite lookup_insert_eq, Hn. done. }
    split_and!; [intros []; by constructor|done| | |exists d; split; [done|]; intros m; unfold d;
      rewrite ?lookup_delete_is_Some, lookup_insert_is_Some; intuition auto]; unfold cur_heads, cur_tips, cur_tables;
      simpl; rewrite Hd; apply kv_empty_map.
  - set (d := <[n := _]> (epochDBs s)). assert (Hd : d !! n = Some (MkEpochTables kv_empty kv_empty)).
    { unfold d. rewrite lookup_insert_eq, Hn. done. }
    split_and!; [intros []; by constructor|done| | |exists d; split; [done|]; intros m; unfold d;
      rewrite ?lookup_delete_is_Some, lookup_insert_is_Some; intuition auto]; unfold cur_heads, cur_tips, cur_tables;
      simpl; rewrite Hd; apply kv_empty_map.
Qed.

Lemma agrees_new {A} n (f : list Z -> option A) : agrees (makeCache A n) f.
Proof.
  unfold makeCache. destruct (n <=? 0); [done|]. intros k v. by rewrite lru_new_view, lookup_empty.
Qed.

Lemma NewStore_ok a b c : store_ok (NewStore a b c).
Proof.
  constructor; cbn [NewStore Events Blocks PackInfos Packs BlockStateT EpochStateT cEvents cBlocks cPackInfos cBlockState cEpochState];
    try apply agrees_new; try done; intros ? ?; rewrite ?kv_empty_map, ?lookup_empty; done.
Qed.

Lemma NewStore_empty a b c n i : block_at (NewStore a b c) n = None /\ event_at (NewStore a b c) i = None.
Proof.
  unfold block_at, decoded_at, event_at. cbn [NewStore Blocks Events]. rewrite kv_empty_map, !lookup_empty. done.
Qed.

(** ** Properties *)

(** C9: the event store is a map from ids to events, whatever the cache holds or
    has evicted: [SetEvent] binds the event's id, [DelEvent] unbinds an id,
    [GetEvent] and [HasEvent] read the binding.  What is read is the event that
    was stored, through its encoding when the cache has lost it.  The event is
    [storable]: its id, hash and size are those of its canonical encoding.  (An
    event decoded from another encoding is read back as a different one.) *)
Theorem events_refine (s : Store) (e : Event) (i : list Z) :
  store_ok s -> storable e ->
  wp (SetEvent e) (fun _ s' => store_ok s' /\
    forall j, event_at s' j = if decide (j = id (base e)) then Some e else event_at s j) s /\
  wp (DelEvent i) (fun _ s' => store_ok s' /\
    forall j, event_at s' j = if decide (j = i) then None else event_at s j) s /\
  wp (GetEvent i) (fun r s' => r = event_at s i /\ store_ok s' /\ forall j, event_at s' j = event_at s j) s /\
  wp (HasEvent i) (fun r s' => r = bool_decide (is_Some (event_at s i)) /\ s' = s) s.
Proof.
  intros Hok He. split_and!; [| | |by apply HasEvent_spec].
  - eapply wp_mono; [by apply SetEvent_spec|]. intros _ s' (? & ? & _). done.
  - eapply wp_mono; [by apply DelEvent_spec|]. intros _ s' (? & ? & _). done.
  - eapply wp_mono; [by apply GetEvent_spec|]. intros r s' (-> & Hok' & c & ->). done.
Qed.

(** Blocks, pack infos and the latest states are read back as last written,
    through their caches, and writing one leaves the others alone. *)
Theorem tables_refine (s : Store) (n e i : Z) (b : Block) (p : PackInfo) (bs : BlockState) (es : EpochState V) :
  store_ok s -> is_uint 64 n -> is_uint 32 e -> is_uint 32 i ->
  wp (SetBlock n b) (fun _ s' => store_ok s' /\
    forall m, is_uint 64 m -> block_at s' m = if decide (m = n) then Some b else block_at s m) s /\
  wp (GetBlock n) (fun r s' => r = block_at s n /\ store_ok s' /\ forall m, block_at s' m = block_at s m) s /\
  wp (SetPackInfo e i p) (fun _ s' => store_ok s' /\
    forall e' i', is_uint 32 e' -> is_uint 32 i' ->
      pack_info_at s' e' i' = if decide (e' = e /\ i' = i) then Some p else pack_info_at s e' i') s /\
  wp (GetPackInfo e i) (fun r s' => r = pack_info_at s e i /\ store_ok s' /\
    forall e' i', pack_info_at s' e' i' = pack_info_at s e' i') s /\
  wp (_ ← SetBlockState bs; GetBlockState) (fun r s' => r = bs /\ store_ok s' /\ epoch_state_at s' = epoch_state_at s) s /\
  wp (_ ← SetEpochState es; GetEpochState) (fun r s' => r = es /\ store_ok s' /\ block_state_at s' = block_state_at s) s.
Proof.
  intros Hok Hn He Hi. split_and!.
  - eapply wp_mono; [by apply SetBlock_spec|]. intros _ s' (? & ? & _). done.
  - eapply wp_mono; [by apply GetBlock_spec|]. intros r s' (-> & Hok' & c & ->). done.
  - eapply wp_mono; [by apply SetPackInfo_spec|]. intros _ s' (? & ? & _). done.
  - eapply wp_mono; [by apply GetPackInfo_spec|]. intros r s' (-> & Hok' & c & ->). done.
  - wp_run. eapply wp_mono; [by apply SetBlockState_spec|]. intros _ s' (Hok' & Hv & t & ->).
    eapply wp_mono; [by apply GetBlockState_spec|]. intros r s' (-> & Hok2 & c & ->). done.
  - wp_run. eapply wp_mono; [by apply SetEpochState_spec|]. intros _ s' (Hok' & Hv & t & ->).
    eapply wp_mono; [by apply GetEpochState_spec|]. intros r s' (-> & Hok2 & c & ->). done.
Qed.

(** A pack is the set of ids added to it: after [AddToPack] the pack lists
    exactly the new id and the earlier ones, each once and in order, and every
    other pack lists what it did; no key of the table has a wrong length. *)
Theorem packs_refine (s : Store) (e i e' i' : Z) (x : list Z) :
  store_ok s -> is_uint 32 e -> is_uint 32 i -> is_uint 32 e' -> is_uint 32 i' -> length x = 32%nat ->
  wp (_ ← AddToPack e i x; GetPack e' i') (fun r s' => store_ok s' /\ NoDup r /\ StronglySorted bytes_le r /\
    forall y, y ∈ r <-> in_pack s e' i' y \/ (e' = e /\ i' = i /\ y = x)) s.
Proof.
  intros Hok He Hi He' Hi' Hx. wp_run. eapply wp_mono; [by apply AddToPack_spec|].
  intros _ s' (Hok' & t & -> & Ht). eapply wp_mono; [by apply GetPack_spec|].
  intros r s'' (-> & Hnd & Hs & Hr). split_and!; [done|done|done|]. intros y. rewrite Hr. unfold in_pack.
  cbn [Packs set_Packs]. rewrite Ht. destruct (decide (pack_key e i ++ x = pack_key e' i' ++ y)) as [E|Hne].
  - rewrite E, lookup_insert_eq. apply app_inj_1 in E as [E1 ->]; [|by rewrite !pack_key_length].
    apply pack_key_inj in E1 as [-> ->]; [|done..]. split; [by right|eauto].
  - rewrite lookup_insert_ne by done. split; [by left|]. intros [?|(-> & -> & ->)]; done.
Qed.

(** Searching by epoch, Lamport time and a prefix of the hash returns only
    ids of stored events with that prefix, each once, and all of them unless the
    iterator failed. *)
Theorem find_event_hashes (s : Store) (epoch lamport : Z) (hp : list Z) :
  store_ok s -> (forall i, is_Some (event_at s i) -> length i = 32%nat) ->
  let prefix := epoch_bytes epoch ++ lamport_bytes lamport ++ hp in
  wp (FindEventHashes epoch lamport hp) (fun r s' => s' = s /\ NoDup r /\
    (forall i, i ∈ r -> is_Some (event_at s i) /\ prefix `prefix_of` i) /\
    (snd (kv_scan (Events s) prefix []) = None ->
     forall i, is_Some (event_at s i) -> prefix `prefix_of` i -> i ∈ r)) s.
Proof.
  intros Hok Hlen prefix. unfold FindEventHashes. wp_run. fold prefix.
  pose proof (kv_scan_ok (Events s) prefix []) as Hs.
  destruct (kv_scan _ _ _) as [l err]. destruct Hs as (Hnd & _ & Hl & Hfail & Hcomp). wp_run.
  assert (Hev : forall k, is_Some (kv_map (Events s) !! k) <-> is_Some (event_at s k)).
  { intros k. unfold event_at. destruct (kv_map (Events s) !! k) as [b|] eqn:E; [|split; intros [? ?]; discriminate].
    destruct (ok_events s Hok k b E) as (e & ->). split; eauto. }
  assert (Hin : forall i, i ∈ l.*1 -> is_Some (event_at s i) /\ prefix `prefix_of` i).
  { intros i. rewrite <- Hev, list_elem_of_fmap. intros ([k v] & -> & Hin). apply Hl in Hin as (E & Hp & _). eauto. }
  assert (Hmap : bytes_to_event <$> l.*1 = l.*1).
  { rewrite <- (list_fmap_id l.*1) at 2. apply list_fmap_ext. intros j x Hx. apply bytes_to_event_id, Hlen, Hin.
    by eapply list_elem_of_lookup_2. }
  rewrite Hmap. split_and!; [done|done|done|]. intros He i Hi Hp. apply Hev in Hi as [v Hv].
  apply list_elem_of_fmap. exists (i, v). split; [done|]. apply Hcomp; [done|done|done|]. unfold bytes_le. by destruct i.
Qed.

End Spec.

(** ** An instance of every interface *)

Definition lachesis_idx_be : LachesisIdx := {|
  block_bytes := le_bytes;
  pack_bytes := Sha256.be32;
  validator_bytes := Sha256.be32;
  bytes_to_pack b := match b with
                     | [a; b; c; d] => a * 2 ^ 24 + b * 2 ^ 16 + c * 2 ^ 8 + d
                     | _ => 0
                     end;
  bytes_to_event b := b
|}.

Lemma lachesis_idx_be_laws : LachesisIdxLaws lachesis_idx_be.
Proof.
  split; try done; try exact be32_inj.
  - intros a b Ha Hb E. rewrite <- (le_val_le_bytes a Ha), <- (le_val_le_bytes b Hb). simpl in E. by rewrite E.
  - intros n Hn. unfold bytes_to_pack, pack_bytes, lachesis_idx_be, Sha256.be32, u8, is_uint in *.
    rewrite !Z.shiftr_div_pow2 by lia. dlia.
Qed.

#[export] Instance Block_eq_dec : EqDecision Block.
Proof. solve_decision. Defined.
#[export] Instance Block_countable : Countable Block.
Proof.
  apply (inj_countable' (fun b => (blk_time b, atropos b, blk_events b)) (fun x => MkBlock x.1.1 x.1.2 x.2)).
  by intros [].
Defined.

#[export] Instance PackInfo_eq_dec : EqDecision PackInfo.
Proof. solve_decision. Defined.
#[export] Instance PackInfo_countable : Countable PackInfo.
Proof.
  apply (inj_countable' (fun p => (Index p, pi_Size p, NumOfEvents p, Heads p))
           (fun x => MkPackInfo x.1.1.1 x.1.1.2 x.1.2 x.2)). by intros [].
Defined.

#[export] Instance BlockState_eq_dec : EqDecision BlockState.
Proof. solve_decision. Defined.
#[export] Instance BlockState_countable : Countable BlockState.
Proof.
  apply (inj_countable' (fun b => (bs_Block b, EpochBlocks b)) (fun x => MkBlockState x.1 x.2)). by intros [].
Defined.

#[export] Instance EpochState_eq_dec {V} `{EqDecision V} : EqDecision (EpochState V).
Proof. solve_decision. Defined.
#[export] Instance EpochState_countable {V} `{Countable V} : Countable (EpochState V).
Proof.
  apply (inj_countable' (fun e => (es_Epoch e, es_Validators e)) (fun x => MkEpochState x.1 x.2)). by intros [].
Defined.

(** ** Concrete stores *)

Module Sample.
#[local] Existing Instance lachesis_be.
#[local] Existing Instance lachesis_be_laws.
#[local] Existing Instance lachesis_idx_be.
#[local] Existing Instance lachesis_idx_be_laws.
#[local] Existing Instance rlp_length_prefix.
#[local] Existing Instance rlp_length_prefix_laws.
#[local] Existing Instance kv_gmap.
#[local] Existing Instance kv_gmap_laws.
#[local] Existing Instance lru_gmap.
#[local] Existing Instance lru_gmap_laws.
#[local] Existing Instance codec_countable.
#[local] Existing Instance codec_countable_laws.

(** A store without an event cache; the validators are a number. *)
Definition empty_store : Store.Store Z := NewStore 0 10 10.

Lemma sample_storable : storable sample_built.
Proof.
  constructor; [constructor; by_decide|vm_compute; split; reflexivity|unfold parents_in_epoch; by_decide
    |reflexivity|exact sample_built_coherent].
Qed.

Definition sample_id : list Z := replicate 32 1.

Lemma events_refine_witness :
  wp (SetEvent sample_built) (fun _ s' => store_ok s' /\
    forall j, event_at s' j = if decide (j = id (base sample_built)) then Some sample_built else event_at empty_store j)
    empty_store /\
  wp (DelEvent sample_id) (fun _ s' => store_ok s' /\
    forall j, event_at s' j = if decide (j = sample_id) then None else event_at empty_store j) empty_store /\
  wp (GetEvent sample_id) (fun r s' => r = event_at empty_store sample_id /\ store_ok s' /\
    forall j, event_at s' j = event_at empty_store j) empty_store /\
  wp (HasEvent sample_id) (fun r s' => r = bool_decide (is_Some (event_at empty_store sample_id)) /\ s' = empty_store) empty_store.
Proof.
  apply (events_refine empty_store sample_built sample_id).
  - apply NewStore_ok.
  - exact sample_storable.
Defined.

Lemma tables_refine_witness : exists s',
  SetBlock 7 (MkBlock 1 [2] [[2]]) empty_store = Ret (tt, s') /\
  store_ok s' /\ block_at s' 7 = Some (MkBlock 1 [2] [[2]]).
Proof.
  pose proof (tables_refine empty_store 7 3 1 (MkBlock 1 [2] [[2]]) (MkPackInfo 1 0 0 [])
                (MkBlockState 0 0) (MkEpochState 3 0) (NewStore_ok 0 10 10) ltac:(by_decide) ltac:(by_decide) ltac:(by_decide)) as [H _].
  eexists. split; [reflexivity|]. destruct H as [Hok Hb]. split; [exact Hok|]. exact (Hb 7 ltac:(by_decide)).
Defined.

Lemma packs_refine_witness :
  wp (_ ← AddToPack 3 1 (replicate 32 9); GetPack 3 1) (fun r s' => store_ok s' /\ NoDup r /\
    StronglySorted bytes_le r /\
    forall y, y ∈ r <-> in_pack empty_store 3 1 y \/ (3 = 3 /\ 1 = 1 /\ y = replicate 32 9)) empty_store.
Proof.
  apply (packs_refine empty_store 3 1 3 1 (replicate 32 9)).
  - apply NewStore_ok.
  - by_decide.
  - by_decide.
  - by_decide.
  - by_decide.
  - reflexivity.
Defined.

Lemma find_event_hashes_witness :
  let prefix := epoch_bytes 3 ++ lamport_bytes 5 ++ [1] in
  wp (FindEventHashes 3 5 [1]) (fun r s' => s' = empty_store /\ NoDup r /\
    (forall i, i ∈ r -> is_Some (event_at empty_store i) /\ prefix `prefix_of` i) /\
    (snd (kv_scan (Events empty_store) prefix []) = None ->
     forall i, is_Some (event_at empty_store i) -> prefix `prefix_of` i -> i ∈ r)) empty_store.
Proof.
  apply (find_event_hashes empty_store 3 5 [1]).
  - apply NewStore_ok.
  - intros i [e He]. exfalso. unfold empty_store in He.
    rewrite (proj2 (NewStore_empty 0 10 10 0 i)) in He. discriminate.
Defined.

End Sample.

End StoreSpec.
