(* ===== verification/Genesis.v ===== *)
(** * miniopera and gossip/apply_genesis.go: the network's genesis

    The configuration of a network, the digest of its validators and the first
    state of a store.  The digest is taken of a byte string that determines the
    validators (when their public keys have one length); applying the genesis
    writes the first block and the first states once, and refuses a store that
    holds another genesis. *)

From Stdlib Require Import ZArith Lia Bool.
From stdpp Require Import base list numbers option strings gmap.
From S2P Require Import Prelude Kv Sha256 Fast Event Serializer EventBuild Store StoreSpec.
Import Event Serializer EventBuild Store StoreSpec.
Local Open Scope Z_scope.

(** The builder of validator groups of lachesis-base ([pos.BigBuilder]), and
    [abft.FirstEpoch]. *)
Class PosBuilder (V : Type) := {
  big_builder : Type;
  new_big_builder : big_builder;
  builder_set : big_builder -> Z -> Z -> big_builder;
  builder_build : big_builder -> V;
  first_epoch : Z
}.

Class PosBuilderLaws (V : Type) `{PosBuilder V} : Prop := { first_epoch_ok : is_uint 32 first_epoch }.

Module Genesis.

(** ** miniopera/genesis/validators.go *)

Record Validator := MkValidator { ID : Z; PubKey : list Z; Stake : Z }.

Abbreviation Validators := (list Validator) (only parsing).

(** [big.Int.Bytes]: the absolute value, big-endian, without leading zeros. *)
Definition big_len (n : Z) : nat := if n =? 0 then 0 else Z.to_nat (Z.log2 (Z.abs n) / 8 + 1).
Definition big_bytes (n : Z) : list Z :=
  rev ((fun i => u8 (Z.shiftr (Z.abs n) (8 * Z.of_nat i))) <$> List.seq 0 (big_len n)).

Definition TotalStake (gv : Validators) : Z := foldl (fun t v => t + Stake v) 0 gv.

Definition Map (gv : Validators) : gmap Z Validator := foldl (fun m v => <[ID v := v]> m) ∅ gv.

Definition PubKeys (gv : Validators) : list (list Z) := foldl (fun res v => res ++ [PubKey v]) [] gv.

(** What [Hash] writes to the hasher for one validator. *)
Definition hash_input `{LachesisIdx} (v : Validator) : list Z :=
  validator_bytes (ID v) ++ PubKey v ++ [u8 (zlen (big_bytes (Stake v)))] ++ big_bytes (Stake v).

Definition hash_bytes `{LachesisIdx} (gv : Validators) : list Z :=
  foldl (fun w v => w ++ hash_input v) [] gv.

Definition Validators_Hash `{LachesisIdx} (gv : Validators) : list Z := Sha256.sum256 (hash_bytes gv).

Definition Validators_Build {V} `{PosBuilder V} (gv : Validators) : V :=
  builder_build (foldl (fun b v => builder_set b (ID v) (Stake v)) new_big_builder gv).

(** ** miniopera/genesis/fake.go: [fake_pubkey i] is the public key of [FakeKey(i)]. *)
Definition FakeValidators (fake_pubkey : Z -> list Z) (count stake : Z) : Validators :=
  (fun i => MkValidator (u32 i) (fake_pubkey i) stake) <$> seqZ 1 count.

(** ** miniopera/genesis/genesis.go, miniopera/config.go *)

Record Genesis := MkGenesis { gen_Validators : Validators; gen_Time : Z; ExtraData : list Z }.

Definition genesisTime : Z := 1597727000 * second.

Definition FakeGenesis (accs : Validators) : Genesis :=
  MkGenesis accs genesisTime (* experimental miniopera *)
    [101; 120; 112; 101; 114; 105; 109; 101; 110; 116; 97; 108; 32; 109; 105; 110; 105; 111; 112; 101; 114; 97].

Record DagConfig := MkDagConfig { MaxParents : Z; MaxFreeParents : Z; MaxEpochBlocks : Z }.
Record NetConfig := MkNetConfig { Name : string; NetworkID : Z; net_Genesis : Genesis; Dag : DagConfig }.

Definition FakeNetworkID : Z := 0xefa3.
Definition DefaultDagConfig : DagConfig := MkDagConfig 10 3 1000.
Definition FakeNetDagConfig : DagConfig := DefaultDagConfig.
Definition FakeNetConfig (accs : Validators) : NetConfig :=
  MkNetConfig "fake" FakeNetworkID (FakeGenesis accs) FakeNetDagConfig.

(** ** gossip/config.go: caches of the store *)

Record StoreConfig := MkStoreConfig { EventsCacheSize : Z; BlockCacheSize : Z; PackInfosCacheSize : Z }.
Definition DefaultStoreConfig : StoreConfig := MkStoreConfig 500 100 100.
Definition LiteStoreConfig : StoreConfig := MkStoreConfig 100 100 100.

(** ** gossip/apply_genesis.go *)

Inductive genesis_error := GenesisMismatchError (Stored New : list Z).

Section Apply.
Context {V : Type}.
Context `{LachesisBase, LachesisIdx, Rlp, Kv, Lru}.
Context `{Codec Block, Codec PackInfo, Codec BlockState, Codec (EpochState V)}.
Context `{PosBuilder V}.
Abbreviation ST := (stm (Store V)).

Definition NewMemStore : Store V :=
  NewStore (EventsCacheSize LiteStoreConfig) (BlockCacheSize LiteStoreConfig) (PackInfosCacheSize LiteStoreConfig).

(** The event whose id names the genesis. *)
Definition pretty_event (net : NetConfig) : MutableEvent :=
  let e := MutableEvent_zero in
  let e := SetEpoch e 0 in
  let e := SetLamport e (u32 (MaxEpochBlocks (Dag net))) in
  let h := Validators_Hash (gen_Validators (net_Genesis net)) in
  let e := SetPayload e (ExtraData (net_Genesis net) ++ h) in
  SetRawTime e (gen_Time (net_Genesis net)).

Definition prettyHash (net : NetConfig) : go (list Z) :=
  e ← Build (pretty_event net); Ret (id (base e)).

(** The atropos and the state hash, which are the same bytes. *)
Definition applyGenesis (net : NetConfig) : ST (list Z * list Z) :=
  genesisAtropos ← lift (prettyHash net);
  let genesisState := genesisAtropos in
  _ ← SetBlock 0 (MkBlock (gen_Time (net_Genesis net)) genesisAtropos [genesisAtropos]);
  _ ← SetEpochState (MkEpochState first_epoch (Validators_Build (gen_Validators (net_Genesis net))));
  _ ← SetBlockState (MkBlockState 0 0);
  mret (genesisAtropos, genesisState).

Definition calcGenesisHash (net : NetConfig) : go (list Z) :=
  '(h, _, _) ← applyGenesis net NewMemStore; Ret h.

Record genesis_result := MkGenesisResult {
  genesisAtropos : list Z; genesisState : list Z; new : bool; gen_err : option genesis_error }.

Definition ApplyGenesis (net : NetConfig) : ST genesis_result :=
  storedGenesis ← GetBlock 0;
  match storedGenesis with
  | Some b =>
      newHash ← lift (calcGenesisHash net);
      if negb (bool_decide (atropos b = newHash))
      then mret (MkGenesisResult (replicate 32 0) (replicate 32 0) true
                   (Some (GenesisMismatchError (atropos b) newHash)))
      else mret (MkGenesisResult (atropos b) (atropos b) false None)
  | None =>
      '(a, st) ← applyGenesis net;
      mret (MkGenesisResult a st true None)
  end.

End Apply.

(** ** The digest of the validators *)

Lemma big_len_bound n : n < 2 ^ (8 * Z.of_nat (big_len n)) /\ (n = 0 -> big_len n = 0%nat).
Proof.
  unfold big_len. destruct (Z.eqb_spec n 0) as [->|Hn]; [split; [simpl; lia|done]|]. split; [|lia].
  pose proof (Z.log2_nonneg (Z.abs n)). pose proof (Z.log2_spec (Z.abs n) ltac:(lia)) as [_ Hs].
  assert (2 ^ Z.succ (Z.log2 (Z.abs n)) <= 2 ^ (8 * Z.of_nat (Z.to_nat (Z.log2 (Z.abs n) / 8 + 1))));
    [apply Z.pow_le_mono_r; [lia|dlia]|lia].
Qed.

Lemma le_val_digits n l :
  0 <= n < 2 ^ (8 * Z.of_nat l) ->
  le_val ((fun i => u8 (Z.shiftr n (8 * Z.of_nat i))) <$> List.seq 0 l) = n.
Proof.
  revert n. induction l as [|l IH]; intros n Hn; [simpl in *; lia|].
  cbn [List.seq fmap list_fmap le_val]. rewrite <- seq_shift, <- list_fmap_compose.
  rewrite (list_fmap_ext _ (fun i => u8 (Z.shiftr (Z.shiftr n 8) (8 * Z.of_nat i)))).
  2:{ intros i x _. simpl. rewrite Z.shiftr_shiftr by lia. do 2 f_equal. lia. }
  rewrite IH; [rewrite !Z.shiftr_div_pow2 by lia; unfold u8; change (8 * Z.of_nat 0) with 0; change (2 ^ 0) with 1; rewrite Z.div_1_r; dlia|].
  rewrite Z.shiftr_div_pow2 by lia. split; [apply Z.div_pos; lia|]. apply Z.div_lt_upper_bound; [lia|].
  rewrite <- Z.pow_add_r by lia. replace (8 + 8 * Z.of_nat l) with (8 * Z.of_nat (S l)) by lia. lia.
Qed.

(** [Bytes] is faithful on non-negative numbers. *)
Lemma big_bytes_inj a b : 0 <= a -> 0 <= b -> big_bytes a = big_bytes b -> a = b.
Proof.
  intros Ha Hb E. assert (Hd : forall n, 0 <= n -> le_val (rev (big_bytes n)) = n).
  { intros n Hn. unfold big_bytes. rewrite rev_involutive, Z.abs_eq by done. apply le_val_digits.
    split; [done|]. apply big_len_bound. }
  rewrite <- (Hd a Ha), <- (Hd b Hb). by rewrite E.
Qed.

Lemma big_bytes_length n : length (big_bytes n) = big_len n.
Proof. unfold big_bytes. by rewrite length_rev, length_fmap, length_seq. Qed.

Lemma big_len_small n : 0 <= n < 2 ^ 2040 -> (big_len n <= 255)%nat.
Proof.
  intros Hn. unfold big_len. destruct (Z.eqb_spec n 0) as [|Hz]; [lia|]. rewrite Z.abs_eq by lia.
  assert (Z.log2 n < 2040) by (apply Z.log2_lt_pow2; lia). dlia.
Qed.

(** A validator whose key has [n] bytes and whose stake fits the length byte. *)
Definition account_ok (n : nat) (v : Validator) : Prop :=
  is_uint 32 (ID v) /\ length (PubKey v) = n /\ 0 <= Stake v < 2 ^ 2040.

Lemma hash_bytes_concat `{LachesisIdx} gv : hash_bytes gv = concat (hash_input <$> gv).
Proof.
  unfold hash_bytes. rewrite <- (app_nil_l (concat _)). generalize (@nil Z).
  induction gv as [|v gv IH]; intros w; simpl; [by rewrite app_nil_r|]. by rewrite IH, app_assoc.
Qed.

(** One validator can be read off the front of the input. *)
Lemma hash_input_inj `{LIL : LachesisIdxLaws} n v1 v2 r1 r2 :
  account_ok n v1 -> account_ok n v2 -> hash_input v1 ++ r1 = hash_input v2 ++ r2 -> v1 = v2 /\ r1 = r2.
Proof.
  destruct v1 as [i1 k1 s1], v2 as [i2 k2 s2]. unfold account_ok, hash_input. simpl.
  intros (Hi1 & Hk1 & Hs1) (Hi2 & Hk2 & Hs2). rewrite <- !app_assoc. intros E.
  apply app_inj_1 in E as [Ei E]; [|by rewrite !validator_bytes_length].
  apply app_inj_1 in E as [-> E]; [|congruence]. injection E as El E.
  apply validator_bytes_inj in Ei as ->; [|done..].
  pose proof (big_len_small s1 Hs1). pose proof (big_len_small s2 Hs2).
  unfold zlen in El. rewrite !big_bytes_length, !u8_id in El by (unfold is_uint; lia).
  apply app_inj_1 in E as [Es ->]; [|rewrite !big_bytes_length; lia].
  by apply big_bytes_inj in Es as ->; [|lia..].
Qed.

(** The bytes that [Validators.Hash] digests determine the validators: two
    groups whose public keys have one length, with stakes of at most 255 bytes,
    feed the hash the same bytes only if they are equal, order included. *)
Theorem validators_digest_faithful `{LIL : LachesisIdxLaws} (n : nat) (l1 l2 : Validators) :
  Forall (account_ok n) l1 -> Forall (account_ok n) l2 -> hash_bytes l1 = hash_bytes l2 -> l1 = l2.
Proof.
  rewrite !hash_bytes_concat. intros H1. revert l2. induction H1 as [|v1 l1 Hv1 _ IH]; intros l2 H2.
  - destruct H2 as [|v2 l2 _ _]; [done|]. csimpl. intros E. exfalso.
    apply (f_equal length) in E. unfold hash_input in E. rewrite !length_app in E. simpl in E. lia.
  - destruct H2 as [|v2 l2 Hv2 H2]; csimpl; intros E.
    + exfalso. apply (f_equal length) in E. unfold hash_input in E. rewrite !length_app in E. simpl in E. lia.
    + destruct (hash_input_inj n v1 v2 _ _ Hv1 Hv2 E) as [-> E']. f_equal. by apply IH.
Qed.

Lemma validators_digest_faithful_witness :
  let l := [MkValidator 1 [4; 5] 1000; MkValidator 2 [6; 7] 70000] in
  @hash_bytes lachesis_idx_be l = [0; 0; 0; 1; 4; 5; 2; 3; 232; 0; 0; 0; 2; 6; 7; 3; 1; 17; 112] /\
  forall l2, Forall (account_ok 2) l2 -> @hash_bytes lachesis_idx_be l = @hash_bytes lachesis_idx_be l2 -> l = l2.
Proof.
  cbv zeta. split; [reflexivity|]. intros l2 H2 E.
  apply (validators_digest_faithful (LIL := lachesis_idx_be_laws) 2); [|exact H2|exact E].
  repeat constructor; vm_compute; done.
Defined.

(** The length of the key is not part of the input: keys of different lengths
    can collide. *)
Example keys_of_two_lengths_collide :
  @Validators_Hash lachesis_idx_be [MkValidator 1 [2] 5] = @Validators_Hash lachesis_idx_be [MkValidator 1 [] 261].
Proof. vm_compute. reflexivity. Qed.

(** ** The first state of a store *)

Section Applied.
Context {V : Type}.
Context {LB : LachesisBase} {LBL : LachesisBaseLaws LB} {LI : LachesisIdx} {LIL : LachesisIdxLaws LI}.
Context {R : Rlp} {RL : RlpLaws R} {K : Kv} {KL : KvLaws K} {L : Lru} {LL : LruLaws L}.
Context {CB : Codec Block} {CBL : CodecLaws Block} {CP : Codec PackInfo} {CPL : CodecLaws PackInfo}.
Context {CS : Codec BlockState} {CSL : CodecLaws BlockState}.
Context {CE : Codec (EpochState V)} {CEL : CodecLaws (EpochState V)}.
Context {PB : PosBuilder V}.

(** The values of the configuration's Go types. *)
Definition net_ok (net : NetConfig) : Prop :=
  is_bytes (ExtraData (net_Genesis net)) /\ zlen (ExtraData (net_Genesis net)) < 2 ^ 59 /\
  is_uint 64 (gen_Time (net_Genesis net)).

Lemma prettyHash_returns net : net_ok net -> exists h, prettyHash net = Ret h.
Proof.
  intros (Hb & Hl & Ht). set (e := pretty_event net).
  assert (buildable e) as Hbuild.
  { assert (payload (mext e) = ExtraData (net_Genesis net) ++ Validators_Hash (gen_Validators (net_Genesis net)))
      as Hp by reflexivity.
    split_and!; [constructor|split|]; rewrite ?Hp; clear Hp; try apply u32_uint.
    - by_decide.
    - by_decide.
    - by_decide.
    - by_decide.
    - exact Ht.
    - by_decide.
    - constructor.
    - apply Forall_app. split; [exact Hb|apply Sha256.sum256_bytes].
    - by_decide.
    - reflexivity.
    - rewrite zlen_app. unfold zlen at 2, Validators_Hash. rewrite Sha256.length_sum256. lia.
    - reflexivity. }
  destruct (buildable_encodes e Hbuild) as (pre & E & Eh).
  eexists. unfold prettyHash. rewrite (Build_spec e _ _ E Eh); [reflexivity|by left].
Qed.

Definition genesis_block (net : NetConfig) (h : list Z) : Block := MkBlock (gen_Time (net_Genesis net)) h [h].

Definition genesis_epoch (net : NetConfig) : EpochState V :=
  MkEpochState first_epoch (Validators_Build (gen_Validators (net_Genesis net))).

(** What the genesis leaves in a store. *)
Definition genesis_written (s : Store V) (net : NetConfig) (h : list Z) : Prop :=
  block_at s 0 = Some (genesis_block net h) /\ epoch_state_at s = Some (genesis_epoch net) /\
  block_state_at s = Some (MkBlockState 0 0).

Lemma applyGenesis_spec (s : Store V) net h : store_ok s -> prettyHash net = Ret h ->
  wp (applyGenesis net) (fun r s' => r = (h, h) /\ store_ok s' /\ genesis_written s' net h /\
    (forall i, event_at s' i = event_at s i) /\ Packs s' = Packs s /\ PacksNum s' = PacksNum s /\
    PackInfos s' = PackInfos s /\ epochDBs s' = epochDBs s /\ epochStore s' = epochStore s) s.
Proof.
  intros Hok Hh. unfold applyGenesis. wp_run. rewrite Hh. cbn [or_exit]. wp_run.
  eapply wp_mono; [by apply SetBlock_spec|]. intros _ s1 (Hok1 & Hb & t1 & c1 & ->). wp_run.
  eapply wp_mono; [by apply SetEpochState_spec|]. intros _ s2 (Hok2 & He & t2 & ->). wp_run.
  eapply wp_mono; [by apply SetBlockState_spec|]. intros _ s3 (Hok3 & Hs & t3 & ->). wp_run.
  split_and!; [done|done|split_and!|done..].
  - change (block_at (set_cBlocks c1 (set_Blocks t1 s)) 0 = Some (genesis_block net h)).
    rewrite Hb by by_decide. by rewrite decide_True.
  - exact He.
  - exact Hs.
Qed.

Lemma ApplyGenesis_fresh (s : Store V) net h : store_ok s -> block_at s 0 = None -> prettyHash net = Ret h ->
  wp (ApplyGenesis net) (fun r s' => r = MkGenesisResult h h true None /\ store_ok s' /\ genesis_written s' net h /\
    (forall i, event_at s' i = event_at s i) /\ Packs s' = Packs s /\ PacksNum s' = PacksNum s /\
    PackInfos s' = PackInfos s /\ epochDBs s' = epochDBs s /\ epochStore s' = epochStore s) s.
Proof.
  intros Hok Hb Hh. unfold ApplyGenesis. wp_run.
  eapply wp_mono; [by apply GetBlock_spec; [|by_decide]|]. intros r s1 (-> & Hok1 & c & ->). rewrite Hb. wp_run.
  eapply wp_mono; [by apply applyGenesis_spec|]. intros r s2 (-> & Hs2). wp_run. exact (conj eq_refl Hs2).
Qed.

Lemma calcGenesisHash_spec net h : prettyHash net = Ret h ->
  or_exit (calcGenesisHash net) (fun h' => h' = h).
Proof.
  intros Hh. unfold calcGenesisHash. apply or_exit_bind.
  eapply or_exit_mono; [exact (applyGenesis_spec NewMemStore net h (NewStore_ok _ _ _) Hh)|].
  intros [[a b] s'] (E & _). simpl in E. injection E as -> ->. done.
Qed.

(** A store that has its first block is not written: the genesis is recognised,
    or refused. *)
Lemma ApplyGenesis_known (s : Store V) net b h : store_ok s -> block_at s 0 = Some b -> prettyHash net = Ret h ->
  wp (ApplyGenesis net) (fun r s' =>
    r = (if decide (atropos b = h) then MkGenesisResult (atropos b) (atropos b) false None
         else MkGenesisResult (replicate 32 0) (replicate 32 0) true (Some (GenesisMismatchError (atropos b) h))) /\
    store_ok s' /\ exists c, s' = set_cBlocks c s) s.
Proof.
  intros Hok Hb Hh. unfold ApplyGenesis. wp_run.
  eapply wp_mono; [by apply GetBlock_spec; [|by_decide]|]. intros r s2 (-> & Hok2 & c & ->). rewrite Hb. wp_run.
  eapply or_exit_mono; [by apply calcGenesisHash_spec|]. intros h' ->. case_decide as Hd.
  - rewrite bool_decide_true by exact Hd. cbn [negb]. wp_run. split_and!; [done|done|by exists c].
  - rewrite bool_decide_false by exact Hd. cbn [negb]. wp_run. split_and!; [done|done|by exists c].
Qed.

(** The genesis is written once.  On a store without a first block,
    [ApplyGenesis] writes the block, the first epoch and the first block state
    of the network; a later call changes nothing, and reports the stored genesis
    when it is that of the network it is given, and a mismatch otherwise. *)
Theorem genesis_once (s : Store V) (net1 net2 : NetConfig) :
  store_ok s -> block_at s 0 = None -> net_ok net1 -> net_ok net2 ->
  exists h1 h2, prettyHash net1 = Ret h1 /\ prettyHash net2 = Ret h2 /\
    wp (r1 ← ApplyGenesis net1; r2 ← ApplyGenesis net2; mret (r1, r2)) (fun r s' =>
      store_ok s' /\ genesis_written s' net1 h1 /\ (forall i, event_at s' i = event_at s i) /\
      fst r = MkGenesisResult h1 h1 true None /\
      snd r = if decide (h1 = h2) then MkGenesisResult h1 h1 false None
              else MkGenesisResult (replicate 32 0) (replicate 32 0) true (Some (GenesisMismatchError h1 h2))) s.
Proof.
  intros Hok Hb Hn1 Hn2. destruct (prettyHash_returns net1 Hn1) as [h1 E1], (prettyHash_returns net2 Hn2) as [h2 E2].
  exists h1, h2. split_and!; [done..|]. wp_run.
  eapply wp_mono; [by apply ApplyGenesis_fresh|]. intros r s1 (-> & Hok2 & Hg & Hev & _). wp_run.
  eapply wp_mono; [by apply (ApplyGenesis_known _ net2 _ h2 Hok2 (proj1 Hg))|]. intros r s2 (-> & Hok3 & c & ->). wp_run.
  exact (conj Hok3 (conj Hg (conj Hev (conj eq_refl eq_refl)))).
Qed.

End Applied.

Module Sample.
Import StoreSpec.Sample.
#[local] Existing Instance lachesis_be.
#[local] Existing Instance lachesis_idx_be.
#[local] Existing Instance rlp_length_prefix.
#[local] Existing Instance kv_gmap.
#[local] Existing Instance kv_gmap_laws.
#[local] Existing Instance lru_gmap.
#[local] Existing Instance lru_gmap_laws.
#[local] Existing Instance codec_countable.
#[local] Existing Instance codec_countable_laws.
#[local] Existing Instance lachesis_idx_be_laws.

(** A group is its total stake. *)
Definition pos_total : PosBuilder Z := {|
  big_builder := Z; new_big_builder := 0; builder_set b _ st := b + st; builder_build b := b; first_epoch := 1 |}.
#[local] Existing Instance pos_total.

Definition net_a : NetConfig := FakeNetConfig [MkValidator 1 [4; 5] 1000].
Definition net_b : NetConfig := FakeNetConfig [MkValidator 1 [4; 5] 1001].

Lemma nets_differ : prettyHash net_a <> prettyHash net_b.
Proof. vm_compute. discriminate. Qed.

(** The second network is refused. *)
Lemma genesis_once_witness : exists h1 h2 r s',
  (r1 ← ApplyGenesis net_a; r2 ← ApplyGenesis net_b; mret (r1, r2)) empty_store = Ret (r, s') /\
  genesis_written s' net_a h1 /\ gen_err (fst r) = None /\ gen_err (snd r) = Some (GenesisMismatchError h1 h2).
Proof.
  destruct (genesis_once empty_store net_a net_b (NewStore_ok _ _ _) (proj1 (NewStore_empty _ _ _ _ [])))
    as (h1 & h2 & E1 & E2 & Hwp).
  - unfold net_ok. split_and!; [by_decide|reflexivity|by_decide].
  - unfold net_ok. split_and!; [by_decide|reflexivity|by_decide].
  - assert (Hne : h1 <> h2) by (intros ->; exact (nets_differ (eq_trans E1 (eq_sym E2)))).
    rewrite decide_False in Hwp by exact Hne. unfold wp, or_exit in Hwp.
    destruct ((r1 ← ApplyGenesis net_a; r2 ← ApplyGenesis net_b; mret (r1, r2)) empty_store)
      as [[r s']|x|x|x]; [|destruct Hwp..].
    destruct Hwp as (_ & Hg & _ & Hr1 & Hr2). exists h1, h2, r, s'. simpl in Hr1, Hr2. rewrite Hr1, Hr2.
    split; [reflexivity|]. split; [exact Hg|]. split; reflexivity.
Defined.

End Sample.

End Genesis.
