(* ===== verification/Checks.v ===== *)
(** * eventcheck: the checks an event passes

    The basic, epoch, parents and signature checks ([src/eventcheck]) and the
    pool of goroutines that runs the signature checks in batches
    (heavycheck), as a transition system of producers, a bounded queue and
    workers.  The checks of lachesis-base they extend are parameters. *)

From Stdlib Require Import ZArith Lia Bool.
From stdpp Require Import base list numbers option strings gmap.
From S2P Require Import Prelude Kv Sha256 Fast Event Serializer EventBuild Store StoreSpec Genesis.
Import Event Serializer EventBuild Genesis.
Local Open Scope Z_scope.

(** lachesis-base and go-ethereum: the base checkers (which may panic), their
    sentinel errors, the self-parent of an event and the signature check. *)
Class BaseChecks (V : Type) := {
  ErrNotRelevant : error;
  ErrAuth : error;
  ErrWrongSelfParent : error;
  ErrAlreadyConnectedEvent : error;
  base_basiccheck : Event -> go unit;
  base_parentscheck : Event -> list Event -> go unit;
  epochcheck_validate : V -> Z -> Event -> go unit;   (** with the reader's validators and epoch *)
  SelfParent : Event -> option (list Z);
  VerifySignature : list Z -> list Z -> list Z -> bool
}.

(** Documented behaviour: the epoch check refuses events of other epochs, the
    parents check takes the event's parents in order, and the self-parent is
    the first of the parents. *)
Class BaseChecksLaws (V : Type) `{BaseChecks V} : Prop := {
  epochcheck_epoch : forall vs ep e, epochcheck_validate vs ep e = Ret tt -> epoch (base e) = ep;
  epochcheck_returns : forall vs ep e p m, epochcheck_validate vs ep e <> Panics p /\ epochcheck_validate vs ep e <> Exits m;
  basiccheck_returns : forall e p m, base_basiccheck e <> Panics p /\ base_basiccheck e <> Exits m;
  parentscheck_returns : forall e ps p m, length ps = length (parents (base e)) ->
    base_parentscheck e ps <> Panics p /\ base_parentscheck e ps <> Exits m;
  parentscheck_length : forall e ps, base_parentscheck e ps = Ret tt -> length ps = length (parents (base e));
  SelfParent_first : forall e p, SelfParent e = Some p -> head (parents (base e)) = Some p;
  sentinels_distinct : NoDup [ErrNotRelevant; ErrAuth; ErrWrongSelfParent; ErrAlreadyConnectedEvent]
}.

Module Checks.

(** ** basiccheck *)

Definition ErrVersion : error := Error "event has wrong version".
Definition ErrTooManyParents : error := Error "event has too many parents".
Definition ErrZeroTime : error := Error "event has zero timestamp".
Definition ErrPastTime : error := Error "event has lower claimed time than self-parent".
Definition ErrWrongEventSig : error := Error "event has wrong signature".

(** ** checker_helpers.go *)

Record ValidatorsPubKeys := MkPubKeys { pk_Epoch : Z; pk_PubKeys : gmap Z (list Z) }.

Definition NewEpochPubKeys (epoch : Z) (vv : list Validator) : ValidatorsPubKeys :=
  MkPubKeys epoch (foldl (fun m it => <[ID it := PubKey it]> m) ∅ vv).

(** [GetEpochPubKeys] panics before the first [Store]. *)
Definition GetEpochPubKeys (pubKeys : option ValidatorsPubKeys) : go (gmap Z (list Z) * Z) :=
  match pubKeys with
  | Some auth => Ret (pk_PubKeys auth, pk_Epoch auth)
  | None => Panics (PanicMsg "interface conversion")
  end.

Section Checkers.
Context {V : Type} `{BaseChecks V}.

Definition basic_Validate (config : DagConfig) (e : Event) : go unit :=
  _ ← base_basiccheck e;
  if negb (version (ext e) =? 0) then Err ErrVersion
  else if CreationTime e <=? 0 then Err ErrZeroTime
  else if zlen (parents (base e)) >? MaxParents config then Err ErrTooManyParents
  else Ret tt.

Definition IsSelfParent (e : Event) (h : list Z) : bool := bool_decide (SelfParent e = Some h).

Definition parents_Validate (e : Event) (ps : list Event) : go unit :=
  _ ← base_parentscheck e ps;
  match SelfParent e with
  | None => Ret tt
  | Some _ =>
      selfParent ← go_index ps 0;
      if negb (IsSelfParent e (id (base selfParent))) then Err ErrWrongSelfParent
      else if rawTime (base e) <=? rawTime (base selfParent) then Err ErrPastTime
      else Ret tt
  end.

Definition heavy_Validate (pubKeys : option ValidatorsPubKeys) (e : Event) : go unit :=
  '(keys, epoch) ← GetEpochPubKeys pubKeys;
  if negb (Event.epoch (base e) =? epoch) then Err ErrNotRelevant
  else match keys !! creator (base e) with
       | None => Err ErrAuth
       | Some pubKey =>
           signedHash ← HashToSign e;
           if negb (VerifySignature pubKey signedHash (sig (ext e))) then Err ErrWrongEventSig
           else Ret tt
       end.

(** [Checkers.Validate]; the validators and the epoch are those the readers
    return. *)
Definition Validate (config : DagConfig) (vs : V) (ep : Z) (pubKeys : option ValidatorsPubKeys)
    (e : Event) (ps : list Event) : go unit :=
  _ ← basic_Validate config e;
  _ ← epochcheck_validate vs ep e;
  _ ← parents_Validate e ps;
  heavy_Validate pubKeys e.

(** ban.go; [None] is the nil error. *)
Definition IsBan (err : option error) : bool :=
  match err with
  | None => false
  | Some x => negb (bool_decide (x = ErrNotRelevant) || bool_decide (x = ErrAlreadyConnectedEvent))
  end.

(** ** The rules an accepted event follows *)

(** The self-parent, if there is one, is the first of the parents given and is
    older. *)
Definition self_parent_older (e : Event) (ps : list Event) : Prop :=
  forall p, SelfParent e = Some p -> exists q,
    head ps = Some q /\ id (base q) = p /\ rawTime (base q) < rawTime (base e).

(** The signature is the creator's, over the hash that the id derives from. *)
Definition signed_by_creator (pubKeys : ValidatorsPubKeys) (e : Event) : Prop :=
  exists k h, pk_PubKeys pubKeys !! creator (base e) = Some k /\ HashToSign e = Ret h /\
    VerifySignature k h (sig (ext e)) = true.

Lemma basic_Validate_iff config e : is_uint 64 (rawTime (base e)) ->
  basic_Validate config e = Ret tt <->
  base_basiccheck e = Ret tt /\ version (ext e) = 0 /\ rawTime (base e) <> 0 /\
  zlen (parents (base e)) <= MaxParents config.
Proof.
  unfold is_uint, basic_Validate, CreationTime. intros Ht. destruct (base_basiccheck e) as [[]|x|x|x]; simpl;
    [|split; [discriminate|by intros [? _]]..].
  rewrite Z.gtb_ltb.
  repeat case_test; simpl; (split; [first [discriminate | by intros _; split_and!; [done|lia..]] | intros (_ & ? & ? & ?); try done; exfalso; lia]).
Qed.

Lemma parents_Validate_iff `{!BaseChecksLaws V} e ps :
  parents_Validate e ps = Ret tt <-> base_parentscheck e ps = Ret tt /\ self_parent_older e ps.
Proof.
  unfold parents_Validate, self_parent_older. destruct (base_parentscheck e ps) as [[]|x|x|x] eqn:Eb; simpl;
    [|split; [discriminate|by intros [? _]]..].
  destruct (SelfParent e) as [p|] eqn:Ep; [|split; [done|done]].
  destruct ps as [|q ps]; simpl.
  - split; [discriminate|]. intros [_ Hs]. by destruct (Hs p eq_refl) as (? & ? & _).
  - unfold IsSelfParent. rewrite Ep. case_bool_decide as Hq; simpl.
    + case_test; split; try discriminate; try done.
      * intros [_ Hs]. destruct (Hs p eq_refl) as (? & [= <-] & _ & ?). lia.
      * intros _. split; [done|]. intros p' [= <-]. exists q. split_and!; [done|congruence|lia].
    + split; [discriminate|]. intros [_ Hs]. destruct (Hs p eq_refl) as (? & [= <-] & ? & _). congruence.
Qed.

Lemma heavy_Validate_iff pubKeys e :
  heavy_Validate (Some pubKeys) e = Ret tt <-> epoch (base e) = pk_Epoch pubKeys /\ signed_by_creator pubKeys e.
Proof.
  unfold heavy_Validate, signed_by_creator. simpl. case_test; simpl; [|split; [discriminate|by intros []]].
  destruct (pk_PubKeys pubKeys !! creator (base e)) as [k|].
  2:{ split; [discriminate|]. by intros (_ & ? & ? & ? & _). }
  destruct (HashToSign e) as [h|x|x|x]; simpl;
    [|split; [discriminate|intros (_ & ? & ? & ? & ? & _); discriminate]..].
  destruct (VerifySignature k h (sig (ext e))) eqn:Ev; simpl; split; try discriminate; try done.
  - intros _. split; [done|]. eauto.
  - intros (_ & k' & h' & [= <-] & [= <-] & ?). congruence.
Qed.

(** On a coherent event and its parents the checks return. *)
Lemma Validate_returns `{!BaseChecksLaws V} config vs ep keys e ps h :
  HashToSign e = Ret h -> length ps = length (parents (base e)) ->
  Validate config vs ep (Some keys) e ps = Ret tt \/ exists x, Validate config vs ep (Some keys) e ps = Err x.
Proof.
  intros Hh Hl. unfold Validate, basic_Validate, parents_Validate, heavy_Validate.
  pose proof (basiccheck_returns e) as Hb. destruct (base_basiccheck e) as [[]|x|x|x]; cbn [mbind go_bind]; [|by eauto|by destruct (Hb x EmptyString)|by destruct (Hb NilDeref x)].
  destruct (negb _); [by eauto|]. destruct (_ <=? 0); [by eauto|]. destruct (_ >? _); [by eauto|]. cbn [mbind go_bind].
  pose proof (epochcheck_returns vs ep e) as He. destruct (epochcheck_validate vs ep e) as [[]|x|x|x]; cbn [mbind go_bind]; [|by eauto|by destruct (He x EmptyString)|by destruct (He NilDeref x)].
  assert (Hp : forall p m, base_parentscheck e ps <> Panics p /\ base_parentscheck e ps <> Exits m) by (intros; by apply parentscheck_returns).
  destruct (base_parentscheck e ps) as [[]|x|x|x]; cbn [mbind go_bind]; [|by eauto|by destruct (Hp x EmptyString)|by destruct (Hp NilDeref x)].
  assert (Hheavy : forall r, r = (if negb (epoch (base e) =? pk_Epoch keys) then Err ErrNotRelevant
    else match pk_PubKeys keys !! creator (base e) with None => Err ErrAuth
         | Some pubKey => signedHash ← HashToSign e; if negb (VerifySignature pubKey signedHash (sig (ext e))) then Err ErrWrongEventSig else Ret tt end) ->
    r = Ret tt \/ exists x, r = Err x).
  { intros r ->. destruct (negb _); [by eauto|]. destruct (_ !! _); [|by eauto]. rewrite Hh. cbn [mbind go_bind]. destruct (negb _); eauto. }
  destruct (SelfParent e) as [sp|] eqn:Es; cbn [mbind go_bind]; [|by apply Hheavy].
  apply SelfParent_first in Es. destruct (parents (base e)); [discriminate|]. destruct ps as [|q ps]; [discriminate|]. change (go_index (q :: ps) 0) with (Ret q). cbn [mbind go_bind].
  destruct (negb (IsSelfParent _ _)); cbn [mbind go_bind]; [by eauto|].
  destruct (_ <=? _); cbn [mbind go_bind]; [by eauto|by apply Hheavy].
Qed.

(** C13: [Checkers.Validate] accepts an event exactly if the checks of
    lachesis-base accept it and it is of version 0, has a timestamp, has at most
    [MaxParents] parents, is younger than its self-parent, belongs to the epoch
    of the current public keys, and is signed by its creator over the hash its
    id derives from. *)
Theorem validate_accepts_iff `{!BaseChecksLaws V} config vs ep keys e ps :
  is_uint 64 (rawTime (base e)) ->
  Validate config vs ep (Some keys) e ps = Ret tt <->
  (base_basiccheck e = Ret tt /\ version (ext e) = 0 /\ rawTime (base e) <> 0 /\
   zlen (parents (base e)) <= MaxParents config) /\
  epochcheck_validate vs ep e = Ret tt /\
  (base_parentscheck e ps = Ret tt /\ self_parent_older e ps) /\
  (epoch (base e) = pk_Epoch keys /\ signed_by_creator keys e).
Proof.
  intros Ht. rewrite <- (basic_Validate_iff config e Ht), <- parents_Validate_iff, <- heavy_Validate_iff.
  unfold Validate.
  destruct (basic_Validate config e) as [[]|x|x|x]; simpl; [|split; [discriminate|by intros [? _]]..].
  destruct (epochcheck_validate vs ep e) as [[]|x|x|x]; simpl; [|split; [discriminate|by intros (_ & ? & _)]..].
  destruct (parents_Validate e ps) as [[]|x|x|x]; simpl; [|split; [discriminate|by intros (_ & _ & ? & _)]..].
  tauto.
Qed.

End Checkers.

(** An instance: base checks that accept every event of the right epoch whose
    parents are listed, and keys that are their own signatures. *)
Definition base_checks_any : BaseChecks Z := {|
  ErrNotRelevant := Error "event is too old or too new";
  ErrAuth := Error "event creator isn't a validator";
  ErrWrongSelfParent := Error "event is missing self-parent";
  ErrAlreadyConnectedEvent := Error "event is connected already";
  base_basiccheck _ := Ret tt;
  base_parentscheck e ps :=
    if bool_decide (length ps = length (parents (base e))) then Ret tt else Panics (PanicMsg "parents");
  epochcheck_validate _ ep e :=
    if bool_decide (epoch (base e) = ep) then Ret tt else Err (Error "event is too old or too new");
  SelfParent e := if seq (base e) <=? 1 then None else head (parents (base e));
  VerifySignature k _ s := bool_decide (k = s)
|}.

Lemma base_checks_any_laws : @BaseChecksLaws Z base_checks_any.
Proof.
  split; simpl.
  - intros _ ep e. by case_bool_decide.
  - intros _ ep e p m. by case_bool_decide.
  - done.
  - intros e ps p m Hl. by rewrite bool_decide_true.
  - intros e ps. by case_bool_decide.
  - intros e p. by destruct (seq (base e) <=? 1).
  - by_decide.
Qed.

Definition sample_keys : ValidatorsPubKeys :=
  NewEpochPubKeys (epoch (base sample_built)) [MkValidator (creator (base sample_built)) (sig (ext sample_built)) 1].

Definition sample_parents : list Event :=
  (fun p => MkEvent (MkBase 0 1 0 false 0 [] 1 p 1) zero_ext) <$> parents (base sample_built).

Lemma validate_accepts_iff_witness :
  @Validate Z base_checks_any DefaultDagConfig 0 (epoch (base sample_built)) (Some sample_keys) sample_built sample_parents
    = Ret tt /\ signed_by_creator (H := base_checks_any) sample_keys sample_built.
Proof.
  assert (E : @Validate Z base_checks_any DefaultDagConfig 0 (epoch (base sample_built)) (Some sample_keys)
                sample_built sample_parents = Ret tt) by (vm_compute; reflexivity).
  split; [exact E|].
  apply (validate_accepts_iff (H := base_checks_any) (BaseChecksLaws0 := base_checks_any_laws)) in E; [|by_decide].
  destruct E as (_ & _ & _ & _ & E). exact E.
Defined.

End Checks.

(** ** heavycheck: producers, a bounded queue and workers *)

Module Heavycheck.
Import Checks.

Definition maxQueuedTasks : Z := 128.
Definition maxBatch : Z := 4.
Definition errTerminated : error := Error "terminated".

(** [NewDefault]: all processors but one, at least one. *)
Definition default_threads (numCPU : Z) : Z :=
  let threads := if numCPU >? 1 then numCPU - 1 else numCPU in
  if threads <? 1 then 1 else threads.

Section Pool.
Context {V : Type} `{BaseChecks V}.

Record TaskData := MkTask { t_Events : list Event; t_Result : list (go unit) }.

(** A call of [Enqueue]: its events, the index of its loop, its result. *)
Record Enqueuing := MkEnqueuing { p_events : list Event; p_start : Z; p_result : option (go unit) }.

(** A goroutine of [loop]: in the select, with a task, or returned. *)
Inductive worker := Waiting | Working (op : TaskData) | Returned.

Record Checker := MkChecker {
  tasksQ : list TaskData;
  quit : bool;
  calls : list Enqueuing;
  workers : list worker;
  validated : list TaskData;             (** calls of [onValidated] *)
  reader : option ValidatorsPubKeys
}.

(** [Start] of a checker with [n] threads, and the calls that are made. *)
Definition Start (n : Z) (keys : option ValidatorsPubKeys) (inputs : list (list Event)) : Checker :=
  MkChecker [] false ((fun es => MkEnqueuing es 0 None) <$> inputs) (replicate (Z.to_nat n) Waiting) [] keys.

Definition Overloaded (c : Checker) : bool := zlen (tasksQ c) >? maxQueuedTasks / 2.

Inductive action :=
| ASend (i : nat)        (** [case v.tasksQ <- op] *)
| ATerminate (i : nat)   (** [case <-v.quit: return errTerminated] *)
| AReturn (i : nat)      (** the loop of [Enqueue] ends *)
| ATake (w : nat)        (** [case op := <-v.tasksQ] *)
| AValidate (w : nat)    (** one turn of the loop over [op.Events] *)
| ADeliver (w : nat)     (** [op.onValidated(..)] *)
| AEnd (w : nat)         (** [case <-v.quit: return] *)
| AStop                  (** [close(v.quit)] *)
| ANewKeys (k : ValidatorsPubKeys).

Definition set_calls x (c : Checker) := MkChecker (tasksQ c) (quit c) x (workers c) (validated c) (reader c).
Definition set_workers x (c : Checker) := MkChecker (tasksQ c) (quit c) (calls c) x (validated c) (reader c).

(** [events[start:end]]. *)
Definition batch (events : list Event) (start : Z) : list Event :=
  let stop := if zlen events >? start + maxBatch then start + maxBatch else zlen events in
  take (Z.to_nat (stop - start)) (drop (Z.to_nat start) events).

Definition step (a : action) (c : Checker) : option Checker :=
  match a with
  | ASend i =>
      p ← calls c !! i;
      if bool_decide (p_result p = None) && (p_start p <? zlen (p_events p)) && (zlen (tasksQ c) <? maxQueuedTasks)
      then Some (MkChecker (tasksQ c ++ [MkTask (batch (p_events p) (p_start p)) []]) (quit c)
                   (<[i := MkEnqueuing (p_events p) (p_start p + maxBatch) None]> (calls c))
                   (workers c) (validated c) (reader c))
      else None
  | ATerminate i =>
      p ← calls c !! i;
      if bool_decide (p_result p = None) && (p_start p <? zlen (p_events p)) && quit c
      then Some (set_calls (<[i := MkEnqueuing (p_events p) (p_start p) (Some (Err errTerminated))]> (calls c)) c)
      else None
  | AReturn i =>
      p ← calls c !! i;
      if bool_decide (p_result p = None) && negb (p_start p <? zlen (p_events p))
      then Some (set_calls (<[i := MkEnqueuing (p_events p) (p_start p) (Some (Ret tt))]> (calls c)) c)
      else None
  | ATake w =>
      match workers c !! w, tasksQ c with
      | Some Waiting, op :: q =>
          Some (MkChecker q (quit c) (calls c) (<[w := Working (MkTask (t_Events op) [])]> (workers c))
                  (validated c) (reader c))
      | _, _ => None
      end
  | AValidate w =>
      match workers c !! w with
      | Some (Working op) =>
          e ← t_Events op !! length (t_Result op);
          Some (set_workers (<[w := Working (MkTask (t_Events op) (t_Result op ++ [heavy_Validate (reader c) e]))]>
                  (workers c)) c)
      | _ => None
      end
  | ADeliver w =>
      match workers c !! w with
      | Some (Working op) =>
          if bool_decide (length (t_Result op) = length (t_Events op))
          then Some (MkChecker (tasksQ c) (quit c) (calls c) (<[w := Waiting]> (workers c))
                       (validated c ++ [op]) (reader c))
          else None
      | _ => None
      end
  | AEnd w =>
      match workers c !! w with
      | Some Waiting => if quit c then Some (set_workers (<[w := Returned]> (workers c)) c) else None
      | _ => None
      end
  | AStop =>
      if quit c then None (* closing twice panics *)
      else Some (MkChecker (tasksQ c) true (calls c) (workers c) (validated c) (reader c))
  | ANewKeys k => Some (MkChecker (tasksQ c) (quit c) (calls c) (workers c) (validated c) (Some k))
  end.

Inductive reachable (c0 : Checker) : Checker -> Prop :=
| reach_start : reachable c0 c0
| reach_step a c c' : reachable c0 c -> step a c = Some c' -> reachable c0 c'.

(** ** Where the events are *)

Definition remaining (p : Enqueuing) : list Event := drop (Z.to_nat (p_start p)) (p_events p).
Definition in_work (w : worker) : list Event := match w with Working op => t_Events op | _ => [] end.

Definition all_events (c : Checker) : list Event :=
  (validated c ≫= t_Events) ++ (workers c ≫= in_work) ++ (tasksQ c ≫= t_Events) ++ (calls c ≫= remaining).

Definition batch_ok (op : TaskData) : Prop := (1 <= length (t_Events op) <= 4)%nat.

(** The results so far are what the check returned, each with the keys of some
    moment. *)
Definition results_ok (op : TaskData) : Prop :=
  Forall2 (fun e r => exists k, r = heavy_Validate k e) (take (length (t_Result op)) (t_Events op)) (t_Result op).

Definition working_ok (w : worker) : Prop :=
  match w with Working op => batch_ok op /\ results_ok op | _ => True end.

Definition call_ok (p : Enqueuing) : Prop :=
  0 <= p_start p /\ (p_result p = Some (Ret tt) -> zlen (p_events p) <= p_start p).

Record pool_ok (inputs : list Event) (c : Checker) : Prop := {
  po_events : all_events c ≡ₚ inputs;
  po_queue : zlen (tasksQ c) <= maxQueuedTasks;
  po_batches : Forall batch_ok (tasksQ c);
  po_working : Forall working_ok (workers c);
  po_validated : Forall (fun op => length (t_Result op) = length (t_Events op) /\ results_ok op) (validated c);
  po_calls : Forall call_ok (calls c);
  po_quit : quit c = false -> Forall (fun w => w <> Returned) (workers c) /\
                              Forall (fun p => p_result p = None \/ p_result p = Some (Ret tt)) (calls c)
}.

(** ** Work that is left *)

Definition call_work (p : Enqueuing) : Z :=
  match p_result p with None => 1 + 4 * zlen (remaining p) | Some _ => 0 end.
Definition task_work (op : TaskData) : Z := 3 * zlen (t_Events op).
Definition worker_work (w : worker) : Z :=
  match w with Working op => 1 + zlen (t_Events op) - zlen (t_Result op) | _ => 0 end.

Definition work (c : Checker) : Z :=
  zsum call_work (calls c) + zsum task_work (tasksQ c) + zsum worker_work (workers c).

(** The actions of the pool itself, as opposed to its environment. *)
Definition internal (a : action) : Prop :=
  match a with AStop | ANewKeys _ => False | _ => True end.

(** ** Lemmas *)

Lemma bind_exchange {A B} (f : A -> list B) (l : list A) i x y :
  l !! i = Some x -> f x ++ (<[i := y]> l ≫= f) ≡ₚ f y ++ (l ≫= f).
Proof.
  revert i. induction l as [|z l IH]; intros [|i] E; simpl in *; try discriminate; csimpl.
  - injection E as ->. rewrite !app_assoc, (Permutation_app_comm (f x)). done.
  - rewrite !app_assoc, !(Permutation_app_comm _ (f z)), <- !app_assoc. by rewrite (IH i E).
Qed.

Lemma bind_nil_all {A B} (l : list A) (f : A -> list B) : (forall x, x ∈ l -> f x = []) -> l ≫= f = [].
Proof.
  induction l as [|x l IH]; intros Hf; [done|]. csimpl. rewrite (Hf x) by left. apply IH. intros y Hy. apply Hf. by right.
Qed.

Lemma batch_spec events start : 0 <= start < zlen events ->
  batch events start = take 4 (drop (Z.to_nat start) events) /\ (1 <= length (batch events start) <= 4)%nat /\
  batch events start ++ drop (Z.to_nat (start + maxBatch)) events = drop (Z.to_nat start) events.
Proof.
  unfold batch, maxBatch, zlen. intros Hs. rewrite Z.gtb_ltb.
  assert (E : take (Z.to_nat ((if start + 4 <? Z.of_nat (length events) then start + 4 else Z.of_nat (length events)) - start))
            (drop (Z.to_nat start) events) = take 4 (drop (Z.to_nat start) events)).
  { case_test; [f_equal; lia|]. rewrite !take_ge; [done|..]; rewrite length_drop; lia. }
  rewrite E. split_and!; [done|rewrite length_take, length_drop; lia..|].
  replace (Z.to_nat (start + 4)) with (Z.to_nat start + 4)%nat by lia. rewrite <- drop_drop. apply take_drop.
Qed.

(** What an enabled step does. *)
Lemma step_inv a c c' : step a c = Some c' ->
  match a with
  | ASend i => exists p, calls c !! i = Some p /\ p_result p = None /\ p_start p < zlen (p_events p) /\
      zlen (tasksQ c) < maxQueuedTasks /\
      c' = MkChecker (tasksQ c ++ [MkTask (batch (p_events p) (p_start p)) []]) (quit c)
             (<[i := MkEnqueuing (p_events p) (p_start p + maxBatch) None]> (calls c)) (workers c) (validated c) (reader c)
  | ATerminate i => exists p, calls c !! i = Some p /\ p_result p = None /\ quit c = true /\
      c' = set_calls (<[i := MkEnqueuing (p_events p) (p_start p) (Some (Err errTerminated))]> (calls c)) c
  | AReturn i => exists p, calls c !! i = Some p /\ p_result p = None /\ zlen (p_events p) <= p_start p /\
      c' = set_calls (<[i := MkEnqueuing (p_events p) (p_start p) (Some (Ret tt))]> (calls c)) c
  | ATake w => exists op q, workers c !! w = Some Waiting /\ tasksQ c = op :: q /\
      c' = MkChecker q (quit c) (calls c) (<[w := Working (MkTask (t_Events op) [])]> (workers c)) (validated c) (reader c)
  | AValidate w => exists op e, workers c !! w = Some (Working op) /\ t_Events op !! length (t_Result op) = Some e /\
      c' = set_workers (<[w := Working (MkTask (t_Events op) (t_Result op ++ [heavy_Validate (reader c) e]))]> (workers c)) c
  | ADeliver w => exists op, workers c !! w = Some (Working op) /\ length (t_Result op) = length (t_Events op) /\
      c' = MkChecker (tasksQ c) (quit c) (calls c) (<[w := Waiting]> (workers c)) (validated c ++ [op]) (reader c)
  | AEnd w => workers c !! w = Some Waiting /\ quit c = true /\ c' = set_workers (<[w := Returned]> (workers c)) c
  | AStop => quit c = false /\ c' = MkChecker (tasksQ c) true (calls c) (workers c) (validated c) (reader c)
  | ANewKeys k => c' = MkChecker (tasksQ c) (quit c) (calls c) (workers c) (validated c) (Some k)
  end.
Proof.
  destruct a as [i|i|i|w|w|w|w| |k]; simpl.
  1-3: destruct (calls c !! i) as [p|] eqn:E; simpl; [|discriminate];
    case_bool_decide; simpl; [|discriminate]; case_test; simpl; try discriminate.
  - case_test; [|discriminate]. intros [= <-]. by exists p.
  - destruct (quit c) eqn:Eq; [|discriminate]. intros [= <-]. by exists p.
  - intros [= <-]. by exists p.
  - destruct (workers c !! w) as [[|o|]|] eqn:E, (tasksQ c) as [|op q] eqn:Eq; try discriminate. intros [= <-]. by exists op, q.
  - destruct (workers c !! w) as [[|op|]|] eqn:E; try discriminate.
    destruct (t_Events op !! _) as [e|] eqn:Ee; simpl; [|discriminate]. intros [= <-]. by exists op, e.
  - destruct (workers c !! w) as [[|op|]|] eqn:E; try discriminate. case_bool_decide; [|discriminate].
    intros [= <-]. by exists op.
  - destruct (workers c !! w) as [[]|] eqn:E, (quit c) eqn:Eq; try discriminate. by intros [= <-].
  - destruct (quit c) eqn:Eq; [discriminate|]. by intros [= <-].
  - by intros [= <-].
Qed.

(** No event is lost or duplicated. *)
Lemma step_events a c c' :
  Forall (fun p => 0 <= p_start p) (calls c) -> step a c = Some c' -> all_events c' ≡ₚ all_events c.
Proof.
  intros Hp Hs. apply step_inv in Hs. unfold all_events. destruct a as [i|i|i|w|w|w|w| |k].
  - destruct Hs as (p & E & _ & Hlt & _ & ->). rewrite Forall_lookup in Hp.
    destruct (batch_spec (p_events p) (p_start p)) as (_ & _ & Hb); [by eauto|].
    pose proof (bind_exchange remaining _ _ _ (MkEnqueuing (p_events p) (p_start p + maxBatch) None) E) as Hx.
    unfold remaining in Hx at 1 3. simpl in Hx. rewrite <- Hb in Hx.
    rewrite (Permutation_app_comm (batch _ _)), <- app_assoc in Hx. apply Permutation_app_inv_l in Hx.
    simpl. rewrite bind_app. csimpl. rewrite app_nil_r, <- app_assoc, Hx. done.
  - destruct Hs as (p & E & _ & _ & ->).
    pose proof (bind_exchange remaining _ _ _ (MkEnqueuing (p_events p) (p_start p) (Some (Err errTerminated))) E) as Hx.
    apply Permutation_app_inv_l in Hx. simpl. by rewrite Hx.
  - destruct Hs as (p & E & _ & _ & ->).
    pose proof (bind_exchange remaining _ _ _ (MkEnqueuing (p_events p) (p_start p) (Some (Ret tt))) E) as Hx.
    apply Permutation_app_inv_l in Hx. simpl. by rewrite Hx.
  - destruct Hs as (op & q & E & Eq & ->).
    pose proof (bind_exchange in_work _ _ _ (Working (MkTask (t_Events op) [])) E) as Hx. simpl in Hx.
    simpl. rewrite Hx, Eq. csimpl. f_equiv. rewrite !app_assoc, (Permutation_app_comm (t_Events op)). done.
  - destruct Hs as (op & e & E & _ & ->).
    pose proof (bind_exchange in_work _ _ _ (Working (MkTask (t_Events op) (t_Result op ++ [heavy_Validate (reader c) e]))) E) as Hx.
    simpl in Hx. apply Permutation_app_inv_l in Hx. simpl. by rewrite Hx.
  - destruct Hs as (op & E & _ & ->). pose proof (bind_exchange in_work _ _ _ Waiting E) as Hx. simpl in Hx.
    simpl. rewrite bind_app. csimpl. rewrite app_nil_r, <- !app_assoc. f_equiv. by rewrite app_assoc, Hx.
  - destruct Hs as (E & _ & ->). pose proof (bind_exchange in_work _ _ _ Returned E) as Hx. simpl in Hx.
    simpl. by rewrite Hx.
  - by destruct Hs as (_ & ->).
  - by subst c'.
Qed.

Lemma results_ok_snoc op e k : results_ok op -> t_Events op !! length (t_Result op) = Some e ->
  results_ok (MkTask (t_Events op) (t_Result op ++ [heavy_Validate k e])).
Proof.
  unfold results_ok. simpl. intros Hr He. rewrite length_app. simpl. rewrite Nat.add_1_r, (take_S_r _ _ e He).
  apply Forall2_app; [done|]. constructor; [by exists k|constructor].
Qed.

Lemma step_ok inputs a c c' : pool_ok inputs c -> step a c = Some c' -> pool_ok inputs c'.
Proof.
  intros [He Hq Hb Hw Hv Hp Hquit] Hs.
  assert (He' : all_events c' ≡ₚ inputs).
  { rewrite (step_events a c c'); [done| |done]. eapply Forall_impl; [exact Hp|]. by intros p []. }
  apply step_inv in Hs. destruct a as [i|i|i|w|w|w|w| |k].
  - destruct Hs as (p & E & Hr & Hlt & Hroom & ->). pose proof (Forall_lookup_1 _ _ _ _ Hp E) as [H0 _].
    constructor; simpl; try done.
    + rewrite zlen_app. unfold zlen at 2. simpl. lia.
    + apply Forall_app. split; [done|]. constructor; [|constructor]. by apply batch_spec.
    + apply Forall_insert; [done|]. split; [simpl; unfold maxBatch; lia|done].
    + intros Hn. destruct (Hquit Hn). split; [done|]. apply Forall_insert; [done|by left].
  - destruct Hs as (p & E & Hr & Hqt & ->). pose proof (Forall_lookup_1 _ _ _ _ Hp E) as [H0 _].
    constructor; simpl; try done; [|by rewrite Hqt]. apply Forall_insert; [done|]. by split.
  - destruct Hs as (p & E & Hr & Hlen & ->). pose proof (Forall_lookup_1 _ _ _ _ Hp E) as [H0 _].
    constructor; simpl; try done; [apply Forall_insert; [done|by split]|].
    intros Hn. destruct (Hquit Hn). split; [done|]. apply Forall_insert; [done|by right].
  - destruct Hs as (op & q & E & Eq & ->). rewrite Eq in *. inversion Hb; subst. unfold maxQueuedTasks in *.
    constructor; simpl; try done.
    + rewrite zlen_cons in Hq. unfold maxQueuedTasks. lia.
    + apply Forall_insert; [done|]. split; [done|]. constructor.
    + intros Hn. destruct (Hquit Hn). split; [|done]. by apply Forall_insert.
  - destruct Hs as (op & e & E & Ee & ->). pose proof (Forall_lookup_1 _ _ _ _ Hw E) as [Hbo Hro].
    constructor; simpl; try done.
    + apply Forall_insert; [done|]. split; [done|by apply results_ok_snoc].
    + intros Hn. destruct (Hquit Hn). split; [|done]. by apply Forall_insert.
  - destruct Hs as (op & E & Hl & ->). pose proof (Forall_lookup_1 _ _ _ _ Hw E) as [Hbo Hro].
    constructor; simpl; try done.
    + by apply Forall_insert.
    + apply Forall_app. split; [done|]. constructor; [done|constructor].
    + intros Hn. destruct (Hquit Hn). split; [|done]. by apply Forall_insert.
  - destruct Hs as (E & Hqt & ->). constructor; simpl; try done; [by apply Forall_insert|by rewrite Hqt].
  - destruct Hs as (E & ->). by constructor.
  - subst c'. by constructor.
Qed.

Lemma Start_ok n keys inputs : pool_ok (concat inputs) (Start n keys inputs).
Proof.
  constructor; simpl; try done.
  - unfold all_events. simpl. rewrite (bind_nil_all (replicate _ _) in_work) by (intros x Hx; by apply elem_of_replicate in Hx as [-> _]).
    simpl. induction inputs as [|es inputs IH]; csimpl; [done|]. by rewrite IH.
  - by apply Forall_replicate.
  - apply Forall_fmap, Forall_true. by split.
  - intros _. split; [by apply Forall_replicate|]. apply Forall_fmap, Forall_true. by left.
Qed.

Lemma reachable_ok n keys inputs c : reachable (Start n keys inputs) c -> pool_ok (concat inputs) c.
Proof. induction 1; [apply Start_ok|]. by eapply step_ok. Qed.

Lemma work_nonneg inputs c : pool_ok inputs c -> 0 <= work c.
Proof.
  intros Hok. unfold work. assert (0 <= zsum call_work (calls c) /\ 0 <= zsum task_work (tasksQ c) /\
    0 <= zsum worker_work (workers c)); [|lia]. split_and!; apply zsum_nonneg.
  - apply Forall_true. intros p. unfold call_work, zlen. destruct (p_result p); lia.
  - apply Forall_true. intros p. unfold task_work, zlen. lia.
  - eapply Forall_impl; [apply Hok|]. intros [|op|]; simpl; try lia. intros [_ Hr].
    apply Forall2_length in Hr. rewrite length_take in Hr. unfold zlen. lia.
Qed.

Lemma work_decreases inputs a c c' : pool_ok inputs c -> internal a -> step a c = Some c' -> 0 <= work c' /\
  (work c' < work c \/ exists w, a = AEnd w).
Proof.
  intros Hok Ha Hs. split; [by eapply work_nonneg, step_ok|]. apply step_inv in Hs. unfold work.
  destruct a as [i|i|i|w|w|w|w| |k]; try done; [..|by right; exists w].
  all: left.
  - destruct Hs as (p & E & Hr & Hlt & _ & ->). pose proof (Forall_lookup_1 _ _ _ _ (po_calls _ _ Hok) E) as [H0 _].
    destruct (batch_spec (p_events p) (p_start p) ltac:(lia)) as (_ & Hl & Hb). simpl.
    rewrite (zsum_insert _ _ _ _ _ E), zsum_app, zsum_cons. unfold call_work, task_work, remaining. simpl. rewrite Hr.
    rewrite <- Hb, zlen_app. unfold zsum, zlen. simpl. lia.
  - destruct Hs as (p & E & Hr & _ & ->). simpl. rewrite (zsum_insert _ _ _ _ _ E). unfold call_work at 2 3. simpl.
    rewrite Hr. unfold zlen. lia.
  - destruct Hs as (p & E & Hr & _ & ->). simpl. rewrite (zsum_insert _ _ _ _ _ E). unfold call_work at 2 3. simpl.
    rewrite Hr. unfold zlen. lia.
  - destruct Hs as (op & q & E & Eq & ->). pose proof (po_batches _ _ Hok) as Hb. rewrite Eq in *. inversion Hb as [|? ? Hop _]; subst.
    simpl. rewrite (zsum_insert _ _ _ _ _ E), zsum_cons. unfold worker_work at 2 3, task_work at 2. unfold batch_ok, zlen in *. simpl. lia.
  - destruct Hs as (op & e & E & Ee & ->). simpl. rewrite (zsum_insert _ _ _ _ _ E). unfold worker_work at 2 3.
    simpl. rewrite zlen_app. unfold zlen. simpl. lia.
  - destruct Hs as (op & E & Hl & ->). simpl. rewrite (zsum_insert _ _ _ _ _ E). unfold worker_work at 2 3. unfold zlen. lia.
Qed.

Definition is_waiting (w : worker) : bool := match w with Waiting => true | _ => false end.

(** While there is work, some action is possible. *)
Lemma progress inputs c : pool_ok inputs c -> workers c <> [] -> quit c = false -> work c <> 0 ->
  exists a c', internal a /\ step a c = Some c'.
Proof.
  intros Hok Hne Hq Hwork. destruct (po_quit _ _ Hok Hq) as [Hw Hc].
  destruct (decide (Exists (fun w => is_waiting w = false) (workers c))) as [Hex|Hall].
  - apply Exists_exists in Hex as (wk & Hin & Hwk). apply list_elem_of_lookup in Hin as [w E].
    pose proof (Forall_lookup_1 _ _ _ _ Hw E). destruct wk as [|op|]; try done.
    destruct (decide (length (t_Result op) = length (t_Events op))) as [Hl|Hl].
    + exists (ADeliver w). simpl. rewrite E, bool_decide_true by done. by eexists.
    + pose proof (Forall_lookup_1 _ _ _ _ (po_working _ _ Hok) E) as [_ Hr]. apply Forall2_length in Hr.
      rewrite length_take in Hr. destruct (lookup_lt_is_Some_2 (t_Events op) (length (t_Result op)) ltac:(lia)) as [e Ee].
      exists (AValidate w). simpl. rewrite E. simpl. rewrite Ee. by eexists.
  - apply not_Exists_Forall in Hall; [|intros w; apply _]. destruct (tasksQ c) as [|op q] eqn:Eq.
    + destruct (decide (Exists (fun p => p_result p = None) (calls c))) as [Hex|Hdone].
      * apply Exists_exists in Hex as (p & Hin & Hp). apply list_elem_of_lookup in Hin as [i E].
        destruct (Z.ltb_spec (p_start p) (zlen (p_events p))) as [Hlt|Hge].
        -- exists (ASend i). simpl. rewrite E, Eq. simpl. rewrite bool_decide_true by done.
           rewrite (proj2 (Z.ltb_lt _ _) Hlt). by eexists.
        -- exists (AReturn i). simpl. rewrite E. simpl. rewrite bool_decide_true by done.
           rewrite (proj2 (Z.ltb_ge _ _) Hge). by eexists.
      * exfalso. apply Hwork. apply not_Exists_Forall in Hdone; [|intros p; apply _]. unfold work. rewrite Eq.
        rewrite (zsum_all_eq call_work _ 0), (zsum_all_eq worker_work _ 0); [unfold zsum; simpl; lia|..].
        -- eapply Forall_impl; [exact Hall|]. by intros [|op|] Hx; [|destruct Hx..].
        -- eapply Forall_impl; [exact Hdone|]. intros p Hp. unfold call_work. destruct (p_result p) eqn:Er; [done|by destruct Hp].
    + destruct (workers c) as [|wk ws] eqn:Ew; [done|]. inversion Hall as [|? ? Hx _]; subst.
      destruct wk; [|by destruct Hx..].
      exists (ATake 0). simpl. rewrite Ew, Eq. simpl. by eexists.
Qed.

Lemma no_work inputs c : pool_ok inputs c -> work c = 0 ->
  Forall (fun p => p_result p <> None) (calls c) /\ tasksQ c = [] /\ Forall (fun w => is_waiting w = true \/ w = Returned) (workers c).
Proof.
  intros Hok Hz. unfold work in Hz.
  assert (Hc : Forall (fun p => 0 <= call_work p) (calls c)) by
    (apply Forall_true; intros p; unfold call_work, zlen; destruct (p_result p); lia).
  assert (Ht : Forall (fun p => 0 <= task_work p) (tasksQ c)) by (apply Forall_true; intros p; unfold task_work, zlen; lia).
  assert (Hw : Forall (fun w => 0 <= worker_work w /\ (worker_work w = 0 -> is_waiting w = true \/ w = Returned)) (workers c)).
  { eapply Forall_impl; [apply Hok|]. intros [|op|]; simpl; auto with lia. intros [_ Hr].
    apply Forall2_length in Hr. rewrite length_take in Hr. unfold zlen. lia. }
  pose proof (zsum_nonneg _ _ Hc). pose proof (zsum_nonneg _ _ Ht).
  pose proof (zsum_nonneg worker_work (workers c) (Forall_impl _ _ _ Hw (fun w h => proj1 h))). split_and!.
  - assert (Hs : zsum call_work (calls c) = 0) by lia. apply zsum_zero in Hs; [|done].
    eapply Forall_impl; [exact Hs|]. intros p. unfold call_work, zlen. destruct (p_result p); [done|lia].
  - assert (Hs : zsum task_work (tasksQ c) = 0) by lia. apply zsum_zero in Hs; [|done].
    pose proof (po_batches _ _ Hok) as Hb. destruct (tasksQ c) as [|op q]; [done|]. exfalso.
    inversion Hb as [|? ? Hop _]; inversion Hs as [|? ? Hop' _]; subst. unfold batch_ok, task_work, zlen in *. lia.
  - assert (Hs : zsum worker_work (workers c) = 0) by lia.
    apply zsum_zero in Hs; [|eapply Forall_impl; [exact Hw|by intros ? []]].
    rewrite Forall_forall in *. intros w Hin. by apply (Hw w Hin), Hs.
Qed.

Lemma reachable_workers n keys inputs c : reachable (Start n keys inputs) c -> length (workers c) = Z.to_nat n.
Proof.
  induction 1 as [|a c c' _ IH Hs]; [apply length_replicate|]. rewrite <- IH. apply step_inv in Hs.
  destruct a as [i|i|i|w|w|w|w| |k]; repeat match type of Hs with ex _ => destruct Hs as [? Hs] end;
    destruct_and?; subst; simpl; by rewrite ?length_insert.
Qed.

(** C34: in every state of the pool the events given to [Enqueue] are, each
    once, validated, with a worker, queued, or still to be queued; the queue
    never exceeds its capacity.  Once no work is left, and unless the pool was
    stopped, every call has returned without error and the callbacks have got
    every event exactly once, with the result of its own check. *)
Theorem pool_validates_once n keys inputs c :
  reachable (Start n keys inputs) c ->
  all_events c ≡ₚ concat inputs /\ zlen (tasksQ c) <= maxQueuedTasks /\
  (quit c = false -> work c = 0 ->
   (validated c ≫= t_Events) ≡ₚ concat inputs /\
   Forall (fun p => p_result p = Some (Ret tt)) (calls c) /\
   Forall (fun op => Forall2 (fun e r => exists k, r = heavy_Validate k e) (t_Events op) (t_Result op)) (validated c)).
Proof.
  intros Hr. apply reachable_ok in Hr as Hok. split_and!; [apply Hok..|]. intros Hq Hz.
  destruct (no_work _ _ Hok Hz) as (Ec & Et & Ew). destruct (po_quit _ _ Hok Hq) as [_ Hcalls].
  assert (Hret : Forall (fun p => p_result p = Some (Ret tt)) (calls c)).
  { apply Forall_forall. intros p Hp. rewrite Forall_forall in Ec, Hcalls. by destruct (Hcalls p Hp); [destruct (Ec p Hp)|]. }
  split_and!; [|done|].
  - rewrite <- (po_events _ _ Hok). unfold all_events. rewrite Et.
    rewrite (bind_nil_all (workers c)), (bind_nil_all (calls c)); [by rewrite !app_nil_r|..].
    + intros p Hp. rewrite Forall_forall in Hret. pose proof (po_calls _ _ Hok) as Hcl. rewrite Forall_forall in Hcl.
      destruct (Hcl p Hp) as [H0 H1]. specialize (H1 (Hret p Hp)). apply drop_ge. unfold zlen in H1. lia.
    + intros w Hw. rewrite Forall_forall in Ew. specialize (Ew w Hw). by destruct w, Ew.
  - eapply Forall_impl; [apply Hok|]. intros op [Hl Hop]. unfold results_ok in Hop. by rewrite Hl, firstn_all in Hop.
Qed.

(** C35: the pool never blocks: with at least one thread and while it is not
    stopped, every action of the pool decreases the work that is left, and as
    long as there is work some action is possible.  So every maximal run
    validates everything that was given to it. *)
Theorem pool_completes n keys inputs c :
  0 < n -> reachable (Start n keys inputs) c -> quit c = false ->
  (work c <> 0 -> exists a c', internal a /\ step a c = Some c') /\
  (forall a c', internal a -> step a c = Some c' -> quit c' = false /\ 0 <= work c' < work c).
Proof.
  intros Hn Hr Hq. apply reachable_ok in Hr as Hok. split.
  - apply (progress _ _ Hok); [|done]. intros E. assert (Hl : length (workers c) = Z.to_nat n) by by apply (reachable_workers _ keys inputs).
    rewrite E in Hl. simpl in Hl. lia.
  - intros a c' Ha Hs. destruct (work_decreases _ _ _ _ Hok Ha Hs) as [H0 Hd]. apply step_inv in Hs.
    destruct Hd as [Hd|[w ->]]; [|destruct Hs as (_ & ? & _); congruence]. split; [|lia].
    destruct a as [i|i|i|w|w|w|w| |k]; repeat match type of Hs with ex _ => destruct Hs as [? Hs] end;
      destruct_and?; by subst.
Qed.

End Pool.

(** Two threads, one call with an event. *)
Definition sample_start : Checker := Start 2 (Some sample_keys) [[sample_built]].

Definition run `{BaseChecks V} (l : list action) (c : Checker) : option Checker :=
  foldl (fun o a => c ← o; step a c) (Some c) l.

Lemma run_reachable `{BaseChecks V} l c0 c c' : reachable c0 c -> run l c = Some c' -> reachable c0 c'.
Proof.
  revert c. induction l as [|a l IH]; intros c Hr; unfold run; simpl; [by intros [= <-]|].
  destruct (step a c) as [c1|] eqn:E.
  - apply IH. by eapply reach_step.
  - clear. intros Hx. exfalso. revert Hx. induction l as [|a' l IH]; simpl; [discriminate|done].
Qed.

Definition sample_done : Checker := Eval vm_compute in
  default sample_start (run (H := base_checks_any) [ASend 0; ATake 1; AValidate 1; AReturn 0; ADeliver 1] sample_start).

Lemma sample_done_reachable : reachable (H := base_checks_any) sample_start sample_done.
Proof.
  apply (run_reachable [ASend 0; ATake 1; AValidate 1; AReturn 0; ADeliver 1] _ sample_start); [constructor|].
  vm_compute. reflexivity.
Qed.

Lemma pool_validates_once_witness : quit sample_done = false /\ work sample_done = 0 /\
  t_Result <$> validated sample_done = [[Ret tt]] /\ (validated sample_done ≫= t_Events) ≡ₚ concat [[sample_built]].
Proof.
  destruct (pool_validates_once (H := base_checks_any) 2 (Some sample_keys) [[sample_built]] sample_done
              sample_done_reachable) as (_ & _ & Hd).
  split; [reflexivity|]. split; [vm_compute; reflexivity|]. split; [reflexivity|].
  apply Hd; vm_compute; reflexivity.
Defined.

Lemma pool_completes_witness : exists a c', internal a /\ step (H := base_checks_any) a sample_start = Some c'.
Proof.
  apply (pool_completes (H := base_checks_any) 2 (Some sample_keys) [[sample_built]] sample_start).
  - lia.
  - constructor.
  - reflexivity.
  - vm_compute. discriminate.
Defined.

End Heavycheck.
