(* ===== verification/Emitter.v ===== *)
(** * gossip/emitter: creating and emitting events

    The emitter reads the store and the network through an interface
    ([EmitterWorld]); here it is a pair of classes, [EmitterBase] with the
    emitter's own state, the clock and the peers, and [EmitterWorld] with the
    calls that reach the store, the engine and the service.  Search of parents,
    the double-sign heuristics and the signature are code of other packages and
    parameters.  The theorems describe the event an emitter creates and the
    state it keeps. *)

From Stdlib Require Import ZArith Lia Bool.
From stdpp Require Import base list numbers option strings gmap.
From S2P Require Import Prelude Kv Sha256 Fast Event Serializer EventBuild Store StoreSpec Genesis Checks.
Import Event Serializer EventBuild StoreSpec Genesis.
Local Open Scope Z_scope.

(** ** time.Time: nanoseconds since the Unix epoch *)

(** [Time.Sub] saturates at the range of [time.Duration]. *)
Definition time_sub (a b : Z) : Z := Z.max (- 2 ^ 63) (Z.min (2 ^ 63 - 1) (a - b)).

(** The zero [time.Time] is the first instant of year 1. *)
Definition zero_time : Z := - 62135596800 * second.

Definition millisecond : Z := 1000000.
Definition minute : Z := 60 * second.

(** The status that the heuristics of lachesis-base read. *)
Record SyncStatus := MkSyncStatus {
  ss_Now : Z; ss_PeersNum : Z; ss_Startup : Z; ss_LastConnected : Z; ss_P2PSynced : Z;
  ss_ExternalSelfEventCreated : Z; ss_ExternalSelfEventDetected : Z
}.

(** Code of lachesis-base and go-ethereum: the heuristics, the search of parents
    (the number stands for the random choices of the strategy), signing. *)
Class EmitterExt := {
  SyncedToEmit : SyncStatus -> Z -> Z * option error;
  DetectParallelInstance : SyncStatus -> Z -> bool;
  FindBestParents : Z -> list (list Z) -> option (list Z) -> Z -> list (list Z);
  private_key : Type;
  crypto_Sign : list Z -> option private_key -> go (list Z)
}.

(** Documented behaviour: at most [max] distinct parents, the self-parent first,
    the others among the options; a signature has 65 bytes (r, s and v). *)
Class EmitterExtLaws (X : EmitterExt) : Prop := {
  best_parents_max : forall max opts sp r, 0 < max -> zlen (FindBestParents max opts sp r) <= max;
  best_parents_self : forall max opts sp r, head (FindBestParents max opts (Some sp) r) = Some sp;
  best_parents_among : forall max opts sp r p, p ∈ FindBestParents max opts sp r -> p ∈ opts \/ sp = Some p;
  best_parents_nodup : forall max opts sp r, NoDup (FindBestParents max opts sp r);
  sign_bytes : forall h k, match crypto_Sign h k with
                           | Ret s => length s = 65%nat /\ is_bytes s
                           | Err _ => True
                           | _ => False
                           end
}.

Module Emitter.

(** ** config.go *)

Record EmitIntervals := MkEmitIntervals {
  ei_Min : Z; ei_Max : Z; DoublesignProtection : Z; ParallelInstanceProtection : Z }.

Record EmitterConfig := MkEmitterConfig {
  ec_Validator : Z; BytesPerSec : Z; PayloadSize : Z; EpochTailLength : Z; ec_EmitIntervals : EmitIntervals }.

Definition DefaultEmitterConfig : EmitterConfig :=
  MkEmitterConfig 0 0 0 3 (MkEmitIntervals (50 * millisecond) (12 * minute) (30 * minute) 0).

Definition FakeEmitterConfig : EmitterConfig :=
  let cfg := DefaultEmitterConfig in
  let ei := ec_EmitIntervals cfg in
  let max := 10 * second in
  MkEmitterConfig (ec_Validator cfg) (BytesPerSec cfg) (PayloadSize cfg) (EpochTailLength cfg)
    (MkEmitIntervals (ei_Min ei) max (Z.quot (max * 3) 2) (ParallelInstanceProtection ei)).

(** [r1] and [r2] are the results of [r.Int63n] on the two bounds. *)
Definition RandomizeEmitTime (cfg : EmitIntervals) (r1 r2 : Z) : EmitIntervals :=
  let max := if ei_Max cfg >? 10 then i64 (ei_Max cfg - Z.quot (ei_Max cfg) 10 + r1) else ei_Max cfg in
  let ds := if DoublesignProtection cfg >? 10 then i64 (DoublesignProtection cfg + r2) else DoublesignProtection cfg in
  MkEmitIntervals (ei_Min cfg) max ds (ParallelInstanceProtection cfg).

(** ** emitter.go: the state *)

Record syncStatus := MkSync {
  startup : Z; lastConnected : Z; p2pSynced : Z; prevLocalEmittedID : list Z;
  externalSelfEventCreated : Z; externalSelfEventDetected : Z }.

Section Definitions.
Context `{EmitterExt}.

Record Emitter := MkEmitter {
  em_net : NetConfig;
  em_config : EmitterConfig;
  em_privKey : option private_key;
  em_sync : syncStatus;
  prevEmittedTime : Z;
  intervals : EmitIntervals;
  meter : Z;                     (** bytes counted by the throughput meter *)
  done : bool                    (** emission has been started *)
}.

Definition set_sync x (e : Emitter) := MkEmitter (em_net e) (em_config e) (em_privKey e) x (prevEmittedTime e) (intervals e) (meter e) (done e).
Definition set_prevEmittedTime x (e : Emitter) := MkEmitter (em_net e) (em_config e) (em_privKey e) (em_sync e) x (intervals e) (meter e) (done e).
Definition set_meter x (e : Emitter) := MkEmitter (em_net e) (em_config e) (em_privKey e) (em_sync e) (prevEmittedTime e) (intervals e) x (done e).
Definition set_privKey x (e : Emitter) := MkEmitter (em_net e) (em_config e) x (em_sync e) (prevEmittedTime e) (intervals e) (meter e) (done e).
Definition set_done x (e : Emitter) := MkEmitter (em_net e) (em_config e) (em_privKey e) (em_sync e) (prevEmittedTime e) (intervals e) (meter e) x.

Definition New (net : NetConfig) (config : EmitterConfig) : Emitter :=
  MkEmitter net config None (MkSync zero_time zero_time zero_time (replicate 32 0) zero_time zero_time)
    zero_time (ec_EmitIntervals config) 0 false.

End Definitions.

(** The emitter inside a world, with the clock, randomness and the peers. *)
Class EmitterBase (X : EmitterExt) (W : Type) := {
  w_emitter : W -> Emitter;
  w_set_emitter : Emitter -> W -> W;
  time_Now : stm W Z;
  rand_source : stm W Z;
  IsSynced : stm W bool;
  PeersNum : stm W Z;
  w_stamp : Stamp W
}.
#[export] Existing Instance w_stamp | 10.

(** The calls of [EmitterWorld] and of the [Reader] in reader.go. *)
Class EmitterWorld (X : EmitterExt) (W V : Type) `{!EmitterBase X W} := {
  w_GetEpochValidators : stm W (V * Z);
  w_GetEvent : list Z -> stm W (option Event);
  w_GetLastEvent : Z -> stm W (option (list Z));
  w_GetHeads : stm W (list (list Z));
  w_ProcessEvent : Event -> stm W (option error);
  w_Build : MutableEvent -> stm W (MutableEvent * option error);
  w_Validate : Event -> list Event -> stm W (go unit)
}.

Section Status.
Context {X : EmitterExt} {W : Type} `{!EmitterBase X W}.

Definition get_em : stm W Emitter := gets w_emitter.
Definition mod_em (f : Emitter -> Emitter) : stm W unit := modify (fun w => w_set_emitter (f (w_emitter w)) w).
Definition mod_sync (f : syncStatus -> syncStatus) : stm W unit := mod_em (fun em => set_sync (f (em_sync em)) em).

Definition currentSyncStatus : stm W SyncStatus :=
  em ← get_em;
  now ← time_Now;
  peers ← PeersNum;
  let s := em_sync em in
  mret (MkSyncStatus now peers (startup s) (lastConnected s) (p2pSynced s)
          (externalSelfEventCreated s) (externalSelfEventDetected s)).

Definition isSyncedToEmit : stm W (Z * option error) :=
  em ← get_em;
  if DoublesignProtection (intervals em) =? 0 then mret (0, None)
  else st ← currentSyncStatus; mret (SyncedToEmit st (DoublesignProtection (intervals em))).

Definition logSyncStatus (r : Z * option error) : bool :=
  match snd r with None => true | Some _ => false end.

(** [errlock.Permanent] writes the lock file and ends the process. *)
Definition onNewExternalEvent (e : Event) : stm W unit :=
  now ← time_Now;
  _ ← mod_sync (fun s => MkSync (startup s) (lastConnected s) (p2pSynced s) (prevLocalEmittedID s)
                  (externalSelfEventCreated s) now);
  _ ← mod_sync (fun s => MkSync (startup s) (lastConnected s) (p2pSynced s) (prevLocalEmittedID s)
                  (Time (CreationTime e)) (externalSelfEventDetected s));
  em ← get_em;
  status ← currentSyncStatus;
  if DetectParallelInstance status (ParallelInstanceProtection (ec_EmitIntervals (em_config em)))
  then lift (Exits "Node is permanently stopping due to an issue")
  else mret tt.

Definition OnNewEvent (e : Event) : stm W unit :=
  em ← get_em;
  if (ec_Validator (em_config em) =? 0) || negb (ec_Validator (em_config em) =? creator (base e)) then mret tt
  else if bool_decide (prevLocalEmittedID (em_sync em) = id (base e)) then mret tt
  else onNewExternalEvent e.

Definition OnNewEpoch {V} (newValidators : V) (newEpoch : Z) : stm W unit := mret tt.

(** [idx.Frame] is 32 bits wide: the subtraction wraps. *)
Definition isEpochTail (em : Emitter) (fr : Z) : bool :=
  fr >=? u32 (u32 (MaxEpochBlocks (Dag (em_net em))) - EpochTailLength (em_config em)).

Definition isAllowedToEmit (em : Emitter) (e : MutableEvent) : bool :=
  let passedTime := time_sub (Time (MutableCreationTime e)) (prevEmittedTime em) in
  if (passedTime <? ei_Max (intervals em)) && (zlen (payload (mext e)) =? 0) && negb (isEpochTail em (frame (mbase e)))
  then false else true.

End Status.

Section Emit.
Context {X : EmitterExt} {W V : Type} `{!EmitterBase X W, !EmitterWorld X W V, LachesisBase}.

Definition loadPrevEmitTime : stm W Z :=
  em ← get_em;
  if ec_Validator (em_config em) =? 0 then mret (prevEmittedTime em)
  else
    prevEventID ← w_GetLastEvent (ec_Validator (em_config em));
    match prevEventID with
    | None => mret (prevEmittedTime em)
    | Some i =>
        prevEvent ← w_GetEvent i;
        match prevEvent with
        | None => mret (prevEmittedTime em)
        | Some e => mret (Time (CreationTime e))
        end
    end.

Definition init : stm W unit :=
  now1 ← time_Now;
  _ ← mod_sync (fun s => MkSync (startup s) now1 (p2pSynced s) (prevLocalEmittedID s)
                  (externalSelfEventCreated s) (externalSelfEventDetected s));
  now2 ← time_Now;
  _ ← mod_sync (fun s => MkSync now2 (lastConnected s) (p2pSynced s) (prevLocalEmittedID s)
                  (externalSelfEventCreated s) (externalSelfEventDetected s));
  '(validators, epoch) ← w_GetEpochValidators;
  t ← loadPrevEmitTime;
  _ ← mod_em (set_prevEmittedTime t);
  OnNewEpoch (V := V) validators epoch.

(** [DagIndex] is nil in the service: the strategy is the random one. *)
Definition findBestParents (myValidatorID : Z) : stm W (option (list Z) * list (list Z)) :=
  em ← get_em;
  selfParent ← w_GetLastEvent myValidatorID;
  heads ← w_GetHeads;
  r ← rand_source;
  mret (selfParent, FindBestParents (MaxParents (Dag (em_net em))) heads selfParent r).

(** The loop that loads the parents and computes the largest Lamport time. *)
Fixpoint load_parents (ps : list (list Z)) (maxLamport : Z) : stm W (list Event * Z) :=
  match ps with
  | [] => mret ([], maxLamport)
  | p :: ps =>
      parent ← w_GetEvent p;
      match parent with
      | None => lift (Exits "Emitter: head not found")
      | Some pe =>
          '(es, m) ← load_parents ps (Z.max maxLamport (lamport (base pe)));
          mret (pe :: es, m)
      end
  end.

(** The unsigned event, from its parents. *)
Definition fill_event (validator epoch : Z) (ps : list (list Z)) (selfParent : option Event)
    (maxLamport now : Z) (pl : list Z) : MutableEvent :=
  let selfParentSeq := match selfParent with Some e => seq (base e) | None => 0 end in
  let selfParentTime := match selfParent with Some e => CreationTime e | None => 0 end in
  let m := MutableEvent_zero in
  let m := SetEpoch m epoch in
  let m := SetSeq m (u32 (selfParentSeq + 1)) in
  let m := SetCreator m validator in
  let m := SetParents m ps in
  let m := SetLamport m (u32 (maxLamport + 1)) in
  let m := SetRawTime m (MaxTimestamp (u64 now) (u64 (selfParentTime + 1))) in
  SetPayload m pl.

(** [createEvent] after the consensus fields are set: pace, signature, checks. *)
Definition sign_and_build (em : Emitter) (mutEvent : MutableEvent) (parentEvents : list Event) : stm W (option Event) :=
  if negb (isAllowedToEmit em mutEvent) then mret None
  else
    h ← lift (MutableHashToSign mutEvent);
    match crypto_Sign h (em_privKey em) with
    | Ret sigRSV =>
        s ← lift (slice_range (Slice sigRSV []) 0 SigSize);
        sg ← lift (BytesToSignature (vis s));
        event ← lift (Build (SetSig mutEvent sg));
        r ← w_Validate event parentEvents;
        match r with
        | Ret _ => mret (Some event)
        | Err _ => mret None
        | Panics p => lift (Panics p)
        | Exits m => lift (Exits m)
        end
    | Err _ => mret None
    | Panics p => lift (Panics p)
    | Exits m => lift (Exits m)
    end.

Definition createEvent (pl : list Z) : stm W (option Event) :=
  em ← get_em;
  let validator := ec_Validator (em_config em) in
  if validator =? 0 then mret None
  else
    st ← isSyncedToEmit;
    if negb (logSyncStatus st) then mret None
    else
      '(selfParent, ps) ← findBestParents validator;
      '(parentEvents, maxLamport) ← load_parents ps 0;
      selfParentEvent ← match selfParent with
                        | None => mret None
                        | Some _ => e ← lift (go_index parentEvents 0); mret (Some e)
                        end;
      '(_, epoch) ← w_GetEpochValidators;
      now ← time_Now;
      let mutEvent := fill_event validator epoch ps selfParentEvent maxLamport now pl in
      '(mutEvent, err) ← w_Build mutEvent;
      match err with
      | Some _ => mret None
      | None => sign_and_build em mutEvent parentEvents
      end.

(** [neededBytes] is the float computation of the test load, given. *)
Definition getTestPayload (neededBytes : Z) : stm W (list Z) :=
  em ← get_em;
  let payloadSize := if meter em <? neededBytes then PayloadSize (em_config em) else 0 in
  if payloadSize =? 0 then mret []
  else
    seed ← time_Now;
    mret ((fun i => u8 (i64 (i64 seed * i))) <$> seqZ 0 payloadSize).

Definition EmitEvent (neededBytes : Z) : stm W (option Event) :=
  em ← get_em;
  if ec_Validator (em_config em) =? 0 then mret None
  else
    pl ← getTestPayload neededBytes;
    e ← createEvent pl;
    match e with
    | None => mret None
    | Some e =>
        _ ← mod_sync (fun s => MkSync (startup s) (lastConnected s) (p2pSynced s) (id (base e))
                        (externalSelfEventCreated s) (externalSelfEventDetected s));
        err ← w_ProcessEvent e;
        match err with
        | Some _ => mret None
        | None =>
            _ ← mod_em (set_prevEmittedTime (Time (CreationTime e)));
            _ ← mod_em (fun em => set_meter (u64 (meter em + zlen (payload (ext e)))) em);
            mret (Some e)
        end
    end.

Definition StartEventEmission (key : option private_key) : stm W unit :=
  em ← get_em;
  if done em then mret tt
  else
    _ ← mod_em (set_done true);
    _ ← mod_em (set_privKey key);
    init.

Definition StopEventEmission : stm W unit :=
  em ← get_em;
  if negb (done em) then mret tt else mod_em (set_done false).

(** One turn of the ticker. *)
Definition on_tick (neededBytes : Z) : stm W unit :=
  n ← PeersNum;
  _ ← (if n =? 0
       then now ← time_Now;
            mod_sync (fun s => MkSync (startup s) now (p2pSynced s) (prevLocalEmittedID s)
                        (externalSelfEventCreated s) (externalSelfEventDetected s))
       else mret tt);
  synced ← IsSynced;
  _ ← (if negb synced
       then now ← time_Now;
            mod_sync (fun s => MkSync (startup s) (lastConnected s) now (prevLocalEmittedID s)
                        (externalSelfEventCreated s) (externalSelfEventDetected s))
       else mret tt);
  now ← time_Now;
  em ← get_em;
  if ei_Min (intervals em) <=? time_sub now (prevEmittedTime em)
  then _ ← EmitEvent neededBytes; mret tt
  else mret tt.

End Emit.

(** ** What the emitter relies on *)

(** What a world holds, which events with their parents its checks accept, and
    its invariant. *)
Class EmitterView (W : Type) := {
  v_event : W -> list Z -> option Event;
  v_last : W -> Z -> option (list Z);
  v_epoch : W -> Z;
  v_valid : W -> Event -> list Event -> Prop;
  v_ok : W -> Prop
}.

(** Nothing the emitter can observe has changed, clock and randomness apart. *)
Definition same_world `{EmitterView W} {X} `{!EmitterBase X W} (w w' : W) : Prop :=
  (v_ok w -> v_ok w') /\ w_emitter w' = w_emitter w /\ (forall i, v_event w' i = v_event w i) /\
  (forall v, v_last w' v = v_last w v) /\ v_epoch w' = v_epoch w /\ (v_ok w -> forall e ps, v_valid w' e ps <-> v_valid w e ps).

(** A stored event whose id shows the current epoch. *)
Definition in_epoch `{LachesisBase, EmitterView W} (w : W) (i : list Z) : Prop :=
  is_Some (v_event w i) /\ take 4 i = epoch_bytes (v_epoch w).

(** The store and the engine behind the interface: reads return what the store
    holds and change nothing, heads and last events are stored and of the epoch,
    [Build] sets the consensus fields only, and the checks return their verdict. *)
Class EmitterWorldLaws (X : EmitterExt) (W V : Type)
    `{LachesisBase, !EmitterBase X W, !EmitterWorld X W V, !EmitterView W, !MayExit} : Prop := {
  world_set_emitter : forall em w, w_emitter (w_set_emitter em w) = em;
  world_set_view : forall em w, (v_ok w -> v_ok (w_set_emitter em w)) /\
    (forall i, v_event (w_set_emitter em w) i = v_event w i) /\
    (forall v, v_last (w_set_emitter em w) v = v_last w v) /\ v_epoch (w_set_emitter em w) = v_epoch w /\
    (forall e ps, v_valid (w_set_emitter em w) e ps <-> v_valid w e ps);
  Now_ok : forall w, wp time_Now (fun _ w' => same_world w w') w;
  rand_ok : forall w, wp rand_source (fun _ w' => same_world w w') w;
  PeersNum_ok : forall w, wp PeersNum (fun _ w' => same_world w w') w;
  validators_ok : forall w, v_ok w -> wp w_GetEpochValidators (fun r w' => snd r = v_epoch w /\ same_world w w') w;
  GetEvent_ok : forall w i, v_ok w -> wp (w_GetEvent i) (fun r w' => r = v_event w i /\ same_world w w') w;
  GetLastEvent_ok : forall w v, v_ok w -> is_uint 32 v -> wp (w_GetLastEvent v) (fun r w' =>
    r = v_last w v /\ (forall i, r = Some i -> in_epoch w i) /\ same_world w w') w;
  GetHeads_ok : forall w, v_ok w -> wp w_GetHeads (fun r w' =>
    Forall (in_epoch w) r /\ same_world w w') w;
  Build_ok : forall w m, v_ok w -> wp (w_Build m) (fun r w' => same_world w w' /\
    (snd r = None -> exists f b, is_uint 32 f /\ fst r = SetIsRoot (SetFrame m f) b)) w;
  Validate_ok : forall w e ps, v_ok w -> coherent e -> length ps = length (parents (base e)) -> wp (w_Validate e ps) (fun r w' => same_world w w' /\
    ((r = Ret tt /\ v_valid w e ps) \/ ((exists x, r = Err x) /\ ~ v_valid w e ps))) w
}.

Section Created.
Context {X : EmitterExt} {XL : EmitterExtLaws X} {W V : Type} {ME : MayExit} {EB : EmitterBase X W}
  {EW : EmitterWorld X W V} {EV : EmitterView W} {LB : LachesisBase} {EL : EmitterWorldLaws X W V}.

#[global] Instance same_world_preorder : PreOrder (same_world (W := W)).
Proof.
  split; [intros w; by split_and!|]. intros w1 w2 w3 (A1 & B1 & C1 & D1 & E1 & F1) (A2 & B2 & C2 & D2 & E2 & F2).
  split_and!; [auto|congruence|intros; by rewrite C2|intros; by rewrite D2|congruence|]. intros Hok e ps. rewrite F2 by auto. auto.
Qed.

(** Room in the 32-bit counters and in the timestamps of the stored events. *)
Definition counters_room (w : W) : Prop := forall i e, v_event w i = Some e ->
  0 <= lamport (base e) < 2 ^ 32 - 1 /\ 0 <= seq (base e) < 2 ^ 32 - 1 /\ 0 <= rawTime (base e) < 2 ^ 64 - 1 /\
  id (base e) = i /\ id_ok i.

Definition config_ok (em : Emitter) : Prop :=
  is_uint 32 (ec_Validator (em_config em)) /\ 0 < MaxParents (Dag (em_net em)) < 2 ^ 32.

(** The parents [pes] of an event, loaded. *)
Definition parents_loaded (w : W) (ps : list (list Z)) (pes : list Event) : Prop :=
  Forall2 (fun p pe => v_event w p = Some pe) ps pes.

(** The event carries the signature of its hash by the emitter's key: the first 64
    bytes of what [crypto.Sign] returns. *)
Definition signed_by (key : option private_key) (e : Event) : Prop :=
  exists h sigRSV, HashToSign e = Ret h /\ crypto_Sign h key = Ret sigRSV /\ sig (ext e) = take 64 sigRSV.

(** The event is a well-formed child of stored events, in the current epoch,
    signed by the emitter, and the checks accept it. *)
Record created_ok (w : W) (em : Emitter) (pl : list Z) (e : Event) : Prop := {
  cr_storable : storable e;
  cr_epoch : epoch (base e) = v_epoch w;
  cr_creator : creator (base e) = ec_Validator (em_config em);
  cr_payload : payload (ext e) = pl;
  cr_few : zlen (parents (base e)) <= MaxParents (Dag (em_net em));
  cr_nodup : NoDup (parents (base e));
  cr_parents : exists pes, parents_loaded w (parents (base e)) pes /\
    lamport (base e) = 1 + foldr Z.max 0 ((fun p => lamport (base p)) <$> pes) /\ v_valid w e pes;
  cr_signed : signed_by (em_privKey em) e;
  cr_self : match v_last w (creator (base e)) with
            | None => seq (base e) = 1
            | Some i => head (parents (base e)) = Some i /\ exists sp, v_event w i = Some sp /\
                seq (base e) = 1 + seq (base sp) /\ rawTime (base sp) < rawTime (base e)
            end;
  cr_pace : pl <> [] \/ isEpochTail em (frame (base e)) = true \/
    ei_Max (intervals em) <= time_sub (Time (CreationTime e)) (prevEmittedTime em)
}.

Lemma same_ok w w' : same_world w w' -> v_ok w -> v_ok w'.
Proof. by intros [? _]. Qed.

Lemma load_parents_spec ps w m : v_ok w -> 0 <= m -> Forall (fun p => is_Some (v_event w p)) ps ->
  wp (load_parents ps m) (fun r w' => parents_loaded w ps (fst r) /\
    snd r = Z.max m (foldr Z.max 0 ((fun p => lamport (base p)) <$> fst r)) /\ same_world w w') w.
Proof.
  intros Hok Hm Hps. revert w m Hok Hm Hps. induction ps as [|p ps IH]; intros w m Hok Hm Hps; cbn [load_parents].
  - wp_run. split_and!; [constructor|simpl; lia|reflexivity].
  - inversion Hps as [|? ? [pe Hp] Hps']; subst. wp_run. eapply wp_mono; [by apply GetEvent_ok|].
    intros r w1 [-> H1]. rewrite Hp. wp_run. eapply wp_mono.
    + apply IH; [by eapply same_ok|lia|]. eapply Forall_impl; [exact Hps'|]. intros x Hx.
      destruct H1 as (_ & _ & He & _). by rewrite He.
    + intros [es mx] w2 (Hl & Hmx & H2). wp_run. cbn [fst snd] in *. split_and!; [|rewrite Hmx; csimpl; lia|by trans w1].
      constructor; [done|]. eapply Forall2_impl; [exact Hl|]. intros x y Hx. destruct H1 as (_ & _ & He & _).
      by rewrite <- He.
Qed.

Lemma isSyncedToEmit_spec w : wp isSyncedToEmit (fun _ w' => same_world w w') w.
Proof.
  unfold isSyncedToEmit, get_em. wp_run. apply wp_if; intros _; wp_run; [reflexivity|].
  unfold currentSyncStatus, get_em. wp_run. eapply wp_mono; [apply Now_ok|]. intros now w1 H1. wp_run.
  eapply wp_mono; [apply PeersNum_ok|]. intros n w2 H2. wp_run. by trans w1.
Qed.

Lemma isSyncedToEmit_willing w :
  wp isSyncedToEmit (fun r w' => same_world w w' /\ (DoublesignProtection (intervals (w_emitter w)) = 0 -> logSyncStatus r = true)) w.
Proof.
  apply wp_and; [apply isSyncedToEmit_spec|]. unfold isSyncedToEmit, get_em. wp_run.
  apply wp_if; intros Hd; wp_run; [done|]. unfold currentSyncStatus, get_em. wp_run.
  eapply wp_mono; [apply Now_ok|]. intros now w1 _. wp_run. eapply wp_mono; [apply PeersNum_ok|]. intros n w2 _. wp_run. lia.
Qed.

(** The parents the search picks are stored, few and distinct. *)
Lemma findBestParents_spec w v : v_ok w -> is_uint 32 v -> config_ok (w_emitter w) ->
  wp (findBestParents v) (fun r w' => fst r = v_last w v /\ same_world w w' /\
    Forall (in_epoch w) (snd r) /\ NoDup (snd r) /\
    zlen (snd r) <= MaxParents (Dag (em_net (w_emitter w))) /\
    forall i, fst r = Some i -> head (snd r) = Some i) w.
Proof.
  intros Hok Hv [_ Hmax]. unfold findBestParents, get_em. wp_run.
  eapply wp_mono; [by apply GetLastEvent_ok|]. intros sp w1 (-> & Hsp & H1). wp_run.
  eapply wp_mono; [apply GetHeads_ok; by eapply same_ok|]. intros hs w2 [Hh H2]. wp_run.
  eapply wp_mono; [apply rand_ok|]. intros r w3 H3. wp_run. cbn [fst snd]. split_and!.
  - done.
  - trans w1; [done|]. by trans w2.
  - apply Forall_forall. intros p Hp. apply best_parents_among in Hp as [Hp|Hp]; [|by apply Hsp].
    rewrite Forall_forall in Hh. destruct (Hh p Hp) as [Hs He]. destruct H1 as (_ & _ & H1 & _ & H5 & _). split; [by rewrite <- H1|by rewrite <- H5].
  - apply best_parents_nodup.
  - apply best_parents_max. lia.
  - intros i ->. apply best_parents_self.
Qed.

(** Nothing keeps the emitter from emitting: it is a validator without
    double-sign protection, and the engine, the signer and the checks agree. *)
Definition willing (em : Emitter) : Prop :=
  ec_Validator (em_config em) <> 0 /\ DoublesignProtection (intervals em) = 0 /\
  (forall w m, wp (w_Build m) (fun r _ => snd r = None) w) /\
  (forall h k, exists s, crypto_Sign h k = Ret s) /\
  (forall w e ps, wp (w_Validate e ps) (fun r _ => r = Ret tt) w).

(** The event that is filled in can be built. *)
Lemma fill_buildable w v ep ps sp mx now pl f b :
  counters_room w -> Forall (fun p => is_Some (v_event w p)) ps -> zlen ps < 2 ^ 32 ->
  is_uint 32 v -> is_uint 32 ep -> is_bytes pl -> zlen pl < 2 ^ 60 -> is_uint 32 f ->
  buildable (SetIsRoot (SetFrame (fill_event v ep ps sp mx now pl) f) b).
Proof.
  intros Hroom Hps Hlen Hv Hep Hpl Hsz Hf.
  split; [constructor|split; [split; [exact Hlen|exact Hsz]|reflexivity]].
  - exact Hep.
  - apply u32_uint.
  - exact Hf.
  - exact Hv.
  - apply u32_uint.
  - cbn [rawTime mbase SetIsRoot SetFrame fill_event SetPayload SetRawTime set_base set_ext]. rewrite MaxTimestamp_max.
    pose proof (u64_uint now). pose proof (u64_uint (match sp with Some e => CreationTime e | None => 0 end + 1)).
    unfold is_uint in *. lia.
  - by_decide.
  - eapply Forall_impl; [exact Hps|]. intros p [pe Hp]. by destruct (Hroom p pe Hp) as (_ & _ & _ & _ & ?).
  - exact Hpl.
  - by_decide.
Qed.

Lemma sign_suffix s : length s = 65%nat -> is_bytes s ->
  exists t, slice_range (Slice s []) 0 SigSize = Ret t /\ BytesToSignature (vis t) = Ret (vis t) /\
    length (vis t) = 64%nat /\ is_bytes (vis t) /\ vis t = take 64 s.
Proof.
  intros Hl Hb. unfold slice_range, slice_cap. cbn [vis spare]. rewrite app_nil_r.
  rewrite bool_decide_true by (unfold SigSize, zlen; lia). eexists. split; [reflexivity|]. cbn [vis].
  change (Z.to_nat (SigSize - 0)) with 64%nat. change (drop (Z.to_nat 0) s) with s.
  assert (Ht : length (take 64 s) = 64%nat) by (rewrite length_take; lia).
  split_and!; [|done|by apply Forall_take|done]. unfold BytesToSignature, zlen. by rewrite Ht.
Qed.

(** A built event of version 0 can be stored. *)
Lemma built_storable m s ev : buildable m -> version (mext m) = 0 ->
  Forall (fun p => take 4 p = epoch_bytes (epoch (mbase m))) (parents (mbase m)) -> length s = 64%nat -> is_bytes s ->
  coherent ev -> same_fields ev (immutable (SetSig m s)) -> storable ev.
Proof.
  intros ([] & [Hp Hl] & _) Hv Hep Hsl Hsb Hc (E1 & E2 & E3 & _ & E5 & E6 & E7 & E8 & E9 & E10 & E11).
  cbn in E1, E2, E3, E5, E6, E7, E8, E9, E10, E11. constructor; [constructor|split| | |exact Hc]; unfold parents_in_epoch; congruence || (by rewrite ?E1, ?E2, ?E3, ?E5, ?E6, ?E7, ?E8, ?E9, ?E10, ?E11).
Qed.

(** The event built from what was filled in follows the rules. *)
Lemma created_from w em v ps pes sp now pl f b s ev :
  em = w_emitter w -> counters_room w -> parents_loaded w ps pes -> NoDup ps ->
  zlen ps <= MaxParents (Dag (em_net em)) -> v = ec_Validator (em_config em) ->
  match v_last w v with None => sp = None | Some i => head ps = Some i /\ sp = head pes /\ is_Some sp end ->
  let m := SetIsRoot (SetFrame (fill_event v (v_epoch w) ps sp (foldr Z.max 0 ((fun p => lamport (base p)) <$> pes)) now pl) f) b in
  buildable m -> Forall (fun p => take 4 p = epoch_bytes (v_epoch w)) ps -> length s = 64%nat -> is_bytes s ->
  isAllowedToEmit em m = true -> coherent ev -> same_fields ev (immutable (SetSig m s)) -> signed_by (em_privKey em) ev ->
  v_valid w ev pes -> created_ok w em pl ev.
Proof.
  intros Hem Hroom Hpes Hnd Hfew Hv Hsp m Hbd Hep Hsl Hsb Hall Hc Hsame Hsig Hval.
  pose proof (built_storable m s ev Hbd eq_refl Hep Hsl Hsb Hc Hsame) as Hst. clear Hbd Hep Hsl Hsb Hc.
  destruct Hsame as (E1 & E2 & E3 & _ & E5 & E6 & E7 & E8 & _ & E10 & _).
  assert (Hmx : 0 <= foldr Z.max 0 ((fun p => lamport (base p)) <$> pes) < 2 ^ 32 - 1).
  { clear -Hroom Hpes. induction Hpes as [|p pe ps pes Hp _ IH]; csimpl; [lia|].
    destruct (Hroom p pe Hp) as (? & _). lia. }
  subst m. cbn in E1, E2, E3, E5, E6, E7, E8, E10.
  constructor; rewrite ?E1, ?E2, ?E3, ?E5, ?E6, ?E7, ?E8, ?E10; try done.
  - exists pes. split_and!; [done| |done]. rewrite u32_id by (unfold is_uint; lia). lia.
  - destruct (v_last w v) as [i|]; [|by subst sp].
    destruct Hsp as (Hh & -> & [e He]). split; [done|]. rewrite He in *. exists e.
    destruct Hpes as [|p pe ps pes Hp Hpes]; [discriminate|]. simpl in Hh, He. injection Hh as ->. injection He as ->.
    destruct (Hroom _ _ Hp) as (_ & Hs & Ht & _). split; [done|]. rewrite u32_id by (unfold is_uint; lia). split; [lia|].
    rewrite MaxTimestamp_max, (u64_id (CreationTime e + 1)) by (unfold is_uint, CreationTime; lia). unfold CreationTime. lia.
  - unfold CreationTime at 1. rewrite E8. clear - Hall. unfold isAllowedToEmit, MutableCreationTime in Hall.
    cbn [rawTime frame mbase mext payload SetIsRoot SetFrame fill_event SetPayload SetRawTime SetLamport SetParents SetCreator SetSeq
         SetEpoch set_base set_ext] in Hall.
    destruct (isEpochTail em f); [by right; left|]. destruct (Z.ltb_spec (time_sub
      (Time (MaxTimestamp (u64 now) (u64 (match sp with Some e => CreationTime e | None => 0 end + 1)))) (prevEmittedTime em))
      (ei_Max (intervals em))); [|by right; right].
    left. intros ->. discriminate.
Qed.

Lemma same_sym w w' : v_ok w -> same_world w w' -> same_world w' w.
Proof. intros Hok (A & B & C & D & E & F). split_and!; [done|done|intros; by rewrite C|intros; by rewrite D|done|]. intros _ e ps. by rewrite F. Qed.

Lemma stored_same w w' ps : same_world w w' ->
  Forall (fun p => is_Some (v_event w' p)) ps -> Forall (fun p => is_Some (v_event w p)) ps.
Proof. intros (_ & _ & C & _) Hp. eapply Forall_impl; [exact Hp|]. intros p. cbv beta. by rewrite C. Qed.

Lemma loaded_same w w' ps pes : same_world w w' -> parents_loaded w' ps pes -> parents_loaded w ps pes.
Proof. intros (_ & _ & C & _) Hp. eapply Forall2_impl; [exact Hp|]. intros p pe. cbv beta. by rewrite C. Qed.

Lemma max_nonneg l : 0 <= foldr Z.max 0 l.
Proof. induction l; simpl; lia. Qed.

(** The self-parent is the first of the loaded parents. *)
Lemma wp_self_parent w (sp : option (list Z)) (ps : list (list Z)) (pes : list Event) (Q : option Event -> W -> Prop) :
  length ps = length pes -> (forall i, sp = Some i -> head ps = Some i) ->
  (forall spe, match sp with None => spe = None | Some i => head ps = Some i /\ spe = head pes /\ is_Some spe end -> Q spe w) ->
  wp match sp with None => mret None | Some _ => e ← lift (go_index pes 0); mret (Some e) end Q w.
Proof.
  intros Hl Hh HQ. destruct sp as [i|]; [|wp_run; by apply HQ]. specialize (Hh i eq_refl).
  destruct ps, pes as [|pe pes]; simpl in *; try discriminate. wp_run. simpl. apply HQ. eauto.
Qed.

Lemma sign_and_build_spec w em m pes : v_ok w -> buildable m -> _hashToSign (mext m) = None ->
  length pes = length (parents (mbase m)) ->
  wp (sign_and_build (V := V) em m pes) (fun r w' => same_world w w' /\
    (forall e, r = Some e -> exists s, length s = 64%nat /\ is_bytes s /\ isAllowedToEmit em m = true /\ coherent e /\
      same_fields e (immutable (SetSig m s)) /\ signed_by (em_privKey em) e /\ v_valid w e pes) /\
    (willing em -> payload (mext m) <> [] -> is_Some r)) w.
Proof.
  intros Hok Hb Hn Hlen. unfold sign_and_build. apply wp_if; intros Hall.
  { wp_run. split_and!; [reflexivity|done|]. intros _ Hp. exfalso. revert Hall. unfold isAllowedToEmit.
    destruct (payload (mext m)) as [|x l]; [done|]. rewrite zlen_cons. pose proof (zlen_nonneg l).
    rewrite (proj2 (Z.eqb_neq (1 + zlen l) 0)) by lia. by rewrite andb_false_r. }
  apply negb_false_iff in Hall. wp_run.
  destruct (signed_build m (replicate 64 0) Hb Hn) as (h & _ & Eh & _); [done|by_decide|]. rewrite Eh. cbn [or_exit].
  pose proof (sign_bytes h (em_privKey em)) as Hs. revert Hs.
  destruct (crypto_Sign h (em_privKey em)) as [s|x|x|x] eqn:Es; intros Hs; [|wp_run|done..].
  - destruct Hs as [Hl Hby]. destruct (sign_suffix s Hl Hby) as (t & Et & Eb & Ht & Hbt & Etk). wp_run. rewrite Et. cbn [or_exit]. wp_run.
    rewrite Eb. cbn [or_exit]. wp_run.
    destruct (signed_build m (vis t) Hb Hn Ht Hbt) as (h' & ev & Eh' & Ebd & Hc & Ehs & Hsame). rewrite Ebd. cbn [or_exit]. wp_run.
    eapply wp_mono; [apply (wp_under _ (willing em)); [apply Validate_ok; [done|done|]; destruct Hsame as (_ & _ & _ & _ & _ & -> & _); exact Hlen|]; intros (_ & _ & _ & _ & Hv); apply Hv|].
    intros r w1 [[H1 [[-> Hval]|[[x ->] _]]] Hw]; wp_run.
    + split_and!; [done| |by eauto]. intros e [= <-]. exists (vis t). split_and!; try done. exists h, s. rewrite Eh in Eh'. injection Eh' as <-.
      split_and!; [done|done|]. rewrite <- Etk. by destruct Hsame as (_ & _ & _ & _ & _ & _ & _ & _ & _ & _ & ->).
    + split_and!; [done|done|]. intros Hwill. by specialize (Hw Hwill).
  - split_and!; [reflexivity|done|]. intros (_ & _ & _ & Hsg & _). destruct (Hsg h (em_privKey em)). congruence.
Qed.

Lemma createEvent_spec (w : W) (pl : list Z) :
  v_ok w -> config_ok (w_emitter w) -> counters_room w -> is_uint 32 (v_epoch w) ->
  is_bytes pl -> zlen pl < 2 ^ 60 ->
  wp (createEvent (V := V) pl) (fun r w' => same_world w w' /\
    (forall e, r = Some e -> created_ok w (w_emitter w) pl e) /\
    (willing (w_emitter w) -> pl <> [] -> is_Some r)) w.
Proof.
  intros Hok Hcfg Hroom Hep Hpl Hsz. unfold createEvent, get_em. wp_run.
  apply wp_if; intros Hv0; [wp_run; split_and!; [reflexivity|done|intros (? & _); lia]|]. wp_run.
  eapply wp_mono; [apply isSyncedToEmit_willing|]. intros st w1 [H1 Hst].
  apply wp_if; intros Hsync; [wp_run; split_and!; [done|done|intros (_ & Hds & _) _; by rewrite Hst in Hsync]|].
  wp_run. eapply wp_mono; [apply (findBestParents_spec w1); [by eapply same_ok|apply Hcfg|by destruct H1 as (_ & -> & _)]|].
  intros [sp ps] w2 (Hsp & H2 & Hst2 & Hnd & Hfew & Hhd). cbn [fst snd] in *. wp_run.
  pose proof (transitivity H1 H2) as H12. apply Forall_and in Hst2 as [Hst2 Hep2]. pose proof (stored_same _ _ _ H1 Hst2) as Hstored.
  assert (Hep1 : Forall (fun p => take 4 p = epoch_bytes (v_epoch w)) ps) by (destruct H1 as (_ & _ & _ & _ & <- & _); exact Hep2).
  pose proof H1 as (_ & Hem1 & _ & Hlast1 & _). rewrite Hlast1 in Hsp. rewrite Hem1 in Hfew.
  eapply wp_mono; [apply (load_parents_spec ps w2); [by eapply same_ok|lia|]|].
  { eapply stored_same; [|exact Hstored]. by apply same_sym. }
  intros [pes mx] w3 (Hl & Hmx & H3). cbn [fst snd] in *. wp_run.
  pose proof (transitivity H12 H3) as H13. pose proof (loaded_same _ _ _ _ H12 Hl) as Hloaded.
  rewrite Z.max_r in Hmx by apply max_nonneg. subst mx.
  eapply (wp_self_parent w3 sp ps pes); [eapply Forall2_length, Hl|exact Hhd|]. intros spe Hspe.
  wp_run. eapply wp_mono; [apply validators_ok; by eapply same_ok|]. intros [vs ep] w4 [Eep H4]. cbn [snd] in Eep. wp_run.
  eapply wp_mono; [apply Now_ok|]. intros now w5 H5. wp_run.
  pose proof (transitivity H13 (transitivity H4 H5)) as H15.
  eapply wp_mono; [apply (wp_under _ (willing (w_emitter w))); [apply Build_ok; by eapply same_ok|]; intros (_ & _ & Hbw & _); apply Hbw|].
  intros [m err] w6 [[H6 Hm] Hw]. cbn [fst snd] in *. destruct err as [x|].
  { wp_run. split_and!; [by trans w5|done|]. intros Hwill. by specialize (Hw Hwill). }
  destruct (Hm eq_refl) as (f & b & Hf & ->). clear Hm Hw.
  replace ep with (v_epoch w) in * by (destruct H13 as (_ & _ & _ & _ & <- & _); done).
  eapply wp_mono; [apply sign_and_build_spec; [by eapply same_ok; [trans w5|]|apply (fill_buildable w); try done|done|symmetry; eapply Forall2_length, Hl]|].
  - destruct Hcfg. lia.
  - apply Hcfg.
  - intros r w7 (H7 & Hr & Hsome). split_and!; [|intros e ->|by intros; apply Hsome].
    + trans w5; [done|]. by trans w6.
    + destruct (Hr e eq_refl) as (s & Hsl & Hsb & Hall & Hc & Hs & Hsig & Hval). eapply created_from; try done; [|apply (fill_buildable w); try done; [destruct Hcfg; lia|apply Hcfg]|].
      * rewrite Hsp in Hspe. done.
      * by apply (transitivity H15 H6).
Qed.

(** C10: the event the emitter creates is a well-formed child of stored events:
    it can be stored, is of the current epoch, by the configured validator, with at
    most [MaxParents] distinct stored parents; its Lamport time is one more than
    the largest of its parents; it follows the validator's last event, which is
    its first parent, in sequence and in time; and without a payload it keeps
    the emission interval, unless the epoch is ending.  Its signature is that of
    its own hash by the emitter's key, and the checks accept it with its loaded
    parents.  Creating it changes nothing in the store.  An emitter that nothing
    keeps from emitting creates an event. *)
Theorem created_event (w : W) (pl : list Z) :
  v_ok w -> config_ok (w_emitter w) -> counters_room w -> is_uint 32 (v_epoch w) ->
  is_bytes pl -> zlen pl < 2 ^ 60 ->
  wp (createEvent (V := V) pl) (fun r w' => same_world w w' /\
    (forall e, r = Some e -> created_ok w (w_emitter w) pl e) /\
    (willing (w_emitter w) -> pl <> [] -> is_Some r)) w.
Proof. apply createEvent_spec. Qed.

End Created.

(** The randomized interval is within a tenth of the configured one. *)
Lemma RandomizeEmitTime_bounds cfg r1 r2 :
  10 < ei_Max cfg < 2 ^ 62 -> 10 < DoublesignProtection cfg < 2 ^ 62 ->
  0 <= r1 < Z.quot (ei_Max cfg) 10 -> 0 <= r2 < Z.quot (DoublesignProtection cfg) 10 ->
  let c := RandomizeEmitTime cfg r1 r2 in
  9 * ei_Max cfg <= 10 * ei_Max c /\ ei_Max c < ei_Max cfg /\
  DoublesignProtection cfg <= DoublesignProtection c /\ 10 * DoublesignProtection c < 11 * DoublesignProtection cfg.
Proof.
  intros H1 H2. unfold RandomizeEmitTime. rewrite !Z.gtb_ltb, !Z.quot_div_nonneg by lia. intros H3 H4.
  rewrite (proj2 (Z.ltb_lt 10 (ei_Max cfg))), (proj2 (Z.ltb_lt 10 (DoublesignProtection cfg))) by lia.
  cbn [ei_Max DoublesignProtection]. rewrite !i64_id by dlia. dlia.
Qed.

(** ** A world with one event, stored as the last event of every validator *)

Module Sample.
#[local] Existing Instance lachesis_be.

Definition ext_any : EmitterExt := {|
  SyncedToEmit _ _ := (0, None);
  DetectParallelInstance _ _ := false;
  FindBestParents max opts sp _ := match sp with Some i => [i] | None => [] end;
  private_key := unit;
  crypto_Sign _ _ := Ret (replicate 65 7)
|}.

Lemma ext_any_laws : EmitterExtLaws ext_any.
Proof.
  split; simpl.
  - intros max opts [i|] r Hm; unfold zlen; simpl; lia.
  - done.
  - intros max opts [i|] r p Hp; [right; by apply list_elem_of_singleton in Hp as ->|by apply elem_of_nil in Hp].
  - intros max opts [i|] r; [apply NoDup_singleton|constructor].
  - intros h k. by_decide.
Qed.

#[local] Existing Instance ext_any.
#[local] Existing Instance ext_any_laws.
#[local] Instance never_exit : MayExit := False.

(** The emitter and the clock. *)
Definition world : Type := Emitter * Z.

#[local] Instance world_base : EmitterBase ext_any world := {|
  w_emitter := fst; w_set_emitter em w := (em, snd w);
  time_Now := fun w => Ret (snd w, (fst w, snd w + 1));
  rand_source := mret 0; IsSynced := mret true; PeersNum := mret 3; w_stamp := stamp_nothing _ |}.

Definition stored (i : list Z) : option Event := if decide (i = id (base sample_built)) then Some sample_built else None.

#[local] Instance world_world : EmitterWorld ext_any world Z := {|
  w_GetEpochValidators := mret (0, epoch (base sample_built));
  w_GetEvent i := mret (stored i);
  w_GetLastEvent _ := mret (Some (id (base sample_built)));
  w_GetHeads := mret [];
  w_ProcessEvent _ := mret None;
  w_Build m := mret (SetIsRoot (SetFrame m 1) false, None);
  w_Validate _ _ := mret (Ret tt) |}.

#[local] Instance world_view : EmitterView world := {|
  v_event _ := stored; v_last _ _ := Some (id (base sample_built));
  v_epoch _ := epoch (base sample_built); v_valid _ _ _ := True; v_ok _ := True |}.

#[local] Instance world_laws : EmitterWorldLaws ext_any world Z.
Proof.
  split; try done; intros; unfold wp; simpl; try by split_and!.
  - split_and!; [done| |done..]. intros i [= <-]. split; [|by vm_compute].
    cbn [v_event world_view]. unfold stored. rewrite decide_True by done. eauto.
  - split_and!; [done..|]. intros _. exists 1, false. split; [by_decide|done].
  - split_and!; [done..|]. left. by split.
Qed.

Definition sample_emitter : Emitter :=
  New (FakeNetConfig []) (MkEmitterConfig 1 0 0 3 (MkEmitIntervals 0 1000 0 0)).

Lemma sample_config_ok : config_ok sample_emitter.
Proof. vm_compute. split_and!; (reflexivity || discriminate). Qed.

Lemma sample_room : counters_room (EV := world_view) (sample_emitter, 1000).
Proof.
  intros i e. unfold v_event, world_view, stored. case_decide as Hd; [|discriminate]. intros [= <-]. subst i.
  split_and!; [by_decide..|reflexivity|by_decide].
Qed.

Lemma sample_willing : willing (V := Z) sample_emitter.
Proof.
  split_and!; [discriminate|reflexivity|..].
  - intros w m. reflexivity.
  - intros h k. exists (replicate 65 7). reflexivity.
  - intros w e ps. reflexivity.
Qed.

Lemma created_event_witness : exists e w',
  createEvent (V := Z) [1; 2] (sample_emitter, 1000) = Ret (Some e, w') /\
  created_ok (sample_emitter, 1000) sample_emitter [1; 2] e.
Proof.
  destruct (wp_total _ _ _ (fun x : may_exit => x)
    (created_event (V := Z) (EV := world_view) (EL := world_laws) (sample_emitter, 1000) [1; 2] I sample_config_ok sample_room
       ltac:(by_decide) ltac:(by_decide) eq_refl)) as (r & w' & E & _ & Hc & Hs).
  destruct (Hs sample_willing ltac:(discriminate)) as [e Er]. exists e, w'. split.
  - rewrite <- Er. exact E.
  - exact (Hc e Er).
Defined.

End Sample.
End Emitter.
