(* ===== verification/Peer.v ===== *)
(** * gossip/peer.go, protocol.go: remote peers

    A peer with the set of events it is known to have, its bounded broadcast
    queues and the messages handed to the transport; the handshake; and the set
    of active peers.  Peers are shared (the set of peers, the goroutine that
    handles the connection and the broadcaster hold the same pointer), so they
    live in a heap and the set of peers holds pointers.  The transport
    ([p2p.MsgReadWriter]) and the hash set ([mapset.Set]) are parameters: what a
    send returns and which element [Pop] removes. *)

From Stdlib Require Import ZArith Lia Bool Sorted.
From stdpp Require Import base list numbers option strings gmap.
From S2P Require Import Prelude Kv Sha256 Fast Event Serializer EventBuild Store.
Import Event Serializer EventBuild Store.
Local Open Scope Z_scope.

Abbreviation hash := (list Z) (only parsing).

(** ** protocol.go *)

Definition lachesis62 : Z := 62.
Definition protocolMaxMsgSize : Z := 10 * 1024 * 1024.

Definition StatusMsg : Z := 0x00.
Definition ProgressMsg : Z := 0xf0.
Definition NewEventHashesMsg : Z := 0xf1.
Definition GetEventsMsg : Z := 0xf2.
Definition EventsMsg : Z := 0xf3.
Definition GetPackInfosMsg : Z := 0xf4.
Definition PackInfosMsg : Z := 0xf5.
Definition GetPackMsg : Z := 0xf6.
Definition PackMsg : Z := 0xf7.

Definition ProtocolVersions : list Z := [lachesis62].

(** [protocolLengths]: a missing version reads as absent. *)
Definition protocolLengths (version : Z) : option Z := if version =? lachesis62 then Some (PackMsg + 1) else None.

Inductive errCode :=
| ErrMsgTooLarge
| ErrDecode
| ErrInvalidMsgCode
| ErrProtocolVersionMismatch
| ErrNetworkIDMismatch
| ErrGenesisMismatch
| ErrNoStatusMsg
| ErrExtraStatusMsg
| ErrSuspendedPeer
| ErrEmptyMessage.

#[export] Instance errCode_eq_dec : EqDecision errCode.
Proof. solve_decision. Defined.

Definition errorToString (c : errCode) : string :=
  match c with
  | ErrMsgTooLarge => "Message too long"
  | ErrDecode => "Invalid message"
  | ErrInvalidMsgCode => "Invalid message code"
  | ErrProtocolVersionMismatch => "Protocol version mismatch"
  | ErrNetworkIDMismatch => "NetworkId mismatch"
  | ErrGenesisMismatch => "Genesis object mismatch"
  | ErrNoStatusMsg => "No status message"
  | ErrExtraStatusMsg => "Extra status message"
  | ErrSuspendedPeer => "Suspended peer"
  | ErrEmptyMessage => "Empty message"
  end.

(** [errResp], without the formatted details. *)
Definition errResp (c : errCode) : error := Error (errorToString c).

Record statusData := MkStatus { ProtocolVersion : Z; sd_NetworkID : Z; sd_Genesis : hash }.

Record PeerProgress := MkProgress {
  pp_Epoch : Z; NumOfBlocks : Z; LastPackInfo : PackInfo; LastBlock : hash }.

Definition zeroProgress : PeerProgress := MkProgress 0 0 (MkPackInfo 0 0 0 []) (replicate 32 0).

Record packInfosData := MkPackInfosData { pid_Epoch : Z; TotalNumOfPacks : Z; Infos : list PackInfo }.
Record packInfosDataRLP := MkPackInfosDataRLP { pir_Epoch : Z; pir_Total : Z; RawInfos : list (list Z) }.
Record getPackInfosData := MkGetPackInfosData { gpi_Epoch : Z; Indexes : list Z }.
Record getPackData := MkGetPackData { gp_Epoch : Z; gp_Index : Z }.
Record packData := MkPackData { pd_Epoch : Z; pd_Index : Z; pd_IDs : list hash }.

(** What is handed to [p2p.Send], by message code. *)
Inductive message :=
| MStatus (d : statusData)
| MProgress (p : PeerProgress)
| MNewEventHashes (ids : list hash)
| MGetEvents (ids : list hash)
| MEvents (ee : list Event)
| MEventsRLP (raw : list (list Z))
| MGetPackInfos (d : getPackInfosData)
| MPackInfos (d : packInfosDataRLP)
| MGetPack (d : getPackData)
| MPack (d : packData).

(** A received [p2p.Msg]: code, size and the encoded payload. *)
Record Msg := MkMsg { Code : Z; msg_Size : Z; Payload_ : list Z }.

Class P2p := {
  p2p_Send : list message -> message -> option error;  (** given what was sent before *)
  set_Pop : nat -> gset (list Z) -> list Z;            (** the element removed by the [n]-th [Pop] *)
  hash_Epoch : list Z -> Z                             (** [hash.Event.Epoch] *)
}.

Class P2pLaws (N : P2p) `{LachesisBase} : Prop := {
  set_Pop_elem : forall n (s : gset (list Z)), s <> ∅ -> set_Pop n s ∈ s;
  hash_Epoch_id : forall e l r, is_uint 32 e -> hash_Epoch (base_id e l r) = e
}.

Module Peer.

Definition errClosed : error := Error "peer set is closed".
Definition errAlreadyRegistered : error := Error "peer is already registered".
Definition errNotRegistered : error := Error "peer is not registered".
Definition DiscReadTimeout : error := Error "read timeout".

Definition maxKnownEvents : Z := 16384.
Definition maxQueuedProps : Z := 128.
Definition maxQueuedAnns : Z := 128.

Record PeerInfo := MkPeerInfo { pi_Version : Z; pi_Epoch : Z; pi_NumOfBlocks : Z }.

Record peer := MkPeer {
  p_id : string;
  version : Z;
  knownEvents : gset (list Z);
  queuedProps : list (list Event);
  queuedAnns : list (list hash);
  term : bool;                    (** the channel [term] is closed *)
  progress : PeerProgress;
  poolEntry : option Z;
  trusted : bool;                 (** [Peer.Info().Network.Trusted] *)
  sent : list message;            (** handed to the transport, in order *)
  pops : nat;                     (** calls of [Pop] so far *)
  disconnected : bool             (** [Disconnect] was called *)
}.

Definition set_knownEvents x (p : peer) := MkPeer (p_id p) (version p) x (queuedProps p) (queuedAnns p) (term p) (progress p) (poolEntry p) (trusted p) (sent p) (pops p) (disconnected p).
Definition set_queuedProps x (p : peer) := MkPeer (p_id p) (version p) (knownEvents p) x (queuedAnns p) (term p) (progress p) (poolEntry p) (trusted p) (sent p) (pops p) (disconnected p).
Definition set_queuedAnns x (p : peer) := MkPeer (p_id p) (version p) (knownEvents p) (queuedProps p) x (term p) (progress p) (poolEntry p) (trusted p) (sent p) (pops p) (disconnected p).
Definition set_term x (p : peer) := MkPeer (p_id p) (version p) (knownEvents p) (queuedProps p) (queuedAnns p) x (progress p) (poolEntry p) (trusted p) (sent p) (pops p) (disconnected p).
Definition set_progress x (p : peer) := MkPeer (p_id p) (version p) (knownEvents p) (queuedProps p) (queuedAnns p) (term p) x (poolEntry p) (trusted p) (sent p) (pops p) (disconnected p).
Definition set_poolEntry x (p : peer) := MkPeer (p_id p) (version p) (knownEvents p) (queuedProps p) (queuedAnns p) (term p) (progress p) x (trusted p) (sent p) (pops p) (disconnected p).
Definition set_sent x (p : peer) := MkPeer (p_id p) (version p) (knownEvents p) (queuedProps p) (queuedAnns p) (term p) (progress p) (poolEntry p) (trusted p) x (pops p) (disconnected p).
Definition set_pops x (p : peer) := MkPeer (p_id p) (version p) (knownEvents p) (queuedProps p) (queuedAnns p) (term p) (progress p) (poolEntry p) (trusted p) (sent p) x (disconnected p).
Definition set_disconnected x (p : peer) := MkPeer (p_id p) (version p) (knownEvents p) (queuedProps p) (queuedAnns p) (term p) (progress p) (poolEntry p) (trusted p) (sent p) (pops p) x.

Section Definitions.
Context `{P2p}.

Abbreviation PE := (stm peer).

Definition newPeer (vsn : Z) (id : string) (tr : bool) : peer :=
  MkPeer id vsn ∅ [] [] false zeroProgress None tr [] 0 false.

Definition SetProgress (x : PeerProgress) : PE unit := modify (set_progress x).

Definition InterestedIn (h : hash) (p : peer) : bool :=
  let e := hash_Epoch h in
  negb (e =? 0) && negb (pp_Epoch (progress p) =? 0) &&
  ((e =? pp_Epoch (progress p)) || (e =? u32 (pp_Epoch (progress p) + 1))) &&
  negb (bool_decide (h ∈ knownEvents p)).

Definition Less (a b : PeerProgress) : bool :=
  if negb (pp_Epoch a =? pp_Epoch b) then pp_Epoch a <? pp_Epoch b
  else if negb (NumOfBlocks a =? NumOfBlocks b) then NumOfBlocks a <? NumOfBlocks b
  else Index (LastPackInfo a) <? Index (LastPackInfo b).

Definition Info (p : peer) : PeerInfo := MkPeerInfo (version p) (pp_Epoch (progress p)) (NumOfBlocks (progress p)).

(** [for p.knownEvents.Cardinality() >= maxKnownEvents { p.knownEvents.Pop() }];
    the cardinality is fuel enough ([trim_below]). *)
Fixpoint pop_loop (fuel : nat) (n : nat) (s : gset (list Z)) : nat * gset (list Z) :=
  if Z.of_nat (base.size s) >=? maxKnownEvents
  then match fuel with
       | O => (n, s)
       | S fuel => pop_loop fuel (S n) (s ∖ {[set_Pop n s]})
       end
  else (n, s).

Definition trim : PE unit :=
  modify (fun p => let '(n, s) := pop_loop (base.size (knownEvents p)) (pops p) (knownEvents p) in
                   set_pops n (set_knownEvents s p)).

Definition add_known (h : hash) : PE unit := modify (fun p => set_knownEvents ({[h]} ∪ knownEvents p) p).

Definition MarkEvent (h : hash) : PE unit := _ ← trim; add_known h.

(** [for _, x := range l { f(x) }] in a state. *)
Fixpoint foreach {S A} (f : A -> stm S unit) (l : list A) : stm S unit :=
  match l with [] => mret tt | x :: l => _ ← f x; foreach f l end.

(** [p2p.Send(p.rw, code, data)]. *)
Definition Send (m : message) : PE (option error) :=
  before ← gets sent;
  _ ← modify (set_sent (before ++ [m]));
  mret (p2p_Send before m).

Definition SendNewEventHashes (hashes : list hash) : PE (option error) :=
  _ ← foreach add_known hashes;
  _ ← trim;
  Send (MNewEventHashes hashes).

Definition AsyncSendNewEventHashes (ids : list hash) : PE unit :=
  q ← gets queuedAnns;
  if zlen q <? maxQueuedAnns
  then _ ← modify (set_queuedAnns (q ++ [ids])); _ ← foreach add_known ids; trim
  else mret tt.

Definition SendEvents (events : list Event) : PE (option error) :=
  _ ← foreach (fun e => _ ← add_known (id (base e)); trim) events;
  Send (MEvents events).

Definition SendEventsRLP (events : list (list Z)) (ids : list hash) : PE (option error) :=
  _ ← foreach (fun i => _ ← add_known i; trim) ids;
  Send (MEventsRLP events).

Definition SendPackInfosRLP (d : packInfosDataRLP) : PE (option error) := Send (MPackInfos d).

Definition SendPack (d : packData) : PE (option error) := Send (MPack d).

Definition AsyncSendEvents (events : list Event) : PE unit :=
  q ← gets queuedProps;
  if zlen q <? maxQueuedProps
  then _ ← modify (set_queuedProps (q ++ [events]));
       _ ← foreach (fun e => add_known (id (base e))) events; trim
  else mret tt.

(** [for start := 0; start < len(ids); start += softLimitItems]; the length is
    fuel enough. *)
Fixpoint request_loop (fuel : nat) (ids : list hash) (start : Z) : PE (option error) :=
  match fuel with
  | O => mret None
  | S fuel =>
      if start <? zlen ids
      then
        let end_ := if zlen ids >? start + softLimitItems then start + softLimitItems else zlen ids in
        err ← Send (MGetEvents (take (Z.to_nat (end_ - start)) (drop (Z.to_nat start) ids)));
        match err with
        | Some e => mret (Some e)
        | None => request_loop fuel ids (start + softLimitItems)
        end
      else mret None
  end.

Definition RequestEvents (ids : list hash) : PE (option error) := request_loop (S (length ids)) ids 0.

Definition RequestPackInfos (epoch : Z) (indexes : list Z) : PE (option error) :=
  Send (MGetPackInfos (MkGetPackInfosData epoch indexes)).

Definition RequestPack (epoch index : Z) : PE (option error) := Send (MGetPack (MkGetPackData epoch index)).

Definition SendProgress (p : PeerProgress) : PE (option error) := Send (MProgress p).

(** [close(p.term)] panics when the channel is already closed. *)
Definition close : PE unit :=
  t ← gets term;
  if t : bool then lift (Panics (PanicMsg "close of closed channel")) else modify (set_term true).

(** *** The broadcaster: one turn of the [select], by the case that was ready;
    it says whether the loop goes on. *)
Inductive ready := ReadyProps | ReadyAnns | ReadyTerm.

Definition broadcast_turn (r : ready) : PE bool :=
  match r with
  | ReadyProps =>
      q ← gets queuedProps;
      match q with
      | [] => mret true
      | events :: q => _ ← modify (set_queuedProps q); err ← SendEvents events; mret (bool_decide (err = None))
      end
  | ReadyAnns =>
      q ← gets queuedAnns;
      match q with
      | [] => mret true
      | ids :: q => _ ← modify (set_queuedAnns q); err ← SendNewEventHashes ids; mret (bool_decide (err = None))
      end
  | ReadyTerm => t ← gets term; mret (negb t)
  end.

(** *** The handshake *)

(** [int(status.ProtocolVersion) != p.version] and the tests before it. *)
Definition readStatus `{Codec statusData} (vsn network : Z) (genesis : hash) (incoming : error + Msg) : option error :=
  match incoming with
  | inl e => Some e
  | inr msg =>
      if negb (Code msg =? StatusMsg) then Some (errResp ErrNoStatusMsg)
      else if msg_Size msg >? protocolMaxMsgSize then Some (errResp ErrMsgTooLarge)
      else match dec (Payload_ msg) with
           | None => Some (errResp ErrDecode)
           | Some status =>
               if negb (bool_decide (sd_Genesis status = genesis)) then Some (errResp ErrGenesisMismatch)
               else if negb (sd_NetworkID status =? network) then Some (errResp ErrNetworkIDMismatch)
               else if negb (ProtocolVersion status =? vsn) then Some (errResp ErrProtocolVersionMismatch)
               else None
           end
  end.

(** Which goroutine's value is received next; when none comes the timer fires.
    A choice whose channel is empty is not ready. *)
Inductive arrival := FromSender | FromReader.

Fixpoint collect (sched : list arrival) (i : nat) (sender reader : list (option error)) : option error :=
  match i, sched with
  | O, _ => None
  | S _, [] => Some DiscReadTimeout
  | S i', FromSender :: sched =>
      match sender with
      | [] => collect sched i sender reader
      | None :: sender => collect sched i' sender reader
      | Some e :: _ => Some e
      end
  | S i', FromReader :: sched =>
      match reader with
      | [] => collect sched i sender reader
      | None :: reader => collect sched i' sender reader
      | Some e :: _ => Some e
      end
  end.

Definition Handshake `{Codec statusData} (network : Z) (mine : PeerProgress) (genesis : hash)
    (incoming : error + Msg) (sched : list arrival) : PE (option error) :=
  vsn ← gets version;
  err ← Send (MStatus (MkStatus (u32 vsn) network genesis));
  perr ← SendProgress mine;
  mret (collect sched 2 (match err with Some e => [Some e; perr] | None => [perr] end)
                        [readStatus vsn network genesis incoming]).

End Definitions.

(** ** peerSet *)

(** Pointers of peers are positions in the heap. *)
Abbreviation ptr := nat (only parsing).

Record peerSet := MkPeerSet {
  heap : list peer;
  peers : gmap string nat;
  closed : bool
}.

Definition set_heap x (s : peerSet) := MkPeerSet x (peers s) (closed s).
Definition set_peers x (s : peerSet) := MkPeerSet (heap s) x (closed s).
Definition set_closed x (s : peerSet) := MkPeerSet (heap s) (peers s) x.

Section PeerSet.
Context `{P2p}.

Abbreviation PS := (stm peerSet).

Definition newPeerSet : peerSet := MkPeerSet [] ∅ false.

(** A new peer object. *)
Definition alloc (p : peer) : PS nat :=
  h ← gets heap; _ ← modify (set_heap (h ++ [p])); mret (length h).

Definition deref (a : nat) : PS peer :=
  h ← gets heap;
  match h !! a with Some p => mret p | None => lift (Panics NilDeref) end.

(** A method of the peer at [a]. *)
Definition on_peer {A} (a : nat) (m : stm peer A) : PS A :=
  p ← deref a;
  '(x, p) ← lift (m p);
  _ ← modify (fun s => set_heap (<[a := p]> (heap s)) s);
  mret x.

Definition Register (a : nat) : PS (option error) :=
  c ← gets closed;
  if c : bool then mret (Some errClosed)
  else
    p ← deref a;
    m ← gets peers;
    match m !! p_id p with
    | Some _ => mret (Some errAlreadyRegistered)
    | None => _ ← modify (set_peers (<[p_id p := a]> m)); mret None
    end.

Definition Unregister (id : string) : PS (option error) :=
  m ← gets peers;
  match m !! id with
  | None => mret (Some errNotRegistered)
  | Some a => _ ← modify (set_peers (delete id m)); _ ← on_peer a close; mret None
  end.

(** [Peer]: the registered peer, or nil. *)
Definition lookupPeer (id : string) : PS (option nat) := gets (fun s => peers s !! id).

Definition Len (s : peerSet) : Z := Z.of_nat (base.size (peers s)).

(** [for _, p := range ps.peers]: the pointers in the order [ord] visits the ids. *)
Definition range_peers (ord : list string) (s : peerSet) : list nat := omap (fun id => peers s !! id) ord.

Definition List_ (ord : list string) : PS (list nat) := gets (range_peers ord).

Fixpoint filter_peers (f : peer -> bool) (l : list nat) : PS (list nat) :=
  match l with
  | [] => mret []
  | a :: l => p ← deref a; r ← filter_peers f l; mret (if f p then a :: r else r)
  end.

Definition PeersWithoutEvent (ord : list string) (e : hash) : PS (list nat) :=
  l ← List_ ord; filter_peers (InterestedIn e) l.

Fixpoint best_loop (l : list nat) (best : option nat) (bestProgress : PeerProgress) : PS (option nat) :=
  match l with
  | [] => mret best
  | a :: l =>
      p ← deref a;
      if Less bestProgress (progress p) then best_loop l (Some a) (progress p) else best_loop l best bestProgress
  end.

Definition BestPeer (ord : list string) : PS (option nat) := l ← List_ ord; best_loop l None zeroProgress.

Definition Disconnect (a : nat) : PS unit := on_peer a (modify (set_disconnected true)).

Definition Close (ord : list string) : PS unit :=
  l ← List_ ord; _ ← foreach Disconnect l; modify (set_closed true).

End PeerSet.

(** ** The set of known events is bounded *)

Section Bounds.
Context `{MayExit}.
Context {LB : LachesisBase} {N : P2p} {NL : P2pLaws N}.

(** The loop ends below the limit and removes nothing while there is room. *)
Lemma pop_loop_spec (fuel n : nat) (s : gset (list Z)) : (base.size s <= fuel)%nat ->
  let s' := snd (pop_loop fuel n s) in
  s' ⊆ s /\ Z.of_nat (base.size s') < maxKnownEvents /\ (Z.of_nat (base.size s) < maxKnownEvents -> s' = s).
Proof.
  revert n s. induction fuel as [|fuel IH]; intros n s Hf; cbn [pop_loop]; rewrite Z.geb_leb; case_test; try (simpl; split_and!; [done|lia|done]).
  - unfold maxKnownEvents in *. lia.
  - assert (Hs : s <> ∅) by (intros ->; rewrite size_empty in *; unfold maxKnownEvents in *; lia).
    pose proof (set_Pop_elem n s Hs) as Hin.
    assert (Hsz : base.size (s ∖ {[set_Pop n s]}) = (base.size s - 1)%nat).
    { rewrite size_difference by (by apply singleton_subseteq_l). by rewrite size_singleton. }
    destruct (IH (S n) (s ∖ {[set_Pop n s]})) as (A & B & C); [lia|].
    split_and!; [|done|lia]. etrans; [exact A|]. by apply subseteq_difference_l.
Qed.

(** The bounds that protect the node from its peers. *)
Record peer_ok (p : peer) : Prop := {
  ok_known : Z.of_nat (base.size (knownEvents p)) <= maxKnownEvents;
  ok_props : zlen (queuedProps p) <= maxQueuedProps;
  ok_anns : zlen (queuedAnns p) <= maxQueuedAnns
}.

(** What does not concern the queues and the known events. *)
Definition same_peer (p p' : peer) : Prop :=
  p_id p' = p_id p /\ version p' = version p /\ term p' = term p /\ progress p' = progress p /\
  poolEntry p' = poolEntry p /\ trusted p' = trusted p.

#[global] Instance same_peer_preorder : PreOrder same_peer.
Proof.
  split; [by intros p; split_and!|]. intros p q r (A & B & C & D & E & F) (A' & B' & C' & D' & E' & F').
  split_and!; congruence.
Qed.

(** Only the known events change; [add] says how many may be new. *)
Definition knows (p p' : peer) (k : gset (list Z)) : Prop :=
  exists n, p' = set_pops n (set_knownEvents k p).

Lemma knows_refl p : knows p p (knownEvents p).
Proof. exists (pops p). by destruct p. Qed.

Lemma knows_known p p' k : knows p p' k -> knownEvents p' = k.
Proof. by intros [n ->]. Qed.

Lemma knows_trans p q r k k' : knows p q k -> knows q r k' -> knows p r k'.
Proof. intros [n ->] [n' ->]. by exists n'. Qed.

Lemma knows_same p p' k : knows p p' k -> same_peer p p'.
Proof. intros [n ->]. by split_and!. Qed.

Lemma trim_spec p : wp trim (fun _ p' => exists k, knows p p' k /\ k ⊆ knownEvents p /\
  Z.of_nat (base.size k) < maxKnownEvents /\ (Z.of_nat (base.size (knownEvents p)) < maxKnownEvents -> k = knownEvents p)) p.
Proof.
  unfold trim. wp_run. pose proof (pop_loop_spec (base.size (knownEvents p)) (pops p) (knownEvents p)) as Hs.
  destruct (pop_loop _ _ _) as [n k]. cbn [snd] in Hs. destruct Hs as (A & B & C); [done|].
  exists k. split_and!; try done. by exists n.
Qed.

Lemma add_known_spec h p : wp (add_known h) (fun _ p' => knows p p' ({[h]} ∪ knownEvents p)) p.
Proof. unfold add_known. wp_run. by exists (pops p). Qed.

Lemma MarkEvent_spec h p : wp (MarkEvent h) (fun _ p' => exists k, knows p p' ({[h]} ∪ k) /\ k ⊆ knownEvents p /\
  Z.of_nat (base.size k) < maxKnownEvents /\ (Z.of_nat (base.size (knownEvents p)) < maxKnownEvents -> k = knownEvents p)) p.
Proof.
  unfold MarkEvent. wp_run. eapply wp_mono; [apply trim_spec|]. intros _ p1 (k & Hk & A & B & C).
  eapply wp_mono; [apply add_known_spec|]. intros [] p2 H2. cbv beta in H2. exists k. split_and!; try done.
  rewrite (knows_known _ _ _ Hk) in H2. by eapply knows_trans.
Qed.

(** A loop whose body only changes the known events does the same. *)
Lemma foreach_knows {A} (f : A -> stm peer unit) l p :
  (forall x q, wp (f x) (fun _ q' => exists k, knows q q' k) q) -> wp (foreach f l) (fun _ p' => exists k, knows p p' k) p.
Proof.
  intros Hf. revert p. induction l as [|x l IH]; intros p; cbn [foreach]; wp_run; [eexists; apply knows_refl|].
  eapply wp_mono; [apply Hf|]. intros _ q [k Hk]. eapply wp_mono; [apply IH|]. intros _ r [k' Hk'].
  exists k'. by eapply knows_trans.
Qed.

Lemma trim_knows p : wp trim (fun _ p' => exists k, knows p p' k /\ Z.of_nat (base.size k) <= maxKnownEvents) p.
Proof. eapply wp_mono; [apply trim_spec|]. intros _ p' (k & Hk & _ & B & _). exists k. split; [done|lia]. Qed.

(** The two ways the code marks what it sends. *)
Lemma mark_then_trim {A} (g : A -> list Z) l p :
  wp (_ ← foreach (fun x => add_known (g x)) l; trim) (fun _ p' => exists k, knows p p' k /\ Z.of_nat (base.size k) <= maxKnownEvents) p.
Proof.
  wp_run. eapply wp_mono.
  { apply foreach_knows. intros x q. eapply wp_mono; [apply add_known_spec|]. intros [] q' Hq'. cbv beta in Hq'. by eexists. }
  intros _ q [k Hk]. eapply wp_mono; [apply trim_knows|]. intros _ r (k' & Hk' & Hs). exists k'. split; [by eapply knows_trans|done].
Qed.

Lemma mark_and_trim {A} (g : A -> list Z) l p : Z.of_nat (base.size (knownEvents p)) <= maxKnownEvents ->
  wp (foreach (fun x => _ ← add_known (g x); trim) l) (fun _ p' => exists k, knows p p' k /\ Z.of_nat (base.size k) <= maxKnownEvents) p.
Proof.
  revert p. induction l as [|x l IH]; intros p Hp; cbn [foreach]; wp_run; [eexists; split; [apply knows_refl|done]|].
  eapply wp_mono; [apply add_known_spec|]. intros [] q Hq. cbv beta in Hq. eapply wp_mono; [apply trim_knows|]. intros _ r (k & Hk & Hs).
  eapply wp_mono; [apply IH; by rewrite (knows_known _ _ _ Hk)|]. intros _ r' (k' & Hk' & Hs'). exists k'. split; [|done].
  eapply knows_trans; [|done]. by eapply knows_trans.
Qed.

Lemma MarkEvents_spec l p : Z.of_nat (base.size (knownEvents p)) <= maxKnownEvents ->
  wp (foreach MarkEvent l) (fun _ p' => exists k, knows p p' k /\ Z.of_nat (base.size k) <= maxKnownEvents) p.
Proof.
  revert p. induction l as [|x l IH]; intros p Hp; cbn [foreach]; wp_run; [eexists; split; [apply knows_refl|done]|].
  eapply wp_mono; [apply MarkEvent_spec|]. intros _ q (k & Hk & _ & B & _).
  assert (Hs : Z.of_nat (base.size ({[x]} ∪ k)) <= maxKnownEvents).
  { pose proof (size_union_alt {[x]} k). pose proof (subseteq_size (k ∖ {[x]}) k ltac:(by apply subseteq_difference_l)). rewrite size_singleton in *. lia. }
  eapply wp_mono; [apply IH; by rewrite (knows_known _ _ _ Hk)|]. intros _ r (k' & Hk' & Hs'). exists k'. split; [by eapply knows_trans|done].
Qed.

(** Known events within the bound leave a well-formed peer. *)
Lemma knows_ok p p' k : peer_ok p -> knows p p' k -> Z.of_nat (base.size k) <= maxKnownEvents -> peer_ok p'.
Proof. intros [A B C] [n ->] Hk. by constructor. Qed.

(** A method that keeps the bounds and the identity of the peer. *)
Definition keeps {A} (m : stm peer A) : Prop :=
  forall p, peer_ok p -> wp m (fun _ p' => peer_ok p' /\ same_peer p p') p.

Lemma keeps_bind {A B} (m : stm peer A) (f : A -> stm peer B) : keeps m -> (forall a, keeps (f a)) -> keeps (m ≫= f).
Proof.
  intros Hm Hf p Hp. wp_run. eapply wp_mono; [by apply Hm|]. intros a q [Hq Sq].
  eapply wp_mono; [by apply Hf|]. intros b r [Hr Sr]. split; [done|]. by etrans.
Qed.

Lemma keeps_ret {A} (a : A) : keeps (mret a).
Proof. by intros p Hp. Qed.

Lemma keeps_gets {A} (f : peer -> A) : keeps (gets f).
Proof. by intros p Hp. Qed.

Lemma keeps_knows (m : stm peer unit) :
  (forall p, peer_ok p -> wp m (fun _ p' => exists k, knows p p' k /\ Z.of_nat (base.size k) <= maxKnownEvents) p) -> keeps m.
Proof.
  intros Hm p Hp. eapply wp_mono; [by apply Hm|]. intros _ q (k & Hk & Hs). split; [by eapply knows_ok|by eapply knows_same].
Qed.

Lemma Send_keeps m : keeps (Send m).
Proof. intros p [A B C]. unfold Send. wp_run. split; [by constructor|by split_and!]. Qed.

Lemma MarkEvents_keeps l : keeps (foreach MarkEvent l).
Proof. apply keeps_knows. intros p Hp. apply MarkEvents_spec, Hp. Qed.

Lemma MarkEvent_keeps h : keeps (MarkEvent h).
Proof.
  intros p Hp. pose proof (MarkEvents_keeps [h] p Hp) as Hk. revert Hk. unfold wp, or_exit. cbn [foreach].
  unfold mbind, stm_bind. by destruct (MarkEvent h p) as [[[] q]|x|x|x].
Qed.

Lemma mark_then_trim_keeps {A} (g : A -> list Z) l : keeps (_ ← foreach (fun x => add_known (g x)) l; trim).
Proof. apply keeps_knows. intros p _. apply mark_then_trim. Qed.

Lemma mark_and_trim_keeps {A} (g : A -> list Z) l : keeps (foreach (fun x => _ ← add_known (g x); trim) l).
Proof. apply keeps_knows. intros p Hp. apply mark_and_trim, Hp. Qed.

Lemma SendNewEventHashes_keeps l : keeps (SendNewEventHashes l).
Proof.
  intros p Hp. unfold SendNewEventHashes.
  assert (Hk : keeps (_ ← (_ ← foreach (fun x => add_known x) l; trim); Send (MNewEventHashes l))).
  { apply keeps_bind; [apply (mark_then_trim_keeps (fun x => x))|intros _; apply Send_keeps]. }
  specialize (Hk p Hp). revert Hk. unfold wp, mbind, stm_bind. by destruct (foreach _ _ p) as [[[] q]|x|x|x].
Qed.

Lemma SendEvents_keeps ee : keeps (SendEvents ee).
Proof. apply keeps_bind; [apply (mark_and_trim_keeps (fun e => id (base e)))|intros _; apply Send_keeps]. Qed.

Lemma SendEventsRLP_keeps raw ids : keeps (SendEventsRLP raw ids).
Proof. apply keeps_bind; [apply (mark_and_trim_keeps (fun i => i))|intros _; apply Send_keeps]. Qed.

Lemma AsyncSendNewEventHashes_keeps l : keeps (AsyncSendNewEventHashes l).
Proof.
  intros p Hp. unfold AsyncSendNewEventHashes. wp_run. apply wp_if; intros Hq; [|by wp_run].
  apply Z.ltb_lt in Hq. wp_step. wp_step.
  destruct Hp as [A B C]. eapply wp_mono; [apply (mark_then_trim_keeps (fun x => x))|].
  - constructor; try done. cbn. autorewrite with opera. lia.
  - intros _ q [Hok Hs]. split; [done|exact Hs].
Qed.

Lemma AsyncSendEvents_keeps ee : keeps (AsyncSendEvents ee).
Proof.
  intros p Hp. unfold AsyncSendEvents. wp_run. apply wp_if; intros Hq; [|by wp_run].
  apply Z.ltb_lt in Hq. wp_step. wp_step.
  destruct Hp as [A B C]. eapply wp_mono; [apply (mark_then_trim_keeps (fun e => id (base e)))|].
  - constructor; try done. cbn. autorewrite with opera. lia.
  - intros _ q [Hok Hs]. split; [done|exact Hs].
Qed.

Lemma request_loop_keeps fuel ids start : keeps (request_loop fuel ids start).
Proof.
  revert start. induction fuel as [|fuel IH]; intros start; cbn [request_loop]; [apply keeps_ret|].
  destruct (start <? zlen ids); [|apply keeps_ret]. apply keeps_bind; [apply Send_keeps|].
  intros [e|]; [apply keeps_ret|apply IH].
Qed.

Lemma broadcast_turn_keeps r : keeps (broadcast_turn r).
Proof.
  intros p Hp. destruct r; cbn [broadcast_turn]; wp_run.
  - destruct (queuedProps p) as [|ee q] eqn:Eq; [by wp_run|]. wp_run. destruct Hp as [A B C].
    eapply wp_mono; [apply SendEvents_keeps|].
    + constructor; try done. rewrite Eq in B. autorewrite with opera in B. cbn. lia.
    + intros err p' [Hok Hs]. wp_run. split; [done|exact Hs].
  - destruct (queuedAnns p) as [|ids q] eqn:Eq; [by wp_run|]. wp_run. destruct Hp as [A B C].
    eapply wp_mono; [apply SendNewEventHashes_keeps|].
    + constructor; try done. rewrite Eq in C. autorewrite with opera in C. cbn. lia.
    + intros err p' [Hok Hs]. wp_run. split; [done|exact Hs].
  - by split.
Qed.

(** *** Every use of a peer *)

Inductive op :=
| OpSetProgress (x : PeerProgress)
| OpMarkEvent (h : hash)
| OpSendNewEventHashes (l : list hash)
| OpAsyncSendNewEventHashes (l : list hash)
| OpSendEvents (ee : list Event)
| OpAsyncSendEvents (ee : list Event)
| OpSendEventsRLP (raw : list (list Z)) (ids : list hash)
| OpRequestEvents (ids : list hash)
| OpSend (m : message)
| OpBroadcast (r : ready)
| OpClose.

#[local] Abbreviation ignore m := (_ ← m; mret tt).

Definition run_op (o : op) : stm peer unit :=
  match o with
  | OpSetProgress x => SetProgress x
  | OpMarkEvent h => MarkEvent h
  | OpSendNewEventHashes l => ignore (SendNewEventHashes l)
  | OpAsyncSendNewEventHashes l => AsyncSendNewEventHashes l
  | OpSendEvents ee => ignore (SendEvents ee)
  | OpAsyncSendEvents ee => AsyncSendEvents ee
  | OpSendEventsRLP raw ids => ignore (SendEventsRLP raw ids)
  | OpRequestEvents ids => ignore (RequestEvents ids)
  | OpSend m => ignore (Send m)
  | OpBroadcast r => ignore (broadcast_turn r)
  | OpClose => close
  end.

Definition is_close (o : op) : bool := match o with OpClose => true | _ => false end.

Lemma run_op_spec o p : peer_ok p -> (is_close o = true -> term p = false) ->
  wp (run_op o) (fun _ p' => peer_ok p' /\ p_id p' = p_id p /\ version p' = version p /\ term p' = is_close o || term p) p.
Proof.
  assert (Hk : forall m : stm peer unit, keeps m -> peer_ok p ->
    wp m (fun _ p' => peer_ok p' /\ p_id p' = p_id p /\ version p' = version p /\ term p' = false || term p) p).
  { intros m Hm Hp. eapply wp_mono; [by apply Hm|]. intros _ q (Hq & A & B & C & _). by split_and!. }
  assert (Hi : forall A (m : stm peer A), keeps m -> keeps (ignore m)).
  { intros A m Hm. apply keeps_bind; [done|]. intros _. apply keeps_ret. }
  intros Hp Ht. destruct o; cbn [run_op is_close] in *;
    try (apply Hk; [|done]; first [apply MarkEvent_keeps|apply AsyncSendNewEventHashes_keeps|apply AsyncSendEvents_keeps|apply Hi];
      first [apply SendNewEventHashes_keeps|apply SendEvents_keeps|apply SendEventsRLP_keeps|apply request_loop_keeps|apply Send_keeps|apply broadcast_turn_keeps|idtac]).
  - unfold SetProgress. wp_run. destruct Hp as [A B C]. by split_and!.
  - unfold close. wp_run. rewrite Ht by done. wp_run. destruct Hp as [A B C]. by split_and!.
Qed.

Lemma newPeer_ok vsn id tr : peer_ok (newPeer vsn id tr).
Proof. by constructor. Qed.

Lemma run_ops_spec ops p : peer_ok p -> (length (filter is_close ops) + (if term p then 1 else 0) <= 1)%nat ->
  wp (foreach run_op ops) (fun _ p' => peer_ok p' /\ p_id p' = p_id p /\ version p' = version p /\
    term p' = existsb is_close ops || term p) p.
Proof.
  revert p. induction ops as [|o ops IH]; intros p Hp Hc; cbn [foreach existsb]; wp_run; [done|].
  rewrite filter_cons in Hc. eapply wp_mono; [apply run_op_spec; [done|]|].
  - intros Ho. rewrite decide_True in Hc by (by rewrite Ho). cbn [length] in Hc. destruct (term p); [lia|done].
  - intros [] q (Hq & A & B & C). cbv beta in *. eapply wp_mono; [apply IH; [done|]|].
    + rewrite C. destruct (is_close o) eqn:Ho; cbn [orb].
      * rewrite decide_True in Hc by done. cbn [length] in Hc. destruct (term p); lia.
      * rewrite decide_False in Hc by (by intros []). done.
    + intros [] r (Hr & A' & B' & C'). split_and!; try congruence. rewrite C', C. destruct (is_close o), (existsb is_close ops), (term p); done.
Qed.

End Bounds.

(** ** The set of peers *)

Section Sets.
Context `{MayExit}.
Context {LB : LachesisBase} {N : P2p} {NL : P2pLaws N}.

(** Registered pointers lead to open peers of that name; all peers keep their bounds. *)
Record set_ok (s : peerSet) : Prop := {
  ok_registered : forall name a, peers s !! name = Some a ->
    exists p, heap s !! a = Some p /\ p_id p = name /\ term p = false;
  ok_peers : forall a p, heap s !! a = Some p -> peer_ok p
}.

(** What a use of a peer leaves alone. *)
Definition same_set (s s' : peerSet) : Prop :=
  peers s' = peers s /\ closed s' = closed s /\
  forall b q, heap s !! b = Some q -> exists q', heap s' !! b = Some q' /\ same_peer q q'.

#[global] Instance same_set_preorder : PreOrder same_set.
Proof.
  split; [intros s; split_and!; try done; intros b q ->; by exists q|].
  intros s1 s2 s3 (A & B & C) (A' & B' & C'). split_and!; try congruence.
  intros b q Hb. destruct (C b q Hb) as (q' & Hb' & Hs). destruct (C' b q' Hb') as (q'' & Hb'' & Hs').
  exists q''. split; [done|by etrans].
Qed.

Lemma newPeerSet_ok : set_ok newPeerSet.
Proof. by split. Qed.

Lemma wp_deref s a p (Q : peer -> peerSet -> Prop) : heap s !! a = Some p -> Q p s -> wp (deref a) Q s.
Proof. intros Ha HQ. unfold deref. wp_run. rewrite Ha. by wp_run. Qed.

Lemma wp_on_peer {A} s a p (m : stm peer A) (Q : A -> peerSet -> Prop) : heap s !! a = Some p ->
  wp m (fun x p' => Q x (set_heap (<[a := p']> (heap s)) s)) p -> wp (on_peer a m) Q s.
Proof.
  intros Ha Hm. unfold on_peer. wp_step. eapply wp_deref; [done|]. wp_run. revert Hm. unfold wp, or_exit.
  by destruct (m p) as [[x p']|x|x|x].
Qed.

Lemma on_peer_keeps {A} s a (m : stm peer A) : set_ok s -> (a < length (heap s))%nat -> keeps m ->
  wp (on_peer a m) (fun _ s' => set_ok s' /\ same_set s s') s.
Proof.
  intros [Hr Hp] Ha Hm. destruct (lookup_lt_is_Some_2 _ _ Ha) as [p Ep]. eapply wp_on_peer; [done|].
  eapply wp_mono; [apply Hm; by eapply Hp|]. intros x p' [Hok Hs]. split; [split|].
  - intros name b Hb. destruct (Hr name b Hb) as (q & Hq & Hn & Ht). cbn [heap set_heap peers] in *.
    destruct (decide (a = b)) as [<-|Hab]; [|by exists q; rewrite list_lookup_insert_ne].
    exists p'. rewrite list_lookup_insert_eq by done. rewrite Ep in Hq. injection Hq as <-. destruct Hs as (-> & _ & -> & _). done.
  - intros b q. cbn [heap set_heap]. destruct (decide (a = b)) as [<-|Hab].
    + rewrite list_lookup_insert_eq by done. by intros [= <-].
    + rewrite list_lookup_insert_ne by done. apply Hp.
  - split_and!; try done. intros b q Hq. cbn [heap set_heap]. destruct (decide (a = b)) as [<-|Hab].
    + exists p'. rewrite list_lookup_insert_eq by done. rewrite Ep in Hq. by injection Hq as <-.
    + exists q. by rewrite list_lookup_insert_ne.
Qed.

Lemma Register_spec s a p : set_ok s -> heap s !! a = Some p -> term p = false ->
  wp (Register a) (fun r s' => set_ok s' /\ heap s' = heap s /\ closed s' = closed s /\
    if closed s then r = Some errClosed /\ peers s' = peers s
    else if decide (is_Some (peers s !! p_id p)) then r = Some errAlreadyRegistered /\ peers s' = peers s
    else r = None /\ peers s' = <[p_id p := a]> (peers s)) s.
Proof.
  intros [Hr Hp] Ha Ht. unfold Register. wp_run. destruct (closed s) eqn:Hc; [by wp_run; split_and!|]. wp_run.
  eapply wp_deref; [done|]. wp_run. destruct (peers s !! p_id p) as [b|] eqn:Eb.
  - wp_run. rewrite decide_True by eauto. by split_and!.
  - wp_run. rewrite decide_False by (intros [? ?]; congruence). split; [|by split_and!]. constructor; [|exact Hp]. cbn [peers set_peers heap].
    intros name b. rewrite lookup_insert_Some. intros [[<- <-]|[_ Hb]]; [by exists p|by apply Hr].
Qed.

Lemma Unregister_spec s name : set_ok s ->
  wp (Unregister name) (fun r s' => set_ok s' /\ closed s' = closed s /\ peers s' = delete name (peers s) /\
    r = (if decide (is_Some (peers s !! name)) then None else Some errNotRegistered) /\
    forall b, heap s' !! b = (if decide (peers s !! name = Some b) then set_term true <$> heap s !! b else heap s !! b)) s.
Proof.
  intros Hs. pose proof Hs as [Hr Hp]. unfold Unregister. wp_run. destruct (peers s !! name) as [a|] eqn:Ea.
  - destruct (Hr name a Ea) as (p & Hh & Hn & Ht). wp_run. eapply wp_on_peer; [exact Hh|]. unfold close. wp_run. rewrite Ht. wp_run.
    cbn [peers set_peers heap set_heap closed]. rewrite decide_True by eauto.
    assert (Hlk : forall b, <[a := set_term true p]> (heap s) !! b =
      (if decide (Some a = Some b) then set_term true <$> heap s !! b else heap s !! b)).
    { intros b. destruct (decide (a = b)) as [<-|Hab].
      - rewrite list_lookup_insert_eq by (by eapply lookup_lt_Some). rewrite decide_True by done. by rewrite Hh.
      - rewrite list_lookup_insert_ne by done. by rewrite decide_False by congruence. }
    split; [|by split_and!]. constructor; cbn [peers set_peers heap set_heap closed].
    + intros name' b. rewrite lookup_delete_Some. intros [Hne Hb]. destruct (Hr name' b Hb) as (q & Hq & Hqn & Hqt).
      exists q. rewrite Hlk, decide_False; [done|]. intros [= <-]. congruence.
    + intros b q. rewrite Hlk. case_decide as Hd; [|apply Hp]. injection Hd as <-. rewrite Hh. intros [= <-].
      destruct (Hp a p Hh) as [A B C]. by constructor.
  - wp_run. rewrite decide_False by (by intros [? ?]). rewrite delete_id by done. split; [done|]. split_and!; try done.
Qed.

(** The registered pointers. *)
Lemma range_peers_elem s ord a : ord ≡ₚ elements (dom (peers s)) ->
  a ∈ range_peers ord s <-> exists name, peers s !! name = Some a.
Proof.
  intros Ho. unfold range_peers. rewrite list_elem_of_omap. split; [intros (name & _ & Hn); by exists name|].
  intros [name Hn]. exists name. split; [|done]. rewrite Ho, elem_of_elements, elem_of_dom. by exists a.
Qed.

Lemma range_peers_heap s ord a : set_ok s -> a ∈ range_peers ord s -> exists p, heap s !! a = Some p /\ term p = false.
Proof.
  intros [Hr _]. unfold range_peers. rewrite list_elem_of_omap. intros (name & _ & Hn).
  destruct (Hr name a Hn) as (p & Hp & _ & Ht). by exists p.
Qed.

Lemma filter_peers_spec s f l : Forall (fun a => is_Some (heap s !! a)) l ->
  wp (filter_peers f l) (fun r s' => s' = s /\ r = filter (fun a => from_option f false (heap s !! a)) l) s.
Proof.
  induction 1 as [|a l [p Hp] _ IH]; cbn [filter_peers]; wp_run; [done|].
  eapply wp_deref; [done|]. wp_run. eapply wp_mono; [apply IH|]. intros r s' [-> ->]. wp_run. split; [done|].
  rewrite filter_cons, Hp. cbn [from_option]. by destruct (f p).
Qed.

End Sets.

End Peer.
