(* ===== verification/PeerSpec.v ===== *)
(** * What the node relies on about its peers

    Bounded memory per peer, batched requests, the handshake, the choice of the
    best peer, and the set of active peers as a finite map. *)

From Stdlib Require Import ZArith Lia Bool Sorted.
From stdpp Require Import base list numbers option strings gmap.
From S2P Require Import Prelude Kv Sha256 Fast Event Serializer EventBuild Store Peer.
Import Event Serializer EventBuild Store Peer.
Local Open Scope Z_scope.

Module PeerSpec.

Section Spec.
Context {LB : LachesisBase} {N : P2p} {NL : P2pLaws N}.

(** None of this code ends the process. *)
#[local] Instance never_exit : MayExit := False.

(** C24: the memory a peer can make the node hold is bounded.  Whatever sequence
    of methods is applied to a new peer, as long as it is closed at most once,
    every call returns; afterwards at most 16384 event ids are remembered and at
    most 128 batches wait in each broadcast queue. *)
Theorem peer_bounded (vsn : Z) (name : string) (tr : bool) (ops : list op) :
  (length (filter is_close ops) <= 1)%nat ->
  exists p', foreach run_op ops (newPeer vsn name tr) = Ret (tt, p') /\ peer_ok p' /\
    p_id p' = name /\ version p' = vsn /\ term p' = existsb is_close ops.
Proof.
  intros Hc. pose proof (run_ops_spec ops (newPeer vsn name tr) (newPeer_ok _ _ _)) as Hw.
  cbn [term newPeer] in Hw. destruct (wp_total _ _ _ (fun x : may_exit => x) (Hw ltac:(lia))) as ([] & p' & E & A & B & C & D).
  exists p'. rewrite orb_false_r in D. by split_and!.
Qed.

(** ** Requests in batches *)

(** Send the messages in order, stopping at the first failure. *)
Fixpoint send_all (ms : list message) : stm peer (option error) :=
  match ms with
  | [] => mret None
  | m :: ms => err ← Send m; match err with Some e => mret (Some e) | None => send_all ms end
  end.

Lemma request_loop_batches fuel (ids : list (list Z)) (start : Z) :
  0 <= start -> zlen ids - start < Z.of_nat fuel ->
  exists bs, concat bs = drop (Z.to_nat start) ids /\ Forall (fun b => 0 < zlen b <= softLimitItems) bs /\
    Z.of_nat (length bs) = Z.max 0 ((zlen ids - start + (softLimitItems - 1)) / softLimitItems) /\
    forall p, request_loop fuel ids start p = send_all (MGetEvents <$> bs) p.
Proof.
  revert start. induction fuel as [|fuel IH]; intros start H0 Hf; unfold softLimitItems in *.
  { exists []. rewrite drop_ge by (unfold zlen in *; lia). split_and!; [done|constructor| |done].
    cbn [length]. dlia. }
  cbn [request_loop]. unfold softLimitItems. rewrite Z.gtb_ltb. destruct (Z.ltb_spec start (zlen ids)) as [Hs|Hs].
  - destruct (IH (start + 250)) as (bs & Hc & Hl & Hn & He); [lia..|].
    set (b := take (Z.to_nat ((if start + 250 <? zlen ids then start + 250 else zlen ids) - start)) (drop (Z.to_nat start) ids)).
    assert (Hb : b = take 250 (drop (Z.to_nat start) ids)).
    { unfold b. case_test; [f_equal; lia|]. rewrite !take_ge; [done|rewrite length_drop; unfold zlen in *; lia..]. }
    exists (b :: bs). split_and!.
    + cbn [concat]. rewrite Hc, Hb. rewrite <- (take_drop 250 (drop (Z.to_nat start) ids)) at 2.
      f_equal. rewrite drop_drop. f_equal. lia.
    + constructor; [|done]. rewrite Hb. unfold zlen in *. rewrite length_take, length_drop. lia.
    + cbn [length]. rewrite Nat2Z.inj_succ, Hn. dlia.
    + intros p. cbn [fmap list_fmap send_all]. unfold mbind, stm_bind.
      destruct (Send (MGetEvents b) p) as [[[e|] q]|x|x|x]; [done|apply He|done..].
  - exists []. rewrite drop_ge by (unfold zlen in *; lia). split_and!; [done|constructor| |done]. cbn [length]. dlia.
Qed.

(** C40: requesting events is sending them in batches.  The ids are split, in
    order and without loss, into the least number of requests of at most 250 ids
    each, and [RequestEvents] does what sending these one after the other does,
    up to the first failure. *)
Theorem request_batches (ids : list (list Z)) :
  exists bs, concat bs = ids /\ Forall (fun b => 0 < zlen b <= softLimitItems) bs /\
    Z.of_nat (length bs) = (zlen ids + (softLimitItems - 1)) / softLimitItems /\
    forall p, RequestEvents ids p = send_all (MGetEvents <$> bs) p.
Proof.
  destruct (request_loop_batches (S (length ids)) ids 0) as (bs & A & B & C & D); [lia|unfold zlen; lia|].
  exists bs. rewrite drop_0 in A. split_and!; try done. rewrite C, Z.sub_0_r.
  pose proof (zlen_nonneg ids). unfold softLimitItems. dlia.
Qed.

(** ** The handshake *)

Section Handshakes.
Context `{Codec statusData}.

(** The message is a status of the same genesis, network and version. *)
Definition status_matches (vsn network : Z) (genesis : list Z) (m : Msg) : Prop :=
  Code m = StatusMsg /\ msg_Size m <= protocolMaxMsgSize /\
  exists st, dec (Payload_ m) = Some st /\ sd_Genesis st = genesis /\ sd_NetworkID st = network /\ ProtocolVersion st = vsn.

Lemma readStatus_None vsn network genesis incoming :
  readStatus vsn network genesis incoming = None <-> exists m, incoming = inr m /\ status_matches vsn network genesis m.
Proof.
  unfold status_matches. destruct incoming as [e|m]; cbn [readStatus]; [split; [done|by intros (m & ? & _)]|].
  rewrite Z.gtb_ltb. split.
  - repeat (case_test; cbn [negb]; try done). destruct (dec (Payload_ m)) as [st|] eqn:Ed; [|done].
    repeat (case_test; cbn [negb]; try done). intros _. exists m. split; [done|]. split; [done|]. split; [lia|]. by exists st.
  - intros (m' & [= <-] & Hc & Hs & st & Ed & Hg & Hn & Hv). rewrite Hc, Ed, Hg, Hn, Hv.
    rewrite !Z.eqb_refl, bool_decide_true by done. rewrite (proj2 (Z.ltb_ge _ _)) by lia. done.
Qed.

(** Two values without error are received only if no goroutine failed. *)
Lemma collect_None sched i sender reader : collect sched i sender reader = None ->
  exists a b, (a + b = i)%nat /\ Forall (eq None) (take a sender) /\ Forall (eq None) (take b reader) /\
    (a <= length sender)%nat /\ (b <= length reader)%nat.
Proof.
  revert i sender reader. induction sched as [|[] sched IH]; intros [|i] sender reader; cbn [collect]; try done;
    try (intros _; exists 0%nat, 0%nat; split_and!; simpl; first [lia|constructor]).
  - destruct sender as [|[e|] sender]; [apply IH|done|]. intros Hc. destruct (IH _ _ _ Hc) as (a & b & A & B & C & D & E).
    exists (S a), b. cbn [take length]. split_and!; try done; try lia. by constructor.
  - destruct reader as [|[e|] reader]; [apply IH|done|]. intros Hc. destruct (IH _ _ _ Hc) as (a & b & A & B & C & D & E).
    exists a, (S b). cbn [take length]. split_and!; try done; try lia. by constructor.
Qed.

(** When both goroutines succeed, any schedule with a turn of each succeeds. *)
Lemma collect_done sched : FromSender ∈ sched -> FromReader ∈ sched -> collect sched 2 [None] [None] = None.
Proof.
  assert (Hr : forall sched, FromReader ∈ sched -> collect sched 1 [] [None] = None).
  { induction sched0 as [|[] l IH]; [by intros ?%not_elem_of_nil| |]; cbn [collect].
    - intros Hx. apply IH. by inversion Hx.
    - by destruct l. }
  assert (Hs : forall sched, FromSender ∈ sched -> collect sched 1 [None] [] = None).
  { induction sched0 as [|[] l IH]; [by intros ?%not_elem_of_nil| |]; cbn [collect].
    - by destruct l.
    - intros Hx. apply IH. by inversion Hx. }
  destruct sched as [|[] l]; [by intros ?%not_elem_of_nil| |]; cbn [collect]; intros A B.
  - apply Hr. by inversion B.
  - apply Hs. by inversion A.
Qed.

(** C20: the handshake admits exactly compatible peers.  In whatever order the
    two goroutines finish, the handshake succeeds only if the own status and
    progress were sent and the peer sent first a status of the same genesis, the
    same network and the negotiated version; and in that case it succeeds unless
    the timer fires first. *)
Theorem handshake_sound (p : peer) network mine genesis incoming sched : is_uint 32 (version p) ->
  let m1 := MStatus (MkStatus (version p) network genesis) in
  let m2 := MProgress mine in
  exists r, Handshake network mine genesis incoming sched p = Ret (r, set_sent (sent p ++ [m1; m2]) p) /\
    let ok := p2p_Send (sent p) m1 = None /\ p2p_Send (sent p ++ [m1]) m2 = None /\
              exists m, incoming = inr m /\ status_matches (version p) network genesis m in
    (r = None -> ok) /\ (ok -> FromSender ∈ sched -> FromReader ∈ sched -> r = None).
Proof.
  intros Hv m1 m2. unfold Handshake, SendProgress, Send, gets, modify, mret, stm_ret, mbind, stm_bind.
  rewrite u32_id by done. fold m1 m2. cbn [sent set_sent]. rewrite <- app_assoc. eexists. split; [done|].
  cbv zeta. rewrite <- readStatus_None. split.
  - intros Hc. apply collect_None in Hc as (a & b & Hab & A & B & C & D). cbn [length] in D.
    destruct (p2p_Send (sent p) m1) as [e|]; cbn [length] in *.
    + assert (a = 2 \/ a = 1 /\ b = 1)%nat as [->|[-> ->]] by lia; by inversion A.
    + assert (a = 1 /\ b = 1)%nat as [-> ->] by lia. inversion A; inversion B; subst. split_and!; congruence.
  - intros (-> & -> & ->) Hs Hr. by apply collect_done.
Qed.

End Handshakes.

(** ** The best peer *)

Lemma Less_iff x y : Less x y = true <->
  pp_Epoch x < pp_Epoch y \/ pp_Epoch x = pp_Epoch y /\ (NumOfBlocks x < NumOfBlocks y \/
    NumOfBlocks x = NumOfBlocks y /\ Index (LastPackInfo x) < Index (LastPackInfo y)).
Proof. unfold Less. repeat (case_test; cbn [negb]); split; intros; try done; lia. Qed.

Lemma Less_trans x y z : Less x y = true -> Less y z = true -> Less x z = true.
Proof. rewrite !Less_iff. lia. Qed.

Lemma Less_irrefl x : Less x x = false.
Proof. unfold Less. rewrite !Z.eqb_refl. apply Z.ltb_irrefl. Qed.

Lemma best_loop_spec s l best bp : Forall (fun a => is_Some (heap s !! a)) l ->
  wp (best_loop l best bp) (fun r s' => s' = s /\
    ((r = best /\ forall b q, b ∈ l -> heap s !! b = Some q -> Less bp (progress q) = false) \/
     exists a p, r = Some a /\ a ∈ l /\ heap s !! a = Some p /\ Less bp (progress p) = true /\
       forall b q, b ∈ l -> heap s !! b = Some q -> Less (progress p) (progress q) = false)) s.
Proof.
  revert best bp. induction l as [|a l IH]; intros best bp Hl; cbn [best_loop].
  { wp_run. split; [done|]. left. split; [done|]. by intros b q ?%not_elem_of_nil. }
  apply Forall_cons in Hl as [[p Hp] Hl]. wp_step. eapply wp_deref; [done|]. apply wp_if; intros Hless.
  - eapply wp_mono; [by apply IH|]. intros r s' (-> & [[-> Hr]|(c & q & -> & Hc & Hq & Hlt & Hr)]); (split; [done|]); right.
    + exists a, p. split_and!; try done; [left|]. intros b q [->|Hb]%elem_of_cons Hq; [|by eapply Hr].
      rewrite Hp in Hq. injection Hq as <-. apply Less_irrefl.
    + exists c, q. split_and!; try done; [by right|by eapply Less_trans|]. intros b q' [->|Hb]%elem_of_cons Hq'; [|by eapply Hr].
      rewrite Hp in Hq'. injection Hq' as <-. destruct (Less (progress q) (progress p)) eqn:E; [|done].
      pose proof (Less_trans _ _ _ Hlt E). by rewrite Less_irrefl in *.
  - eapply wp_mono; [by apply IH|]. intros r s' (-> & [[-> Hr]|(c & q & -> & Hc & Hq & Hlt & Hr)]); (split; [done|]).
    + left. split; [done|]. intros b q [->|Hb]%elem_of_cons Hq; [congruence|by eapply Hr].
    + right. exists c, q. split_and!; try done; [by right|]. intros b q' [->|Hb]%elem_of_cons Hq'; [|by eapply Hr].
      rewrite Hp in Hq'. injection Hq' as <-. destruct (Less (progress q) (progress p)) eqn:E; [|done].
      pose proof (Less_trans _ _ _ Hlt E). congruence.
Qed.

(** A registered pointer and its peer. *)
Definition registered (s : peerSet) (a : nat) (p : peer) : Prop :=
  (exists name, peers s !! name = Some a) /\ heap s !! a = Some p.

(** The best peer is a registered peer no other is ahead of.  In whatever
    order the map is visited, [BestPeer] returns nil only if no peer has made
    progress, and otherwise a registered peer whose epoch, number of blocks and
    last pack are not below those of any other. *)
Theorem best_peer (s : peerSet) (ord : list string) : set_ok s -> ord ≡ₚ elements (dom (peers s)) ->
  exists r, BestPeer ord s = Ret (r, s) /\
    match r with
    | None => forall b q, registered s b q -> Less zeroProgress (progress q) = false
    | Some a => exists p, registered s a p /\ Less zeroProgress (progress p) = true /\
        forall b q, registered s b q -> Less (progress p) (progress q) = false
    end.
Proof.
  intros Hs Ho. pose proof (fun a => range_peers_elem s ord a Ho) as He.
  destruct (wp_total (BestPeer ord) (fun r s' => s' = s /\
    match r with
    | None => forall b q, registered s b q -> Less zeroProgress (progress q) = false
    | Some a => exists p, registered s a p /\ Less zeroProgress (progress p) = true /\
        forall b q, registered s b q -> Less (progress p) (progress q) = false
    end) s (fun x : may_exit => x)) as (r & s' & E & -> & Hr); [|by exists r].
  unfold BestPeer, List_. wp_run. eapply wp_mono.
  { apply best_loop_spec. apply Forall_forall. intros a Ha. destruct (range_peers_heap s ord a Hs Ha) as (p & Hp & _). eauto. }
  intros r s' (-> & [[-> Hr]|(a & p & -> & Ha & Hp & Hlt & Hr)]); (split; [done|]).
  - intros b q [Hb Hq]. apply (Hr b q); [by apply He|done].
  - exists p. split_and!; [|done|]; [split; [by apply He|done]|]. intros b q [Hb Hq]. apply (Hr b q); [by apply He|done].
Qed.

(** ** The set of peers *)

Lemma disconnect_all_spec l s : set_ok s -> Forall (fun a => (a < length (heap s))%nat) l ->
  wp (foreach Disconnect l) (fun _ s' => set_ok s' /\ same_set s s' /\
    forall a q, heap s' !! a = Some q -> disconnected q = bool_decide (a ∈ l) || from_option disconnected false (heap s !! a)) s.
Proof.
  revert s. induction l as [|a l IH]; intros s Hs Hl; cbn [foreach]; wp_run.
  { split_and!; try done; try apply Hs. intros a q ->. done. }
  apply Forall_cons in Hl as [Ha Hl]. unfold Disconnect at 1. destruct (lookup_lt_is_Some_2 _ _ Ha) as [p Hp].
  assert (Hk : keeps (modify (set_disconnected true))) by (intros q [A B C]; split; [by constructor|by split_and!]).
  pose proof (on_peer_keeps s a _ Hs Ha Hk) as H1.
  assert (H2 : wp (on_peer a (modify (set_disconnected true))) (fun _ s' => heap s' = <[a := set_disconnected true p]> (heap s)) s)
    by (by eapply wp_on_peer; [exact Hp|wp_run]).
  eapply wp_mono; [apply (wp_and _ _ _ _ H1 H2)|]. intros [] s1 [[Hs1 Hsame] Hh]. cbv beta in *.
  eapply wp_mono; [apply IH; [done|by rewrite Hh, length_insert]|].
  intros [] s2 (Hs2 & Hsame2 & Hd). split_and!; try apply Hs2; [by etrans..|]. intros b q Hq. rewrite (Hd b q Hq), Hh.
  destruct (decide (a = b)) as [<-|Hab].
  - rewrite list_lookup_insert_eq by done. cbn. rewrite orb_true_r. symmetry. apply orb_true_intro. left. apply bool_decide_eq_true. left.
  - rewrite list_lookup_insert_ne by done. f_equal. apply bool_decide_ext. rewrite elem_of_cons. split; [by right|by intros [->|?]].
Qed.

(** Closing disconnects every registered peer. *)
Lemma Close_returns (s : peerSet) (ord : list string) : set_ok s -> ord ≡ₚ elements (dom (peers s)) ->
  exists s', Close ord s = Ret (tt, s') /\ set_ok s' /\ peers s' = peers s /\ closed s' = true /\
    (forall b q, registered s' b q -> disconnected q = true) /\ forall a, exists s'', Register a s' = Ret (Some errClosed, s'').
Proof.
  intros Hs Ho. assert (Hl : Forall (fun a => (a < length (heap s))%nat) (range_peers ord s)).
  { apply Forall_forall. intros b Hb. destruct (range_peers_heap s ord b Hs Hb) as (q & Hq & _). by eapply lookup_lt_Some. }
  destruct (wp_total _ _ _ (fun x : may_exit => x) (disconnect_all_spec _ s Hs Hl)) as ([] & s' & E & A & (B1 & B2 & B3) & C).
  exists (set_closed true s'). unfold Close, List_, gets, modify, mbind, stm_bind. rewrite E.
  split; [done|]. split; [by destruct A|]. split_and!; try done.
  - intros b q [[n Hn] Hq]. cbn [heap set_closed peers] in *. rewrite (C b q Hq). apply orb_true_intro. left.
    apply bool_decide_eq_true, (range_peers_elem s ord b Ho). exists n. by rewrite <- B1.
  - intros a. by exists (set_closed true s').
Qed.

(** C25: the set of peers is a map from names to open peers.  Registering adds a
    peer unless the set is closed or the name is taken; unregistering removes the
    peer and stops its broadcaster, once; closing disconnects every registered
    peer and refuses new ones.  None of them panics or touches another peer. *)
Theorem peer_set_refines (s : peerSet) (a : nat) (p : peer) (name : string) (ord : list string) :
  set_ok s -> heap s !! a = Some p -> term p = false -> ord ≡ₚ elements (dom (peers s)) ->
  (exists r s', Register a s = Ret (r, s') /\ set_ok s' /\ heap s' = heap s /\
     if closed s then r = Some errClosed /\ peers s' = peers s
     else if decide (is_Some (peers s !! p_id p)) then r = Some errAlreadyRegistered /\ peers s' = peers s
     else r = None /\ peers s' = <[p_id p := a]> (peers s)) /\
  (exists r s', Unregister name s = Ret (r, s') /\ set_ok s' /\ peers s' = delete name (peers s) /\
     r = (if decide (is_Some (peers s !! name)) then None else Some errNotRegistered) /\
     forall b, heap s' !! b = (if decide (peers s !! name = Some b) then set_term true <$> heap s !! b else heap s !! b)) /\
  (exists s', Close ord s = Ret (tt, s') /\ set_ok s' /\ peers s' = peers s /\ closed s' = true /\
     (forall b q, registered s' b q -> disconnected q = true) /\ exists s'', Register a s' = Ret (Some errClosed, s'')).
Proof.
  intros Hs Ha Ht Ho. split_and!.
  - destruct (wp_total _ _ _ (fun x : may_exit => x) (Register_spec s a p Hs Ha Ht)) as (r & s' & E & A & B & _ & C). by exists r, s'.
  - destruct (wp_total _ _ _ (fun x : may_exit => x) (Unregister_spec s name Hs)) as (r & s' & E & A & _ & B & C & D). by exists r, s'.
  - destruct (Close_returns s ord Hs Ho) as (s' & A & B & C & D & F & H). exists s'. by split_and!.
Qed.

End Spec.

(** ** A transport that always works *)

Module Sample.

Definition be_epoch (h : list Z) : Z :=
  match h with a :: b :: c :: d :: _ => ((a * 256 + b) * 256 + c) * 256 + d | _ => 0 end.

Definition p2p_any : P2p := {|
  p2p_Send _ _ := None;
  set_Pop _ s := hd [] (elements s);
  hash_Epoch := be_epoch
|}.

#[local] Existing Instance lachesis_be.
#[local] Existing Instance lachesis_be_laws.
#[local] Existing Instance p2p_any.

Lemma p2p_any_laws : P2pLaws p2p_any.
Proof.
  split.
  - intros n s Hs. cbn. destruct (elements s) as [|x l] eqn:E; [by apply elements_empty_iff, leibniz_equiv in E|].
    apply elem_of_elements. rewrite E. left.
  - intros e l r He. unfold is_uint in He. cbn [hash_Epoch p2p_any base_id lachesis_be Sha256.be32 app be_epoch]. unfold u8.
    rewrite !Z.shiftr_div_pow2 by lia. dlia.
Qed.

#[local] Existing Instance p2p_any_laws.
#[local] Instance status_codec : Codec statusData := {|
  enc d := ProtocolVersion d :: sd_NetworkID d :: sd_Genesis d;
  dec l := match l with v :: n :: g => Some (MkStatus v n g) | _ => None end
|}.

Definition sample_ops : list op :=
  [OpSetProgress (MkProgress 1 2 (MkPackInfo 1 0 0 []) []); OpMarkEvent [0; 0; 0; 1; 7]; OpAsyncSendNewEventHashes [[1]; [2]];
   OpBroadcast ReadyAnns; OpRequestEvents [[3]]; OpClose; OpBroadcast ReadyTerm].

Lemma peer_bounded_witness : (length (filter is_close sample_ops) <= 1)%nat /\
  exists p', foreach run_op sample_ops (newPeer 62 "a" false) = Ret (tt, p') /\ peer_ok p' /\
    p_id p' = "a" /\ version p' = 62 /\ term p' = existsb is_close sample_ops.
Proof. assert (H : (length (filter is_close sample_ops) <= 1)%nat) by (vm_compute; lia). split; [exact H|]. exact (peer_bounded 62 "a" false sample_ops H). Defined.

Definition sample_status : Msg := MkMsg StatusMsg 6 [62; 5; 9; 9].

Lemma handshake_sound_witness :
  is_uint 32 (version (newPeer 62 "a" false)) /\
  exists r, Handshake 5 zeroProgress [9; 9] (inr sample_status) [FromReader; FromSender] (newPeer 62 "a" false) =
      Ret (r, set_sent [MStatus (MkStatus 62 5 [9; 9]); MProgress zeroProgress] (newPeer 62 "a" false)) /\ r = None.
Proof.
  assert (H : is_uint 32 (version (newPeer 62 "a" false))) by (split; vm_compute; done). split; [exact H|].
  destruct (handshake_sound (newPeer 62 "a" false) 5 zeroProgress [9; 9] (inr sample_status) [FromReader; FromSender] H) as (r & E & _ & Hr).
  exists r. split; [exact E|]. apply Hr; [|by right; left|by left].
  split; [done|]. split; [done|]. exists sample_status. split; [done|]. split; [done|]. split; [by vm_compute|]. by exists (MkStatus 62 5 [9; 9]).
Defined.

Definition two_peers : peerSet :=
  MkPeerSet [newPeer 62 "a" false; set_progress (MkProgress 3 1 (MkPackInfo 1 0 0 []) []) (newPeer 62 "b" true); newPeer 62 "c" false]
    {["a" := 0%nat; "b" := 1%nat]} false.

Lemma two_peers_ok : set_ok two_peers.
Proof.
  split.
  - intros name a. cbn [peers two_peers]. rewrite lookup_insert_Some. intros [[<- <-]|[_ Hb]]; [by exists (newPeer 62 "a" false)|].
    apply lookup_singleton_Some in Hb as [<- <-]. by eexists.
  - intros a p Hp. apply list_elem_of_lookup_2 in Hp. repeat apply elem_of_cons in Hp as [->|Hp]; try by constructor.
    by apply not_elem_of_nil in Hp.
Qed.

Lemma two_peers_order : ["a"; "b"] ≡ₚ elements (dom (peers two_peers)).
Proof. apply (bool_decide_unpack _). vm_compute. exact I. Qed.

Lemma best_peer_witness : set_ok two_peers /\ BestPeer ["a"; "b"] two_peers = Ret (Some 1%nat, two_peers) /\
  exists r, BestPeer ["a"; "b"] two_peers = Ret (r, two_peers) /\
    match r with
    | None => forall b q, registered two_peers b q -> Less zeroProgress (progress q) = false
    | Some a => exists p, registered two_peers a p /\ Less zeroProgress (progress p) = true /\
        forall b q, registered two_peers b q -> Less (progress p) (progress q) = false
    end.
Proof.
  split; [exact two_peers_ok|]. split; [vm_compute; reflexivity|]. exact (best_peer two_peers ["a"; "b"] two_peers_ok two_peers_order).
Defined.

Lemma peer_set_refines_witness : exists s',
  Register 2 two_peers = Ret (None, s') /\ peers s' = <["c" := 2%nat]> (peers two_peers).
Proof.
  destruct (peer_set_refines two_peers 2 (newPeer 62 "c" false) "a" ["a"; "b"] two_peers_ok eq_refl eq_refl two_peers_order)
    as [(r & s' & E & _ & _ & Hr) _].
  assert (Hc : closed two_peers = false) by reflexivity.
  assert (Hn : peers two_peers !! "c" = None) by reflexivity.
  rewrite Hc in Hr. cbn [p_id newPeer] in Hr. rewrite decide_False in Hr by (rewrite Hn; by intros [? ?]).
  destruct Hr as [-> Hr]. by exists s'.
Defined.

End Sample.
End PeerSpec.
