(* ===== verification/Service.v ===== *)
(** * gossip: the service, blocks and the processing of events

    [src/gossip/consensus_callbacks.go], [pack.go] and the parts of
    [service.go] that change state: what happens when an event is processed,
    when the consensus engine decides a block and seals an epoch.  The engine
    (lachesis-base) is a parameter: a tree of the calls it makes while it
    processes one event, each continued with what the call returned. *)

From Stdlib Require Import ZArith Lia Bool Sorted.
From stdpp Require Import base list numbers option strings gmap sorting.
From S2P Require Import Prelude Kv Sha256 Fast Event Serializer EventBuild Store StoreSpec Genesis Checks Emitter Peer.
Import Event Serializer EventBuild Store StoreSpec Genesis Checks Emitter Peer.
Local Open Scope Z_scope.

(** ** The consensus engine *)

(** [lachesis.Block]. *)
Record cBlock := MkCBlock { cb_Atropos : list Z; Cheaters : list Z }.

(** What the engine does during [ProcessEvent]: it loads events, decides blocks
    (calling back for each, with the confirmed events), and ends with its new
    state and an error or none. *)
Inductive consensus (E V : Type) : Type :=
| Processed (eng : E) (err : option error)
| Load (id : list Z) (k : option Event -> consensus E V)
| Decide (b : cBlock) (confirmed : list Event) (k : option V -> consensus E V).
Arguments Processed {E V} eng err.
Arguments Load {E V} id k.
Arguments Decide {E V} b confirmed k.

Class Engine (V : Type) := {
  engine : Type;
  engine_process : engine -> Event -> consensus engine V;
  engine_build : engine -> MutableEvent -> MutableEvent * option error
}.

(** Documented behaviour: the atropos of a block is among the events it
    confirms, and once the epoch is sealed no other block is decided and the
    event is not refused. *)
Inductive lawful {E V : Type} : bool -> consensus E V -> Prop :=
| law_processed (sealed : bool) eng err : (sealed = true -> err = None) -> lawful sealed (Processed eng err)
| law_load sealed id k : (forall e, lawful sealed (k e)) -> lawful sealed (Load id k)
| law_decide b confirmed k :
    Exists (fun e => id (base e) = cb_Atropos b) confirmed ->
    lawful false (k None) -> (forall v, lawful true (k (Some v))) -> lawful false (Decide b confirmed k).

(** At most [n] blocks are decided. *)
Inductive decides_at_most {E V : Type} : Z -> consensus E V -> Prop :=
| at_most_processed n eng err : 0 <= n -> decides_at_most n (Processed eng err)
| at_most_load n id k : (forall e, decides_at_most n (k e)) -> decides_at_most n (Load id k)
| at_most_decide n b confirmed k : (forall v, decides_at_most n (k v)) -> decides_at_most (n + 1) (Decide b confirmed k).

(** A block is decided for a frame, and frames are 32-bit numbers. *)
Definition max_blocks : Z := 2 ^ 32.

Class EngineLaws (V : Type) `{Engine V} : Prop := {
  engine_lawful : forall eng e, lawful false (engine_process eng e);
  engine_few_blocks : forall eng e, decides_at_most max_blocks (engine_process eng e);
  engine_builds : forall eng m, snd (engine_build eng m) = None ->
    exists f b, is_uint 32 f /\ fst (engine_build eng m) = SetIsRoot (SetFrame m f) b
}.

Module Service.

(** The notifications of [ServiceFeed]. *)
Inductive notification := NewEpoch (e : Z) | NewPack (p : Z) | NewEmittedEvent (e : Event).

(** ** handler.go: the state of the protocol manager *)

(** [ProtocolConfig]. *)
Record ProtocolConfig := MkProtocolConfig { LatencyImportance : Z; ThroughputImportance : Z }.

(** [Config] of the gossip service and its defaults (config.go): on a fake
    network with one validator the self-fork protection is off. *)
Record Config := MkConfig {
  cfg_Net : NetConfig; cfg_Emitter : EmitterConfig; cfg_Store : StoreConfig; cfg_Protocol : ProtocolConfig }.

Definition no_doublesign (c : EmitterConfig) : EmitterConfig :=
  let ei := ec_EmitIntervals c in
  MkEmitterConfig (ec_Validator c) (BytesPerSec c) (PayloadSize c) (EpochTailLength c)
    (MkEmitIntervals (ei_Min ei) (ei_Max ei) 0 (ParallelInstanceProtection ei)).

Definition DefaultConfig (network : NetConfig) : Config :=
  let em := if NetworkID network =? FakeNetworkID
            then if zlen (gen_Validators (net_Genesis network)) =? 1 then no_doublesign FakeEmitterConfig else FakeEmitterConfig
            else DefaultEmitterConfig in
  MkConfig network em DefaultStoreConfig (MkProtocolConfig 60 40).

(** The calls made to the downloader, the fetcher, the ordering buffer, the
    checkers and the server pool, which run on their own. *)
Inductive call :=
| CallRegisterPeer (name : string) (peerEpoch myEpoch : Z)
| CallUnregisterPeer (name : string)
| CallNotifyPackInfo (name : string) (epoch index : Z) (heads : list (list Z))
| CallNotifyPacksNum (name : string) (epoch num : Z)
| CallNotifyPack (name : string) (epoch index : Z) (ids : list (list Z))
| CallDownloaderOnNewEpoch (epoch : Z) (peerEpochs : gmap string Z)
| CallFetcherNotify (name : string) (ids : list (list Z))
| CallFetcherEnqueue (name : string) (ee : list Event)
| CallBufferClear
| CallPoolDisconnect (entry : Z)
| CallStart (component : string)
| CallStop (component : string).

Record ProtocolManager := MkPM {
  pm_config : ProtocolConfig;
  synced : bool;
  maxPeers : Z;
  pm_peers : peerSet;
  prevProgress : PeerProgress;   (** of [progressBroadcastLoop] *)
  calls : list call              (** in the order they were made *)
}.

Definition NewProtocolManager (config : ProtocolConfig) : ProtocolManager :=
  MkPM config false 0 newPeerSet zeroProgress [].

Definition errStopped : error := Error "service is stopped".

Section Definitions.
Context {V : Type}.
Context `{LachesisBase, LachesisIdx, Rlp, Kv, Lru}.
Context `{Codec Block, Codec PackInfo, Codec BlockState, Codec (EpochState V)}.
Context `{BaseChecks V, Engine V, EmitterExt}.

(** The readings of the clock and of the random source, and the databases: what
    [IsFlushNeeded] and [Flush] return, and whether closing the database of an
    epoch succeeds. *)
Class Environment := {
  clock : nat -> Z;
  randomness : nat -> Z;
  is_flush_needed : nat -> bool;
  flush_result : nat -> list Z -> option error;
  close_ok : nat -> bool
}.
Context `{Environment}.

Record Service := MkService {
  svc_net : NetConfig;
  svc_store : Store V;
  svc_engine : engine;
  svc_emitter : Emitter;
  PubKeys : option ValidatorsPubKeys;   (** [heavyCheckReader.PubKeys] *)
  svc_meter : Z;
  stopped : bool;
  feed : list notification;             (** in the order they were sent *)
  pm : ProtocolManager;
  ticks : nat;                          (** uses of the environment so far *)
  disk : Store V;                       (** what the last flush has written *)
  flushed : list (Store V)              (** what this process has flushed, the latest first *)
}.

Abbreviation SV := (stm Service).

Definition set_store x (s : Service) := MkService (svc_net s) x (svc_engine s) (svc_emitter s) (PubKeys s) (svc_meter s) (stopped s) (feed s) (pm s) (ticks s) (disk s) (flushed s).
Definition set_engine x (s : Service) := MkService (svc_net s) (svc_store s) x (svc_emitter s) (PubKeys s) (svc_meter s) (stopped s) (feed s) (pm s) (ticks s) (disk s) (flushed s).
Definition set_emitter x (s : Service) := MkService (svc_net s) (svc_store s) (svc_engine s) x (PubKeys s) (svc_meter s) (stopped s) (feed s) (pm s) (ticks s) (disk s) (flushed s).
Definition set_PubKeys x (s : Service) := MkService (svc_net s) (svc_store s) (svc_engine s) (svc_emitter s) x (svc_meter s) (stopped s) (feed s) (pm s) (ticks s) (disk s) (flushed s).
Definition set_svc_meter x (s : Service) := MkService (svc_net s) (svc_store s) (svc_engine s) (svc_emitter s) (PubKeys s) x (stopped s) (feed s) (pm s) (ticks s) (disk s) (flushed s).
Definition set_stopped x (s : Service) := MkService (svc_net s) (svc_store s) (svc_engine s) (svc_emitter s) (PubKeys s) (svc_meter s) x (feed s) (pm s) (ticks s) (disk s) (flushed s).
Definition set_feed x (s : Service) := MkService (svc_net s) (svc_store s) (svc_engine s) (svc_emitter s) (PubKeys s) (svc_meter s) (stopped s) x (pm s) (ticks s) (disk s) (flushed s).
Definition set_pm x (s : Service) := MkService (svc_net s) (svc_store s) (svc_engine s) (svc_emitter s) (PubKeys s) (svc_meter s) (stopped s) (feed s) x (ticks s) (disk s) (flushed s).
Definition set_ticks x (s : Service) := MkService (svc_net s) (svc_store s) (svc_engine s) (svc_emitter s) (PubKeys s) (svc_meter s) (stopped s) (feed s) (pm s) x (disk s) (flushed s).
Definition set_disk x (s : Service) := MkService (svc_net s) (svc_store s) (svc_engine s) (svc_emitter s) (PubKeys s) (svc_meter s) (stopped s) (feed s) (pm s) (ticks s) x (x :: flushed s).

(** A process that ends tells how many flushes it had made. *)
#[export, refine] Instance service_stamp : Stamp Service | 0 := {|
  stamp s x := MkExit (exit_msg x) (Some (length (flushed s)));
  stamped s x := exit_flushes x = Some (length (flushed s))
|}.
Proof. done. Defined.

(** A call of the store. *)
Definition on_store {A} (m : stm (Store V) A) : SV A := fun s =>
  match m (svc_store s) with
  | Ret (a, st) => Ret (a, set_store st s)
  | Err e => Err e
  | Panics p => Panics p
  | Exits x => Exits (stamp s x)
  end.

Definition send (n : notification) : SV unit := modify (fun s => set_feed (feed s ++ [n]) s).

(** The next reading of the environment. *)
Definition next {A} (f : nat -> A) : SV A :=
  n ← gets ticks; _ ← modify (set_ticks (S n)); mret (f n).

#[export] Instance service_emitter_base : EmitterBase _ Service := {|
  w_emitter := svc_emitter; w_set_emitter := set_emitter;
  time_Now := next clock; rand_source := next randomness;
  IsSynced := gets (fun s => synced (pm s)); PeersNum := gets (fun s => Len (pm_peers (pm s)));
  w_stamp := service_stamp
|}.

(** ** store.go: Commit

    [SyncedPool.Flush] of lachesis-base is taken to write the tables of all
    databases at once, or nothing when it returns an error. *)

(** The bytes of the time in a flush id: [bigendian.Uint64ToBytes]. *)
Definition be64 (n : Z) : list Z := rev (le_bytes n).

Definition Commit (flushID : option (list Z)) (immediately : bool) : SV (option error) :=
  flushID ← match flushID with
            | Some f => mret f
            | None => now ← next clock; mret ([0xbe; 0xee] ++ be64 (u64 now))
            end;
  needed ← next is_flush_needed;
  if negb immediately && negb needed then mret None
  else
    f ← next flush_result;
    match f flushID with
    | None => _ ← modify (fun s => set_disk (svc_store s) s); mret None
    | Some e => mret (Some e)
    end.

(** ** pack.go *)

Definition packsOnNewEvent (e : Event) (epoch : Z) : SV unit :=
  packIdx ← on_store (GetPacksNumOrDefault epoch);
  packInfo ← on_store (GetPackInfoOrDefault epoch packIdx);
  _ ← on_store (AddToPack epoch packIdx (id (base e)));
  let num := u32 (NumOfEvents packInfo + 1) in
  let size := u32 (pi_Size packInfo + u32 (Size e)) in
  heads ← (if (num >=? maxPackEventsNum) || (size >=? maxPackSize)
           then heads ← on_store GetHeads;
                _ ← on_store (SetPacksNum epoch (u32 (packIdx + 1)));
                _ ← send (NewPack (u32 (packIdx + 1)));
                mret heads
           else mret (Heads packInfo));
  on_store (SetPackInfo epoch packIdx (MkPackInfo packIdx size num heads)).

Definition packsOnNewEpoch (oldEpoch newEpoch : Z) : SV unit :=
  packIdx ← on_store (GetPacksNumOrDefault oldEpoch);
  packInfo ← on_store (GetPackInfoOrDefault oldEpoch packIdx);
  heads ← on_store GetHeads;
  _ ← on_store (SetPackInfo oldEpoch packIdx
                  (MkPackInfo (Index packInfo) (pi_Size packInfo) (NumOfEvents packInfo) heads));
  _ ← on_store (SetPacksNum oldEpoch (u32 (packIdx + 1)));
  send (NewPack (u32 (packIdx + 1))).

(** ** consensus_callbacks.go: one block *)

(** The variables of the closures of [BeginBlock]. *)
Record blockVars := MkBlockVars { confirmedEvents : list Event; atropos_event : option Event; payloadSize : Z }.

Definition BeginBlock : blockVars := MkBlockVars [] None 0.

Definition ApplyEvent (cb : cBlock) (v : blockVars) (e : Event) : blockVars :=
  MkBlockVars
    (if negb (zlen (payload (ext e)) =? 0) then Add (confirmedEvents v) [e] else confirmedEvents v)
    (if bool_decide (cb_Atropos cb = id (base e)) then Some e else atropos_event v)
    (payloadSize v + zlen (payload (ext e))).

(** [sort.Sort] with the order of [Events.Less]: the ids as byte strings. *)
Definition sort_events (ee : list Event) : list Event :=
  merge_sort (fun x y => bytes_le (id (base x)) (id (base y))) ee.

Definition EndBlock (cb : cBlock) (v : blockVars) : SV (option V) :=
  let confirmed := sort_events (confirmedEvents v) in
  bs ← on_store GetBlockState;
  atr ← match atropos_event v with Some e => mret e | None => lift (Panics NilDeref) end;
  let block := MkBlock (CreationTime atr) (cb_Atropos cb) (IDs confirmed) in
  let bs := MkBlockState (u64 (bs_Block bs + 1)) (u64 (EpochBlocks bs + 1)) in
  _ ← on_store (SetBlock (bs_Block bs) block);
  net ← gets svc_net;
  '(bs, sealEpoch) ←
    (if (EpochBlocks bs >=? MaxEpochBlocks (Dag net)) || negb (zlen (Cheaters cb) =? 0)
     then
       let bs := MkBlockState (bs_Block bs) 0 in
       es ← on_store GetEpochState;
       let newEpoch := u32 (es_Epoch es + 1) in
       let es := MkEpochState newEpoch (es_Validators es) in
       _ ← modify (set_PubKeys (Some (NewEpochPubKeys newEpoch (gen_Validators (net_Genesis net)))));
       _ ← on_store (SetEpochState es);
       _ ← OnNewEpoch (es_Validators es) newEpoch;
       _ ← send (NewEpoch newEpoch);
       mret (bs, Some (es_Validators es))
     else mret (bs, None));
  _ ← on_store (SetBlockState bs);
  _ ← modify (fun s => set_svc_meter (u64 (svc_meter s + u64 (payloadSize v))) s);
  mret sealEpoch.

Definition process_block (cb : cBlock) (confirmed : list Event) : SV (option V) :=
  EndBlock cb (foldl (ApplyEvent cb) BeginBlock confirmed).

(** [engine.ProcessEvent] with the service's callbacks and store. *)
Fixpoint run_consensus (c : consensus engine V) : SV (option error) :=
  match c with
  | Processed eng err => _ ← modify (set_engine eng); mret err
  | Load id k => e ← on_store (GetEvent id); run_consensus (k e)
  | Decide b confirmed k => seal ← process_block b confirmed; run_consensus (k seal)
  end.

Fixpoint DelHeads (ps : list (list Z)) : stm (Store V) unit :=
  match ps with [] => mret tt | p :: ps => _ ← DelHead p; DelHeads ps end.

(** [processEvent] after the engine has accepted the event. *)
Definition onConnected (e : Event) (oldEpoch : Z) : SV (option error) :=
  _ ← packsOnNewEvent e (epoch (base e));
  _ ← OnNewEvent e;
  newEpoch ← on_store GetEpoch;
  _ ← (if newEpoch =? oldEpoch
       then
         _ ← on_store (SetLastEvent (creator (base e)) (id (base e)));
         _ ← on_store (DelHeads (parents (base e)));
         on_store (AddHead (id (base e)))
       else
         _ ← packsOnNewEpoch oldEpoch newEpoch;
         closed ← next close_ok;
         on_store (resetEpochStore closed newEpoch));
  Commit (Some (id (base e))) (negb (newEpoch =? oldEpoch)).

Definition processEvent (e : Event) : SV (option error) :=
  st ← gets stopped;
  if st : bool then mret (Some errStopped)
  else
    known ← on_store (HasEvent (id (base e)));
    if known : bool then mret (Some ErrAlreadyConnectedEvent)
    else
      '(vs, ep) ← on_store GetEpochValidators;
      match epochcheck_validate vs ep e with
      | Err x => mret (Some x)
      | Panics p => lift (Panics p)
      | Exits m => lift (Exits m)
      | Ret _ =>
          oldEpoch ← on_store GetEpoch;
          _ ← on_store (SetEvent e);
          eng ← gets svc_engine;
          err ← run_consensus (engine_process eng e);
          match err with
          | Some x => _ ← on_store (DelEvent (id (base e))); mret (Some x)
          | None => onConnected e oldEpoch
          end
      end.

(** ** service.go *)

(** [NewService], with the emitter that [Start] makes, over a store and what is on
    disk of it. *)
Definition NewService (net : NetConfig) (config : ProtocolConfig) (eng : engine) (em : Emitter) (dsk st : Store V) : go Service :=
  '(ep, st) ← GetEpoch st;
  Ret (MkService net st eng em (Some (NewEpochPubKeys ep (gen_Validators (net_Genesis net)))) 0 false [] (NewProtocolManager config) 0 dsk []).

(** [world.ProcessEvent] of the emitter: a failure ends the process. *)
Definition processEmitted (emitted : Event) : SV (option error) :=
  err ← processEvent emitted;
  match err with
  | Some _ => lift (Exits "Self-event connection failed")
  | None => _ ← send (NewEmittedEvent emitted); mret None
  end.

#[export] Instance service_emitter_world : EmitterWorld _ Service V := {|
  w_GetEpochValidators := on_store GetEpochValidators;
  w_GetEvent i := on_store (GetEvent i);
  w_GetLastEvent v := on_store (GetLastEvent v);
  w_GetHeads := on_store GetHeads;
  w_ProcessEvent := processEmitted;
  w_Build m := eng ← gets svc_engine; mret (engine_build eng m);
  w_Validate e ps :=
    '(vs, ep) ← on_store GetEpochValidators;
    net ← gets svc_net;
    keys ← gets PubKeys;
    mret (Validate (Dag net) vs ep keys e ps)
|}.

End Definitions.
Arguments Service V {_ _ _ _}.

End Service.
