(* ===== verification/ServiceSpec.v ===== *)
(** * What processing an event does to a node

    Blocks are appended and epochs sealed by the callbacks; processing an event
    keeps the directed acyclic graph of the epoch: stored events have their
    parents, heads are the events without children, packs partition the events
    of the epoch. *)

From Stdlib Require Import ZArith Lia Bool Sorted.
From stdpp Require Import base list numbers option strings gmap sorting.
From S2P Require Import Prelude Kv Sha256 Fast Event Serializer EventBuild Store StoreSpec Genesis Checks Emitter Peer Service.
Import Event Serializer EventBuild Store StoreSpec Genesis Checks Emitter Peer Service.
Local Open Scope Z_scope.

Module ServiceSpec.

Section Spec.
Context {V : Type}.
Context {LB : LachesisBase} {LBL : LachesisBaseLaws LB} {LI : LachesisIdx} {LIL : LachesisIdxLaws LI}.
Context {R : Rlp} {RL : RlpLaws R} {K : Kv} {KL : KvLaws K} {L : Lru} {LL : LruLaws L}.
Context {CB : Codec Block} {CBL : CodecLaws Block} {CP : Codec PackInfo} {CPL : CodecLaws PackInfo}.
Context {CS : Codec BlockState} {CSL : CodecLaws BlockState}.
Context {CE : Codec (EpochState V)} {CEL : CodecLaws (EpochState V)}.
Context {BC : BaseChecks V} {BCL : BaseChecksLaws V} {EN : Engine V} {ENL : EngineLaws V} {X : EmitterExt}.
Context {ENV : Environment}.
Abbreviation Service := (Service V).
Abbreviation Store := (Store V).

Lemma wp_on_store {A} (m : stm Store A) (Q : A -> Service -> Prop) s :
  wp m (fun a st => Q a (set_store st s)) (svc_store s) -> wp (on_store m) Q s.
Proof. unfold wp, on_store, or_exit. destruct (m (svc_store s)) as [[a st]|x|x|x]; auto. Qed.

Lemma wp_next {A} (f : nat -> A) (Q : A -> Service -> Prop) s :
  (forall n, Q (f n) (set_ticks (S n) s)) -> wp (next f) Q s.
Proof. intros HQ. unfold next. wp_run. apply HQ. Qed.

(** ** Frames of the service *)

Section ServiceFrames.
Context (Rel : Service -> Service -> Prop) `{!PreOrder Rel}.

Lemma frames_store (RS : Store -> Store -> Prop) {A} (m : stm Store A) :
  frames RS m -> (forall s st, RS (svc_store s) st -> Rel s (set_store st s)) -> frames Rel (on_store m).
Proof.
  intros Hm HR. apply (frames_part Rel m svc_store set_store); [done|]. intros s x st E. exact (HR s st (Hm _ _ _ E)).
Qed.

Lemma frames_next {A} (f : nat -> A) : (forall s n, Rel s (set_ticks n s)) -> frames Rel (next f).
Proof. intros HR. unfold next. frame. apply frames_modify. intros s. apply HR. Qed.

(** Setters of the fields that blocks change. *)
Lemma run_consensus_frames c :
  (forall A (m : stm Store A), frames Rel (on_store m)) -> (forall s x, Rel s (set_engine x s)) -> (forall s x, Rel s (set_PubKeys x s)) ->
  (forall s x, Rel s (set_feed x s)) -> (forall s x, Rel s (set_svc_meter x s)) -> frames Rel (run_consensus c).
Proof.
  intros Hst He Hk Hf Hm. induction c as [eng err|i k IH|b confirmed k IH]; cbn [run_consensus].
  - apply frames_bind; [done|by apply frames_modify|intros _]. frame.
  - by apply frames_bind.
  - apply frames_bind; [done| |done]. unfold process_block, EndBlock, OnNewEpoch, send.
    repeat first [apply Hst|apply frames_modify; by intros|frame_step].
Qed.

(** The configuration of the emitter does not change. *)
Lemma OnNewEvent_frames e : (forall s n, Rel s (set_ticks n s)) ->
  (forall s x, em_config x = em_config (svc_emitter s) -> em_net x = em_net (svc_emitter s) -> Rel s (set_emitter x s)) -> frames Rel (OnNewEvent e).
Proof.
  intros Ht He. unfold OnNewEvent, onNewExternalEvent, mod_sync, mod_em, get_em, currentSyncStatus, get_em.
  change time_Now with (next clock). change PeersNum with (gets (fun s : Service => Len (pm_peers (pm s)))).
  repeat first [by apply frames_next|apply frames_modify; intros; by apply He|frame_step].
Qed.

End ServiceFrames.

(** ** Blocks *)

(** The graph of events and the packs are untouched. *)
Definition same_dag (s s' : Store) : Prop :=
  (forall i, event_at s' i = event_at s i) /\ epochDBs s' = epochDBs s /\ epochStore s' = epochStore s /\
  Packs s' = Packs s /\ PacksNum s' = PacksNum s /\ (forall e i, pack_info_at s' e i = pack_info_at s e i).

#[global] Instance same_dag_preorder : PreOrder same_dag.
Proof.
  split; [intros s; by split_and!|]. intros s1 s2 s3 (A1 & A2 & A3 & A4 & A5 & A6) (B1 & B2 & B3 & B4 & B5 & B6).
  split_and!; congruence.
Qed.

(** The tables of the store; caches may change. *)
Definition same_tables (s s' : Store) : Prop :=
  BlockStateT s' = BlockStateT s /\ EpochStateT s' = EpochStateT s /\ Events s' = Events s /\ Blocks s' = Blocks s /\
  PackInfos s' = PackInfos s /\ Packs s' = Packs s /\ PacksNum s' = PacksNum s /\ epochDBs s' = epochDBs s /\ epochStore s' = epochStore s.

#[global] Instance same_tables_preorder : PreOrder same_tables.
Proof.
  split; [by intros s; split_and!|]. intros s1 s2 s3 (A1 & A2 & A3 & A4 & A5 & A6 & A7 & A8 & A9) (B1 & B2 & B3 & B4 & B5 & B6 & B7 & B8 & B9).
  split_and!; congruence.
Qed.

Lemma same_tables_dag s s' : same_tables s s' -> same_dag s s'.
Proof.
  intros (A1 & A2 & A3 & A4 & A5 & A6 & A7 & A8 & A9). unfold same_dag, event_at, pack_info_at. rewrite A3, A5. by split_and!.
Qed.

(** The parts of the service outside the store that blocks do not touch. *)
Definition same_service (s s' : Service) : Prop :=
  svc_net s' = svc_net s /\ svc_emitter s' = svc_emitter s /\ stopped s' = stopped s /\
  pm s' = pm s /\ ticks s' = ticks s.

#[global] Instance same_service_preorder : PreOrder same_service.
Proof.
  split; [intros s; by split_and!|]. intros s1 s2 s3 (A1 & A2 & A3 & A4 & A5) (B1 & B2 & B3 & B4 & B5).
  split_and!; congruence.
Qed.

(** The sealing condition of a block that is the [n]-th of its epoch. *)
Definition seals (net : NetConfig) (cb : cBlock) (n : Z) : bool :=
  (n >=? MaxEpochBlocks (Dag net)) || negb (zlen (Cheaters cb) =? 0).

(** The state after a block: the block is stored under the next number, the
    block state advances, and if the block seals the epoch, the epoch advances
    with the same validators and the readers get the keys of the new epoch. *)
Record block_appended (cb : cBlock) (block : Block) (bs : BlockState) (es : EpochState V)
    (s s' : Service) (r : option V) : Prop := {
  ba_ok : store_ok (svc_store s');
  ba_dag : same_dag (svc_store s) (svc_store s');
  ba_service : same_service s s';
  ba_block : forall n, is_uint 64 n ->
    block_at (svc_store s') n = if decide (n = u64 (bs_Block bs + 1)) then Some block else block_at (svc_store s) n;
  ba_state : block_state_at (svc_store s') = Some (MkBlockState (u64 (bs_Block bs + 1))
    (if seals (svc_net s) cb (u64 (EpochBlocks bs + 1)) then 0 else u64 (EpochBlocks bs + 1)));
  ba_epoch : epoch_state_at (svc_store s') = Some
    (if seals (svc_net s) cb (u64 (EpochBlocks bs + 1)) then MkEpochState (u32 (es_Epoch es + 1)) (es_Validators es) else es);
  ba_seal : r = if seals (svc_net s) cb (u64 (EpochBlocks bs + 1)) then Some (es_Validators es) else None;
  ba_keys : PubKeys s' = if seals (svc_net s) cb (u64 (EpochBlocks bs + 1))
    then Some (NewEpochPubKeys (u32 (es_Epoch es + 1)) (gen_Validators (net_Genesis (svc_net s)))) else PubKeys s
}.

Lemma EndBlock_spec s cb v atr bs es :
  store_ok (svc_store s) -> block_state_at (svc_store s) = Some bs -> epoch_state_at (svc_store s) = Some es ->
  atropos_event v = Some atr ->
  wp (EndBlock cb v) (fun r s' => block_appended cb
    (MkBlock (CreationTime atr) (cb_Atropos cb) (IDs (sort_events (confirmedEvents v)))) bs es s s' r) s.
Proof.
  intros Hok Hbs Hes Hatr. unfold EndBlock. wp_run. apply wp_on_store.
  eapply wp_mono; [by apply GetBlockState_spec|]. intros r s1 (-> & Hok1 & c1 & ->). rewrite Hatr. wp_run.
  apply wp_on_store. cbn [svc_store set_store].
  eapply wp_mono; [apply SetBlock_spec; [exact Hok1|apply u64_uint]|]. intros _ s2 (Hok2 & Hb & t & c & ->). wp_run.
  cbn [EpochBlocks bs_Block es_Validators] in *. change (svc_net _) with (svc_net s).
  fold (seals (svc_net s) cb (u64 (EpochBlocks bs + 1))). apply wp_if; intros Hseal.
  - wp_run. apply wp_on_store. eapply wp_mono; [apply GetEpochState_spec; [exact Hok2|exact Hes]|].
    intros es' s3 (-> & Hok3 & c3 & ->). wp_run. apply wp_on_store. cbn [svc_store set_store set_PubKeys].
    eapply wp_mono; [apply SetEpochState_spec; exact Hok3|]. intros _ s4 (Hok4 & He4 & t4 & ->). unfold OnNewEpoch, send. wp_run.
    apply wp_on_store. cbn [svc_store set_store set_PubKeys set_feed].
    eapply wp_mono; [apply SetBlockState_spec; exact Hok4|]. intros _ s5 (Hok5 & Hs5 & t5 & ->). wp_run.
    constructor; rewrite ?Hseal; try done; by split_and!.
  - wp_run. apply wp_on_store. cbn [svc_store set_store].
    eapply wp_mono; [apply SetBlockState_spec; exact Hok2|]. intros _ s5 (Hok5 & Hs5 & t5 & ->). wp_run.
    constructor; rewrite ?Hseal; try done; by split_and!.
Qed.

(** What the loop over the confirmed events gathers. *)
Lemma ApplyEvent_fold cb confirmed v :
  let v' := foldl (ApplyEvent cb) v confirmed in
  confirmedEvents v' = confirmedEvents v ++ filter (fun e => payload (ext e) <> []) confirmed /\
  (is_Some (atropos_event v) \/ Exists (fun e => id (base e) = cb_Atropos cb) confirmed ->
   exists e, atropos_event v' = Some e) /\
  (forall e, atropos_event v' = Some e -> atropos_event v = Some e \/ (e ∈ confirmed /\ id (base e) = cb_Atropos cb)).
Proof.
  revert v. induction confirmed as [|e l IH]; intros v; cbn [foldl].
  - split_and!; [by rewrite app_nil_r| |by left]. intros [[e He]|Hx]; [eauto|by apply Exists_nil in Hx].
  - destruct (IH (ApplyEvent cb v e)) as (E1 & E2 & E3). split_and!.
    + rewrite E1. unfold ApplyEvent at 1, Add. cbn [confirmedEvents]. rewrite filter_cons.
      destruct (payload (ext e)) as [|x pl] eqn:Ep; cbn [zlen length]; [by rewrite decide_False by (by intros [])|].
      rewrite decide_True by done. rewrite zlen_cons. pose proof (zlen_nonneg pl).
      rewrite (proj2 (Z.eqb_neq _ _)) by lia. cbn [negb]. by rewrite <- app_assoc.
    + intros Hx. apply E2. unfold ApplyEvent. cbn [atropos_event]. case_bool_decide as Hd; [left; eauto|].
      destruct Hx as [Hx|Hx]; [by left|]. apply Exists_cons in Hx as [Hx|Hx]; [congruence|by right].
    + intros e' He'. destruct (E3 e' He') as [Ha|[Hin Hid]]; [|right; split; [by right|done]].
      unfold ApplyEvent in Ha. cbn [atropos_event] in Ha. case_bool_decide as Hd; [|by left].
      injection Ha as <-. right. split; [left|done].
Qed.

Lemma IDs_fmap ee : IDs ee = (fun e => id (base e)) <$> ee.
Proof.
  assert (H : forall l, foldl (fun res e => res ++ [id (base e)]) l ee = l ++ ((fun e => id (base e)) <$> ee)); [|apply H].
  induction ee as [|e ee IH]; intros l; csimpl; [by rewrite app_nil_r|]. by rewrite IH, <- app_assoc.
Qed.

Lemma process_block_spec s cb confirmed bs es :
  store_ok (svc_store s) -> block_state_at (svc_store s) = Some bs -> epoch_state_at (svc_store s) = Some es ->
  Exists (fun e => id (base e) = cb_Atropos cb) confirmed ->
  wp (process_block cb confirmed) (fun r s' => exists atr ids,
    atr ∈ confirmed /\ id (base atr) = cb_Atropos cb /\
    ids ≡ₚ (fun e => id (base e)) <$> filter (fun e => payload (ext e) <> []) confirmed /\
    StronglySorted bytes_le ids /\
    block_appended cb (MkBlock (CreationTime atr) (cb_Atropos cb) ids) bs es s s' r) s.
Proof.
  intros Hok Hbs Hes Hex. unfold process_block.
  destruct (ApplyEvent_fold cb confirmed BeginBlock) as (E1 & E2 & E3). cbn [BeginBlock confirmedEvents] in E1.
  destruct E2 as [atr Ha]; [by right|]. eapply wp_mono; [by apply (EndBlock_spec s cb _ atr bs es)|].
  intros r s' Hba. destruct (E3 atr Ha) as [|[Hin Hid]]; [done|]. rewrite E1, IDs_fmap in Hba. cbn [app] in Hba.
  eexists atr, _. split_and!; [done|done| | |exact Hba].
  - f_equiv. apply merge_sort_Permutation.
  - unfold sort_events. lazymatch goal with |- context [@merge_sort _ ?R ?d ?l] =>
      assert (Transitive R) by (intros x y z; apply bytes_le_trans);
      assert (Total R) by (intros x y; apply bytes_le_total);
      pose proof (@StronglySorted_merge_sort _ R d _ _ l) as Hs end.
    clear - Hs. induction Hs as [|x l Hs IH Hf]; csimpl; constructor; [done|]. by apply Forall_fmap.
Qed.

(** C15: a decided block is appended.  It is stored under the next number, with
    the time of the atropos and the ids of the confirmed events that have a
    payload, in the order of their ids; the epoch is sealed exactly if the block
    is the [MaxEpochBlocks]-th of the epoch or reports cheaters, and then the
    next epoch starts with no blocks, the same validators and its public keys.
    The graph of events and the packs are not changed. *)
Theorem block_appends (s : Service) (cb : cBlock) (confirmed : list Event) bs es :
  store_ok (svc_store s) -> block_state_at (svc_store s) = Some bs -> epoch_state_at (svc_store s) = Some es ->
  Exists (fun e => id (base e) = cb_Atropos cb) confirmed ->
  wp (process_block cb confirmed) (fun r s' => exists atr ids,
    atr ∈ confirmed /\ id (base atr) = cb_Atropos cb /\
    ids ≡ₚ (fun e => id (base e)) <$> filter (fun e => payload (ext e) <> []) confirmed /\
    StronglySorted bytes_le ids /\
    block_appended cb (MkBlock (CreationTime atr) (cb_Atropos cb) ids) bs es s s' r) s.
Proof. apply process_block_spec. Qed.

(** ** The engine *)

(** The engine changes blocks and states only; the epoch advances at most once,
    and only if the event is not refused. *)
Definition epoch_advanced (s s' : Service) (es es' : EpochState V) : Prop :=
  es' = MkEpochState (u32 (es_Epoch es + 1)) (es_Validators es) /\
  PubKeys s' = Some (NewEpochPubKeys (es_Epoch es') (gen_Validators (net_Genesis (svc_net s)))).

Lemma run_consensus_spec sealed c s bs es :
  lawful sealed c -> store_ok (svc_store s) ->
  block_state_at (svc_store s) = Some bs -> epoch_state_at (svc_store s) = Some es ->
  wp (run_consensus c) (fun err s' => store_ok (svc_store s') /\ same_dag (svc_store s) (svc_store s') /\ same_service s s' /\
    exists bs' es', block_state_at (svc_store s') = Some bs' /\ epoch_state_at (svc_store s') = Some es' /\
      ((es' = es /\ PubKeys s' = PubKeys s /\ (sealed = true -> err = None)) \/
       (sealed = false /\ err = None /\ epoch_advanced s s' es es'))) s.
Proof.
  revert sealed s bs es. induction c as [eng err|i k IH|b confirmed k IH]; intros sealed s bs es Hlaw Hok Hbs Hes; cbn [run_consensus].
  - wp_run. inversion Hlaw; subst. split_and!; [done|reflexivity|by split_and!|]. exists bs, es. split_and!; [done|done|]. left. done.
  - inversion Hlaw as [|? ? ? Hk|]; subst. wp_run. apply wp_on_store. eapply wp_mono; [by apply GetEvent_spec|].
    intros r s1 (-> & Hok1 & c1 & ->). exact (IH _ sealed (set_store (set_cEvents c1 (svc_store s)) s) bs es (Hk _) Hok1 Hbs Hes).
  - inversion Hlaw as [| |? ? ? Hex Hn Hv]; subst. wp_run. eapply wp_mono; [by apply (process_block_spec s b confirmed bs es)|].
    intros r s1 (atr & ids & _ & _ & _ & _ & [Hok1 Hd1 Hs1 _ Hbs1 Hes1 Hr Hk1]). subst r.
    destruct (seals (svc_net s) b (u64 (EpochBlocks bs + 1))).
    + eapply wp_mono; [by apply (IH _ true s1 _ _ (Hv _) Hok1 Hbs1 Hes1)|].
      intros err s2 (Hok2 & Hd2 & Hs2 & bs' & es' & Hbs2 & Hes2 & [(-> & Hk2 & Herr)|(? & _)]); [|done].
      split_and!; [done|by etrans|by etrans|]. eexists bs', _. split_and!; [done|done|]. right. split_and!; [done|by apply Herr|].
      split; [done|]. by rewrite Hk2, Hk1.
    + eapply wp_mono; [by apply (IH _ false s1 _ _ Hn Hok1 Hbs1 Hes1)|].
      intros err s2 (Hok2 & Hd2 & Hs2 & bs' & es' & Hbs2 & Hes2 & Hcase).
      split_and!; [done|by etrans|by etrans|]. exists bs', es'. split_and!; [done|done|].
      destruct Hcase as [(-> & Hk2 & Herr)|(_ & -> & -> & Hk2)]; [left|right].
      * by rewrite Hk2, Hk1.
      * split_and!; [done|done|]. split; [done|]. rewrite Hk2. by destruct Hs1 as (-> & _).
Qed.

(** ** Packs *)

Definition open_pack (s : Store) (e : Z) : Z := default 1 (packs_num_at s e).
Definition open_info (s : Store) (e : Z) : PackInfo :=
  default (MkPackInfo (open_pack s e) 0 0 []) (pack_info_at s e (open_pack s e)).

(** Everything but the packs is untouched. *)
Definition same_but_packs (s s' : Store) : Prop :=
  (forall i, event_at s' i = event_at s i) /\ epochDBs s' = epochDBs s /\ epochStore s' = epochStore s /\
  block_state_at s' = block_state_at s /\ epoch_state_at s' = epoch_state_at s.

Definition next_num (s : Store) (e : Z) : Z := u32 (NumOfEvents (open_info s e) + 1).
Definition next_size (s : Store) (e : Z) (ev : Event) : Z := u32 (pi_Size (open_info s e) + u32 (Size ev)).
Definition fills (s : Store) (e : Z) (ev : Event) : bool :=
  (next_num s e >=? maxPackEventsNum) || (next_size s e ev >=? maxPackSize).

(** The event joins the open pack; a pack that is full is closed. *)
Record pack_added (s s' : Store) (e : Z) (ev : Event) : Prop := {
  pa_in : forall e' i x, is_uint 32 e' -> is_uint 32 i ->
    in_pack s' e' i x <-> in_pack s e' i x \/ (e' = e /\ i = open_pack s e /\ x = id (base ev));
  pa_info : exists hs, forall e' i, is_uint 32 e' -> is_uint 32 i ->
    pack_info_at s' e' i = if decide (e' = e /\ i = open_pack s e)
      then Some (MkPackInfo (open_pack s e) (next_size s e ev) (next_num s e) hs) else pack_info_at s e' i;
  pa_num : forall e', is_uint 32 e' ->
    packs_num_at s' e' = if decide (e' = e /\ fills s e ev = true) then Some (u32 (open_pack s e + 1)) else packs_num_at s e'
}.

Definition heads_are_ids (s : Store) : Prop := forall k, is_Some (cur_heads s !! k) -> length k = 32%nat.

Lemma AddToPack_in s e i x : store_ok s -> is_uint 32 e -> is_uint 32 i -> length x = 32%nat ->
  wp (AddToPack e i x) (fun _ s' => store_ok s' /\ (exists t, s' = set_Packs t s) /\
    forall e' i' y, is_uint 32 e' -> is_uint 32 i' -> in_pack s' e' i' y <-> in_pack s e' i' y \/ (e' = e /\ i' = i /\ y = x)) s.
Proof.
  intros Hok He Hi Hx. eapply wp_mono; [by apply AddToPack_spec|]. intros _ s' (Hok' & t & -> & Ht).
  split_and!; [done|eauto|]. intros e' i' y He' Hi'. unfold in_pack. cbn [Packs set_Packs]. rewrite Ht.
  destruct (decide (pack_key e i ++ x = pack_key e' i' ++ y)) as [E|Hne].
  - rewrite E, lookup_insert_eq. apply app_inj_1 in E as [E1 ->]; [|by rewrite !pack_key_length].
    apply pack_key_inj in E1 as [-> ->]; [|done..]. split; [by right|eauto].
  - rewrite lookup_insert_ne by done. split; [by left|]. intros [?|(-> & -> & ->)]; done.
Qed.

Lemma packsOnNewEvent_spec s ev e :
  store_ok (svc_store s) -> is_uint 32 e -> is_uint 32 (open_pack (svc_store s) e) -> length (id (base ev)) = 32%nat ->
  heads_are_ids (svc_store s) ->
  wp (packsOnNewEvent ev e) (fun _ s' => store_ok (svc_store s') /\ same_but_packs (svc_store s) (svc_store s') /\
    pack_added (svc_store s) (svc_store s') e ev /\ same_service s s' /\ PubKeys s' = PubKeys s) s.
Proof.
  intros Hok He Hop Hid Hh. unfold packsOnNewEvent. wp_run. apply wp_on_store.
  eapply wp_mono; [apply GetPacksNumOrDefault_spec|]. intros n s0 [-> ->]. fold (open_pack (svc_store s) e). wp_run.
  apply wp_on_store. eapply wp_mono; [by apply GetPackInfoOrDefault_spec|]. intros info s1 (-> & Hok1 & c1 & ->).
  fold (open_info (svc_store s) e). wp_run. apply wp_on_store. cbn [svc_store set_store].
  eapply wp_mono; [by apply AddToPack_in|]. intros _ s2 (Hok2 & [t2 ->] & Hin). wp_run.
  apply (wp_if (fills (svc_store s) e ev)); intros Hfull; wp_run.
  - apply wp_on_store. cbn [svc_store set_store]. eapply wp_mono; [by apply GetHeads_spec|].
    intros hs s3 (-> & _). wp_run. apply wp_on_store. cbn [svc_store set_store].
    eapply wp_mono; [by apply SetPacksNum_spec; [| |apply u32_uint]|]. intros _ s3 (Hok3 & Hn & t3 & ->). unfold send. wp_run.
    apply wp_on_store. cbn [svc_store set_store set_feed].
    eapply wp_mono; [by apply SetPackInfo_spec|]. intros _ s4 (Hok4 & Hi & t4 & c4 & ->).
    split_and!; [exact Hok4|by split_and!|constructor|by split_and!|done].
    + exact Hin.
    + exists hs. exact Hi.
    + intros e' He'. rewrite Hfull. etrans; [exact (Hn e' He')|]. destruct (decide (e' = e)) as [->|Hne];
        [by rewrite decide_True|by rewrite decide_False by (by intros [])].
  - apply wp_on_store. cbn [svc_store set_store].
    eapply wp_mono; [by apply SetPackInfo_spec|]. intros _ s4 (Hok4 & Hi & t4 & c4 & ->).
    split_and!; [exact Hok4|by split_and!|constructor|by split_and!|done].
    + exact Hin.
    + eexists. exact Hi.
    + intros e' He'. rewrite Hfull. by rewrite decide_False by (by intros []).
Qed.

(** At the end of an epoch the open pack is closed. *)
Record pack_closed (s s' : Store) (e : Z) : Prop := {
  pc_in : forall e' i x, in_pack s' e' i x <-> in_pack s e' i x;
  pc_info : exists hs, (NoDup hs /\ forall x, x ∈ hs <-> is_Some (cur_heads s !! x)) /\
    forall e' i, is_uint 32 e' -> is_uint 32 i ->
    pack_info_at s' e' i = if decide (e' = e /\ i = open_pack s e)
      then Some (MkPackInfo (Index (open_info s e)) (pi_Size (open_info s e)) (NumOfEvents (open_info s e)) hs)
      else pack_info_at s e' i;
  pc_num : forall e', is_uint 32 e' ->
    packs_num_at s' e' = if decide (e' = e) then Some (u32 (open_pack s e + 1)) else packs_num_at s e'
}.

Lemma packsOnNewEpoch_spec s e e2 :
  store_ok (svc_store s) -> is_uint 32 e -> is_uint 32 (open_pack (svc_store s) e) -> heads_are_ids (svc_store s) ->
  wp (packsOnNewEpoch e e2) (fun _ s' => store_ok (svc_store s') /\ same_but_packs (svc_store s) (svc_store s') /\
    pack_closed (svc_store s) (svc_store s') e /\ same_service s s' /\ PubKeys s' = PubKeys s) s.
Proof.
  intros Hok He Hop Hh. unfold packsOnNewEpoch. wp_run. apply wp_on_store.
  eapply wp_mono; [apply GetPacksNumOrDefault_spec|]. intros n s0 [-> ->]. fold (open_pack (svc_store s) e). wp_run.
  apply wp_on_store. eapply wp_mono; [by apply GetPackInfoOrDefault_spec|]. intros info s1 (-> & Hok1 & c1 & ->).
  fold (open_info (svc_store s) e). wp_run. apply wp_on_store. cbn [svc_store set_store].
  eapply wp_mono; [by apply GetHeads_spec|]. intros hs s3 (-> & Hhs). wp_run. apply wp_on_store. cbn [svc_store set_store].
  eapply wp_mono; [by apply SetPackInfo_spec|]. intros _ s4 (Hok4 & Hi & t4 & c4 & ->). wp_run.
  apply wp_on_store. cbn [svc_store set_store]. eapply wp_mono; [by apply SetPacksNum_spec; [| |apply u32_uint]|].
  intros _ s5 (Hok5 & Hn & t5 & ->). unfold send. wp_run.
  split_and!; [exact Hok5|by split_and!|constructor|by split_and!|done].
  - done.
  - exists hs. split; [exact Hhs|exact Hi].
  - exact Hn.
Qed.

(** ** The graph of the epoch *)

(** A stored event of the epoch without stored children. *)
Definition is_head (ev : list Z -> option Event) (E : Z) (x : list Z) : Prop :=
  (exists e, ev x = Some e /\ epoch (base e) = E) /\
  (forall i e, ev i = Some e -> epoch (base e) = E -> x ∉ parents (base e)).

Record dag_ok (s : Store) (E : Z) : Prop := {
  d_store : store_ok s;
  d_open : epochStore s = Some E;
  d_epoch : is_uint 32 E;
  d_dbs : forall n, is_Some (epochDBs s !! n) -> n <= E;
  d_events : forall i e, event_at s i = Some e -> storable e /\ id (base e) = i /\ epoch (base e) <= E;
  d_closed : forall i e p, event_at s i = Some e -> epoch (base e) = E -> p ∈ parents (base e) -> is_Some (event_at s p);
  d_heads : forall x, is_Some (cur_heads s !! x) <-> is_head (event_at s) E x;
  d_tips : forall v i, is_uint 32 v -> cur_tips s !! validator_bytes v = Some i ->
    exists e, event_at s i = Some e /\ epoch (base e) = E /\ creator (base e) = v;
  d_latest : forall i e, event_at s i = Some e -> epoch (base e) = E -> is_Some (cur_tips s !! validator_bytes (creator (base e)))
}.

(** The id of an event shows its epoch. *)
Lemma storable_id e : storable e ->
  take 4 (id (base e)) = epoch_bytes (epoch (base e)) /\ length (id (base e)) = 32%nat.
Proof.
  intros [Hf _ _ _ (raw & h & _ & _ & _ & Hh & ->)]. rewrite base_id_layout. split.
  - rewrite take_app_le by (rewrite epoch_bytes_length; lia). by rewrite <- (epoch_bytes_length (epoch (base e))), firstn_all.
  - assert (length h = 32%nat).
    { unfold eventHashToSign in Hh. destruct (slice_range _ _ _) as [t|x|x|x]; try discriminate. simpl in Hh. injection Hh as <-.
      apply Sha256.length_sum256. }
    rewrite !length_app, epoch_bytes_length, lamport_bytes_length. unfold calcEventID. rewrite length_take. lia.
Qed.

(** Stored parents are events of the epoch. *)
Lemma parent_epoch s E e p pe : dag_ok s E -> storable e -> p ∈ parents (base e) -> event_at s p = Some pe ->
  epoch (base pe) = epoch (base e).
Proof.
  intros Hd He Hp Hpe. destruct (d_events _ _ Hd _ _ Hpe) as (Hpe' & <- & _).
  pose proof (st_parents _ He) as Hpar. unfold parents_in_epoch in Hpar. rewrite Forall_forall in Hpar.
  specialize (Hpar _ Hp). rewrite (proj1 (storable_id pe Hpe')) in Hpar.
  apply epoch_bytes_inj in Hpar; [done|apply (ok_epoch _ _ (st_fields _ Hpe'))|apply (ok_epoch _ _ (st_fields _ He))].
Qed.

Lemma heads_ids s E : dag_ok s E -> heads_are_ids s.
Proof.
  intros Hd k Hk. apply (d_heads _ _ Hd) in Hk as [(e & He & _) _]. destruct (d_events _ _ Hd _ _ He) as (Hs & <- & _).
  by apply storable_id.
Qed.

(** [DelHead] for every parent. *)
Lemma DelHeads_spec s ps :
  wp (DelHeads ps) (fun _ s' => in_epoch_db s s' /\
    (forall x, cur_heads s' !! x = if decide (x ∈ ps) then None else cur_heads s !! x) /\ cur_tips s' = cur_tips s) s.
Proof.
  revert s. induction ps as [|p ps IH]; intros s; cbn [DelHeads].
  - wp_run. split_and!; [|intros x; by rewrite decide_False by apply not_elem_of_nil|done].
    split_and!; [done|done|]. exists (epochDBs s). split; [by destruct s|by left].
  - wp_run. eapply wp_mono; [apply DelHead_spec|]. intros _ s1 ((Hok1 & He1 & d1 & -> & Hd1) & Hh1 & Ht1).
    eapply wp_mono; [apply IH|]. intros _ s2 ((Hok2 & He2 & d2 & -> & Hd2) & Hh2 & Ht2). split_and!.
    + split_and!; [auto|done|]. exists d2. split; [done|]. intros n Hn. destruct (Hd2 n Hn) as [?|?]; [by apply Hd1|by right].
    + intros x. rewrite Hh2, Hh1. destruct (decide (x ∈ ps)); [by rewrite decide_True by set_solver|].
      destruct (decide (x = p)) as [->|Hne]; [by rewrite lookup_delete_eq, decide_True by set_solver|].
      rewrite lookup_delete_ne by done. rewrite decide_False; [done|]. rewrite elem_of_cons. tauto.
    + by rewrite Ht2.
Qed.

(** The event joins the graph of its epoch. *)
Record dag_extended (s s' : Store) (e : Event) : Prop := {
  de_events : forall i, event_at s' i = if decide (i = id (base e)) then Some e else event_at s i;
  de_open : epochStore s' = epochStore s;
  de_dbs : forall n, is_Some (epochDBs s' !! n) -> is_Some (epochDBs s !! n) \/ epochStore s = Some n;
  de_heads : forall x, is_Some (cur_heads s' !! x) <-> x = id (base e) \/ (is_Some (cur_heads s !! x) /\ x ∉ parents (base e));
  de_tips : cur_tips s' = <[validator_bytes (creator (base e)) := id (base e)]> (cur_tips s)
}.

Lemma dag_extended_ok s s' E e :
  dag_ok s E -> store_ok s' -> storable e -> epoch (base e) = E -> event_at s (id (base e)) = None ->
  Forall (fun p => is_Some (event_at s p)) (parents (base e)) -> dag_extended s s' e -> dag_ok s' E.
Proof.
  intros Hd Hok He HE Hnew Hpar [Hev Hopen Hdbs Hheads Htips]. pose proof Hd as [_ D1 D2 D3 D4 D5 D6 D7 D8].
  rewrite Forall_forall in Hpar. constructor; try done.
  - by rewrite Hopen.
  - intros n Hn. destruct (Hdbs n Hn) as [?|Heq]; [by apply D3|]. rewrite D1 in Heq. injection Heq as ->. lia.
  - intros i x. rewrite Hev. case_decide as Hi; [|apply D4]. intros [= <-]. split_and!; [done|done|lia].
  - intros i x p. rewrite !Hev. case_decide as Hi.
    + intros [= <-] _ Hp. case_decide; [eauto|by apply Hpar].
    + intros Hx Hxe Hp. case_decide; [eauto|by eapply D5].
  - intros x. rewrite Hheads, D6. unfold is_head. split.
    + intros [->|[[(y & Hy & Hye) Hno] Hnp]].
      * split; [exists e; rewrite Hev, decide_True by done; done|]. intros i y. rewrite Hev. case_decide as Hi.
        -- intros [= <-] _ Hin. destruct (Hpar _ Hin). congruence.
        -- intros Hy Hye Hin. destruct (D5 _ _ _ Hy Hye Hin). congruence.
      * split; [exists y; rewrite Hev; case_decide; [congruence|done]|]. intros i z. rewrite Hev. case_decide; [by intros [= <-]|apply Hno].
    + intros [(y & Hy & Hye) Hno]. rewrite Hev in Hy. case_decide as Hx; [by left|]. right. split; [split; [eauto|]|].
      * intros i z Hz. apply (Hno i z). rewrite Hev. case_decide; [congruence|done].
      * apply (Hno (id (base e)) e); [by rewrite Hev, decide_True|done].
  - intros v i Hv. rewrite Htips, lookup_insert_Some. intros [[Hk <-]|[_ Hi]].
    + exists e. rewrite Hev, decide_True by done. split_and!; [done..|].
      apply validator_bytes_inj; [apply (ok_creator _ _ (st_fields _ He))|done|done].
    + destruct (D7 v i Hv Hi) as (y & Hy & ? & ?). exists y. rewrite Hev. case_decide; [congruence|done].
  - intros i x. rewrite Hev, Htips, lookup_insert_is_Some'. case_decide; [intros [= <-] _; by left|]. intros Hx Hxe. right. by eapply D8.
Qed.

Lemma cur_same (s s' : Store) : epochDBs s' = epochDBs s -> epochStore s' = epochStore s ->
  cur_heads s' = cur_heads s /\ cur_tips s' = cur_tips s.
Proof. intros E1 E2. unfold cur_heads, cur_tips, cur_tables. by rewrite E1, E2. Qed.

Lemma dag_ok_same s s' E : dag_ok s E -> store_ok s' -> (forall i, event_at s' i = event_at s i) ->
  epochDBs s' = epochDBs s -> epochStore s' = epochStore s -> dag_ok s' E.
Proof.
  intros [_ D1 D2 D3 D4 D5 D6 D7 D8] Hok Hev Hdb Hes. destruct (cur_same s s' Hdb Hes) as [Hh Ht]. constructor; try done.
  - by rewrite Hes.
  - by rewrite Hdb.
  - intros i e. rewrite Hev. apply D4.
  - intros i e p. rewrite !Hev. apply D5.
  - intros x. rewrite Hh, D6. unfold is_head. split.
    + intros [(e & He & HE) Hno]. split; [exists e; by rewrite Hev|]. intros i y. rewrite Hev. apply Hno.
    + intros [(e & He & HE) Hno]. split; [exists e; by rewrite <- Hev|]. intros i y. rewrite <- Hev. apply Hno.
  - intros v i Hv. rewrite Ht. intros Hi. destruct (D7 v i Hv Hi) as (e & He & ?). exists e. by rewrite Hev.
  - intros i e. rewrite Hev, Ht. apply D8.
Qed.

(** A new epoch starts without events. *)
Lemma dag_reset_ok s s' E : dag_ok s E -> E + 1 < 2 ^ 32 -> store_ok s' ->
  (forall i e, event_at s' i = Some e -> storable e /\ id (base e) = i /\ epoch (base e) <= E) ->
  epochStore s' = Some (E + 1) -> cur_heads s' = ∅ -> cur_tips s' = ∅ ->
  (forall n, is_Some (epochDBs s' !! n) -> is_Some (epochDBs s !! n) \/ n = E + 1) -> dag_ok s' (E + 1).
Proof.
  intros [_ D1 D2 D3 D4 D5 D6 D7 _] HE Hok Hev Hes Hh Ht Hdb. unfold is_uint in *. constructor; try done.
  - unfold is_uint. lia.
  - intros n Hn. destruct (Hdb n Hn) as [Hn'| ->]; [apply D3 in Hn'|]; lia.
  - intros i e He. destruct (Hev i e He) as (? & ? & ?). split_and!; [done|done|lia].
  - intros i e p He HeE. destruct (Hev i e He) as (_ & _ & ?). lia.
  - intros x. rewrite Hh, lookup_empty. split; [by intros [? ?]|]. intros [(e & He & HeE) _].
    destruct (Hev x e He) as (_ & _ & ?). lia.
  - intros v i _. by rewrite Ht, lookup_empty.
  - intros i e He HeE. destruct (Hev i e He) as (_ & _ & ?). lia.
Qed.

(** ** The packs of the epoch *)

Definition info_at (s : Store) (E i : Z) : PackInfo := default (MkPackInfo i 0 0 []) (pack_info_at s E i).

(** The number of ids in a pack is [n]. *)
Definition pack_size (s : Store) (E i n : Z) : Prop :=
  exists l, NoDup l /\ (forall x, x ∈ l <-> in_pack s E i x) /\ zlen l = n.

Record packs_ok (s : Store) (E : Z) : Prop := {
  pk_num : 1 <= open_pack s E < 2 ^ 32;
  pk_events : forall x, (exists e, event_at s x = Some e /\ epoch (base e) = E) <->
    exists i, 1 <= i <= open_pack s E /\ in_pack s E i x;
  pk_range : forall i x, is_uint 32 i -> in_pack s E i x -> 1 <= i <= open_pack s E;
  pk_unique : forall i j x, is_uint 32 i -> is_uint 32 j -> in_pack s E i x -> in_pack s E j x -> i = j;
  pk_count : forall i, 1 <= i <= open_pack s E -> pack_size s E i (NumOfEvents (info_at s E i));
  pk_open : 0 <= NumOfEvents (open_info s E) < maxPackEventsNum /\ pi_Size (open_info s E) < maxPackSize;
  pk_closed : forall i, 1 <= i < open_pack s E ->
    maxPackEventsNum <= NumOfEvents (info_at s E i) \/ maxPackSize <= pi_Size (info_at s E i);
  pk_above : forall i, open_pack s E < i < 2 ^ 32 -> pack_info_at s E i = None;
  pk_future : forall e, E < e < 2 ^ 32 -> packs_num_at s e = None /\
    forall i, is_uint 32 i -> pack_info_at s e i = None /\ forall x, ~ in_pack s e i x
}.

Lemma pack_size_add s s' E i n x : (forall y, in_pack s' E i y <-> in_pack s E i y \/ y = x) ->
  ~ in_pack s E i x -> pack_size s E i n -> pack_size s' E i (n + 1).
Proof.
  intros Hin Hx (l & Hnd & Hl & Hn). exists (x :: l). split_and!.
  - constructor; [by rewrite Hl|done].
  - intros y. rewrite elem_of_cons, Hl, Hin. tauto.
  - rewrite zlen_cons. lia.
Qed.

Lemma pack_size_same s s' E i n : (forall y, in_pack s' E i y <-> in_pack s E i y) -> pack_size s E i n -> pack_size s' E i n.
Proof. intros Hin (l & Hnd & Hl & Hn). exists l. split_and!; [done| |done]. intros x. by rewrite Hl, Hin. Qed.

(** What an added event shows of the packs of its epoch. *)
Lemma pack_added_view s s' E e :
  packs_ok s E -> is_uint 32 E -> open_pack s E + 1 < 2 ^ 32 -> pack_added s s' E e -> event_at s (id (base e)) = None ->
  let n := open_pack s E in
  open_pack s' E = (if fills s E e then n + 1 else n) /\
  (exists hs, info_at s' E n = MkPackInfo n (next_size s E e) (next_num s E) hs) /\
  (forall i, is_uint 32 i -> i <> n -> pack_info_at s' E i = pack_info_at s E i) /\
  next_num s E = NumOfEvents (open_info s E) + 1 /\
  (forall i, is_uint 32 i -> ~ in_pack s E i (id (base e))) /\
  (forall i y, is_uint 32 i -> in_pack s' E i y <-> in_pack s E i y \/ (i = n /\ y = id (base e))).
Proof.
  intros [P1 P2 P3 P4 P5 P6 P7 P8 P9] HE Hroom [Hin [hs Hinfo] Hnum] Hnew n. unfold is_uint in *. split_and!.
  - unfold open_pack. rewrite Hnum by done. fold n. destruct (fills s E e).
    + rewrite decide_True by done. simpl. apply u32_id. unfold is_uint. lia.
    + rewrite decide_False by (by intros []). done.
  - exists hs. unfold info_at. rewrite Hinfo by lia. by rewrite decide_True.
  - intros i Hi Hne. rewrite Hinfo by lia. by rewrite decide_False by (by intros []).
  - unfold next_num. apply u32_id. unfold is_uint, maxPackEventsNum, softLimitItems in *. lia.
  - intros i Hi Hx. destruct (proj2 (P2 (id (base e)))) as (y & Hy & _); [exists i; split; [by eapply P3|done]|]. congruence.
  - intros i y Hi. rewrite Hin by done. unfold n. tauto.
Qed.

(** The packs after an event has joined the open one. *)
Lemma pack_added_ok s s' E e :
  packs_ok s E -> is_uint 32 E -> open_pack s E + 1 < 2 ^ 32 -> pack_added s s' E e ->
  epoch (base e) = E -> event_at s (id (base e)) = None ->
  (forall i, event_at s' i = if decide (i = id (base e)) then Some e else event_at s i) -> packs_ok s' E.
Proof.
  intros Hpk HE Hroom Hadd HeE Hnew Hev. destruct (pack_added_view _ _ _ _ Hpk HE Hroom Hadd Hnew) as (Hopen & [hs Hn] & Hne & Hnn & Hnot & Hin).
  destruct Hpk as [P1 P2 P3 P4 P5 P6 P7 P8 P9]. unfold is_uint in *. set (n := open_pack s E) in *.
  assert (Hle : n <= open_pack s' E <= n + 1) by (rewrite Hopen; destruct (fills s E e); lia).
  assert (Hinfo : forall i, 0 <= i < 2 ^ 32 -> i <> n -> info_at s' E i = info_at s E i) by (intros; unfold info_at; by rewrite Hne).
  assert (Hnew' : n < open_pack s' E -> info_at s' E (n + 1) = MkPackInfo (n + 1) 0 0 []).
  { intros _. rewrite Hinfo by lia. unfold info_at. by rewrite P8 by lia. }
  constructor.
  - lia.
  - intros y. split.
    + intros (y' & Hy & HyE). rewrite Hev in Hy. case_decide as Hd; [exists n; split; [lia|]; apply Hin; [lia|by right]|].
      destruct (proj1 (P2 y)) as (i & Hi & Hiy); [eauto|]. exists i. split; [lia|]. apply Hin; [lia|by left].
    + intros (i & Hi & Hiy). rewrite Hev. case_decide as Hd; [eauto|]. apply Hin in Hiy as [Hiy|[_ ?]]; [|done|lia].
      apply P2. exists i. split; [apply (P3 i y); [lia|done]|done].
  - intros i y Hi Hy. apply Hin in Hy as [Hy|[-> _]]; [apply P3 in Hy; [lia|done]|lia|done].
  - intros i j y Hi Hj Hiy Hjy. apply Hin in Hiy; [|done]. apply Hin in Hjy; [|done].
    destruct Hiy as [Hiy|[-> ->]], Hjy as [Hjy|[-> Hyx]]; try done; [by apply (P4 i j y)|subst y; by destruct (Hnot i)|by destruct (Hnot j)].
  - intros i Hi. destruct (decide (i = n)) as [->|Hin'].
    + rewrite Hn. cbn [NumOfEvents]. rewrite Hnn. apply (pack_size_add s s' E n _ (id (base e))); [|by apply Hnot; lia|apply (P5 n); lia].
      intros y. rewrite Hin by lia. tauto.
    + rewrite Hinfo by lia. destruct (decide (i <= n)).
      * apply (pack_size_same s); [|by apply P5; lia]. intros y. rewrite Hin by lia. intuition congruence.
      * unfold info_at. rewrite P8 by lia. exists []. split_and!; [constructor| |done]. intros y. split; [intros Hy; by apply elem_of_nil in Hy|].
        intros Hy. apply Hin in Hy as [Hy|[? _]]; [apply P3 in Hy; lia|lia|lia].
  - change (open_info s' E) with (info_at s' E (open_pack s' E)). destruct (fills s E e) eqn:Ef; rewrite Hopen.
    + rewrite Hnew' by lia. unfold maxPackEventsNum, softLimitItems, maxPackSize, softResponseLimitSize. cbn [NumOfEvents pi_Size]. lia.
    + rewrite Hn. cbn [NumOfEvents pi_Size]. unfold fills in Ef. apply orb_false_iff in Ef as [E1 E2].
      rewrite !Z.geb_leb in *. apply Z.leb_gt in E1, E2. rewrite Hnn in *. lia.
  - intros i Hi. destruct (decide (i = n)) as [->|Hin']; [|rewrite Hinfo by lia; apply P7; lia].
    rewrite Hn. cbn [NumOfEvents pi_Size]. assert (Ef : fills s E e = true) by (destruct (fills s E e); [done|lia]).
    unfold fills in Ef. rewrite !Z.geb_leb in Ef. apply orb_true_iff in Ef as [Ef|Ef]; apply Z.leb_le in Ef; auto.
  - intros i Hi. rewrite Hne by lia. apply P8. lia.
  - intros e' He'. destruct Hadd as [A1 [hs' A2] A3]. destruct (P9 e' He') as [F1 F2]. split.
    + rewrite A3 by (unfold is_uint; lia). rewrite decide_False by lia. done.
    + intros i Hi. destruct (F2 i Hi) as [F3 F4]. split; [rewrite A2 by (unfold is_uint in *; lia); by rewrite decide_False by lia|].
      intros y Hy. apply A1 in Hy as [Hy|(? & _)]; [by apply (F4 y)|lia|unfold is_uint; lia|done].
Qed.

(** A new epoch has one empty, open pack. *)
Lemma pack_reset_ok s s' E :
  packs_ok s E -> E + 1 < 2 ^ 32 -> 0 <= E -> pack_closed s s' E ->
  (forall i e, event_at s' i = Some e -> epoch (base e) <= E) -> packs_ok s' (E + 1).
Proof.
  intros [P1 P2 P3 P4 P5 P6 P7 P8 P9] HE H0 [Hin [hs [_ Hinfo]] Hnum] Hev. unfold is_uint in *.
  assert (Hfut : forall e, E < e < 2 ^ 32 -> packs_num_at s' e = None /\
    forall i, 0 <= i < 2 ^ 32 -> pack_info_at s' e i = None /\ forall x, ~ in_pack s' e i x).
  { intros e He. destruct (P9 e He) as [F1 F2]. split; [rewrite Hnum by lia; by rewrite decide_False by lia|].
    intros i Hi. destruct (F2 i Hi) as [F3 F4]. split; [rewrite Hinfo by lia; by rewrite decide_False by lia|].
    intros x. by rewrite Hin. }
  destruct (Hfut (E + 1) ltac:(lia)) as [F1 F2]. assert (Hopen : open_pack s' (E + 1) = 1) by (unfold open_pack; by rewrite F1).
  assert (Hnone : forall i, 0 <= i < 2 ^ 32 -> info_at s' (E + 1) i = MkPackInfo i 0 0 []) by
    (intros i Hi; unfold info_at; by rewrite (proj1 (F2 i Hi))).
  constructor; rewrite ?Hopen; try lia.
  - intros x. split; [intros (e & He & HeE); apply Hev in He; lia|]. intros (i & Hi & Hx). by destruct (proj2 (F2 i ltac:(lia)) x).
  - intros i x Hi Hx. by destruct (proj2 (F2 i Hi) x).
  - intros i j x Hi _ Hx. by destruct (proj2 (F2 i Hi) x).
  - intros i Hi. rewrite Hnone by lia. exists []. split_and!; [constructor| |done]. intros x.
    split; [intros Hx; by apply elem_of_nil in Hx|]. intros Hx. by destruct (proj2 (F2 i ltac:(lia)) x).
  - change (open_info s' (E + 1)) with (info_at s' (E + 1) (open_pack s' (E + 1))). rewrite Hopen, Hnone by lia.
    unfold maxPackEventsNum, softLimitItems, maxPackSize, softResponseLimitSize. cbn [NumOfEvents pi_Size]. lia.
  - intros i Hi. by apply F2; lia.
  - intros e He. apply Hfut. lia.
Qed.

Lemma packs_ok_same s s' E : packs_ok s E -> (forall i, event_at s' i = event_at s i) ->
  Packs s' = Packs s -> PacksNum s' = PacksNum s -> (forall e i, pack_info_at s' e i = pack_info_at s e i) -> packs_ok s' E.
Proof.
  intros [P1 P2 P3 P4 P5 P6 P7 P8 P9] Hev Hp Hn Hi.
  assert (Hin : forall e i x, in_pack s' e i x <-> in_pack s e i x) by (intros; unfold in_pack; by rewrite Hp).
  assert (Hnum : forall e, packs_num_at s' e = packs_num_at s e) by (intros; unfold packs_num_at; by rewrite Hn).
  assert (Ho : open_pack s' E = open_pack s E) by (unfold open_pack; by rewrite Hnum).
  assert (Hinf : forall i, info_at s' E i = info_at s E i) by (intros; unfold info_at; by rewrite Hi).
  assert (Hoi : open_info s' E = open_info s E) by (unfold open_info; by rewrite Ho, Hi).
  constructor; rewrite ?Ho, ?Hoi; try done.
  - intros x. split.
    + intros (e & He & HE). rewrite Hev in He. destruct (proj1 (P2 x)) as (i & Hr & Hx); [eauto|]. exists i. by rewrite Hin.
    + intros (i & Hr & Hx). destruct (proj2 (P2 x)) as (e & He & HE); [exists i; by rewrite <- Hin|]. exists e. by rewrite Hev.
  - intros i x. rewrite Hin. apply P3.
  - intros i j x. rewrite !Hin. apply P4.
  - intros i Hr. rewrite Hinf. apply (pack_size_same s); [by intros; apply Hin|by apply P5].
  - intros i Hr. rewrite Hinf. by apply P7.
  - intros i Hr. rewrite Hi. by apply P8.
  - intros e He. destruct (P9 e He) as [F1 F2]. split; [by rewrite Hnum|]. intros i Hr. destruct (F2 i Hr) as [F3 F4].
    split; [by rewrite Hi|]. intros x. by rewrite Hin.
Qed.

(** ** Processing an event *)

Definition node_ok (s : Service) (es : EpochState V) : Prop :=
  epoch_state_at (svc_store s) = Some es /\ is_Some (block_state_at (svc_store s)) /\
  dag_ok (svc_store s) (es_Epoch es) /\ packs_ok (svc_store s) (es_Epoch es) /\
  PubKeys s = Some (NewEpochPubKeys (es_Epoch es) (gen_Validators (net_Genesis (svc_net s)))).

(** The double-sign heuristics do not stop the node on this event. *)
Definition quiet (em : Emitter) (e : Event) : Prop :=
  ec_Validator (em_config em) = 0 \/ ec_Validator (em_config em) <> creator (base e) \/
  prevLocalEmittedID (em_sync em) = id (base e) \/ forall st d, DetectParallelInstance st d = false.

Lemma OnNewEvent_spec s e : quiet (svc_emitter s) e ->
  wp (OnNewEvent e) (fun _ s' => svc_store s' = svc_store s /\ svc_net s' = svc_net s /\ PubKeys s' = PubKeys s) s.
Proof.
  intros Hq. unfold OnNewEvent, get_em. wp_run. change (w_emitter s) with (svc_emitter s).
  apply wp_if; intros Hv; [wp_run; done|]. apply wp_if; intros Hid; [wp_run; done|].
  unfold onNewExternalEvent, mod_sync, mod_em, get_em, currentSyncStatus, get_em.
  change time_Now with (next clock). change PeersNum with (gets (fun s : Service => Len (pm_peers (pm s)))). wp_run. apply wp_next. intros n1. wp_run.
  apply wp_next. intros n2. wp_run. apply orb_false_iff in Hv as [Hv1 Hv2]. apply Z.eqb_neq in Hv1. apply negb_false_iff, Z.eqb_eq in Hv2.
  apply bool_decide_eq_false in Hid. destruct Hq as [?|[?|[?|Hd]]]; [done..|]. rewrite Hd. wp_run. done.
Qed.

Lemma Commit_spec s f b : wp (Commit f b) (fun _ s' => svc_store s' = svc_store s /\ svc_net s' = svc_net s /\ PubKeys s' = PubKeys s) s.
Proof.
  unfold Commit. wp_run. destruct f as [f|]; wp_run; [|apply wp_next; intros n0; wp_run]; apply wp_next; intros n1;
    (apply wp_if; intros _; wp_run; [done|apply wp_next; intros n2; destruct (flush_result n2 _); by wp_run]).
Qed.

(** The store once the event is stored and the engine has run: the event is
    there, its graph and packs are still those of [s]. *)
Record stored_only (s s' : Store) (e : Event) : Prop := {
  so_ok : store_ok s';
  so_events : forall i, event_at s' i = if decide (i = id (base e)) then Some e else event_at s i;
  so_dbs : epochDBs s' = epochDBs s;
  so_open : epochStore s' = epochStore s;
  so_packs : Packs s' = Packs s;
  so_num : PacksNum s' = PacksNum s;
  so_info : forall e i, pack_info_at s' e i = pack_info_at s e i
}.

Lemma pack_added_from s0 s s' E e ev : stored_only s0 s ev -> pack_added s s' E e -> pack_added s0 s' E e.
Proof.
  intros [_ _ _ _ Hp Hn Hi] [Hin [hs Hinfo] Hnum].
  assert (Hnum' : forall x, packs_num_at s x = packs_num_at s0 x) by (intros; unfold packs_num_at; by rewrite Hn).
  assert (Ho : open_pack s E = open_pack s0 E) by (unfold open_pack; by rewrite Hnum').
  assert (Hoi : open_info s E = open_info s0 E) by (unfold open_info; by rewrite Ho, Hi).
  assert (Hnn : next_num s E = next_num s0 E) by (unfold next_num; by rewrite Hoi).
  assert (Hns : next_size s E e = next_size s0 E e) by (unfold next_size; by rewrite Hoi).
  assert (Hf : fills s E e = fills s0 E e) by (unfold fills; by rewrite Hnn, Hns).
  constructor.
  - intros e' i x He Hr. rewrite Hin by done. unfold in_pack. rewrite Hp, Ho. done.
  - exists hs. intros e' i He Hr. rewrite Hinfo by done. by rewrite Ho, Hnn, Hns, Hi.
  - intros e' He. rewrite Hnum by done. by rewrite Hf, Ho, Hnum'.
Qed.

(** Heads and tips after an event of the same epoch. *)
Lemma heads_updated s e :
  is_Some (epochStore (svc_store s)) ->
  wp (_ ← on_store (SetLastEvent (creator (base e)) (id (base e)));
      _ ← on_store (DelHeads (parents (base e))); on_store (AddHead (id (base e))))
    (fun _ s' => exists st', s' = set_store st' s /\ in_epoch_db (svc_store s) st' /\
      (forall x, is_Some (cur_heads st' !! x) <->
        x = id (base e) \/ (is_Some (cur_heads (svc_store s) !! x) /\ x ∉ parents (base e))) /\
      cur_tips st' = <[validator_bytes (creator (base e)) := id (base e)]> (cur_tips (svc_store s))) s.
Proof.
  intros Hs. wp_run. apply wp_on_store. eapply wp_mono; [apply SetLastEvent_spec|].
  intros _ s1 ((O1 & E1 & d1 & -> & D1) & H1 & T1). rewrite decide_True in T1 by done. wp_run. apply wp_on_store. cbn [svc_store set_store].
  eapply wp_mono; [apply DelHeads_spec|]. intros _ s2 ((O2 & E2 & d2 & -> & D2) & H2 & T2). apply wp_on_store. cbn [svc_store set_store].
  eapply wp_mono; [apply AddHead_spec|]. intros _ s3 ((O3 & E3 & d3 & -> & D3) & H3 & T3).
  rewrite decide_True in H3 by done. eexists. split; [reflexivity|]. split_and!.
  - split_and!; [auto|done|]. exists d3. split; [done|]. intros n Hn.
    destruct (D3 n Hn) as [Hn2|?]; [|by right]. destruct (D2 n Hn2) as [Hn1|?]; [by apply D1|by right].
  - intros x. rewrite H3, lookup_insert_is_Some, H2, H1. destruct (decide (x ∈ parents (base e))).
    + split; [intros [->|[_ [? ?]]]; [by left|done]|intros [->|[_ ?]]; [by left|done]].
    + destruct (decide (x = id (base e))) as [->|Hne]; split; [by left|by left|..].
      * intros [?|[_ ?]]; [by left|by right].
      * intros [?|[? _]]; [by left|right; split; [congruence|done]].
  - by rewrite T3, T2.
Qed.

Lemma GetEpoch_spec (s : Store) es : store_ok s -> epoch_state_at s = Some es ->
  wp GetEpoch (fun r s' => r = es_Epoch es /\ store_ok s' /\ exists c, s' = set_cEpochState c s) s.
Proof. intros Hok He. unfold GetEpoch. wp_run. eapply wp_mono; [by apply GetEpochState_spec|]. intros r s' (-> & ? & ?). by wp_run. Qed.

(** The epoch goes on: the event joins graph and packs. *)
Lemma connected_same_epoch s0 s s1 st' e es :
  node_ok s0 es -> storable e -> epoch (base e) = es_Epoch es -> event_at (svc_store s0) (id (base e)) = None ->
  Forall (fun p => is_Some (event_at (svc_store s0) p)) (parents (base e)) -> open_pack (svc_store s0) (es_Epoch es) + 1 < 2 ^ 32 ->
  stored_only (svc_store s0) (svc_store s) e -> same_but_packs (svc_store s) s1 -> store_ok s1 ->
  pack_added (svc_store s) s1 (es_Epoch es) e -> in_epoch_db s1 st' ->
  (forall x, is_Some (cur_heads st' !! x) <-> x = id (base e) \/ (is_Some (cur_heads s1 !! x) /\ x ∉ parents (base e))) ->
  cur_tips st' = <[validator_bytes (creator (base e)) := id (base e)]> (cur_tips s1) ->
  dag_ok st' (es_Epoch es) /\ packs_ok st' (es_Epoch es) /\
  (forall i, event_at st' i = if decide (i = id (base e)) then Some e else event_at (svc_store s0) i).
Proof.
  intros (_ & _ & Hd & Hpk & _) He HE Hnew Hpar Hroom Hso (B1 & B2 & B3 & _) Hok1 Hadd (O & E1 & d & -> & D) Hh Ht.
  pose proof (pack_added_from _ _ _ _ _ _ Hso Hadd) as Hadd0. destruct Hso as [_ S1 S2 S3 _ _ _].
  destruct (cur_same (svc_store s0) s1) as [C1 C2]; [by rewrite B2|by rewrite B3|].
  assert (Hev : forall i, event_at s1 i = if decide (i = id (base e)) then Some e else event_at (svc_store s0) i) by
    (intros i; by rewrite B1).
  split_and!; [| |exact Hev].
  - apply (dag_extended_ok (svc_store s0) _ (es_Epoch es) e); try done; [by apply O|]. constructor; try done.
    + etrans; [exact E1|]. by rewrite B3.
    + intros n Hn. rewrite <- S2, <- B2, <- S3, <- B3. by apply D.
    + intros x. rewrite Hh, C1. done.
    + by rewrite Ht, C2.
  - apply (packs_ok_same s1); try done. apply (pack_added_ok (svc_store s0) s1 _ e); try done. apply Hd.
Qed.

(** The epoch was sealed: the packs of the old one are closed, and the next one
    starts with nothing. *)
Lemma connected_sealed s0 s s1 s2 st' e es :
  node_ok s0 es -> storable e -> epoch (base e) = es_Epoch es -> event_at (svc_store s0) (id (base e)) = None ->
  es_Epoch es + 1 < 2 ^ 32 -> open_pack (svc_store s0) (es_Epoch es) + 1 < 2 ^ 32 ->
  stored_only (svc_store s0) (svc_store s) e -> same_but_packs (svc_store s) s1 ->
  pack_added (svc_store s) s1 (es_Epoch es) e -> same_but_packs s1 s2 -> pack_closed s1 s2 (es_Epoch es) ->
  store_ok st' -> epochStore st' = Some (es_Epoch es + 1) -> cur_heads st' = ∅ -> cur_tips st' = ∅ ->
  (exists d, st' = set_epochDBs d (set_epochStore (Some (es_Epoch es + 1)) s2) /\
    forall m, is_Some (d !! m) -> is_Some (epochDBs s2 !! m) \/ m = es_Epoch es + 1) ->
  dag_ok st' (es_Epoch es + 1) /\ packs_ok st' (es_Epoch es + 1) /\
  (forall i, event_at st' i = if decide (i = id (base e)) then Some e else event_at (svc_store s0) i).
Proof.
  intros (_ & _ & Hd & Hpk & _) He HE Hnew Hmax Hroom Hso (B1 & B2 & B3 & _) Hadd (B1' & B2' & B3' & _) Hcl Hok Hopen Hh Ht (d & -> & D).
  pose proof (pack_added_from _ _ _ _ _ _ Hso Hadd) as Hadd0. destruct Hso as [_ S1 S2 S3 _ _ _].
  assert (Hev1 : forall i, event_at s1 i = if decide (i = id (base e)) then Some e else event_at (svc_store s0) i) by
    (intros i; by rewrite B1).
  assert (Hev : forall i, event_at s2 i = if decide (i = id (base e)) then Some e else event_at (svc_store s0) i) by
    (intros i; by rewrite B1').
  assert (Hle : forall i x, event_at s2 i = Some x -> storable x /\ id (base x) = i /\ epoch (base x) <= es_Epoch es).
  { intros i x. rewrite Hev. case_decide as Hi; [|apply Hd]. intros [= <-]. split_and!; [done|done|lia]. }
  split_and!; [| |exact Hev].
  - apply (dag_reset_ok (svc_store s0)); try done. intros n Hn. rewrite <- S2, <- B2, <- B2'. by apply D.
  - apply (packs_ok_same s2); try done. apply (pack_reset_ok s1); try done.
    + apply (pack_added_ok (svc_store s0) s1 _ e); try done. apply Hd.
    + pose proof (d_epoch _ _ Hd) as [? _]. lia.
    + intros i x Hx. by apply (Hle i x).
Qed.

(** The event can be processed: well-formed, with its parents stored, not taken
    for a double sign, and with room in the counters of epochs and packs. *)
Record processable (s : Service) (es : EpochState V) (e : Event) : Prop := {
  pr_storable : storable e;
  pr_parents : Forall (fun p => is_Some (event_at (svc_store s) p)) (parents (base e));
  pr_quiet : quiet (svc_emitter s) e;
  pr_epochs : es_Epoch es + 1 < 2 ^ 32;
  pr_packs : open_pack (svc_store s) (es_Epoch es) + 1 < 2 ^ 32
}.

Definition event_added (s s' : Store) (e : Event) : Prop :=
  forall i, event_at s' i = if decide (i = id (base e)) then Some e else event_at s i.

(** The event is the last one of its creator. *)
Definition is_last (s : Store) (e : Event) : Prop := cur_tips s !! validator_bytes (creator (base e)) = Some (id (base e)).

(** Where an accepted event leaves the node: graph and packs of the epoch [E],
    states and keys as before; the event is the last of its creator, unless its
    epoch is over. *)
Definition settled (s0 s s' : Service) (e : Event) (E : Z) : Prop :=
  dag_ok (svc_store s') E /\ packs_ok (svc_store s') E /\ event_added (svc_store s0) (svc_store s') e /\
  epoch_state_at (svc_store s') = epoch_state_at (svc_store s) /\ block_state_at (svc_store s') = block_state_at (svc_store s) /\
  svc_net s' = svc_net s /\ PubKeys s' = PubKeys s /\ (E = epoch (base e) -> is_last (svc_store s') e).

Section Branches.
Context (s0 : Service) (s : Store) (s1 : Service) (e : Event) (es : EpochState V).
Hypothesis Hn : node_ok s0 es.
Hypothesis Hpr : processable s0 es e.
Hypothesis HE : epoch (base e) = es_Epoch es.
Hypothesis Hnew : event_at (svc_store s0) (id (base e)) = None.
Hypothesis Hso : stored_only (svc_store s0) s e.
Hypothesis Hok1 : store_ok (svc_store s1).
Hypothesis Hbp : same_but_packs s (svc_store s1).
Hypothesis Hadd : pack_added s (svc_store s1) (es_Epoch es) e.

Lemma added_packs_ok : packs_ok (svc_store s1) (es_Epoch es).
Proof.
  apply (pack_added_ok (svc_store s0) _ _ e); try done; [apply Hn|apply Hn|apply Hpr|by eapply pack_added_from|].
  intros i. destruct Hbp as (B & _). rewrite B. apply Hso.
Qed.

Lemma branch_same : wp (_ ← on_store (SetLastEvent (creator (base e)) (id (base e)));
      _ ← on_store (DelHeads (parents (base e))); on_store (AddHead (id (base e))))
    (fun _ s' => settled s0 s1 s' e (es_Epoch es)) s1.
Proof.
  eapply wp_mono; [apply heads_updated|].
  { destruct Hbp as (_ & _ & -> & _). rewrite (so_open _ _ _ Hso), (d_open _ (es_Epoch es)); [by eexists|apply Hn]. }
  intros _ s3 (st' & -> & Hdb & Hh & Ht).
  destruct (connected_same_epoch s0 (set_store s s0) (svc_store s1) st' e es) as (R1 & R2 & R3); try done; [apply Hpr..|].
  destruct Hdb as (_ & _ & d & -> & _). split_and!; try done. intros _. unfold is_last. cbn [svc_store set_store]. by rewrite Ht, lookup_insert_eq.
Qed.

Lemma branch_sealed (es' : EpochState V) : es_Epoch es' = es_Epoch es + 1 ->
  wp (_ ← packsOnNewEpoch (es_Epoch es) (es_Epoch es'); closed ← next close_ok; on_store (resetEpochStore closed (es_Epoch es')))
    (fun _ s' => settled s0 s1 s' e (es_Epoch es')) s1.
Proof.
  intros Hadv. pose proof Hn as (_ & _ & Hd & _). pose proof Hpr as [Hst _ _ Hme Hmp].
  pose proof (pk_num _ _ added_packs_ok) as Hnum. destruct Hbp as (_ & Bd & Bo & _).
  destruct (cur_same (svc_store s0) (svc_store s1)) as [C1 _]; [by rewrite Bd, (so_dbs _ _ _ Hso)|by rewrite Bo, (so_open _ _ _ Hso)|].
  wp_run. eapply wp_mono; [apply packsOnNewEpoch_spec; [done|apply Hd|unfold is_uint; lia|]|].
  { unfold heads_are_ids. rewrite C1. by eapply heads_ids. }
  intros _ s2 (Hok2 & Hbp2 & Hcl & (N2 & _) & K2). wp_run. apply wp_next. intros n. apply wp_on_store.
  pose proof Hbp2 as (_ & Bd2 & Bo2 & Bb2 & Be2). cbn [svc_store set_ticks]. rewrite Hadv.
  eapply wp_mono; [apply resetEpochStore_spec|].
  - rewrite Bo2, Bo, (so_open _ _ _ Hso), (d_open _ _ Hd). intros [=]. lia.
  - rewrite Bd2, Bd, (so_dbs _ _ _ Hso). destruct (epochDBs (svc_store s0) !! (es_Epoch es + 1)) eqn:Edb; [|done].
    pose proof (d_dbs _ _ Hd (es_Epoch es + 1)) as Hx. rewrite Edb in Hx. specialize (Hx ltac:(by eexists)). lia.
  - intros _ st' (Hok' & Ho' & Hh' & Ht' & Hdb).
    destruct (connected_sealed s0 (set_store s s0) (svc_store s1) (svc_store s2) st' e es) as (R1 & R2 & R3); try done; [by apply Hok'|].
    destruct Hdb as (d & -> & _). split_and!; try done. intros HE'. lia.
Qed.
End Branches.

Lemma onConnected_spec s0 s e es es' :
  node_ok s0 es -> processable s0 es e -> epoch (base e) = es_Epoch es -> event_at (svc_store s0) (id (base e)) = None ->
  stored_only (svc_store s0) (svc_store s) e -> svc_net s = svc_net s0 -> svc_emitter s = svc_emitter s0 ->
  is_Some (block_state_at (svc_store s)) -> epoch_state_at (svc_store s) = Some es' ->
  (es' = es \/ es_Epoch es' = es_Epoch es + 1) ->
  PubKeys s = Some (NewEpochPubKeys (es_Epoch es') (gen_Validators (net_Genesis (svc_net s0)))) ->
  wp (onConnected e (es_Epoch es)) (fun _ s' => node_ok s' es' /\ event_added (svc_store s0) (svc_store s') e /\
    (es_Epoch es' = epoch (base e) -> is_last (svc_store s') e)) s.
Proof.
  intros Hn Hpr HE Hnew Hso Hnet Hem Hbs Hes Hcase Hkeys. pose proof Hn as (_ & _ & Hd & Hpk & _).
  destruct (cur_same _ _ (so_dbs _ _ _ Hso) (so_open _ _ _ Hso)) as [C1 _].
  unfold onConnected. rewrite HE. wp_run.
  eapply wp_mono; [apply packsOnNewEvent_spec; [apply Hso|apply Hd| |apply storable_id, Hpr|]|].
  { replace (open_pack (svc_store s) (es_Epoch es)) with (open_pack (svc_store s0) (es_Epoch es)).
    - pose proof (pk_num _ _ Hpk). unfold is_uint. lia.
    - unfold open_pack, packs_num_at. by rewrite (so_num _ _ _ Hso). }
  { unfold heads_are_ids. rewrite C1. by eapply heads_ids. }
  intros _ s1 (Hok1 & Hbp1 & Hadd & (N1 & M1 & _) & K1). wp_run.
  eapply wp_mono; [apply OnNewEvent_spec; rewrite M1, Hem; apply Hpr|]. intros _ s1' (E1 & N2 & K2). wp_run. apply wp_on_store. rewrite E1.
  pose proof Hbp1 as (_ & _ & _ & Bb & Be).
  eapply wp_mono; [apply (GetEpoch_spec _ es'); [done|by rewrite Be]|]. intros ep s2 (-> & Hok2 & c2 & ->). wp_run.
  set (w := set_store (set_cEpochState c2 (svc_store s1)) s1').
  assert (Hadd2 : pack_added (svc_store s) (svc_store w) (es_Epoch es) e) by (destruct Hadd; by constructor).
  eapply (wp_mono _ (fun _ s' => settled s0 w s' e (es_Epoch es'))).
  - apply wp_if; intros Hep; [apply Z.eqb_eq in Hep; rewrite Hep|apply Z.eqb_neq in Hep].
    + by apply (branch_same s0 (svc_store s)).
    + apply (branch_sealed s0 (svc_store s)); try done. by destruct Hcase as [->|].
  - intros _ s3 (R1 & R2 & R3 & R4 & R5 & R6 & R7 & R8). eapply wp_mono; [apply Commit_spec|]. intros r s4 (E4 & N4 & K4).
    unfold node_ok. rewrite E4. split; [|split; [done|intros Et; apply R8; by rewrite HE]]. split_and!; [|by rewrite R5; cbn; change (is_Some (block_state_at (svc_store s1))); rewrite Bb|done|done|].
    + rewrite R4. exact (eq_trans Be Hes).
    + rewrite K4, N4, R6, R7. cbn [w PubKeys svc_net set_store]. by rewrite K2, K1, Hkeys, N2, N1, Hnet.
Qed.

Lemma GetEpochValidators_spec (s : Store) es : store_ok s -> epoch_state_at s = Some es ->
  wp GetEpochValidators (fun r s' => r = (es_Validators es, es_Epoch es) /\ store_ok s' /\ exists c, s' = set_cEpochState c s) s.
Proof.
  intros Hok He. unfold GetEpochValidators. wp_run. eapply wp_mono; [by apply GetEpochState_spec|].
  intros r s' (-> & ? & ?). by wp_run.
Qed.

(** A change of caches keeps the node consistent. *)
Lemma node_ok_same s s' es : node_ok s es -> same_dag (svc_store s) (svc_store s') -> store_ok (svc_store s') ->
  epoch_state_at (svc_store s') = Some es -> is_Some (block_state_at (svc_store s')) ->
  svc_net s' = svc_net s -> PubKeys s' = PubKeys s -> node_ok s' es.
Proof.
  intros (_ & _ & Hd & Hp & Hk) (A1 & A2 & A3 & A4 & A5 & A6) Hok He Hb Hn Hk'. split_and!; [done|done| | |by rewrite Hk', Hn].
  - by apply (dag_ok_same (svc_store s)).
  - by apply (packs_ok_same (svc_store s)).
Qed.

(** The engine refused the event: it is deleted again. *)
Lemma rolled_back s1 s2 st e (Hid : event_at s1 (id (base e)) = None) :
  stored_only s1 s2 e -> (forall i, event_at st i = if decide (i = id (base e)) then None else event_at s2 i) ->
  (exists t c, st = set_cEvents c (set_Events t s2)) -> same_dag s1 st.
Proof.
  intros [_ S1 S2 S3 S4 S5 S6] Hst (t & c & ->). split_and!; try done.
  intros i. rewrite Hst. case_decide as Hi; [by rewrite Hi, Hid|]. rewrite S1. by rewrite decide_False.
Qed.

(** The outcome of [processEvent]. *)
Definition processed (s : Service) (es : EpochState V) (e : Event) (r : option error) (s' : Service) : Prop :=
  (exists es', node_ok s' es' /\ (es' = es \/ es_Epoch es' = es_Epoch es + 1)) /\
  ((event_at (svc_store s) (id (base e)) = None /\ epoch (base e) = es_Epoch es /\
    event_added (svc_store s) (svc_store s') e /\ (epoch_state_at (svc_store s') = Some es -> is_last (svc_store s') e)) \/
   (r <> None /\ same_dag (svc_store s) (svc_store s') /\ epoch_state_at (svc_store s') = Some es)).

(** After the checks: the event is stored and given to the engine. *)
Lemma process_checked s es e :
  node_ok s es -> processable s es e -> epoch (base e) = es_Epoch es -> event_at (svc_store s) (id (base e)) = None ->
  wp (oldEpoch ← on_store GetEpoch;
      _ ← on_store (SetEvent e);
      eng ← gets svc_engine;
      err ← run_consensus (engine_process eng e);
      match err with
      | Some x => _ ← on_store (DelEvent (id (base e))); mret (Some x)
      | None => onConnected e oldEpoch
      end) (processed s es e) s.
Proof.
  intros Hn Hpr HE Hnew. pose proof Hn as (Hes & [bs Hbs] & Hd & Hpk & Hk). pose proof (d_store _ _ Hd) as Hok. wp_run.
  apply wp_on_store. eapply wp_mono; [by apply GetEpoch_spec|]. intros r st (-> & Hok1 & c1 & ->). wp_run.
  apply wp_on_store. cbn [svc_store set_store].
  eapply wp_mono; [by apply SetEvent_spec; [|apply Hpr]|]. intros _ st2 (Hok2 & Hev2 & t2 & c2 & ->). wp_run.
  set (s2 := set_store (set_cEvents c2 (set_Events t2 (set_cEpochState c1 (svc_store s)))) _).
  eapply wp_mono; [apply (run_consensus_spec false _ s2 bs es); [apply engine_lawful|exact Hok2|exact Hbs|exact Hes]|].
  intros err s3 (Hok3 & Hd3 & (N3 & M3 & _) & bs' & es' & Hbs3 & Hes3 & Hcase).
  assert (Hso : stored_only (svc_store s) (svc_store s3) e).
  { destruct Hd3 as (A1 & A2 & A3 & A4 & A5 & A6). constructor; try done. intros i. rewrite A1. apply Hev2. }
  destruct err as [x|].
  - destruct Hcase as [(-> & K3 & _)|(_ & ? & _)]; [|done]. wp_run. apply wp_on_store.
    eapply wp_mono; [by apply DelEvent_spec|]. intros _ st (Hok4 & Hev4 & Hst). wp_run.
    pose proof (rolled_back _ _ _ _ Hnew Hso Hev4 Hst) as Hsame. destruct Hst as (t & c & ->). split.
    + exists es. split; [|by left]. by apply (node_ok_same s).
    + right. by split_and!.
  - eapply wp_mono; [apply (onConnected_spec s s3 e es es'); try done|].
    + destruct Hcase as [(-> & _)|(_ & _ & -> & _)]; [by left|right]. simpl. apply u32_id. unfold is_uint.
      destruct (d_epoch _ _ Hd), Hpr. lia.
    + destruct Hcase as [(-> & K3 & _)|(_ & _ & _ & K3)]; [|exact K3]. rewrite K3. exact Hk.
    + intros r s4 (Hn4 & Hadd4 & Hl4). split; [|left; split_and!; try done; intros E4; rewrite (proj1 Hn4) in E4; injection E4 as ->; by apply Hl4].
      exists es'. split; [done|].
      destruct Hcase as [(-> & _)|(_ & _ & -> & _)]; [by left|right]. simpl. apply u32_id. unfold is_uint.
      destruct (d_epoch _ _ Hd), Hpr. lia.
Qed.

Lemma processable_same s s' es e : processable s es e -> svc_emitter s' = svc_emitter s ->
  (forall i, event_at (svc_store s') i = event_at (svc_store s) i) -> PacksNum (svc_store s') = PacksNum (svc_store s) ->
  processable s' es e.
Proof.
  intros [H1 H2 H3 H4 H5] Hem Hev Hn. constructor; try done.
  - eapply Forall_impl; [exact H2|]. intros p. cbv beta. by rewrite Hev.
  - by rewrite Hem.
  - unfold open_pack, packs_num_at in *. by rewrite Hn.
Qed.

Lemma process_event_spec (s : Service) (es : EpochState V) (e : Event) :
  node_ok s es -> processable s es e -> wp (processEvent e) (processed s es e) s.
Proof.
  intros Hn Hpr. pose proof Hn as (Hes & Hbs & Hd & Hpk & Hk). pose proof (d_store _ _ Hd) as Hok.
  unfold processEvent. wp_run. apply wp_if; intros Hstop; wp_run; [split; [by exists es; auto|by right]|].
  apply wp_on_store. eapply wp_mono; [by apply HasEvent_spec|]. intros b st [-> ->].
  replace (set_store (svc_store s) s) with s by by destruct s. apply wp_if; intros Hhas; wp_run; [split; [by exists es; auto|by right]|].
  assert (Hnew : event_at (svc_store s) (id (base e)) = None).
  { apply bool_decide_eq_false in Hhas. by apply eq_None_not_Some. }
  apply wp_on_store. eapply wp_mono; [by apply GetEpochValidators_spec|]. intros r st (-> & Hok1 & c1 & ->).
  set (s1 := set_store (set_cEpochState c1 (svc_store s)) s).
  assert (Hn1 : node_ok s1 es) by (by apply (node_ok_same s)).
  pose proof (epochcheck_epoch (es_Validators es) (es_Epoch es) e) as Hep.
  pose proof (epochcheck_returns (es_Validators es) (es_Epoch es) e) as Hret.
  destruct (epochcheck_validate (es_Validators es) (es_Epoch es) e) as [[]|x|x|x]; [|wp_run..].
  - apply (process_checked s1 es e); [done|by apply (processable_same s)|by apply Hep|done].
  - split; [exists es; auto|by right].
  - by destruct (Hret x EmptyString).
  - by destruct (Hret NilDeref x).
Qed.

(** C4: processing an event whose encoding is canonical ([storable]) and whose
    parents are stored keeps the node consistent.  In the stored graph of the
    epoch every event has its parents, the heads are exactly the events without
    children, and exactly the validators with events have a last event, one of
    their own; the packs partition the events of the epoch, each pack counts its
    own, only the last one is open; the public keys are those of the epoch.  The
    event is either accepted, and then stored and nothing else, and it is the
    last event of its creator unless the epoch was sealed; or refused with an
    error, and then graph, packs and epoch are as before.  When a block seals the
    epoch, the next epoch starts with an empty graph and one empty pack. *)
Theorem process_event_consistent (s : Service) (es : EpochState V) (e : Event) :
  node_ok s es -> processable s es e ->
  wp (processEvent e) (fun r s' =>
    (exists es', node_ok s' es' /\ (es' = es \/ es_Epoch es' = es_Epoch es + 1)) /\
    ((event_at (svc_store s) (id (base e)) = None /\ epoch (base e) = es_Epoch es /\
      event_added (svc_store s) (svc_store s') e /\ (epoch_state_at (svc_store s') = Some es -> is_last (svc_store s') e)) \/
     (r <> None /\ same_dag (svc_store s) (svc_store s') /\ epoch_state_at (svc_store s') = Some es))) s.
Proof. apply process_event_spec. Qed.

(** ** The first state of a node *)

Context {PB : PosBuilder V} {PBL : PosBuilderLaws V}.

Lemma fresh_dag_ok (s : Store) E : store_ok s -> (forall i, event_at s i = None) -> epochDBs s = ∅ -> is_uint 32 E ->
  epochStore s = None -> wp (loadEpochStore E) (fun _ s' => dag_ok s' E /\ exists d, s' = set_epochDBs d (set_epochStore (Some E) s)) s.
Proof.
  intros Hok Hev Hdb HE Ho. unfold loadEpochStore, createEpochStore. wp_run. rewrite Ho. wp_run. rewrite Hdb. split; [|by eexists].
  set (s' := set_epochStore _ _). assert (Hc : cur_heads s' = ∅ /\ cur_tips s' = ∅).
  { unfold cur_heads, cur_tips, cur_tables. cbn [s' epochStore set_epochStore set_epochDBs epochDBs mbind option_bind].
    rewrite lookup_insert_eq, lookup_empty. split; exact kv_empty_map. }
  destruct Hc as [Hh Ht]. assert (Hev' : forall i, event_at s' i = None) by exact Hev. constructor; try done.
  - destruct Hok. by constructor.
  - intros n. simpl. rewrite lookup_insert_is_Some, lookup_empty. intros [->|[_ [? ?]]]; [lia|done].
  - intros i e. by rewrite Hev'.
  - intros i e p. by rewrite Hev'.
  - intros x. rewrite Hh, lookup_empty. split; [by intros [? ?]|]. intros [(e & He & _) _]. by rewrite Hev' in He.
  - intros v i _. by rewrite Ht, lookup_empty.
  - intros i e. by rewrite Hev'.
Qed.

Lemma fresh_packs_ok (s : Store) E : (forall i, event_at s i = None) ->
  Packs s = kv_empty -> PacksNum s = kv_empty -> PackInfos s = kv_empty -> packs_ok s E.
Proof.
  intros Hev Hp Hn Hi. assert (Hin : forall e i x, ~ in_pack s e i x).
  { intros e i x. unfold in_pack. rewrite Hp, kv_empty_map, lookup_empty. by intros [? ?]. }
  assert (Hnum : forall e, packs_num_at s e = None) by (intros e; unfold packs_num_at; by rewrite Hn, kv_empty_map, lookup_empty).
  assert (Hinfo : forall e i, pack_info_at s e i = None).
  { intros e i. unfold pack_info_at, decoded_at. by rewrite Hi, kv_empty_map, lookup_empty. }
  assert (Ho : open_pack s E = 1) by (unfold open_pack; by rewrite Hnum).
  constructor; rewrite ?Ho; try lia; try done.
  - intros x. split; [intros (e & He & _); by rewrite Hev in He|]. intros (i & _ & Hx). by destruct (Hin E i x).
  - intros i x _ Hx. by destruct (Hin E i x).
  - intros i j x _ _ Hx. by destruct (Hin E i x).
  - intros i Hr. unfold info_at. rewrite Hinfo. exists []. split_and!; [constructor| |done]. intros x.
    split; [intros Hx; by apply elem_of_nil in Hx|]. intros Hx. by destruct (Hin E i x).
  - unfold open_info. rewrite Ho, Hinfo. unfold maxPackEventsNum, softLimitItems, maxPackSize, softResponseLimitSize. simpl. lia.
Qed.

(** A node started on an empty database: the genesis is applied, the service is
    created, and [Start] opens the database of the epoch. *)
Definition start_node (net : NetConfig) (pc : ProtocolConfig) (eng : engine) (em : Emitter) (a b c : Z) : go Service :=
  '(_, st) ← ApplyGenesis net (NewStore a b c);
  s ← NewService net pc eng em st st;
  '(_, s) ← (ep ← on_store GetEpoch; on_store (loadEpochStore ep)) s;
  Ret s.

Lemma load_epoch (s : Service) es : store_ok (svc_store s) -> epoch_state_at (svc_store s) = Some es ->
  (forall i, event_at (svc_store s) i = None) -> epochDBs (svc_store s) = ∅ -> is_uint 32 (es_Epoch es) -> epochStore (svc_store s) = None ->
  wp (ep ← on_store GetEpoch; on_store (loadEpochStore ep)) (fun _ s' => exists d c,
    s' = set_store (set_epochDBs d (set_epochStore (Some (es_Epoch es)) (set_cEpochState c (svc_store s)))) s /\
    dag_ok (svc_store s') (es_Epoch es)) s.
Proof.
  intros Hok He Hev Hdb HE Ho. wp_run. apply wp_on_store. eapply wp_mono; [apply (GetEpoch_spec _ _ Hok He)|].
  intros ep st (-> & Hok' & c & ->). apply wp_on_store. cbn [svc_store set_store].
  eapply wp_mono; [by apply fresh_dag_ok|]. intros _ st' (Hd & d & ->). by exists d, c.
Qed.

Lemma start_node_ok net pc eng em a b c : net_ok net ->
  or_exit (start_node net pc eng em a b c) (fun s => node_ok s (genesis_epoch net) /\
    (forall i, event_at (svc_store s) i = None) /\ svc_emitter s = em /\ open_pack (svc_store s) (es_Epoch (genesis_epoch net)) = 1).
Proof.
  intros Hnet. destruct (prettyHash_returns net Hnet) as [h Hh]. unfold start_node. apply or_exit_bind.
  eapply or_exit_mono; [exact (ApplyGenesis_fresh _ net h (NewStore_ok a b c) (proj1 (NewStore_empty a b c 0 [])) Hh)|].
  intros [r st] (_ & Hok & (_ & He & Hbs) & Hev & Hp & Hpn & Hpi & Hdb & Hes). cbn [fst snd] in *.
  assert (Hev' : forall i, event_at st i = None) by (intros i; rewrite Hev; exact (proj2 (NewStore_empty a b c 0 i))).
  apply or_exit_bind. unfold NewService. apply or_exit_bind.
  eapply or_exit_mono; [apply (GetEpoch_spec st _ Hok He)|]. intros [ep st2] (Ee & Hok2 & c2 & E2). cbn [fst snd] in *. subst ep st2.
  cbn [or_exit]. apply or_exit_bind. set (s0 := MkService _ _ _ _ _ _ _ _ _ _ _ _).
  eapply or_exit_mono; [apply (load_epoch s0 (genesis_epoch net)); [exact Hok2|exact He|exact Hev'|exact Hdb|apply first_epoch_ok|exact Hes]|].
  intros [[] s] (d & c3 & Es & Hd). cbn [fst snd or_exit] in *. subst s. split; [|split; [exact Hev'|split; [reflexivity|]]].
  - split; [exact He|]. split; [exists (MkBlockState 0 0); exact Hbs|]. split; [exact Hd|]. split; [|reflexivity].
    apply fresh_packs_ok; [exact Hev'|exact Hp|exact Hpn|exact Hpi].
  - unfold open_pack, packs_num_at. cbn [svc_store set_store PacksNum set_epochDBs set_epochStore set_cEpochState s0].
    rewrite Hpn. cbn [NewStore PacksNum]. by rewrite kv_empty_map, lookup_empty.
Qed.

End Spec.
(** ** A concrete node *)

Module Sample.
Import StoreSpec.Sample Genesis.Sample.
#[local] Existing Instance lachesis_be.
#[local] Existing Instance lachesis_be_laws.
#[local] Existing Instance lachesis_idx_be.
#[local] Existing Instance lachesis_idx_be_laws.
#[local] Existing Instance rlp_length_prefix.
#[local] Existing Instance rlp_length_prefix_laws.
#[local] Existing Instance kv_gmap.
#[local] Existing Instance kv_gmap_laws.
#[local] Existing Instance lru_gmap.
#[local] Existing Instance lru_gmap_laws.
#[local] Existing Instance codec_countable.
#[local] Existing Instance codec_countable_laws.
#[local] Existing Instance base_checks_any.
#[local] Existing Instance base_checks_any_laws.
#[local] Existing Instance pos_total.
#[local] Existing Instance Emitter.Sample.ext_any.

(** An engine that confirms every event in a block of its own. *)
#[local] Instance engine_each : Engine Z := {|
  engine := unit;
  engine_process _ e := Decide (MkCBlock (id (base e)) []) [e] (fun _ => Processed tt None);
  engine_build _ m := (SetIsRoot (SetFrame m 1) true, None)
|}.

#[local] Instance engine_each_laws : EngineLaws Z.
Proof.
  split.
  - intros eng e. constructor; [by constructor|..]; intros; by constructor.
  - intros eng e. change max_blocks with ((2 ^ 32 - 1) + 1). constructor. intros v. by constructor.
  - intros eng m _. exists 1, true. split; [by_decide|done].
Qed.

#[local] Instance calm : Environment := {|
  clock n := Z.of_nat n; randomness _ := 0; is_flush_needed _ := false; flush_result _ _ := None; close_ok _ := true |}.

#[local] Instance pos_total_laws : PosBuilderLaws Z.
Proof. split. by_decide. Qed.

Definition eng0 : @engine Z engine_each := tt.

(** A network whose epochs have one block, so that the first block seals. *)
Definition short_net : NetConfig := MkNetConfig "short" 1 (net_Genesis net_a) (MkDagConfig 10 3 1).

Lemma short_net_ok : net_ok short_net.
Proof. unfold net_ok. split_and!; [by_decide|reflexivity|by_decide]. Qed.

Definition default_pc : ProtocolConfig := MkProtocolConfig 60 40.

Definition sample_node : Service Z := match start_node short_net default_pc eng0 Emitter.Sample.sample_emitter 10 10 10 with Ret s => s | _ =>
  MkService short_net empty_store eng0 Emitter.Sample.sample_emitter None 0 false [] (NewProtocolManager default_pc) 0 empty_store [] end.

Lemma sample_node_ok : node_ok sample_node (genesis_epoch short_net) /\ (forall i, event_at (svc_store sample_node) i = None) /\
  svc_emitter sample_node = Emitter.Sample.sample_emitter /\ open_pack (svc_store sample_node) (es_Epoch (genesis_epoch short_net)) = 1.
Proof.
  pose proof (start_node_ok short_net default_pc eng0 Emitter.Sample.sample_emitter 10 10 10 short_net_ok) as H. unfold sample_node.
  destruct (start_node short_net default_pc eng0 Emitter.Sample.sample_emitter 10 10 10) as [s|x|x|x]; [exact H|destruct H..].
Qed.

(** The first event of the first epoch. *)
Definition first_mutable : MutableEvent :=
  SetPayload (SetRawTime (SetLamport (SetCreator (SetSeq (SetEpoch MutableEvent_zero 1) 1) 2) 1) 5) [1; 2; 3].

Definition first_event : Event := Eval vm_compute in match Build first_mutable with Ret e => e | _ => sample_built end.

Definition first_raw : list Z := Eval vm_compute in match MarshalBinary first_event with Ret b => b | _ => [] end.

Lemma first_storable : storable first_event.
Proof.
  constructor; [constructor; by_decide|vm_compute; split; reflexivity|constructor|reflexivity|].
  exists first_raw, (Sha256.sum256 (take (length first_raw - 64) first_raw)). vm_compute. split_and!; reflexivity.
Qed.

Lemma first_processable : processable sample_node (genesis_epoch short_net) first_event.
Proof.
  destruct sample_node_ok as (_ & Hev & Hem & Hop). constructor.
  - exact first_storable.
  - constructor.
  - right. left. rewrite Hem. discriminate.
  - reflexivity.
  - rewrite Hop. reflexivity.
Qed.

(** The same event with the two unused bits of its header set: the decoder takes
    it, with another id; no check of the code refuses it. *)
Definition strange_raw : list Z := Eval vm_compute in <[2%nat := Z.lor 0xC0 (nth 2 first_raw 0)]> first_raw.

Definition strange_event : Event := Eval vm_compute in match decode_event (rlp_encode strange_raw) with Ret e => e | _ => first_event end.

(** So [storable] is needed: a node accepts the event and stores it under its id,
    but what is then read back under this id, once the cache has lost it, is an
    event with another id. *)
Lemma noncanonical_event_changes :
  decode_event (rlp_encode strange_raw) = Ret strange_event /\ id (base strange_event) <> id (base first_event) /\
  match processEvent strange_event sample_node with
  | Ret (None, s') => event_at (svc_store s') (id (base strange_event)) = Some first_event
  | _ => False
  end.
Proof. split; [vm_compute; reflexivity|]. split; [by_decide|]. vm_compute. reflexivity. Qed.

(** The event is accepted, and its block seals the epoch. *)
Lemma process_event_consistent_witness : exists r s' es',
  processEvent first_event sample_node = Ret (r, s') /\ node_ok s' es' /\
  (es' = genesis_epoch short_net \/ es_Epoch es' = es_Epoch (genesis_epoch short_net) + 1).
Proof.
  destruct (wp_total _ _ _ (fun x : may_exit => x)
    (process_event_consistent sample_node (genesis_epoch short_net) first_event (proj1 sample_node_ok) first_processable))
    as (r & s' & E & (es' & Hn & He) & _).
  exists r, s', es'. split; [exact E|]. split; [exact Hn|exact He].
Defined.

Lemma block_appends_witness : exists r s',
  process_block (MkCBlock (id (base first_event)) [7]) [first_event] sample_node = Ret (r, s') /\
  block_at (svc_store s') 1 = Some (MkBlock 5 (id (base first_event)) [id (base first_event)]).
Proof.
  destruct sample_node_ok as [Hn _]. destruct Hn as (He & [bs Hb] & Hd & _).
  destruct (wp_total _ _ _ (fun x : may_exit => x)
    (block_appends sample_node (MkCBlock (id (base first_event)) [7]) [first_event] bs (genesis_epoch short_net)
       (d_store _ _ Hd) Hb He ltac:(left; reflexivity))) as (r & s' & E & atr & ids & Hin & _ & Hids & _ & Hba).
  exists r, s'. split; [exact E|]. apply list_elem_of_singleton in Hin. subst atr.
  change (ids ≡ₚ [id (base first_event)]) in Hids. apply Permutation_singleton_r in Hids. subst ids.
  pose proof (ba_block _ _ _ _ _ _ _ Hba 1 ltac:(by_decide)) as H1.
  assert (Hbs : bs = MkBlockState 0 0).
  { revert Hb. unfold sample_node. vm_compute. congruence. }
  subst bs. rewrite H1. reflexivity.
Defined.

End Sample.

End ServiceSpec.
