(* ===== verification/ChainSpec.v ===== *)
(** * The chain of blocks and the state on disk

    Blocks are only ever appended: processing an event keeps every stored block
    and leaves no gap below the latest one.  And the databases are flushed only
    between events, so that what is on disk is always a consistent node. *)

From Stdlib Require Import ZArith Lia Bool Sorted.
From stdpp Require Import base list numbers option strings gmap sorting.
From S2P Require Import Prelude Kv Sha256 Fast Event Serializer EventBuild Store StoreSpec Genesis Checks Emitter Peer Service ServiceSpec.
Import Event Serializer EventBuild Store StoreSpec Genesis Checks Emitter Peer Service ServiceSpec.
Local Open Scope Z_scope.

Module ChainSpec.

Section Spec.
Context {V : Type}.
Context {LB : LachesisBase} {LBL : LachesisBaseLaws LB} {LI : LachesisIdx} {LIL : LachesisIdxLaws LI}.
Context {R : Rlp} {RL : RlpLaws R} {K : Kv} {KL : KvLaws K} {L : Lru} {LL : LruLaws L}.
Context {CB : Codec Block} {CBL : CodecLaws Block} {CP : Codec PackInfo} {CPL : CodecLaws PackInfo}.
Context {CS : Codec BlockState} {CSL : CodecLaws BlockState}.
Context {CE : Codec (EpochState V)} {CEL : CodecLaws (EpochState V)}.
Context {BC : BaseChecks V} {BCL : BaseChecksLaws V} {EN : Engine V} {ENL : EngineLaws V} {X : EmitterExt}.
Context {ENV : Environment}.
Abbreviation Service := (Service V).
Abbreviation Store := (Store V).

(** ** Which code touches blocks *)

Definition same_chain (s s' : Store) : Prop :=
  Blocks s' = Blocks s /\ BlockStateT s' = BlockStateT s /\ cBlockState s' = cBlockState s.

#[global] Instance same_chain_preorder : PreOrder same_chain.
Proof. split; [by intros s; split_and!|]. intros s1 s2 s3 (A1 & A2 & A3) (B1 & B2 & B3). split_and!; congruence. Qed.

Definition same_blocks (s s' : Service) : Prop := same_chain (svc_store s) (svc_store s').

#[global] Instance same_blocks_preorder : PreOrder same_blocks.
Proof. unfold same_blocks. split; [by intros s|]. intros s1 s2 s3. apply transitivity. Qed.

Lemma blocks_store {A} (m : stm Store A) : frames same_chain m -> frames same_blocks (on_store m).
Proof. intros Hm. by apply (frames_store same_blocks same_chain). Qed.

Lemma blocks_next {A} (f : nat -> A) : frames same_blocks (next f).
Proof. by apply (frames_next same_blocks). Qed.

Lemma blocks_DelHeads ps : frames same_chain (DelHeads ps).
Proof. induction ps as [|p ps IH]; cbn [DelHeads]; [frame|]. apply frames_bind; [apply _| |done]. unfold DelHead, getEpochStore, putEpochTables. frame. Qed.

#[local] Hint Resolve blocks_next blocks_DelHeads : frames.

(** Calls of the store, unfolded to their statements. *)
Ltac store_frame :=
  first [apply blocks_store | idtac];
  unfold GetEpochValidators, GetEpoch, GetEpochState, HasEvent, SetEvent, DelEvent, GetPacksNumOrDefault, GetPacksNum,
    GetPackInfoOrDefault, GetPackInfo, AddToPack, GetHeads, SetPacksNum, SetPackInfo, SetLastEvent, AddHead, resetEpochStore,
    createEpochStore, getEpochStore, putEpochTables, GetEvent, SetEpochState; frame.

Ltac blocks_kept := repeat first [solve [store_frame] | frame_step].

Lemma blocks_packsOnNewEvent e ep : frames same_blocks (packsOnNewEvent e ep).
Proof. unfold packsOnNewEvent, send. blocks_kept. Qed.

Lemma blocks_onConnected e old : frames same_blocks (onConnected e old).
Proof.
  unfold onConnected. apply frames_bind; [apply _|apply blocks_packsOnNewEvent|intros _].
  apply frames_bind; [apply _|by apply (OnNewEvent_frames same_blocks)|intros _]. unfold packsOnNewEpoch, send, Commit. blocks_kept.
Qed.

(** ** Appending one block *)

(** The latest block has number [n], and every number up to [n] has a block. *)
Record chain_ok (s : Store) (n : Z) : Prop := {
  ch_num : is_uint 64 n;
  ch_state : exists k, block_state_at s = Some (MkBlockState n k);
  ch_cache : forall v, cBlockState s = Some v -> block_state_at s = Some v;
  ch_blocks : forall i, 0 <= i <= n -> is_Some (block_at s i)
}.

Lemma chain_ok_same s s' n : same_chain s s' -> chain_ok s n -> chain_ok s' n.
Proof.
  intros (E1 & E2 & E3) [H1 H2 H3 H4]. constructor; unfold block_state_at, block_at in *; rewrite ?E1, ?E2, ?E3; try done.
Qed.

Lemma crit_Ret_inv {A} msg (m : go A) x : crit msg m = Ret x -> m = Ret x.
Proof. by destruct m. Qed.

Lemma kv_put_Ret_inv t k v t' : kv_put t k v = Ret t' -> kv_map t' = <[k := v]> (kv_map t).
Proof. intros E. pose proof (kv_put_ok t k v) as H. rewrite E in H. exact H. Qed.

Lemma set_Ret_inv t k b t' : set t k (Ret b) = Ret t' -> kv_map t' = <[k := b]> (kv_map t).
Proof. unfold set. simpl. intros E. by apply kv_put_Ret_inv, (crit_Ret_inv "Failed to put key-value"). Qed.

Lemma GetBlockState_inv (s : Store) v s' : GetBlockState s = Ret (v, s') ->
  (forall w, cBlockState s = Some w -> block_state_at s = Some w) -> block_state_at s = Some v /\ s' = set_cBlockState (Some v) s.
Proof.
  unfold GetBlockState. intros E Hc. stm_step E as c s1 E1. stm_prim E1. destruct (cBlockState s) as [w|] eqn:Ew.
  - stm_prim E. split; [by apply Hc|]. rewrite <- Ew. by destruct s.
  - stm_step E as t s1 E1. stm_prim E1. stm_step E as r s1 E1. stm_prim E1. destruct r as [w|]; [|by stm_prim E].
    stm_step E as u s1 E2. stm_prim E2. stm_prim E. split; [|done]. unfold get in E1. apply bind_Ret_inv in E1 as (b & Eb & E1).
    apply crit_Ret_inv in Eb. pose proof (kv_get_ok (BlockStateT s) lbKey) as Hg. rewrite Eb in Hg. simpl in Hg. subst b.
    unfold block_state_at, decoded_at. destruct (kv_map (BlockStateT s) !! lbKey) as [b|]; [|done].
    apply bind_Ret_inv in E1 as (y & Ey & [= ->]). apply crit_Ret_inv in Ey. unfold decode_with in Ey. simpl.
    destruct (dec b); by simplify_eq.
Qed.

Lemma SetBlock_inv (s : Store) n b x s' : SetBlock n b s = Ret (x, s') -> is_uint 64 n ->
  (forall m, is_uint 64 m -> block_at s' m = if decide (m = n) then Some b else block_at s m) /\
  BlockStateT s' = BlockStateT s /\ cBlockState s' = cBlockState s.
Proof.
  unfold SetBlock. intros E Hn. stm_step E as t s1 E1. stm_prim E1. stm_step E as t' s1 E1. stm_prim E1. stm_step E as u s1 E2. stm_prim E2.
  stm_step E as c s1 E2. stm_prim E2. stm_prim E. split; [|done]. apply set_Ret_inv in E1. intros m Hm. unfold block_at.
  cbn [Blocks set_cBlocks set_Blocks]. rewrite (decoded_put _ _ _ _ _ E1). destruct (decide (m = n)) as [->|Hne]; [by rewrite decide_True|].
  rewrite decide_False; [done|]. intros Ek. by apply Hne, block_bytes_inj.
Qed.

Lemma SetBlockState_inv (s : Store) v x s' : SetBlockState v s = Ret (x, s') ->
  block_state_at s' = Some v /\ cBlockState s' = Some v /\ Blocks s' = Blocks s.
Proof.
  unfold SetBlockState. intros E. stm_step E as t s1 E1. stm_prim E1. stm_step E as t' s1 E1. stm_prim E1. stm_step E as u s1 E2. stm_prim E2.
  stm_prim E. split; [|done]. apply set_Ret_inv in E1. unfold block_state_at. cbn [BlockStateT set_cBlockState set_BlockStateT].
  rewrite (decoded_put _ _ _ _ _ E1). by rewrite decide_True.
Qed.

(** [m] appends at most [k] blocks and changes none. *)
Definition appends (k : Z) {A} (m : stm Service A) : Prop := forall s x s' n,
  m s = Ret (x, s') -> chain_ok (svc_store s) n -> n + k < 2 ^ 64 -> exists n', chain_ok (svc_store s') n' /\ n <= n' <= n + k /\
    forall i, 0 <= i <= n -> block_at (svc_store s') i = block_at (svc_store s) i.

Lemma appends_frames {A} k (m : stm Service A) : frames same_blocks m -> 0 <= k -> appends k m.
Proof.
  intros Hm Hk s x s' n E Hc _. apply Hm in E. exists n. split; [by eapply chain_ok_same|]. split; [lia|].
  intros i _. unfold block_at. by destruct E as (-> & _).
Qed.

Lemma appends_bind {A B} k1 k2 (m : stm Service A) (f : A -> stm Service B) :
  appends k1 m -> (forall x, appends k2 (f x)) -> 0 <= k2 -> appends (k1 + k2) (m ≫= f).
Proof.
  intros Hm Hf Hk s y s' n E Hc Hn. stm_step E as x s1 E1. destruct (Hm _ _ _ n E1 Hc) as (n1 & Hc1 & Hn1 & Hb1); [lia|].
  destruct (Hf x _ _ _ n1 E Hc1) as (n2 & Hc2 & Hn2 & Hb2); [lia|]. exists n2. split; [done|]. split; [lia|].
  intros i Hi. rewrite Hb2 by lia. by apply Hb1.
Qed.

Lemma appends_after {A B} k (m : stm Service A) (f : A -> stm Service B) :
  frames same_blocks m -> (forall x, appends k (f x)) -> 0 <= k -> appends k (m ≫= f).
Proof. intros Hm Hf Hk. apply (appends_bind 0 k); [by apply appends_frames|done|done]. Qed.

Lemma on_store_Ret_inv {A} (m : stm Store A) (s : Service) x s' : on_store m s = Ret (x, s') ->
  exists st, m (svc_store s) = Ret (x, st) /\ s' = set_store st s.
Proof. unfold on_store. destruct (m (svc_store s)) as [[y st]|?|?|?]; [|done..]. intros [= <- <-]. by exists st. Qed.

(** The statements of [EndBlock] between the block and the state. *)
Lemma blocks_seal (net : NetConfig) cb bs (s : Service) r s' :
  (if (EpochBlocks bs >=? MaxEpochBlocks (Dag net)) || negb (zlen (Cheaters cb) =? 0)
   then
     let bs := MkBlockState (bs_Block bs) 0 in
     es ← on_store GetEpochState;
     let newEpoch := u32 (es_Epoch es + 1) in
     let es := MkEpochState newEpoch (es_Validators es) in
     _ ← modify (set_PubKeys (Some (NewEpochPubKeys newEpoch (gen_Validators (net_Genesis net)))));
     _ ← on_store (SetEpochState es);
     _ ← OnNewEpoch (es_Validators es) newEpoch;
     _ ← send (NewEpoch newEpoch);
     mret (bs, Some (es_Validators es))
   else mret (bs, None)) s = Ret (r, s') -> same_blocks s s' /\ bs_Block (fst r) = bs_Block bs.
Proof.
  intros E. split.
  - revert E. lazymatch goal with |- ?m s = _ -> _ => assert (H : frames same_blocks m); [|apply H] end.
    unfold OnNewEpoch, send. blocks_kept.
  - destruct (_ || _); [|by stm_prim E]. cbv zeta in E. stm_step E as es s1 E1. stm_step E as u s2 E2. stm_step E as u3 s3 E3.
    stm_step E as u4 s4 E4. stm_step E as u5 s5 E5. by stm_prim E.
Qed.

Lemma EndBlock_appends cb v : appends 1 (EndBlock cb v).
Proof.
  intros s r s' n E [H1 [k H2] H3 H4] Hn. unfold EndBlock in E. stm_step E as bs s1 E1. apply on_store_Ret_inv in E1 as (st1 & E1 & ->).
  apply GetBlockState_inv in E1 as [Hbs ->]; [|done]. rewrite H2 in Hbs. injection Hbs as <-. stm_step E as atr s1 E1.
  destruct (atropos_event v) as [a|]; [|by stm_prim E1]. stm_prim E1. cbn [bs_Block EpochBlocks] in E.
  rewrite (u64_id (n + 1)) in E by (unfold is_uint in *; lia). stm_step E as u s1 E1. apply on_store_Ret_inv in E1 as (st1 & E1 & ->).
  apply SetBlock_inv in E1 as (Hb & Et & Ec); [|unfold is_uint in *; lia]. cbn [svc_store set_store] in Hb, Et, Ec.
  stm_step E as net s1 E1. stm_prim E1. stm_step E as p s1 E1. destruct p as [bs2 seal]. 
  pose proof (blocks_seal _ cb (MkBlockState (n + 1) (u64 (k + 1))) _ _ _ E1) as [(F1 & F2 & F3) Ebs]. clear E1.
  stm_step E as u1 s2 E2. apply on_store_Ret_inv in E2 as (st2 & E2 & ->). apply SetBlockState_inv in E2 as (G1 & G2 & G3).
  stm_step E as u2 s3 E3. stm_prim E3. stm_prim E. cbn [svc_store set_svc_meter set_store fst bs_Block] in *. destruct bs2 as [b2 k2]. cbn in Ebs. subst b2.
  assert (Hb' : forall m, is_uint 64 m -> block_at st2 m = if decide (m = n + 1) then Some (MkBlock (CreationTime a) (cb_Atropos cb) (IDs (sort_events (confirmedEvents v)))) else block_at (svc_store s) m).
  { intros m Hm. etrans; [|exact (Hb m Hm)]. unfold block_at. by rewrite G3, F1. }
  exists (n + 1). split; [constructor|split; [lia|]]; unfold is_uint in *.
  - lia.
  - by exists k2.
  - intros w. rewrite G1, G2. done.
  - intros i Hi. rewrite Hb' by lia. case_decide; [eauto|]. apply H4. lia.
  - intros i Hi. rewrite Hb' by lia. by rewrite decide_False by lia.
Qed.

Lemma run_consensus_appends n c : decides_at_most n c -> 0 <= n /\ appends n (run_consensus c).
Proof.
  induction 1 as [n eng err Hn|n i k _ IH|n b confirmed k _ IH]; cbn [run_consensus].
  - split; [done|]. apply appends_frames; [|done]. apply frames_bind; [apply _| |intros _; frame]. by apply frames_modify.
  - destruct (IH None) as [Hn _]. split; [done|]. apply appends_after; [solve [store_frame]|intros e; apply IH|done].
  - destruct (IH None) as [Hn _]. split; [lia|]. rewrite Z.add_comm. apply appends_bind; [apply EndBlock_appends|intros v; apply IH|done].
Qed.

Lemma processEvent_appends e : appends max_blocks (processEvent e).
Proof.
  assert (Hm : 0 <= max_blocks) by (unfold max_blocks; lia). unfold processEvent.
  apply appends_after; [frame|intros st|done]. destruct st; [apply appends_frames; [frame|done]|].
  apply appends_after; [solve [store_frame]|intros known|done]. destruct known; [apply appends_frames; [frame|done]|].
  apply appends_after; [solve [store_frame]|intros [vs ep]|done].
  destruct (epochcheck_validate vs ep e); [|by apply appends_frames; [frame|]..].
  apply appends_after; [solve [store_frame]|intros old|done]. apply appends_after; [solve [store_frame]|intros _|done].
  apply appends_after; [frame|intros eng|done]. rewrite <- (Z.add_0_r max_blocks).
  apply appends_bind; [apply run_consensus_appends, engine_few_blocks| |done].
  intros [x|]; (apply appends_frames; [|done]); [blocks_kept|apply blocks_onConnected].
Qed.

(** ** What is on disk *)

(** Everything a restart needs, in the tables of a store: once the database of
    the epoch is opened, the graph is consistent; so are the packs, and the chain
    of blocks starts with the genesis [b0]. *)
Record durable (s : Store) (b0 : Block) : Prop := {
  du_epoch : exists es, epoch_state_at s = Some es /\ dag_ok (set_epochStore (Some (es_Epoch es)) s) (es_Epoch es) /\
    packs_ok s (es_Epoch es);
  du_chain : exists n, chain_ok s n;
  du_genesis : block_at s 0 = Some b0
}.

Definition same_disk (s s' : Service) : Prop := disk s' = disk s /\ flushed s' = flushed s.

#[global] Instance same_disk_preorder : PreOrder same_disk.
Proof. unfold same_disk. split; [by intros s|]. intros s1 s2 s3 [] []. split; congruence. Qed.

Lemma disk_store {A} (m : stm Store A) : frames same_disk (on_store m).
Proof. by apply (frames_part same_disk m svc_store set_store). Qed.

Lemma disk_next {A} (f : nat -> A) : frames same_disk (next f).
Proof. by apply (frames_next same_disk). Qed.

#[local] Hint Resolve disk_store disk_next : frames.

(** A process that ends in a state with the same disk has not flushed. *)
Lemma disk_exits {A} (m : stm Service A) s x : frames same_disk m -> m s = Exits x -> stamped s x.
Proof. intros Hm E. destruct (frames_exits _ _ Hm _ _ E) as (s' & [_ Hf] & Hx). cbn in *. by rewrite <- Hf. Qed.

(** What can be on disk when the process dies during a run from [s]: what was
    there before, or a store that the run has flushed.  A run that ends the
    process leaves what was there before if it has not flushed anything; of one
    that has, nothing is known. *)
Definition dies_with {A} (s : Service) (run : go (A * Service)) (d : Store) : Prop :=
  match run with
  | Ret (_, s') => d = disk s \/ exists l, flushed s' = l ++ flushed s /\ d ∈ l
  | Exits x => stamped s x -> d = disk s
  | _ => True
  end.

(** The store as it is now is on disk, and it is all that was flushed. *)
Definition has_flushed (s s' : Service) : Prop := disk s' = svc_store s' /\ flushed s' = svc_store s' :: flushed s.

(** [m] flushes at most once, when its result is [ok], and nothing happens after;
    it does not end the process once it has flushed. *)
Definition flushes {A} (ok : A -> Prop) (m : stm Service A) : Prop := forall s,
  match m s with
  | Ret (x, s') => same_disk s s' \/ (ok x /\ has_flushed s s')
  | Exits x => stamped s x
  | _ => True
  end.

Lemma flushes_returns {A} ok (m : stm Service A) s x s' : flushes ok m -> m s = Ret (x, s') -> same_disk s s' \/ (ok x /\ has_flushed s s').
Proof. intros Hm E. specialize (Hm s). by rewrite E in Hm. Qed.

(** So the disk a process dies with is the one before a run, or the store after it. *)
Lemma flushes_dies {A} ok (m : stm Service A) s d : flushes ok m -> (exists r, m s = Ret r) \/ (exists x, m s = Exits x) -> dies_with s (m s) d ->
  d = disk s \/ exists x s', m s = Ret (x, s') /\ ok x /\ d = svc_store s' /\ disk s' = d.
Proof.
  intros Hm Ho. specialize (Hm s). unfold dies_with. destruct (m s) as [[x s']|x|x|x]; [|by destruct Ho as [[]|[]]..|by intros Hd; left; apply Hd].
  intros [->|(l & El & Hd)]; [by left|]. destruct Hm as [[_ Hf]|[Hx [E1 E2]]].
  - rewrite Hf in El. destruct l as [|y l]; [by apply elem_of_nil in Hd|]. apply (f_equal length) in El. rewrite length_app in El. cbn in El. lia.
  - rewrite E2 in El. change (svc_store s' :: flushed s) with ([svc_store s'] ++ flushed s) in El. apply app_inv_tail in El as <-.
    apply list_elem_of_singleton in Hd as ->. right. by exists x, s'.
Qed.

Lemma flushes_after {A B} ok (m : stm Service A) (f : A -> stm Service B) :
  frames same_disk m -> (forall x, flushes ok (f x)) -> flushes ok (m ≫= f).
Proof.
  intros Hm Hf s. unfold mbind, stm_bind. destruct (m s) as [[x s1]|x|x|x] eqn:E; try done; [|by eapply disk_exits].
  destruct (Hm _ _ _ E) as [Hd Hl]. specialize (Hf x s1). unfold same_disk, has_flushed in *. cbn [stamped service_stamp] in *. by rewrite Hd, Hl in Hf.
Qed.

Lemma flushes_frames {A} ok (m : stm Service A) : frames same_disk m -> flushes ok m.
Proof. intros Hm s. destruct (m s) as [[x s1]|x|x|x] eqn:E; try done; [left; by eapply Hm|by eapply disk_exits]. Qed.

Lemma flushes_weaken {A} (ok ok' : A -> Prop) (m : stm Service A) : flushes ok m -> (forall x, ok x -> ok' x) -> flushes ok' m.
Proof. intros Hm Hok s. specialize (Hm s). destruct (m s) as [[x s1]|x|x|x]; try done. destruct Hm as [?|[? ?]]; [by left|right; auto]. Qed.

(** What follows a flush may not touch the store, nor end the process. *)
Definition same_stores (s s' : Service) : Prop := same_disk s s' /\ svc_store s' = svc_store s.

#[global] Instance same_stores_preorder : PreOrder same_stores.
Proof. unfold same_stores. split; [by intros s|]. intros s1 s2 s3 [] []. split; [by etrans|congruence]. Qed.

Lemma flushes_before {A B} ok ok' (m : stm Service A) (f : A -> stm Service B) :
  flushes ok m -> (forall x, ~ ok x -> flushes ok' (f x)) ->
  (forall x, ok x -> frames same_stores (f x) /\ never_exits (f x) /\ forall s y s', f x s = Ret (y, s') -> ok' y) ->
  (forall x, Decision (ok x)) -> flushes ok' (m ≫= f).
Proof.
  intros Hm Hno Hf Hdec s. specialize (Hm s). unfold mbind, stm_bind. destruct (m s) as [[x s1]|x|x|x] eqn:E; try done.
  destruct (decide (ok x)) as [Hx|Hx].
  - destruct (Hf x Hx) as (Hr & Hn & Ho). destruct (f x s1) as [[y s2]|y|y|y] eqn:E2; try done; [|by destruct (Hn s1 y)].
    destruct (Hr _ _ _ E2) as [[Hd Hl] Hs]. destruct Hm as [[Hd1 Hl1]|[_ [Hd1 Hl1]]].
    + left. split; congruence.
    + right. split; [by eapply Ho|]. split; congruence.
  - destruct Hm as [[Hd Hl]|[? _]]; [|done]. specialize (Hno x Hx s1). unfold same_disk, has_flushed in *. cbn [stamped service_stamp] in *.
    by rewrite Hd, Hl in Hno.
Qed.

(** A flush writes the store as it is, and returns no error. *)
Lemma Commit_flushes f b : flushes (fun r => r = None) (Commit f b).
Proof.
  unfold Commit. apply flushes_after; [destruct f; frame|]. intros fid. apply flushes_after; [frame|intros needed].
  destruct (_ && _); [by apply flushes_frames; frame|]. apply flushes_after; [frame|intros fl]. destruct (fl fid); [by apply flushes_frames; frame|].
  intros s. unfold mbind, stm_bind, modify. right. by split.
Qed.

Lemma processEvent_flushes e : flushes (fun r => r = None) (processEvent e).
Proof.
  unfold processEvent. apply flushes_after; [frame|intros st]. destruct st; [by apply flushes_frames; frame|].
  apply flushes_after; [frame|intros known]. destruct known; [by apply flushes_frames; frame|].
  apply flushes_after; [frame|intros [vs ep]]. destruct (epochcheck_validate vs ep e); [|by apply flushes_frames; frame..].
  apply flushes_after; [frame|intros old]. apply flushes_after; [frame|intros _]. apply flushes_after; [frame|intros eng].
  apply flushes_after; [apply (run_consensus_frames same_disk); try done; intros A m; apply disk_store|].
  intros [x|]; [by apply flushes_frames; frame|]. unfold onConnected, packsOnNewEvent, packsOnNewEpoch, send.
  apply flushes_after; [frame|intros _]. apply flushes_after; [by apply (OnNewEvent_frames same_disk)|intros _].
  apply flushes_after; [frame|intros new]. apply flushes_after; [frame|intros _]. apply Commit_flushes.
Qed.

Lemma set_open (s : Store) E : epochStore s = Some E -> set_epochStore (Some E) s = s.
Proof. destruct s. cbn. by intros ->. Qed.

(** A running node: consistent, with a chain of [n] blocks after the genesis,
    and a state on disk it can restart from. *)
Record running (s : Service) (es : EpochState V) (n : Z) (b0 : Block) : Prop := {
  ru_node : node_ok s es;
  ru_chain : chain_ok (svc_store s) n;
  ru_genesis : block_at (svc_store s) 0 = Some b0;
  ru_disk : durable (disk s) b0
}.

Lemma running_durable s es n b0 : running s es n b0 -> durable (svc_store s) b0.
Proof.
  intros [(He & _ & Hd & Hp & _) Hc Hg _]. constructor; [|by exists n|done]. exists es. split_and!; [done| |done].
  by rewrite set_open by apply Hd.
Qed.

(** A turn that only appends blocks, and flushes last, on a node it leaves
    consistent. *)
Lemma running_next {A} ok (m : stm Service A) k s es n b0 x s' es' : running s es n b0 -> m s = Ret (x, s') ->
  appends k m -> flushes ok m -> n + k < 2 ^ 64 -> node_ok s' es' ->
  exists n', running s' es' n' b0 /\ n <= n' <= n + k /\ forall i, 0 <= i <= n -> block_at (svc_store s') i = block_at (svc_store s) i.
Proof.
  intros Hr E Ha Hf Hn Hn'. destruct (Ha _ _ _ n E (ru_chain _ _ _ _ Hr) Hn) as (n' & Hc & Hle & Hb). exists n'. split; [|by split].
  assert (H0 : block_at (svc_store s') 0 = Some b0).
  { rewrite Hb; [apply Hr|]. destruct (ch_num _ _ (ru_chain _ _ _ _ Hr)). lia. }
  constructor; [done..|]. destruct (flushes_returns _ _ _ _ _ Hf E) as [[-> _]|[_ [-> _]]]; [apply Hr|]. destruct Hn' as (He & _ & Hd & Hpk & _).
  constructor; [|by exists n'|done]. exists es'. split_and!; [done| |done]. by rewrite set_open by apply Hd.
Qed.

Lemma process_event_running s es e n b0 : running s es n b0 -> processable s es e -> n + max_blocks < 2 ^ 64 ->
  wp (processEvent e) (fun r s' => processed s es e r s' /\ exists es' n', running s' es' n' b0 /\ n <= n' <= n + max_blocks /\
    forall i, 0 <= i <= n -> block_at (svc_store s') i = block_at (svc_store s) i) s.
Proof.
  intros Hr Hp Hn. pose proof (process_event_spec s es e (ru_node _ _ _ _ Hr) Hp) as Hw. revert Hw. unfold wp, or_exit.
  destruct (processEvent e s) as [[r s']|x|x|x] eqn:E; [|done..]. cbn [fst snd]. intros Hpr. split; [exact Hpr|].
  destruct Hpr as [(es' & Hn' & _) _]. exists es'. by eapply running_next; [..|apply processEvent_appends|apply processEvent_flushes| |].
Qed.

(** C11: the chain of blocks is append-only.  Processing an event keeps every
    block that is stored, numbers the new ones consecutively after the latest,
    leaves no number without a block, and decides a bounded number of them; the
    node stays consistent, and whatever it has flushed is a state that a restart
    can start from, with the same genesis. *)
Theorem chain_append_only (s : Service) (es : EpochState V) (e : Event) (n : Z) (b0 : Block) :
  running s es n b0 -> processable s es e -> n + max_blocks < 2 ^ 64 ->
  wp (processEvent e) (fun _ s' => exists es' n', running s' es' n' b0 /\ n <= n' <= n + max_blocks /\
    forall i, 0 <= i <= n -> block_at (svc_store s') i = block_at (svc_store s) i) s.
Proof. intros Hr Hp Hn. eapply wp_mono; [by apply process_event_running|]. by intros r s' [_ H]. Qed.

End Spec.
End ChainSpec.
