(* ===== verification/ServiceWorld.v ===== *)
(** * The service is a world of the emitter

    The emitter's theorems are proved against the interface [EmitterWorldLaws];
    here a consistent node implements it.  So the events a node emits are
    well-formed children of its own stored events, and emitting them keeps the
    node consistent. *)

From Stdlib Require Import ZArith Lia Bool Sorted.
From stdpp Require Import base list numbers option strings gmap sorting.
From S2P Require Import Prelude Kv Sha256 Fast Event Serializer EventBuild Store StoreSpec Genesis Checks Emitter Peer Service ServiceSpec.
Import Event Serializer EventBuild Store StoreSpec Genesis Checks Emitter Peer Service ServiceSpec.
Local Open Scope Z_scope.

Module ServiceWorld.

Section World.
Context {V : Type}.
Context {LB : LachesisBase} {LBL : LachesisBaseLaws LB} {LI : LachesisIdx} {LIL : LachesisIdxLaws LI}.
Context {R : Rlp} {RL : RlpLaws R} {K : Kv} {KL : KvLaws K} {L : Lru} {LL : LruLaws L}.
Context {CB : Codec Block} {CBL : CodecLaws Block} {CP : Codec PackInfo} {CPL : CodecLaws PackInfo}.
Context {CS : Codec BlockState} {CSL : CodecLaws BlockState}.
Context {CE : Codec (EpochState V)} {CEL : CodecLaws (EpochState V)}.
Context {BC : BaseChecks V} {BCL : BaseChecksLaws V} {EN : Engine V} {ENL : EngineLaws V}.
Context {X : EmitterExt} {XL : EmitterExtLaws X}.
Context {ENV : Environment}.
Abbreviation Service := (Service V).
Abbreviation Store := (Store V).

#[export] Instance service_view : EmitterView Service := {|
  v_event s := event_at (svc_store s);
  v_last s v := bytes_to_event <$> cur_tips (svc_store s) !! validator_bytes v;
  v_epoch s := match epoch_state_at (svc_store s) with Some es => es_Epoch es | None => 0 end;
  v_valid s e ps := exists es, epoch_state_at (svc_store s) = Some es /\
    Validate (Dag (svc_net s)) (es_Validators es) (es_Epoch es) (PubKeys s) e ps = Ret tt;
  v_ok s := exists es, node_ok s es
|}.

(** Caches and the clock are not observed. *)
Lemma same_world_intro (s s' : Service) :
  (store_ok (svc_store s) -> store_ok (svc_store s')) -> same_dag (svc_store s) (svc_store s') ->
  epoch_state_at (svc_store s') = epoch_state_at (svc_store s) -> block_state_at (svc_store s') = block_state_at (svc_store s) ->
  svc_net s' = svc_net s -> PubKeys s' = PubKeys s -> svc_emitter s' = svc_emitter s -> same_world s s'.
Proof.
  intros Hok Hd He Hb Hn Hk Hem. pose proof Hd as (A1 & A2 & A3 & _).
  destruct (cur_same (svc_store s) (svc_store s') A2 A3) as [_ Ht]. split_and!.
  - intros [es Hs]. exists es. pose proof Hs as (H1 & H2 & H3 & _). apply (node_ok_same s); try done.
    + apply Hok, H3.
    + by rewrite He.
    + by rewrite Hb.
  - exact Hem.
  - exact A1.
  - intros v. unfold v_last, service_view. by rewrite Ht.
  - unfold v_epoch, service_view. by rewrite He.
  - intros _ e ps. unfold v_valid, service_view. by rewrite He, Hn, Hk.
Qed.

Lemma stored_in_epoch (s : Service) es i e : node_ok s es -> event_at (svc_store s) i = Some e -> epoch (base e) = es_Epoch es -> in_epoch s i.
Proof.
  intros (He & _ & Hd & _) Hi HE. destruct (d_events _ _ Hd _ _ Hi) as (Hst & <- & _). split; [by exists e|].
  unfold v_epoch, service_view. rewrite He, <- HE. by apply storable_id.
Qed.

#[export] Instance service_world_laws : EmitterWorldLaws X Service V.
Proof.
  split; try done.
  - intros s [es (He & Hb & Hd & _)]. unfold w_GetEpochValidators, service_emitter_world. apply wp_on_store.
    eapply wp_mono; [apply (GetEpochValidators_spec _ es); [apply Hd|done]|]. intros r st (-> & Hok & c & ->). cbn [snd].
    split; [unfold v_epoch, service_view; by rewrite He|]. by apply same_world_intro.
  - intros s i [es (He & Hb & Hd & _)]. unfold w_GetEvent, service_emitter_world. apply wp_on_store.
    eapply wp_mono; [apply GetEvent_spec, Hd|]. intros r st (-> & Hok & c & ->). split; [done|]. by apply same_world_intro.
  - intros s v [es Hn] Hv. pose proof Hn as (He & Hb & Hd & _). unfold w_GetLastEvent, service_emitter_world. apply wp_on_store.
    eapply wp_mono; [apply GetLastEvent_spec|]. intros r st (-> & ->). replace (set_store (svc_store s) s) with s by by destruct s.
    split_and!; [done| |reflexivity]. intros i. destruct (cur_tips _ !! _) as [j|] eqn:Ej; [|done]. simpl. intros [= <-].
    destruct (d_tips _ _ Hd v j Hv Ej) as (e & Ee & HE & _). pose proof (d_events _ _ Hd _ _ Ee) as (Hst & Hid & _).
    rewrite bytes_to_event_id by (rewrite <- Hid; by apply storable_id). by eapply stored_in_epoch.
  - intros s [es Hn]. pose proof Hn as (He & Hb & Hd & _). unfold w_GetHeads, service_emitter_world. apply wp_on_store.
    eapply wp_mono; [apply GetHeads_spec; exact (heads_ids _ _ Hd)|]. intros r st (-> & _ & Hr).
    replace (set_store (svc_store s) s) with s by by destruct s. split; [|reflexivity].
    apply Forall_forall. intros x Hx. apply Hr, (d_heads _ _ Hd) in Hx as [(e & Ee & HE) _]. by eapply stored_in_epoch.
  - intros s m _. unfold w_Build, service_emitter_world. wp_run. split; [reflexivity|]. apply engine_builds.
  - intros s e ps [es (He & Hb & Hd & _ & Hk)] Hc Hl. unfold w_Validate, service_emitter_world. wp_run. apply wp_on_store.
    eapply wp_mono; [apply (GetEpochValidators_spec _ es); [apply Hd|done]|]. intros r st (-> & Hok & c & ->). wp_run.
    split; [by apply same_world_intro|]. cbn [PubKeys svc_net set_store]. destruct Hc as (raw & h & _ & _ & Hh & _).
    assert (Hv : v_valid s e ps <-> Validate (Dag (svc_net s)) (es_Validators es) (es_Epoch es) (PubKeys s) e ps = Ret tt).
    { unfold v_valid, service_view. split; [|by exists es]. intros (es' & E & Hv). rewrite He in E. by injection E as ->. }
    rewrite Hk in Hv |- *. destruct (Validate_returns (Dag (svc_net s)) (es_Validators es) (es_Epoch es) (NewEpochPubKeys (es_Epoch es) (gen_Validators (net_Genesis (svc_net s)))) e ps h Hh Hl) as [E|[x E]]; rewrite E in Hv |- *.
    + left. split; [done|]. by apply Hv.
    + right. split; [by exists x|]. intros H. by apply Hv in H.
Qed.

(** ** Emitting keeps the node consistent *)

(** What [EmitEvent] can do: emit an event and keep the node consistent, emit
    nothing, or end the process, because a table failed or because the node
    refused its own event. *)
Definition own_refused : string := "Self-event connection failed".

Definition emitted (s : Service) (es : EpochState V) (o : go (option Event * Service)) : Prop :=
  match o with
  | Ret (r, s') =>
      (exists es', node_ok s' es' /\ (es' = es \/ es_Epoch es' = es_Epoch es + 1)) /\
      match r with
      | Some e => exists pl, created_ok s (svc_emitter s) pl e /\ event_at (svc_store s) (id (base e)) = None /\
          event_added (svc_store s) (svc_store s') e /\ (epoch_state_at (svc_store s') = Some es -> is_last (svc_store s') e) /\
          last (feed s') = Some (NewEmittedEvent e)
      | None => same_tables (svc_store s) (svc_store s')
      end
  | Exits x => kv_may_fail \/ exit_msg x = own_refused
  | _ => False
  end.

(** Going on after a part that is specified. *)
Lemma after_wp {A B} (m : stm Service A) (f : A -> stm Service B) (Q : A -> Service -> Prop) (P : go (B * Service) -> Prop) s :
  wp m Q s -> (forall x, kv_may_fail -> P (Exits x)) -> (forall a s', m s = Ret (a, s') -> Q a s' -> P (f a s')) -> P ((m ≫= f) s).
Proof.
  unfold wp, or_exit, mbind, stm_bind. intros Hm Hx Hf. destruct (m s) as [[a s']|x|x|x]; [by apply Hf|done|done|by apply Hx].
Qed.

(** Reading changes no table. *)
Definition unwritten (s s' : Service) : Prop := same_tables (svc_store s) (svc_store s').

#[local] Instance unwritten_preorder : PreOrder unwritten.
Proof. unfold unwritten. split; [by intros s|]. intros s1 s2 s3. apply transitivity. Qed.

Lemma unwritten_store {A} (m : stm Store A) : frames same_tables m -> frames unwritten (on_store m).
Proof. intros Hm. by apply (frames_store unwritten same_tables). Qed.

Section EmitterFrames.
Context (Rel : Service -> Service -> Prop) `{!PreOrder Rel}.
Hypothesis Hticks : forall s n, Rel s (set_ticks n s).
Hypothesis Hevent : forall i, frames Rel (w_GetEvent i).
Hypothesis Hlast : forall v, frames Rel (w_GetLastEvent v).
Hypothesis Hheads : frames Rel w_GetHeads.
Hypothesis Hvalidators : frames Rel w_GetEpochValidators.

Lemma em_next {A} (f : nat -> A) : frames Rel (next f).
Proof. by apply (frames_next Rel). Qed.

Lemma em_Validate e ps : frames Rel (w_Validate e ps).
Proof. unfold w_Validate, service_emitter_world. apply (frames_bind Rel); [apply Hvalidators|intros [vs ep]]. frame. Qed.

Lemma em_Build m : frames Rel (w_Build m).
Proof. unfold w_Build, service_emitter_world. frame. Qed.

Lemma em_load_parents ps m : frames Rel (load_parents ps m).
Proof.
  revert m. induction ps as [|p ps IH]; intros m; cbn [load_parents]; [frame|].
  apply (frames_bind Rel); [apply Hevent|intros [e|]; [|frame]]. apply (frames_bind Rel); [apply IH|intros [es mx]; frame].
Qed.

#[local] Hint Resolve em_next em_Validate em_Build em_load_parents : frames.

Lemma createEvent_frames pl : frames Rel (createEvent (V := V) pl).
Proof using All.
  unfold createEvent, isSyncedToEmit, currentSyncStatus, findBestParents, sign_and_build, get_em.
  change time_Now with (next clock). change rand_source with (next randomness). change PeersNum with (gets (fun s : Service => Len (pm_peers (pm s)))).
  repeat first [apply Hlast|apply Hheads|apply Hvalidators|frame_step].
Qed.

Lemma getTestPayload_frames n : frames Rel (getTestPayload n).
Proof using PreOrder0 Hticks. unfold getTestPayload, get_em. change time_Now with (next clock). frame. Qed.

End EmitterFrames.

Lemma unwritten_createEvent pl : frames unwritten (createEvent (V := V) pl).
Proof.
  apply (createEvent_frames unwritten); [done|..]; intros; apply unwritten_store; unfold GetEvent, GetLastEvent, GetHeads, GetEpochValidators, GetEpochState, getEpochStore; frame.
Qed.

Lemma getTestPayload_spec (s : Service) n : 0 <= PayloadSize (em_config (svc_emitter s)) < 2 ^ 60 ->
  wp (getTestPayload n) (fun pl s' => same_world s s' /\ unwritten s s' /\ is_bytes pl /\ zlen pl < 2 ^ 60) s.
Proof.
  intros Hs. unfold getTestPayload, get_em. wp_run. change (w_emitter s) with (svc_emitter s).
  set (size := if _ <? n then _ else 0). assert (Hsz : 0 <= size < 2 ^ 60) by (unfold size; destruct (_ <? _); lia).
  apply wp_if; intros _; wp_run; [split_and!; try done; by constructor|].
  change time_Now with (next clock). apply wp_next. intros k. wp_run. split; [by apply same_world_intro|split; [done|split]].
  - apply Forall_fmap, Forall_forall. intros x _. apply u8_uint.
  - unfold zlen. rewrite length_fmap, length_seqZ. lia.
Qed.

Lemma created_same (s s1 : Service) em pl e : v_ok s -> same_world s s1 -> created_ok s1 em pl e -> created_ok s em pl e.
Proof.
  intros Hok Hw [H1 H2 H3 H4 H5 H6 (pes & Hl & Hm & Hv) Hsg H8 H9]. pose proof Hw as (_ & _ & C & D & E & F). constructor; try done.
  - by rewrite <- E.
  - exists pes. split_and!; [by eapply loaded_same|done|by apply F].
  - rewrite <- D. destruct (v_last s1 _) as [i|]; [|done]. destruct H8 as [Hh (sp & Hsp & Hs)]. split; [done|]. exists sp. by rewrite <- C.
Qed.

(** The node processes its own event. *)
Lemma own_processable (s s1 : Service) es em pl e x : node_ok s1 es -> created_ok s1 em pl e ->
  es_Epoch es + 1 < 2 ^ 32 -> open_pack (svc_store s1) (es_Epoch es) + 1 < 2 ^ 32 -> prevLocalEmittedID (em_sync x) = id (base e) ->
  processable (set_emitter x s1) es e.
Proof.
  intros Hn Hc H1 H2 Hx. constructor; [apply Hc| |right; right; left; exact Hx|done|done].
  destruct (cr_parents _ _ _ _ Hc) as (pes & Hl & _). revert Hl. cbn [svc_store set_emitter]. generalize (parents (base e)). intros ps Hl.
  induction Hl as [|p pe ps pes Hp _ IH]; constructor; [by exists pe|done].
Qed.

Lemma emit_own (s s1 : Service) es em pl e x : node_ok s1 es -> created_ok s1 em pl e -> created_ok s (svc_emitter s) pl e ->
  es_Epoch es + 1 < 2 ^ 32 -> open_pack (svc_store s1) (es_Epoch es) + 1 < 2 ^ 32 -> prevLocalEmittedID (em_sync x) = id (base e) ->
  same_tables (svc_store s) (svc_store s1) ->
  emitted s es ((err ← w_ProcessEvent (V := V) e;
    match err with
    | Some _ => mret None
    | None =>
        _ ← mod_em (set_prevEmittedTime (Time (CreationTime e)));
        _ ← mod_em (fun em => set_meter (u64 (meter em + zlen (payload (ext e)))) em);
        mret (Some e)
    end) (set_emitter x s1)).
Proof.
  intros Hn1 Hc1 Hc H1 H2 Hx Ht. destruct (same_tables_dag _ _ Ht) as (Hev & _). pose proof (own_processable s s1 es em pl e x Hn1 Hc1 H1 H2 Hx) as Hp.
  pose proof (process_event_spec (set_emitter x s1) es e Hn1 Hp) as Hw. revert Hw.
  unfold w_ProcessEvent, service_emitter_world, processEmitted, send, wp, or_exit, mbind, stm_bind.
  destruct (processEvent e (set_emitter x s1)) as [[[err|] s2]|x2|x2|x2]; cbn [fst snd]; [|..|done|done|by intros ?; left].
  - intros _. by right.
  - intros [(es' & Hn2 & Hes) [(Hnew & _ & Hadd & Hlast)|[? _]]]; [|done]. cbn. split; [by exists es'|]. exists pl. split; [done|]. split; [by rewrite <- Hev|]. split; [|split].
    + intros i. rewrite (Hadd i). case_decide; [done|]. apply Hev.
    + exact Hlast.
    + apply last_snoc.
Qed.

Lemma emit_spec (s : Service) (es : EpochState V) (n : Z) :
  node_ok s es -> config_ok (svc_emitter s) -> counters_room s -> 0 <= PayloadSize (em_config (svc_emitter s)) < 2 ^ 60 ->
  es_Epoch es + 1 < 2 ^ 32 -> open_pack (svc_store s) (es_Epoch es) + 1 < 2 ^ 32 -> emitted s es (EmitEvent (V := V) n s).
Proof.
  intros Hn Hcfg Hroom Hps H1 H2. unfold EmitEvent, get_em.
  apply (after_wp _ _ (fun em s' => em = svc_emitter s /\ s' = s)); [by wp_run|by intros; left|]. intros em s0 _ [-> ->].
  destruct (_ =? 0); [split; [exists es; auto|done]|].
  eapply after_wp; [by apply getTestPayload_spec|by intros; left|]. intros pl s1 _ (W1 & M1 & Hpl & Hlen).
  pose proof W1 as (Hok1 & Em1 & Ev1 & _ & Ep1 & _). destruct Hcfg as [Hc1 Hc2]. pose proof Hn as (He & _ & Hd & _).
  assert (Hv1 : v_ok s1) by (apply Hok1; by exists es).
  assert (Hspec : wp (createEvent (V := V) pl) (fun r s2 => (same_world s1 s2 /\ forall e, r = Some e -> created_ok s1 (w_emitter s1) pl e) /\ unwritten s1 s2) s1).
  { apply wp_frames; [apply unwritten_createEvent|]. eapply wp_mono; [apply createEvent_spec; try done|].
    - rewrite Em1. by split.
    - intros i e. rewrite Ev1. apply Hroom.
    - rewrite Ep1. unfold v_epoch, service_view. rewrite He. apply (d_epoch _ _ Hd).
    - intros r s2 (A & B & _). by split. }
  eapply after_wp; [exact Hspec|by intros; left|]. clear Hspec. intros r s2 _ [[W2 Hcr] M2].
  pose proof (transitivity W1 W2) as (Hok2 & Em2 & Ev2 & _). pose proof (transitivity M1 M2) as M12. pose proof M12 as (_ & Me & _ & _ & _ & _ & Mp & _).
  destruct (Hok2 (ex_intro _ es Hn)) as [es2 Hn2]. assert (es2 = es) as ->.
  { pose proof (proj1 Hn2) as He2. unfold epoch_state_at in *. rewrite Me, He in He2. by injection He2. }
  destruct r as [e|]; [|split; [exists es; auto|exact M12]]. specialize (Hcr e eq_refl).
  apply (after_wp _ _ (fun _ s' => exists x, s' = set_emitter x s2 /\ prevLocalEmittedID (em_sync x) = id (base e))).
  { unfold mod_sync, mod_em. wp_run. by eexists. }
  { by intros; left. }
  intros u s3 _ (x & -> & Hx). apply (emit_own s s2 es (w_emitter s1) pl); try done.
  - apply (created_same s2 s1); [by exists es|by apply same_sym|done].
  - apply (created_same s s1); [by exists es|done|]. rewrite Em1 in Hcr. exact Hcr.
  - unfold open_pack, packs_num_at in *. by rewrite Mp.
Qed.

(** C12: emitting keeps the node consistent.  Whatever the emitter decides, one
    call of [EmitEvent] on a consistent node leaves a consistent node.  An event
    it returns is a new, well-formed child of stored events, signed with the
    node's key and accepted by the node's checks; it is now stored, alone, is the
    last event of the validator unless it sealed the epoch, and is announced to
    the broadcaster.  Without an event no table is changed.  The only other
    outcomes are a failed table and the node refusing its own event: both end
    the process. *)
Theorem emit_consistent (s : Service) (es : EpochState V) (neededBytes : Z) :
  node_ok s es -> config_ok (svc_emitter s) -> counters_room s -> 0 <= PayloadSize (em_config (svc_emitter s)) < 2 ^ 60 ->
  es_Epoch es + 1 < 2 ^ 32 -> open_pack (svc_store s) (es_Epoch es) + 1 < 2 ^ 32 ->
  emitted s es (EmitEvent (V := V) neededBytes s).
Proof. apply emit_spec. Qed.

End World.

Module Sample.
Import StoreSpec.Sample Genesis.Sample ServiceSpec.Sample.
#[local] Existing Instance lachesis_be.
#[local] Existing Instance lachesis_be_laws.
#[local] Existing Instance lachesis_idx_be.
#[local] Existing Instance lachesis_idx_be_laws.
#[local] Existing Instance rlp_length_prefix.
#[local] Existing Instance rlp_length_prefix_laws.
#[local] Existing Instance kv_gmap.
#[local] Existing Instance kv_gmap_laws.
#[local] Existing Instance lru_gmap.
#[local] Existing Instance lru_gmap_laws.
#[local] Existing Instance codec_countable.
#[local] Existing Instance codec_countable_laws.
#[local] Existing Instance base_checks_any.
#[local] Existing Instance base_checks_any_laws.
#[local] Existing Instance Emitter.Sample.ext_any.
#[local] Existing Instance Emitter.Sample.ext_any_laws.
#[local] Existing Instance pos_total.
#[local] Existing Instance engine_each.
#[local] Existing Instance engine_each_laws.
#[local] Existing Instance ServiceSpec.Sample.calm.

Lemma emit_consistent_witness :
  emitted sample_node (genesis_epoch short_net) (EmitEvent (V := Z) 0 sample_node).
Proof.
  destruct sample_node_ok as (Hn & Hev & Hem & Hop). apply emit_consistent.
  - exact Hn.
  - rewrite Hem. exact Emitter.Sample.sample_config_ok.
  - intros i e He. unfold v_event, service_view in He. rewrite Hev in He. discriminate He.
  - rewrite Hem. split; reflexivity || discriminate.
  - reflexivity.
  - rewrite Hop. reflexivity.
Defined.

End Sample.
End ServiceWorld.
