(* ===== verification/Handler.v ===== *)
(** * gossip/handler.go: the protocol manager

    What the node does with its peers: accepting and removing them, answering
    and processing each of their messages, and broadcasting events and progress.
    The state is the [Service], which owns the store and the protocol manager.
    The packs downloader, the fetcher and the ordering buffer (lachesis-base) run
    on their own: calls to them are recorded, and what they answer is a
    parameter, like the order in which a Go map is visited. *)

From Stdlib Require Import ZArith Lia Bool Sorted.
From stdpp Require Import base list numbers option strings gmap sorting.
From S2P Require Import Prelude Kv Sha256 Fast Event Serializer EventBuild Store StoreSpec Genesis Checks Emitter Peer Service.
Import Event Serializer EventBuild Store StoreSpec Genesis Checks Emitter Peer Service.
Local Open Scope Z_scope.

(** The answers of the other parts, by the time they are asked. *)
Class GossipExt := {
  fetcher_Overloaded : nat -> bool;
  downloader_Peer : nat -> string -> bool;      (** the downloader knows the peer *)
  IsBuffered : nat -> list Z -> bool;
  ErrAllUnknownBeforeKnown : error;
  range_order : nat -> gmap string nat -> list string;
  arrivals : nat -> list arrival;               (** of the goroutines of a handshake *)
  io_EOF : error;
  DiscTooManyPeers : error;
  DiscQuitting : error
}.

Class GossipExtLaws (G : GossipExt) : Prop := {
  range_order_all : forall n m, range_order n m ≡ₚ elements (dom m)
}.

(** The RLP forms of the messages: a list of raw values, and the other types. *)
Class Wire := {
  raw_list : list Z -> option (list (list Z));
  wire_hashes :: Codec (list (list Z));
  wire_status :: Codec statusData;
  wire_progress :: Codec PeerProgress;
  wire_getPackInfos :: Codec getPackInfosData;
  wire_packInfos :: Codec packInfosData;
  wire_getPack :: Codec getPackData;
  wire_pack :: Codec packData
}.

Module Handler.

Section Definitions.
Context {V : Type}.
Context `{LachesisBase, LachesisIdx, Rlp, Kv, Lru}.
Context `{Codec Block, Codec PackInfo, Codec BlockState, Codec (EpochState V)}.
Context `{BaseChecks V, Engine V, EmitterExt, Environment, P2p, GossipExt, Wire}.

Abbreviation SV := (stm (Service V)).

Definition eventsBuffSize : Z := 2048.

Definition checkLenLimits (size : Z) : option error :=
  if size <=? 0 then Some (errResp ErrEmptyMessage)
  else if size >? hardLimitItems then Some (errResp ErrMsgTooLarge)
  else None.

Definition set_synced x (m : ProtocolManager) := MkPM (pm_config m) x (maxPeers m) (pm_peers m) (prevProgress m) (calls m).
Definition set_maxPeers x (m : ProtocolManager) := MkPM (pm_config m) (synced m) x (pm_peers m) (prevProgress m) (calls m).
Definition set_pm_peers x (m : ProtocolManager) := MkPM (pm_config m) (synced m) (maxPeers m) x (prevProgress m) (calls m).
Definition set_prevProgress x (m : ProtocolManager) := MkPM (pm_config m) (synced m) (maxPeers m) (pm_peers m) x (calls m).
Definition set_calls x (m : ProtocolManager) := MkPM (pm_config m) (synced m) (maxPeers m) (pm_peers m) (prevProgress m) x.

Definition mod_pm (f : ProtocolManager -> ProtocolManager) : SV unit := modify (fun s => set_pm (f (pm s)) s).

(** A call of another part. *)
Definition tell (c : call) : SV unit := mod_pm (fun m => set_calls (calls m ++ [c]) m).

(** A call of the set of peers, and of one peer. *)
Definition on_peers {A} (m : stm peerSet A) : SV A := fun s =>
  match m (pm_peers (pm s)) with
  | Ret (a, ps) => Ret (a, set_pm (set_pm_peers ps (pm s)) s)
  | Err e => Err e
  | Panics p => Panics p
  | Exits x => Exits (stamp s x)
  end.

Definition peer_do {A} (a : nat) (m : stm peer A) : SV A := on_peers (on_peer a m).

Definition peer_get {A} (a : nat) (f : peer -> A) : SV A := p ← on_peers (deref a); mret (f p).

(** The order of this visit of the map of peers. *)
Definition next_order : SV (list string) :=
  f ← next range_order; m ← gets (fun s => peers (pm_peers (pm s))); mret (f m).

(** ** The filters and checks given to the fetcher and the buffer *)

Definition peer_removed (name : string) (a : nat) : SV unit :=
  _ ← tell (CallUnregisterPeer name);
  _ ← on_peers (Unregister name);
  on_peers (Disconnect a).

Definition removePeer (name : string) : SV unit :=
  p ← on_peers (lookupPeer name);
  match p with None => mret tt | Some a => peer_removed name a end.

Definition peerMisbehaviour (name : string) (err : option error) : SV bool :=
  if IsBan err && negb (bool_decide (err = Some ErrAllUnknownBeforeKnown))
  then _ ← removePeer name; mret true
  else mret false.

Definition lightCheck (e : Event) : SV (go unit) :=
  net ← gets svc_net;
  match basic_Validate (Dag net) e with
  | Ret _ => '(vs, ep) ← on_store GetEpochValidators; mret (epochcheck_validate vs ep e)
  | r => mret r
  end.

Definition bufferedCheck (e : Event) (ps : list Event) : go unit := parents_Validate e ps.

Definition onDrop (name : string) (err : option error) : SV unit :=
  if IsBan err then removePeer name else mret tt.

Fixpoint onlyNotConnectedEvents (ids : list (list Z)) : SV (list (list Z)) :=
  match ids with
  | [] => mret []
  | i :: ids =>
      known ← on_store (HasEvent i);
      rest ← onlyNotConnectedEvents ids;
      mret (if known : bool then rest else i :: rest)
  end.

Fixpoint interested_loop (epoch : Z) (ids : list (list Z)) : SV (list (list Z)) :=
  match ids with
  | [] => mret []
  | i :: ids =>
      if negb (hash_Epoch i =? epoch) then interested_loop epoch ids
      else
        f ← next IsBuffered;
        skip ← (if f i : bool then mret true else on_store (HasEvent i));
        rest ← interested_loop epoch ids;
        mret (if skip : bool then rest else i :: rest)
  end.

Definition onlyInterestedEvents (ids : list (list Z)) : SV (list (list Z)) :=
  match ids with
  | [] => mret []
  | _ => epoch ← on_store GetEpoch; interested_loop epoch ids
  end.

(** ** Progress *)

Definition atropos_of (b : option Block) : go (list Z) :=
  match b with Some b => Ret (atropos b) | None => Panics NilDeref end.

Definition myProgress : SV PeerProgress :=
  blockI ← on_store GetLatestBlockIndex;
  b ← on_store (GetBlock blockI);
  block ← lift (atropos_of b);
  epoch ← on_store GetEpoch;
  num ← on_store (GetPacksNumOrDefault epoch);
  info ← on_store (GetPackInfoOrDefault epoch (u32 (num - 1)));
  mret (MkProgress epoch blockI info block).

Fixpoint highest_loop (l : list nat) (max : PeerProgress) : SV PeerProgress :=
  match l with
  | [] => mret max
  | a :: l =>
      pr ← peer_get a progress;
      highest_loop l (if NumOfBlocks max <? NumOfBlocks pr then pr else max)
  end.

Definition highestPeerProgress : SV PeerProgress :=
  ord ← next_order;
  l ← on_peers (List_ ord);
  max ← myProgress;
  highest_loop l max.

Record NodeInfo := MkNodeInfo { ni_Network : Z; ni_Genesis : list Z; ni_Epoch : Z; ni_NumOfBlocks : Z }.

Definition GetNodeInfo : SV NodeInfo :=
  n ← on_store GetLatestBlockIndex;
  net ← gets svc_net;
  g ← on_store (GetBlock 0);
  g ← lift (atropos_of g);
  epoch ← on_store GetEpoch;
  mret (MkNodeInfo (NetworkID net) g epoch n).

(** ** Broadcasts *)

Definition byteCost : Z := Z.quot millisecond 2.

(** [int] and [time.Duration] are 64 bits wide; [math.Sqrt] of a number of
    peers, truncated, is the integer square root. *)
Definition decideBroadcastAggressiveness (cfg : ProtocolConfig) (size passed peersNum : Z) : Z :=
  let percents := 100 in
  let maxPercents := 1000000 * percents in
  let tradeoff := if negb (ThroughputImportance cfg =? 0)
                  then i64 (Z.quot (i64 (LatencyImportance cfg * percents)) (ThroughputImportance cfg))
                  else maxPercents in
  let broadcastCost := i64 (passed + i64 (size * byteCost)) in
  let broadcastAllCostTarget := Z.quot (i64 (tradeoff * (700 * millisecond))) percents in
  let broadcastSqrtCostTarget := i64 (broadcastAllCostTarget * 20) in
  let fullRecipients :=
    if tradeoff >=? maxPercents then peersNum
    else if tradeoff <=? 0 then 0
    else if broadcastCost <=? broadcastAllCostTarget then peersNum
    else if (broadcastCost <=? broadcastSqrtCostTarget) || (passed =? 0)
         then let r := Z.sqrt peersNum in if r <? 4 then 4 else r
    else 0 in
  if fullRecipients >? peersNum then peersNum else fullRecipients.

Definition BroadcastEvent (event : Event) (passed : Z) : SV Z :=
  let passed := if passed <? 0 then 0 else passed in
  let i := id (base event) in
  ord ← next_order;
  ps ← on_peers (PeersWithoutEvent ord i);
  if zlen ps =? 0 then mret 0
  else
    cfg ← gets (fun s => pm_config (pm s));
    let fullRecipients := decideBroadcastAggressiveness cfg (Size event) passed (zlen ps) in
    if (fullRecipients <? 0) || (zlen ps <? fullRecipients) then lift (Panics SliceBounds)
    else
      _ ← foreach (fun a => peer_do a (AsyncSendEvents [event])) (take (Z.to_nat fullRecipients) ps);
      _ ← foreach (fun a => peer_do a (AsyncSendNewEventHashes [i])) (drop (Z.to_nat fullRecipients) ps);
      mret (zlen ps).

(** The [Process] callback of the ordering buffer. *)
Definition onProcess (e : Event) : SV (option error) :=
  now ← next clock;
  err ← processEvent e;
  match err with
  | Some x => mret (Some x)
  | None =>
      sy ← gets (fun s => synced (pm s));
      if sy : bool
      then _ ← BroadcastEvent e (time_sub now (Time (CreationTime e))); mret None
      else mret None
  end.

(** One turn of each broadcast loop. *)
Definition onEmitted (e : Event) : SV Z := BroadcastEvent e 0.

Definition onNewPack : SV unit :=
  ord ← next_order;
  l ← on_peers (List_ ord);
  prev ← gets (fun s => prevProgress (pm s));
  _ ← foreach (fun a => _ ← peer_do a (SendProgress prev); mret tt) l;
  mine ← myProgress;
  mod_pm (set_prevProgress mine).

Fixpoint any_at_epoch (myEpoch : Z) (l : list nat) (found : bool) : SV bool :=
  match l with
  | [] => mret found
  | a :: l =>
      pr ← peer_get a progress;
      any_at_epoch myEpoch l (if pp_Epoch pr =? myEpoch then true else found)
  end.

(** [peerEpoch] of the registered peers; any other name has epoch 0. *)
Definition peer_epochs (ps : peerSet) : gmap string Z :=
  omap (fun a => (fun p => pp_Epoch (progress p)) <$> heap ps !! a) (peers ps).

Definition onNewEpoch_ (myEpoch : Z) : SV unit :=
  sy ← gets (fun s => synced (pm s));
  _ ← (if negb sy
       then ord ← next_order;
            l ← on_peers (List_ ord);
            found ← any_at_epoch myEpoch l false;
            (if found : bool then mod_pm (set_synced true) else mret tt)
       else mret tt);
  _ ← tell CallBufferClear;
  epochs ← gets (fun s => peer_epochs (pm_peers (pm s)));
  tell (CallDownloaderOnNewEpoch myEpoch epochs).

(** ** One message *)

(** [msg.Decode(&events)]: a list of encoded events. *)
Fixpoint decode_events (l : list (list Z)) : go (list Event) :=
  match l with
  | [] => Ret []
  | b :: l => e ← decode_event b; ee ← decode_events l; Ret (e :: ee)
  end.

Definition decode_events_msg (b : list Z) : go (list Event) :=
  match raw_list b with None => Err (Error "rlp: decode") | Some l => decode_events l end.

(** Decode the message, or refuse it with [ErrDecode]. *)
Definition decoding {A} `{Codec A} (msg : Msg) (k : A -> SV (option error)) : SV (option error) :=
  match dec (Payload_ msg) with None => mret (Some (errResp ErrDecode)) | Some x => k x end.

Definition limited (n : Z) (k : SV (option error)) : SV (option error) :=
  match checkLenLimits n with Some e => mret (Some e) | None => k end.

Definition handleProgress (a : nat) (name : string) (myEpoch : Z) (pr : PeerProgress) : SV (option error) :=
  _ ← peer_do a (SetProgress pr);
  _ ← (if pp_Epoch pr =? myEpoch then mod_pm (set_synced true) else mret tt);
  _ ← tell (CallRegisterPeer name (pp_Epoch pr) myEpoch);
  f ← next downloader_Peer;
  _ ← (if f name && (Index (LastPackInfo pr) >? 0)
       then tell (CallNotifyPackInfo name (pp_Epoch pr) (Index (LastPackInfo pr)) (Heads (LastPackInfo pr)))
       else mret tt);
  mret None.

Definition handleNewEventHashes (a : nat) (name : string) (announces : list (list Z)) : SV (option error) :=
  limited (zlen announces) (
    _ ← peer_do a (foreach MarkEvent announces);
    _ ← tell (CallFetcherNotify name announces);
    mret None).

Definition handleEvents (a : nat) (name : string) (events : list Event) : SV (option error) :=
  limited (zlen events) (
    _ ← peer_do a (foreach (fun e => MarkEvent (id (base e))) events);
    _ ← tell (CallFetcherEnqueue name events);
    mret None).

(** The loop over the requested ids, stopping at the soft limit. *)
Fixpoint collect_events (requests : list (list Z)) (raws ids : list (list Z)) (size : Z) : SV (list (list Z) * list (list Z)) :=
  match requests with
  | [] => mret (raws, ids)
  | i :: requests =>
      raw ← on_store (GetEventRLP i);
      let '(raws, ids, size) := match raw with
                                | Some r => (raws ++ [r], ids ++ [i], size + zlen r)
                                | None => (raws, ids, size)
                                end in
      if size >=? softResponseLimitSize then mret (raws, ids) else collect_events requests raws ids size
  end.

Definition handleGetEvents (a : nat) (requests : list (list Z)) : SV (option error) :=
  limited (zlen requests) (
    '(raws, ids) ← collect_events requests [] [] 0;
    _ ← (if negb (zlen raws =? 0) then _ ← peer_do a (SendEventsRLP raws ids); mret tt else mret tt);
    mret None).

Fixpoint collect_packInfos (epoch packsNum : Z) (indexes : list Z) (raws : list (list Z)) (size : Z) : SV (list (list Z)) :=
  match indexes with
  | [] => mret raws
  | index :: indexes =>
      if index >=? packsNum then collect_packInfos epoch packsNum indexes raws size
      else
        raw ← on_store (GetPackInfoRLP epoch index);
        let '(raws, size) := match raw with Some r => (raws ++ [r], size + zlen r) | None => (raws, size) end in
        if size >=? softResponseLimitSize then mret raws else collect_packInfos epoch packsNum indexes raws size
  end.

Definition handleGetPackInfos (a : nat) (request : getPackInfosData) : SV (option error) :=
  limited (zlen (Indexes request)) (
    num ← on_store (GetPacksNum (gpi_Epoch request));
    match num with
    | None => mret None
    | Some packsNum =>
        raws ← collect_packInfos (gpi_Epoch request) packsNum (Indexes request) [] 0;
        _ ← (if negb (zlen raws =? 0)
             then _ ← peer_do a (SendPackInfosRLP (MkPackInfosDataRLP (gpi_Epoch request) packsNum raws)); mret tt
             else mret tt);
        mret None
    end).

(** [for i, id := range pack { ids = append(ids, id); if i >= softLimitItems { break } }]. *)
Fixpoint cut_pack (i : Z) (pack : list (list Z)) : list (list Z) :=
  match pack with
  | [] => []
  | x :: pack => x :: (if i >=? softLimitItems then [] else cut_pack (i + 1) pack)
  end.

Definition handleGetPack (a : nat) (myEpoch : Z) (request : getPackData) : SV (option error) :=
  if gp_Epoch request >? myEpoch then mret None
  else
    pack ← on_store (GetPack (gp_Epoch request) (gp_Index request));
    let ids := cut_pack 0 pack in
    _ ← (if negb (zlen ids =? 0)
         then _ ← peer_do a (SendPack (MkPackData (gp_Epoch request) (gp_Index request) ids)); mret tt
         else mret tt);
    mret None.

Fixpoint notify_infos (a : nat) (name : string) (epoch : Z) (infos : list PackInfo) : SV (option error) :=
  match infos with
  | [] => mret None
  | info :: infos =>
      if zlen (Heads info) =? 0 then mret (Some (errResp ErrEmptyMessage))
      else
        _ ← peer_do a (foreach MarkEvent (Heads info));
        _ ← tell (CallNotifyPackInfo name epoch (Index info) (Heads info));
        notify_infos a name epoch infos
  end.

Definition handlePackInfos (a : nat) (name : string) (infos : packInfosData) : SV (option error) :=
  limited (zlen (Infos infos)) (
    _ ← tell (CallNotifyPacksNum name (pid_Epoch infos) (TotalNumOfPacks infos));
    notify_infos a name (pid_Epoch infos) (Infos infos)).

Definition handlePack (a : nat) (name : string) (pack : packData) : SV (option error) :=
  limited (zlen (pd_IDs pack)) (
    if zlen (pd_IDs pack) =? 0 then mret (Some (errResp ErrDecode))
    else
      _ ← peer_do a (foreach MarkEvent (pd_IDs pack));
      _ ← tell (CallNotifyPack name (pd_Epoch pack) (pd_Index pack) (pd_IDs pack));
      mret None).

(** The [switch] on the code of the message. *)
Definition dispatch (a : nat) (msg : Msg) : SV (option error) :=
  myEpoch ← on_store GetEpoch;
  name ← peer_get a p_id;
  f ← next downloader_Peer;
  let peerDwnlr := f name in
  if Code msg =? StatusMsg then mret (Some (errResp ErrExtraStatusMsg))
  else if Code msg =? ProgressMsg then decoding msg (handleProgress a name myEpoch)
  else if Code msg =? NewEventHashesMsg then
    over ← next fetcher_Overloaded;
    if over : bool then mret None
    else
      sy ← gets (fun s => synced (pm s));
      if negb sy then mret None else decoding msg (handleNewEventHashes a name)
  else if Code msg =? EventsMsg then
    over ← next fetcher_Overloaded;
    if over : bool then mret None
    else match decode_events_msg (Payload_ msg) with
         | Ret events => handleEvents a name events
         | Err _ => mret (Some (errResp ErrDecode))
         | Panics p => lift (Panics p)
         | Exits x => lift (Exits x)
         end
  else if Code msg =? GetEventsMsg then decoding msg (handleGetEvents a)
  else if Code msg =? GetPackInfosMsg then decoding msg (handleGetPackInfos a)
  else if Code msg =? GetPackMsg then decoding msg (handleGetPack a myEpoch)
  else if Code msg =? PackInfosMsg then
    if negb peerDwnlr then mret None else decoding msg (handlePackInfos a name)
  else if Code msg =? PackMsg then
    if negb peerDwnlr then mret None else decoding msg (handlePack a name)
  else mret (Some (errResp ErrInvalidMsgCode)).

Definition handleMsg (a : nat) (incoming : error + Msg) : SV (option error) :=
  match incoming with
  | inl e => mret (Some e)
  | inr msg =>
      if msg_Size msg >? protocolMaxMsgSize then mret (Some (errResp ErrMsgTooLarge)) else dispatch a msg
  end.

(** ** The life of a connection *)

(** Messages are handled until one fails; when none is left, reading fails. *)
Fixpoint handle_loop (a : nat) (incoming : list (error + Msg)) : SV error :=
  match incoming with
  | [] => mret io_EOF
  | m :: incoming =>
      err ← handleMsg a m;
      match err with Some e => mret e | None => handle_loop a incoming end
  end.

(** [handle] up to the handshake: the limit of peers, and the exchange of status
    messages. *)
Definition handle_greeting (a : nat) (first : error + Msg) : SV (option error) :=
  n ← gets (fun s => Len (pm_peers (pm s)));
  limit ← gets (fun s => maxPeers (pm s));
  tr ← peer_get a trusted;
  if (n >=? limit) && negb tr then mret (Some DiscTooManyPeers)
  else
    g ← on_store (GetBlock 0);
    genesis ← lift (atropos_of g);
    mine ← myProgress;
    net ← gets svc_net;
    sched ← next arrivals;
    peer_do a (Handshake (NetworkID net) mine genesis first sched).

(** The deferred [removePeer] of [handle]. *)
Definition handle_end (a : nat) : SV unit := name ← peer_get a p_id; removePeer name.

Definition handle (a : nat) (incoming : list (error + Msg)) : SV error :=
  err ← handle_greeting a (default (inl io_EOF) (head incoming));
  match err with
  | Some e => mret e
  | None =>
      reg ← on_peers (Register a);
      match reg with
      | Some e => mret e
      | None =>
          err ← handle_loop a (tail incoming);
          _ ← handle_end a;
          mret err
      end
  end.

(** [makeProtocol] and its [Run]: the pool may know the node ([entry]); the
    session starts unless the manager is quitting. *)
Definition makeProtocol (version : Z) : go Z :=
  match protocolLengths version with
  | Some length => Ret length
  | None => Panics (PanicMsg "makeProtocol for unknown version")
  end.

Definition pool_disconnect (entry : option Z) : SV unit :=
  match entry with Some e => tell (CallPoolDisconnect e) | None => mret tt end.

Definition Run (version : Z) (name : string) (tr : bool) (entry : option Z) (quitting : bool)
    (incoming : list (error + Msg)) : SV error :=
  a ← on_peers (alloc (set_poolEntry entry (newPeer version name tr)));
  if quitting then _ ← pool_disconnect entry; mret DiscQuitting
  else
    err ← handle a incoming;
    _ ← pool_disconnect entry;
    mret err.

Definition PM_Start (max : Z) : SV unit :=
  _ ← mod_pm (set_maxPeers max);
  mine ← myProgress;
  _ ← mod_pm (set_prevProgress mine);
  _ ← tell (CallStart "fetcher");
  tell (CallStart "heavycheck").

Definition PM_Stop : SV unit :=
  _ ← tell (CallStop "heavycheck");
  _ ← tell (CallStop "downloader");
  _ ← tell (CallStop "fetcher");
  ord ← next_order;
  on_peers (Close ord).

End Definitions.
End Handler.
