(* ===== verification/HandlerSpec.v ===== *)
(** * What the protocol manager guarantees

    Whatever a peer sends, handling its message writes nothing to the store,
    keeps the memory held for it bounded and never panics; requests are answered
    with what is stored; broadcasts reach every interested peer; and a
    connection leaves the set of peers as it was. *)

From Stdlib Require Import ZArith Lia Bool Sorted.
From stdpp Require Import base list numbers option strings gmap sorting.
From S2P Require Import Prelude Kv Sha256 Fast Event Serializer EventBuild Store StoreSpec Genesis Checks Emitter Peer PeerSpec Service ServiceSpec Handler.
Import Event Serializer EventBuild Store StoreSpec Genesis Checks Emitter Peer PeerSpec Service ServiceSpec Handler.
Local Open Scope Z_scope.

(** Documented behaviour of the RLP decoder on any bytes: it returns a byte
    string no longer than its input, or an error. *)
Class RlpSafe (R : Rlp) : Prop := {
  rlp_bytes_safe : forall raw, is_bytes raw ->
    match rlp_bytes raw with
    | Ret (s, _) => is_bytes (vis s ++ spare s) /\ slice_cap s <= zlen raw
    | Err _ => True
    | _ => False
    end
}.

Class WireLaws (W : Wire) : Prop := {
  raw_list_bytes : forall b l, is_bytes b -> raw_list b = Some l -> Forall (fun r => is_bytes r /\ zlen r <= zlen b) l
}.

Module HandlerSpec.

Section Spec.
Context {V : Type}.
Context {LB : LachesisBase} {LBL : LachesisBaseLaws LB} {LI : LachesisIdx} {LIL : LachesisIdxLaws LI}.
Context {R : Rlp} {RL : RlpLaws R} {RS : RlpSafe R} {K : Kv} {KL : KvLaws K} {L : Lru} {LL : LruLaws L}.
Context {CB : Codec Block} {CBL : CodecLaws Block} {CP : Codec PackInfo} {CPL : CodecLaws PackInfo}.
Context {CS : Codec BlockState} {CSL : CodecLaws BlockState}.
Context {CE : Codec (EpochState V)} {CEL : CodecLaws (EpochState V)}.
Context {BC : BaseChecks V} {BCL : BaseChecksLaws V} {EN : Engine V} {ENL : EngineLaws V} {X : EmitterExt}.
Context {ENV : Environment} {N : P2p} {NL : P2pLaws N} {G : GossipExt} {GL : GossipExtLaws G} {W : Wire} {WL : WireLaws W}.
Abbreviation Service := (Service V).
Abbreviation Store := (Store V).

(** ** What handling a message leaves alone *)

(** The peers keep their identity, and the registered ones stay. *)
Definition names_kept (s s' : peerSet) : Prop :=
  peers s' = peers s /\ closed s' = closed s /\
  forall b q, heap s !! b = Some q -> exists q', heap s' !! b = Some q' /\ p_id q' = p_id q /\ term q' = term q /\ trusted q' = trusted q.

#[global] Instance names_kept_preorder : PreOrder names_kept.
Proof.
  split; [intros s; split_and!; try done; intros b q ->; by exists q|].
  intros s1 s2 s3 (A & B & C) (A' & B' & C'). split_and!; try congruence.
  intros b q Hb. destruct (C b q Hb) as (q' & Hb' & D1 & D2 & D3). destruct (C' b q' Hb') as (q'' & Hb'' & E1 & E2 & E3).
  exists q''. split_and!; congruence.
Qed.

Lemma same_set_names s s' : same_set s s' -> names_kept s s'.
Proof.
  intros (A & B & C). split_and!; try done. intros b q Hb. destruct (C b q Hb) as (q' & Hb' & D1 & _ & D2 & _ & _ & D3).
  exists q'. by split_and!.
Qed.

Lemma names_kept_length s s' a : names_kept s s' -> (a < length (heap s))%nat -> (a < length (heap s'))%nat.
Proof.
  intros (_ & _ & Hh) Ha. destruct (lookup_lt_is_Some_2 _ _ Ha) as [q Hq]. destruct (Hh a q Hq) as (q' & Hq' & _).
  by eapply lookup_lt_Some.
Qed.

(** Everything of the service but caches, the protocol manager and the clock. *)
Definition undisturbed (s s' : Service) : Prop :=
  same_tables (svc_store s) (svc_store s') /\ svc_net s' = svc_net s /\ svc_engine s' = svc_engine s /\
  svc_emitter s' = svc_emitter s /\ PubKeys s' = PubKeys s /\ stopped s' = stopped s /\ feed s' = feed s /\
  names_kept (pm_peers (pm s)) (pm_peers (pm s')) /\ pm_config (pm s') = pm_config (pm s) /\ maxPeers (pm s') = maxPeers (pm s).

#[global] Instance undisturbed_preorder : PreOrder undisturbed.
Proof.
  split; [by intros s; split_and!|].
  intros s1 s2 s3 (A1 & A2 & A3 & A4 & A5 & A6 & A7 & A8 & A9 & A10) (B1 & B2 & B3 & B4 & B5 & B6 & B7 & B8 & B9 & B10).
  split_and!; first [by etrans|congruence].
Qed.

Definition session_ok (s : Service) (es : EpochState V) : Prop := node_ok s es /\ set_ok (pm_peers (pm s)).

Lemma session_store s es : session_ok s es -> store_ok (svc_store s).
Proof. intros [(_ & _ & Hd & _) _]. apply (d_store _ _ Hd). Qed.

Lemma session_epoch s es : session_ok s es -> epoch_state_at (svc_store s) = Some es.
Proof. by intros [(He & _) _]. Qed.

Lemma session_kept s s' es : session_ok s es -> same_tables (svc_store s) (svc_store s') -> store_ok (svc_store s') ->
  set_ok (pm_peers (pm s')) -> svc_net s' = svc_net s -> PubKeys s' = PubKeys s -> session_ok s' es.
Proof.
  intros [Hn _] Ht Hok Hs E1 E2. split; [|done]. pose proof Hn as (He & Hb & _).
  pose proof Ht as (A1 & A2 & _). apply (node_ok_same s); try done.
  - by apply same_tables_dag.
  - unfold epoch_state_at. by rewrite A2.
  - unfold block_state_at. by rewrite A1.
Qed.

(** Code that disturbs nothing, for a peer at [a]. *)
Definition calm {A} (a : nat) (m : stm Service A) : Prop := forall s es,
  session_ok s es -> (a < length (heap (pm_peers (pm s))))%nat -> wp m (fun _ s' => session_ok s' es /\ undisturbed s s') s.

Lemma wp_calm {A B} a (m : stm Service A) (f : A -> stm Service B) s0 s es (Q : B -> Service -> Prop) :
  calm a m -> session_ok s es -> undisturbed s0 s -> (a < length (heap (pm_peers (pm s))))%nat ->
  (forall x s', session_ok s' es -> undisturbed s0 s' -> (a < length (heap (pm_peers (pm s'))))%nat -> wp (f x) Q s') ->
  wp (m ≫= f) Q s.
Proof.
  intros Hm Hs Hu Ha Hf. wp_run. eapply wp_mono; [by apply Hm|]. intros x s' [Hs' Hu']. apply Hf; [done|by etrans|].
  destruct Hu' as (_ & _ & _ & _ & _ & _ & _ & Hk & _). by eapply names_kept_length.
Qed.

Lemma calm_bind {A B} a (m : stm Service A) (f : A -> stm Service B) : calm a m -> (forall x, calm a (f x)) -> calm a (m ≫= f).
Proof.
  intros Hm Hf s es Hs Ha. eapply (wp_calm a m f s s es); [done|done|reflexivity|done|]. intros x s' Hs' Hu' Ha'.
  eapply wp_mono; [by apply Hf|]. intros y s'' [Hs'' Hu'']. split; [done|by etrans].
Qed.

Lemma calm_ret {A} a (x : A) : calm a (mret x).
Proof. intros s es Hs _. wp_run. by split. Qed.

Lemma calm_gets {A} a (f : Service -> A) : calm a (gets f).
Proof. intros s es Hs _. wp_run. by split. Qed.

Lemma calm_if {A} a (b : bool) (m n : stm Service A) : calm a m -> calm a n -> calm a (if b then m else n).
Proof. by destruct b. Qed.

(** Reads of the store. *)
Lemma calm_store {A} a (m : stm Store A) :
  (forall s es, store_ok s -> epoch_state_at s = Some es -> is_Some (block_state_at s) ->
     wp m (fun _ s' => store_ok s' /\ same_tables s s') s) -> calm a (on_store m).
Proof.
  intros Hm s es Hs Ha. apply wp_on_store. destruct (proj1 Hs) as (He & Hb & _).
  eapply wp_mono; [by apply (Hm _ es (session_store s es Hs))|]. intros x st [Hok Ht]. split; [|by split_and!].
  by apply (session_kept s); [..|destruct Hs|done|done].
Qed.

Lemma calm_next {A} a (f : nat -> A) : calm a (next f).
Proof. intros s es Hs Ha. apply wp_next. intros n. split; [|by split_and!]. destruct Hs as [Hn Hs]. by split. Qed.

(** Changes of the protocol manager that keep the peers. *)
Lemma calm_mod_pm a f : (forall m, pm_peers (f m) = pm_peers m /\ pm_config (f m) = pm_config m /\ maxPeers (f m) = maxPeers m) ->
  calm a (mod_pm f).
Proof.
  intros Hf s es [Hn Hs] Ha. unfold mod_pm. wp_run. destruct (Hf (pm s)) as (E1 & E2 & E3). split.
  - split; [exact Hn|]. cbn [pm set_pm]. by rewrite E1.
  - split_and!; try done; cbn [pm set_pm]; by rewrite E1.
Qed.

Lemma calm_tell a c : calm a (tell c).
Proof. by apply calm_mod_pm. Qed.

Lemma wp_on_peers {A} (m : stm peerSet A) (Q : A -> Service -> Prop) s :
  wp m (fun x ps => Q x (set_pm (set_pm_peers ps (pm s)) s)) (pm_peers (pm s)) -> wp (on_peers m) Q s.
Proof. unfold wp, on_peers, or_exit. by destruct (m (pm_peers (pm s))) as [[x ps]|x|x|x]. Qed.

Lemma calm_on_peers {A} a (m : stm peerSet A) :
  (forall ps, set_ok ps -> (a < length (heap ps))%nat -> wp m (fun _ ps' => set_ok ps' /\ names_kept ps ps') ps) -> calm a (on_peers m).
Proof.
  intros Hm s es [Hn Hs] Ha. apply wp_on_peers. eapply wp_mono; [by apply Hm|]. intros x ps [Hp Hk]. split; [by split|by split_and!].
Qed.

Lemma calm_peer_do {A} a (m : stm peer A) : keeps m -> calm a (peer_do a m).
Proof.
  intros Hm. apply calm_on_peers. intros ps Hs Ha. eapply wp_mono; [by apply on_peer_keeps|]. intros x ps' [H1 H2].
  split; [done|by apply same_set_names].
Qed.

Lemma calm_peer_get {A} a (f : peer -> A) : calm a (peer_get a f).
Proof.
  apply calm_bind; [|intros; apply calm_ret]. apply calm_on_peers. intros ps Hs Ha.
  destruct (lookup_lt_is_Some_2 _ _ Ha) as [p Hp]. by eapply wp_deref.
Qed.

(** A new progress of the peer. *)
Lemma calm_SetProgress a pr : calm a (peer_do a (SetProgress pr)).
Proof.
  apply calm_on_peers. intros ps Hs Ha. destruct (lookup_lt_is_Some_2 _ _ Ha) as [p Hp]. destruct Hs as [Hr Hok].
  eapply wp_on_peer; [exact Hp|]. unfold SetProgress. wp_run.
  assert (Hlk : forall b q, heap ps !! b = Some q -> exists q', <[a := set_progress pr p]> (heap ps) !! b = Some q' /\
    p_id q' = p_id q /\ term q' = term q /\ trusted q' = trusted q).
  { intros b q Hq. destruct (decide (a = b)) as [<-|Hab].
    - rewrite list_lookup_insert_eq by done. rewrite Hp in Hq. injection Hq as <-. by eexists.
    - rewrite list_lookup_insert_ne by done. by exists q. }
  split; [split|by split_and!].
  - intros name b Hb. destruct (Hr name b Hb) as (q & Hq & Hn & Ht). destruct (Hlk b q Hq) as (q' & Hq' & E1 & E2 & _).
    exists q'. split; [done|]. by rewrite E1, E2.
  - intros b q. cbn [heap set_heap]. destruct (decide (a = b)) as [<-|Hab].
    + rewrite list_lookup_insert_eq by done. intros [= <-]. destruct (Hok a p Hp) as [A B C]. by constructor.
    + rewrite list_lookup_insert_ne by done. apply Hok.
Qed.

(** *** The reads the handlers use *)

Lemma calm_HasEvent a i : calm a (on_store (HasEvent i)).
Proof. apply calm_store. intros s es Hok _ _. eapply wp_mono; [by apply HasEvent_spec|]. by intros r s' [_ ->]. Qed.

Lemma calm_GetEpoch a : calm a (on_store GetEpoch).
Proof. apply calm_store. intros s es Hok He _. eapply wp_mono; [by eapply GetEpoch_spec|]. intros r s' (_ & Hok' & c & ->). by split; [|split_and!]. Qed.

Lemma calm_GetEpochValidators a : calm a (on_store GetEpochValidators).
Proof. apply calm_store. intros s es Hok He _. eapply wp_mono; [by eapply GetEpochValidators_spec|]. intros r s' (_ & Hok' & c & ->). by split; [|split_and!]. Qed.

Lemma GetEventRLP_spec (s : Store) i : wp (GetEventRLP i) (fun r s' => r = kv_map (Events s) !! i /\ s' = s) s.
Proof. unfold GetEventRLP. wp_run. eapply or_exit_mono; [apply crit_ok, kv_get_ok|]. by intros r ->. Qed.

Lemma calm_GetPackInfoRLP a e i : calm a (on_store (GetPackInfoRLP e i)).
Proof. apply calm_store. intros s es Hok _ _. unfold GetPackInfoRLP. by wp_run. Qed.

Lemma calm_GetPack a e i : calm a (on_store (GetPack e i)).
Proof. apply calm_store. intros s es Hok _ _. eapply wp_mono; [by apply GetPack_spec|]. by intros r s' (-> & _). Qed.

Lemma calm_GetPacksNum a e : calm a (on_store (GetPacksNum e)).
Proof. apply calm_store. intros s es Hok _ _. eapply wp_mono; [by apply GetPacksNum_spec|]. by intros r s' [_ ->]. Qed.

Lemma calm_GetEventRLP a i : calm a (on_store (GetEventRLP i)).
Proof. apply calm_store. intros s es Hok _ _. eapply wp_mono; [by apply GetEventRLP_spec|]. by intros r s' [_ ->]. Qed.

(** ** Decoding events from a peer *)

(** Bytes of any kind are refused or give an event; nothing panics. *)
Lemma decode_event_safe raw : is_bytes raw -> zlen raw < 2 ^ 59 -> (exists e, decode_event raw = Ret e) \/ exists x, decode_event raw = Err x.
Proof.
  intros Hb Hl. unfold decode_event, DecodeRLP, MutableDecodeRLP. pose proof (rlp_bytes_safe raw Hb) as Hr.
  destruct (rlp_bytes raw) as [[s rest]|x|x|x]; [|by right; eexists|done|done]. destruct s as [raw' sp], Hr as [Hby Hcap].
  unfold slice_cap in Hcap. cbn [vis spare] in *. rewrite zlen_app in Hcap.
  assert (Hc : slice_cap (Slice raw' sp) < 2 ^ 60) by (unfold slice_cap; cbn [vis spare]; rewrite zlen_app; lia).
  destruct (unmarshal_parse (Slice raw' sp)) as [p|x|x|x] eqn:Ep.
  - rewrite (UnmarshalBinary_accept MutableEvent_zero raw' sp p Hc Hby Ep). cbn [mbind go_bind].
    destruct (unmarshal_parse_wf raw' sp p Hc Hby Ep) as (_ & _ & _ & _ & Hlen).
    assert (HB : exists e, Build (decoded MutableEvent_zero (event_of p) raw') = Ret e).
    { unfold Build. eexists.
      change (_hashToSign (mext (decoded _ _ _))) with (Some (Sha256.sum256 (take (length raw' - 64) raw'))).
      cbn [mbind go_bind]. rewrite (bool_decide_true (is_Some _)) by (by eexists). rewrite andb_true_r.
      change (_size (mext (SetID _ _))) with (zlen raw'). rewrite (proj2 (Z.eqb_neq (zlen raw') 0)) by lia. reflexivity. }
    destruct HB as [e ->]. cbn [mbind go_bind]. case_bool_decide; [left|right]; by eexists.
  - unfold UnmarshalBinary. rewrite Ep. right. by eexists.
  - unfold UnmarshalBinary. rewrite Ep. right. by eexists.
  - exfalso. by apply (unmarshal_parse_no_exit (Slice raw' sp) x).
Qed.

(** Received bytes with a canonical header give an event that can be stored. *)
Lemma decoded_storable raw bytes rest e : is_bytes raw -> zlen raw < 2 ^ 59 -> rlp_bytes raw = Ret (bytes, rest) ->
  canonical_header (vis bytes) -> decode_event raw = Ret e -> storable e.
Proof.
  intros Hb Hl Er Hcan E. pose proof (rlp_bytes_safe raw Hb) as Hr. rewrite Er in Hr. destruct bytes as [raw' sp], Hr as [Hby Hcap].
  unfold slice_cap in Hcap. cbn [vis spare] in *. rewrite zlen_app in Hcap.
  assert (Hc : slice_cap (Slice raw' sp) < 2 ^ 60) by (unfold slice_cap; cbn [vis spare]; rewrite zlen_app; lia).
  unfold decode_event, DecodeRLP, MutableDecodeRLP in E. rewrite Er in E. destruct (UnmarshalBinary _ _) as [m r] eqn:Em.
  apply bind_Ret_inv in E as ([e' rest'] & E & E'). case_bool_decide; [|done]. injection E' as <-.
  apply bind_Ret_inv in E as (rest2 & E2 & E). apply bind_Ret_inv in E2 as ([] & -> & _).
  apply UnmarshalBinary_inv in Em as (p & Ep & ->); [|done..]. apply bind_Ret_inv in E as (e2 & E & [= -> _]).
  destruct (unmarshal_parse_wf raw' sp p Hc Hby Ep) as (Hv & Hok & Hpe & _ & Hlen).
  destruct (unmarshal_parse_canonical raw' sp p Hc Hby Hcan Ep) as [Hsz Em]. assert (Hl64 : 64 <= zlen raw') by lia. pose proof (eventHashToSign_long raw' Hl64) as Eh.
  set (m := decoded MutableEvent_zero (event_of p) raw') in *.
  assert (Em' : MarshalBinary (immutable m) = Ret raw') by (rewrite <- Em; apply MarshalBinary_same, decoded_same).
  rewrite (Build_spec m raw' _ Em' Eh) in E by (right; eexists raw', _; split_and!; [done..|right; done]). injection E as <-.
  constructor; [destruct Hok; by constructor|exact Hsz|exact Hpe|exact Hv|by apply built_coherent].
Qed.

Lemma decode_events_safe l : Forall (fun r => is_bytes r /\ zlen r < 2 ^ 59) l ->
  (exists ee, decode_events l = Ret ee) \/ exists x, decode_events l = Err x.
Proof.
  induction 1 as [|r l [Hb Hl] _ IH]; cbn [decode_events]; [left; by eexists|].
  destruct (decode_event_safe r Hb Hl) as [[e ->]|[x ->]]; cbn [mbind go_bind]; [|right; by eexists].
  destruct IH as [[ee ->]|[x ->]]; cbn [mbind go_bind]; [left|right]; by eexists.
Qed.

(** ** The verdict on a message *)

(** The number of items a message carries, if it can be decoded; progress
    reports and requests of one pack count as one. *)
Definition items (msg : Msg) : option Z :=
  let c := Code msg in
  let b := Payload_ msg in
  if c =? ProgressMsg then (fun _ => 1) <$> (dec b : option PeerProgress)
  else if c =? NewEventHashesMsg then zlen <$> (dec b : option (list (list Z)))
  else if c =? EventsMsg then match decode_events_msg b with Ret ee => Some (zlen ee) | _ => None end
  else if c =? GetEventsMsg then zlen <$> (dec b : option (list (list Z)))
  else if c =? GetPackInfosMsg then (fun d => zlen (Indexes d)) <$> (dec b : option getPackInfosData)
  else if c =? GetPackMsg then (fun _ => 1) <$> (dec b : option getPackData)
  else if c =? PackInfosMsg then (fun d => zlen (Infos d)) <$> (dec b : option packInfosData)
  else if c =? PackMsg then (fun d => zlen (pd_IDs d)) <$> (dec b : option packData)
  else None.

(** A report of packs one of which has no heads. *)
Definition headless (msg : Msg) : Prop :=
  Code msg = PackInfosMsg /\ exists d : packInfosData, dec (Payload_ msg) = Some d /\ Exists (fun i => Heads i = []) (Infos d).

Definition codes : list Z :=
  [ProgressMsg; NewEventHashesMsg; EventsMsg; GetEventsMsg; GetPackInfosMsg; GetPackMsg; PackInfosMsg; PackMsg].

(** Why a message ends the connection. *)
Inductive refused : error + Msg -> error -> Prop :=
| refused_read e : refused (inl e) e
| refused_size msg : msg_Size msg > protocolMaxMsgSize -> refused (inr msg) (errResp ErrMsgTooLarge)
| refused_status msg : Code msg = StatusMsg -> refused (inr msg) (errResp ErrExtraStatusMsg)
| refused_code msg : Code msg <> StatusMsg -> Code msg ∉ codes -> refused (inr msg) (errResp ErrInvalidMsgCode)
| refused_decode msg : Code msg ∈ codes -> items msg = None -> refused (inr msg) (errResp ErrDecode)
| refused_empty msg n : Code msg ∈ codes -> items msg = Some n -> n <= 0 -> refused (inr msg) (errResp ErrEmptyMessage)
| refused_many msg n : Code msg ∈ codes -> items msg = Some n -> n > hardLimitItems -> refused (inr msg) (errResp ErrMsgTooLarge)
| refused_headless msg : headless msg -> refused (inr msg) (errResp ErrEmptyMessage).

(** Code that disturbs nothing and whose verdict satisfies [P]. *)
Definition answers (a : nat) (m : stm Service (option error)) (P : option error -> Prop) : Prop := forall s es,
  session_ok s es -> (a < length (heap (pm_peers (pm s))))%nat ->
  wp m (fun r s' => (session_ok s' es /\ undisturbed s s') /\ P r) s.

Lemma answers_bind {A} a (m : stm Service A) f P : calm a m -> (forall x, answers a (f x) P) -> answers a (m ≫= f) P.
Proof.
  intros Hm Hf s es Hs Ha. eapply (wp_calm a m f s s es); [done|done|reflexivity|done|]. intros x s' Hs' Hu' Ha'.
  eapply wp_mono; [by apply Hf|]. intros y s'' [[Hs'' Hu''] HP]. split; [split; [done|by etrans]|done].
Qed.

Lemma answers_ret a r (P : option error -> Prop) : P r -> answers a (mret r) P.
Proof. intros HP s es Hs _. wp_run. done. Qed.

Lemma answers_then {A} a (m : stm Service A) r (P : option error -> Prop) : calm a m -> P r -> answers a (_ ← m; mret r) P.
Proof. intros Hm HP. apply answers_bind; [done|]. intros _. by apply answers_ret. Qed.

Lemma answers_mono a m (P Q : option error -> Prop) : answers a m P -> (forall r, P r -> Q r) -> answers a m Q.
Proof. intros Hm HPQ s es Hs Ha. eapply wp_mono; [by apply Hm|]. intros r s' [Hk HP]. split; [done|by apply HPQ]. Qed.

Lemma answers_limited a n k (P : option error -> Prop) :
  (0 < n <= hardLimitItems -> answers a k P) -> (n <= 0 -> P (Some (errResp ErrEmptyMessage))) ->
  (n > hardLimitItems -> P (Some (errResp ErrMsgTooLarge))) -> answers a (limited n k) P.
Proof.
  intros H1 H2 H3. unfold limited, checkLenLimits. rewrite Z.gtb_ltb.
  destruct (Z.leb_spec n 0); [apply answers_ret, H2; lia|]. destruct (Z.ltb_spec hardLimitItems n); [apply answers_ret, H3; lia|apply H1; lia].
Qed.

(** What a message with [n] items is answered. *)
Definition verdict (n : Z) (r : option error) : Prop :=
  match r with
  | None => 0 < n <= hardLimitItems
  | Some e => (n <= 0 /\ e = errResp ErrEmptyMessage) \/ (n > hardLimitItems /\ e = errResp ErrMsgTooLarge)
  end.

Lemma limited_verdict a n k : (0 < n <= hardLimitItems -> answers a k (eq None)) -> answers a (limited n k) (verdict n).
Proof.
  intros Hk. apply answers_limited; [|by left|by right]. intros Hn. eapply answers_mono; [by apply Hk|]. by intros r <-.
Qed.

Lemma handleProgress_answers a name ep pr : answers a (handleProgress a name ep pr) (eq None).
Proof.
  unfold handleProgress. apply answers_bind; [apply calm_SetProgress|intros _].
  apply answers_bind; [apply calm_if; [by apply calm_mod_pm|apply calm_ret]|intros _].
  apply answers_bind; [apply calm_tell|intros _]. apply answers_bind; [apply calm_next|intros f].
  apply answers_then; [|done]. apply calm_if; [apply calm_tell|apply calm_ret].
Qed.

Lemma handleNewEventHashes_answers a name l : answers a (handleNewEventHashes a name l) (verdict (zlen l)).
Proof.
  apply limited_verdict. intros _. apply answers_bind; [apply calm_peer_do, MarkEvents_keeps|intros _].
  by apply answers_then; [apply calm_tell|].
Qed.

Lemma foreach_fmap {S A B} (f : B -> stm S unit) (g : A -> B) l s : foreach (fun x => f (g x)) l s = foreach f (g <$> l) s.
Proof.
  revert s. induction l as [|x l IH]; intros s; [done|]. cbn [foreach fmap list_fmap]. unfold mbind, stm_bind.
  destruct (f (g x) s) as [[[] s']|e|e|e]; [apply IH|done..].
Qed.

Lemma handleEvents_answers a name ee : answers a (handleEvents a name ee) (verdict (zlen ee)).
Proof.
  apply limited_verdict. intros _. apply answers_bind.
  - apply calm_peer_do. intros p Hp. pose proof (MarkEvents_keeps ((fun e => id (base e)) <$> ee) p Hp) as Hk.
    revert Hk. unfold wp. by rewrite <- (foreach_fmap MarkEvent (fun e => id (base e))).
  - intros _. by apply answers_then; [apply calm_tell|].
Qed.

Lemma collect_events_calm a l raws ids size : calm a (collect_events l raws ids size).
Proof.
  revert raws ids size. induction l as [|i l IH]; intros raws ids size; cbn [collect_events]; [apply calm_ret|].
  apply calm_bind; [apply calm_GetEventRLP|]. intros [r|]; cbv beta iota; (apply calm_if; [apply calm_ret|apply IH]).
Qed.

Lemma handleGetEvents_answers a l : answers a (handleGetEvents a l) (verdict (zlen l)).
Proof.
  apply limited_verdict. intros _. apply answers_bind; [apply collect_events_calm|]. intros [raws ids].
  apply answers_then; [|done]. apply calm_if; [|apply calm_ret].
  apply calm_bind; [apply calm_peer_do, SendEventsRLP_keeps|intros _; apply calm_ret].
Qed.

Lemma collect_packInfos_calm a ep num l raws size : calm a (collect_packInfos ep num l raws size).
Proof.
  revert raws size. induction l as [|i l IH]; intros raws size; cbn [collect_packInfos]; [apply calm_ret|].
  apply calm_if; [apply IH|]. apply calm_bind; [apply calm_GetPackInfoRLP|]. intros [r|]; cbv beta iota; (apply calm_if; [apply calm_ret|apply IH]).
Qed.

Lemma handleGetPackInfos_answers a d : answers a (handleGetPackInfos a d) (verdict (zlen (Indexes d))).
Proof.
  apply limited_verdict. intros _. apply answers_bind; [apply calm_GetPacksNum|]. intros [num|]; [|by apply answers_ret].
  apply answers_bind; [apply collect_packInfos_calm|]. intros raws. apply answers_then; [|done]. apply calm_if; [|apply calm_ret].
  apply calm_bind; [apply calm_peer_do, Send_keeps|intros _; apply calm_ret].
Qed.

Lemma handleGetPack_answers a ep d : answers a (handleGetPack a ep d) (eq None).
Proof.
  unfold handleGetPack. destruct (_ >? _); [by apply answers_ret|]. apply answers_bind; [apply calm_GetPack|]. intros pack.
  apply answers_then; [|done]. apply calm_if; [|apply calm_ret].
  apply calm_bind; [apply calm_peer_do, Send_keeps|intros _; apply calm_ret].
Qed.

Lemma notify_infos_answers a name ep infos :
  answers a (notify_infos a name ep infos) (fun r => match r with None => True
    | Some e => e = errResp ErrEmptyMessage /\ Exists (fun i => Heads i = []) infos end).
Proof.
  induction infos as [|i infos IH]; cbn [notify_infos]; [by apply answers_ret|].
  destruct (Z.eqb_spec (zlen (Heads i)) 0) as [Hz|Hz].
  - apply answers_ret. split; [done|]. left. by destruct (Heads i).
  - apply answers_bind; [apply calm_peer_do, MarkEvents_keeps|intros _]. apply answers_bind; [apply calm_tell|intros _].
    eapply answers_mono; [apply IH|]. intros [e|]; [|done]. intros [-> Hx]. split; [done|by right].
Qed.

Lemma handlePackInfos_answers a name d :
  answers a (handlePackInfos a name d) (fun r => verdict (zlen (Infos d)) r \/
    (r = Some (errResp ErrEmptyMessage) /\ Exists (fun i => Heads i = []) (Infos d))).
Proof.
  apply answers_limited; [|by left; left|by left; right]. intros Hn. apply answers_bind; [apply calm_tell|intros _].
  eapply answers_mono; [apply notify_infos_answers|]. intros [e|]; [intros [-> Hx]; by right|by left].
Qed.

Lemma handlePack_answers a name d : answers a (handlePack a name d) (verdict (zlen (pd_IDs d))).
Proof.
  apply limited_verdict. intros Hn. rewrite (proj2 (Z.eqb_neq _ _)) by lia.
  apply answers_bind; [apply calm_peer_do, MarkEvents_keeps|intros _]. by apply answers_then; [apply calm_tell|].
Qed.

(** Messages that are dropped unread when the node cannot use them. *)
Definition ignorable : list Z := [NewEventHashesMsg; EventsMsg; PackInfosMsg; PackMsg].

Definition judged (msg : Msg) (r : option error) : Prop :=
  match r with
  | Some e => refused (inr msg) e
  | None => Code msg ∈ ignorable \/ (Code msg ∈ codes /\ exists n, items msg = Some n /\ 0 < n <= hardLimitItems)
  end.

Lemma verdict_judged msg n r : Code msg ∈ codes -> items msg = Some n -> verdict n r -> judged msg r.
Proof.
  intros Hc Hi. destruct r as [e|]; cbn [verdict judged].
  - intros [[Hn ->]|[Hn ->]]; [by eapply refused_empty|by eapply refused_many].
  - intros Hn. right. split; [done|]. by exists n.
Qed.

Lemma one_judged msg : Code msg ∈ codes -> items msg = Some 1 -> judged msg None.
Proof. intros Hc Hi. by apply (verdict_judged msg 1). Qed.

(** The payload is the bytes the transport delivered. *)
Definition sane (incoming : error + Msg) : Prop :=
  match incoming with inl _ => True | inr m => is_bytes (Payload_ m) /\ zlen (Payload_ m) <= msg_Size m end.

Lemma decode_events_msg_safe b : is_bytes b -> zlen b < 2 ^ 59 ->
  (exists ee, decode_events_msg b = Ret ee) \/ exists x, decode_events_msg b = Err x.
Proof.
  intros Hb Hl. unfold decode_events_msg. destruct (raw_list b) as [l|] eqn:E; [|right; by eexists].
  apply decode_events_safe. eapply Forall_impl; [by eapply raw_list_bytes|]. intros r [? ?]. split; [done|lia].
Qed.

(** A decoded message goes to its handler, any other is refused. *)
Lemma answers_decoding {A} `{Codec A} a msg (k : A -> stm Service (option error)) :
  Code msg ∈ codes -> (dec (Payload_ msg) = None -> items msg = None) ->
  (forall x, dec (Payload_ msg) = Some x -> answers a (k x) (judged msg)) -> answers a (decoding msg k) (judged msg).
Proof.
  intros Hc Hn Hk. unfold decoding. destruct (dec (Payload_ msg)) as [x|] eqn:E; [by apply Hk|].
  apply answers_ret. apply refused_decode; [done|by apply Hn].
Qed.

(** Evaluate [items] at a known code. *)
Ltac items_at Hc := unfold items; rewrite Hc; cbv zeta;
  repeat (match goal with |- context [?x =? ?y] => let b := eval vm_compute in (x =? y) in change (x =? y) with b end; cbv iota).

Lemma code_in msg c : Code msg = c -> c ∈ codes -> Code msg ∈ codes.
Proof. by intros ->. Qed.

(** The code is in a list of codes. *)
Ltac in_table Hc := rewrite Hc; apply (bool_decide_unpack _); exact I.

(** A message of a known code that is decoded and handled. *)
Ltac decoded_by Hc lem :=
  apply answers_decoding; [in_table Hc|items_at Hc; by intros ->|];
  let d := fresh "d" in let Hd := fresh "Hd" in let r := fresh "r" in
  intros d Hd; eapply answers_mono; [apply lem|]; intros r;
  first [ apply verdict_judged; [in_table Hc|items_at Hc; by rewrite Hd]
        | intros <-; apply one_judged; [in_table Hc|items_at Hc; by rewrite Hd]
        | idtac ].

Lemma events_judged a name msg : Code msg = EventsMsg -> is_bytes (Payload_ msg) -> zlen (Payload_ msg) < 2 ^ 59 ->
  answers a (match decode_events_msg (Payload_ msg) with
             | Ret events => handleEvents a name events
             | Err _ => mret (Some (errResp ErrDecode))
             | Panics p => lift (Panics p)
             | Exits x => lift (Exits x)
             end) (judged msg).
Proof.
  intros Hc Hb Hl. destruct (decode_events_msg_safe _ Hb Hl) as [[ee Ed]|[x Ed]]; rewrite Ed.
  - eapply answers_mono; [apply handleEvents_answers|]. intros r. apply verdict_judged; [in_table Hc|]. items_at Hc. by rewrite Ed.
  - apply answers_ret, refused_decode; [in_table Hc|]. items_at Hc. by rewrite Ed.
Qed.

Lemma dispatch_answers a msg : is_bytes (Payload_ msg) -> zlen (Payload_ msg) < 2 ^ 59 -> answers a (dispatch a msg) (judged msg).
Proof.
  intros Hb Hl. unfold dispatch. apply answers_bind; [apply calm_GetEpoch|intros ep]. apply answers_bind; [apply calm_peer_get|intros name].
  apply answers_bind; [apply calm_next|intros f]. cbv zeta.
  destruct (Z.eqb_spec (Code msg) StatusMsg) as [H0|H0]; [by apply answers_ret, refused_status|].
  destruct (Z.eqb_spec (Code msg) ProgressMsg) as [Hc|H1]; [decoded_by Hc handleProgress_answers|].
  destruct (Z.eqb_spec (Code msg) NewEventHashesMsg) as [Hc|H2].
  { apply answers_bind; [apply calm_next|]. intros []; [apply answers_ret; left; in_table Hc|].
    apply answers_bind; [apply calm_gets|]. intros []; [|apply answers_ret; left; in_table Hc]. decoded_by Hc handleNewEventHashes_answers. }
  destruct (Z.eqb_spec (Code msg) EventsMsg) as [Hc|H3].
  { apply answers_bind; [apply calm_next|]. intros []; [apply answers_ret; left; in_table Hc|]. by apply events_judged. }
  destruct (Z.eqb_spec (Code msg) GetEventsMsg) as [Hc|H4]; [decoded_by Hc handleGetEvents_answers|].
  destruct (Z.eqb_spec (Code msg) GetPackInfosMsg) as [Hc|H5]; [decoded_by Hc handleGetPackInfos_answers|].
  destruct (Z.eqb_spec (Code msg) GetPackMsg) as [Hc|H6]; [decoded_by Hc handleGetPack_answers|].
  destruct (Z.eqb_spec (Code msg) PackInfosMsg) as [Hc|H7].
  { destruct (negb (f name)); [apply answers_ret; left; in_table Hc|]. decoded_by Hc handlePackInfos_answers.
    intros [Hv|[-> Hx]]; [|by apply refused_headless; split; [|exists d]].
    revert Hv. apply verdict_judged; [in_table Hc|items_at Hc; by rewrite Hd]. }
  destruct (Z.eqb_spec (Code msg) PackMsg) as [Hc|H8].
  { destruct (negb (f name)); [apply answers_ret; left; in_table Hc|]. decoded_by Hc handlePack_answers. }
  apply answers_ret, refused_code; [done|]. unfold codes. rewrite !not_elem_of_cons. split_and!; try done. apply not_elem_of_nil.
Qed.

Lemma handleMsg_answers a incoming : sane incoming ->
  answers a (handleMsg a incoming) (fun r =>
    (forall e, r = Some e -> refused incoming e) /\
    (r = None -> (exists e, refused incoming e) -> exists msg, incoming = inr msg /\ Code msg ∈ ignorable)).
Proof.
  intros Hs. destruct incoming as [x|msg]; cbn [handleMsg].
  { apply answers_ret. split; [|done]. intros e [= <-]. constructor. }
  destruct Hs as [Hb Hl]. rewrite Z.gtb_ltb. destruct (Z.ltb_spec protocolMaxMsgSize (msg_Size msg)) as [Hz|Hz].
  { apply answers_ret. split; [|done]. intros e [= <-]. constructor. lia. }
  eapply answers_mono; [apply dispatch_answers; [done|unfold protocolMaxMsgSize in Hz; lia]|]. intros [e|] Hj; cbn [judged] in Hj.
  - split; [|done]. by intros e' [= <-].
  - split; [done|]. intros _ [e He]. exists msg. split; [done|]. destruct Hj as [?|[Hin (n & Hi & Hn)]]; [done|].
    inversion He as [|? Hx|? Hx|? Hx Hy|? Hx Hy|? m Hx Hy Hm|? m Hx Hy Hm|? Hx]; subst; try lia; try congruence.
    + rewrite Hx in Hin. apply (bool_decide_pack (StatusMsg ∈ codes)) in Hin. by vm_compute in Hin.
    + rewrite Hi in Hy. injection Hy as <-. lia.
    + rewrite Hi in Hy. injection Hy as <-. lia.
    + destruct Hx as [-> _]. apply (bool_decide_unpack _). exact I.
Qed.


(** ** Requests of events *)

Lemma set_store_id (s : Service) : set_store (svc_store s) s = s.
Proof. by destruct s. Qed.

Definition raw_at (s : Service) (i : list Z) : option (list Z) := kv_map (Events (svc_store s)) !! i.

Lemma collect_events_spec s l raws ids size :
  wp (collect_events l raws ids size) (fun r s' => s' = s /\ exists n sraws sids,
    r = (raws ++ sraws, ids ++ sids) /\ (n <= length l)%nat /\ omap (raw_at s) (take n l) = sraws /\
    (n = length l \/ softResponseLimitSize <= size + zsum zlen sraws)) s.
Proof.
  revert raws ids size. induction l as [|i l IH]; intros raws ids size; cbn [collect_events]; wp_run.
  { split; [done|]. exists 0%nat, [], []. rewrite !app_nil_r. split_and!; try done. by left. }
  apply wp_on_store. eapply wp_mono; [apply GetEventRLP_spec|]. intros raw st [-> ->]. rewrite set_store_id. fold (raw_at s i).
  destruct (raw_at s i) as [b|] eqn:Eb; cbv beta iota; rewrite Z.geb_leb.
  - apply wp_if; intros Hz.
    + apply Z.leb_le in Hz. wp_run. split; [done|]. exists 1%nat, [b], [i]. cbn [take omap list_omap length]. rewrite Eb.
      split_and!; [done|lia|done|]. right. rewrite zsum_cons. change (zsum zlen []) with 0. lia.
    + eapply wp_mono; [apply IH|]. intros r s' (-> & n & sr & si & -> & Hn & Hr & Hd). split; [done|].
      exists (S n), (b :: sr), (i :: si). rewrite <- !app_assoc. cbn [take omap list_omap length]. rewrite Eb. split_and!; [done|lia|by rewrite <- Hr|].
      rewrite zsum_cons. destruct Hd as [->|Hd]; [by left|right; lia].
  - apply wp_if; intros Hz.
    + apply Z.leb_le in Hz. wp_run. split; [done|]. exists 1%nat, [], []. rewrite !app_nil_r. cbn [take omap list_omap length]. rewrite Eb.
      split_and!; [done|lia|done|]. right. change (zsum zlen []) with 0. lia.
    + eapply wp_mono; [apply IH|]. intros r s' (-> & n & sr & si & -> & Hn & Hr & Hd). split; [done|].
      exists (S n), sr, si. cbn [take omap list_omap length]. rewrite Eb. split_and!; [done|lia|done|].
      destruct Hd as [->|Hd]; [by left|by right].
Qed.

(** The stored bytes of events decode to these events. *)
Lemma decode_stored s l : store_ok (svc_store s) ->
  decode_events (omap (raw_at s) l) = Ret (omap (event_at (svc_store s)) l).
Proof.
  intros Hok. induction l as [|i l IH]; [done|]. cbn [omap list_omap]. unfold event_at at 1, raw_at at 1.
  destruct (kv_map (Events (svc_store s)) !! i) as [b|] eqn:Eb; cbn [mbind option_bind]; [|exact IH].
  destruct (ok_events _ Hok i b Eb) as [e He]. rewrite He. cbn [decode_events]. rewrite He. cbn [mbind go_bind]. by rewrite IH.
Qed.

Lemma SendEventsRLP_sent raws ids p : peer_ok p ->
  wp (SendEventsRLP raws ids) (fun _ p' => sent p' = sent p ++ [MEventsRLP raws]) p.
Proof.
  intros Hp. unfold SendEventsRLP. wp_run. eapply wp_mono; [apply (mark_and_trim (fun i => i)), Hp|]. intros [] q (k & [n ->] & _).
  unfold Send. by wp_run.
Qed.

Lemma session_peer s es a p : session_ok s es -> heap (pm_peers (pm s)) !! a = Some p -> peer_ok p.
Proof. intros [_ [_ Hp]] Ha. by eapply Hp. Qed.

Lemma events_served_spec (s : Service) (es : EpochState V) (a : nat) (p : peer) (msg : Msg) (requests : list (list Z)) :
  session_ok s es -> heap (pm_peers (pm s)) !! a = Some p -> Code msg = GetEventsMsg -> msg_Size msg <= protocolMaxMsgSize ->
  dec (Payload_ msg) = Some requests -> 0 < zlen requests <= hardLimitItems ->
  wp (handleMsg a (inr msg)) (fun r s' => r = None /\ exists n raws p',
    let known := omap (event_at (svc_store s)) (take n requests) in
    (n <= length requests)%nat /\ decode_events raws = Ret known /\
    (n = length requests \/ softResponseLimitSize <= zsum zlen raws) /\
    heap (pm_peers (pm s')) !! a = Some p' /\ sent p' = sent p ++ (if raws is [] then [] else [MEventsRLP raws])) s.
Proof.
  intros Hs Ha Hc Hz Hd Hn. cbn [handleMsg]. rewrite Z.gtb_ltb, (proj2 (Z.ltb_ge _ _)) by lia. unfold dispatch. wp_run. apply wp_on_store.
  eapply wp_mono; [apply (GetEpoch_spec _ _ (session_store s es Hs) (session_epoch s es Hs))|]. intros ep st (-> & Hok & c & ->). wp_run.
  unfold peer_get. wp_run. apply wp_on_peers. eapply wp_deref; [exact Ha|]. wp_run. apply wp_next. intros t. cbv zeta.
  rewrite Hc. repeat (match goal with |- context [?x =? ?y] => let b := eval vm_compute in (x =? y) in change (x =? y) with b end; cbv iota).
  unfold decoding. rewrite Hd. unfold handleGetEvents, limited, checkLenLimits.
  rewrite (proj2 (Z.leb_gt _ _)), Z.gtb_ltb, (proj2 (Z.ltb_ge _ _)) by lia. wp_run.
  match goal with |- wp _ _ ?s1 => set (s1' := s1) end.
  eapply wp_mono; [apply collect_events_spec|]. intros r s2 (-> & n & raws & ids & -> & Hle & Hr & Hlim). cbn [app] in *. cbv beta iota. wp_run.
  assert (Hdec : decode_events raws = Ret (omap (event_at (svc_store s)) (take n requests))).
  { rewrite <- Hr. exact (decode_stored s (take n requests) (session_store s es Hs)). }
  destruct raws as [|b raws]; cbn [zlen length].
  - wp_run. split; [done|]. exists n, [], p. rewrite app_nil_r. by split_and!.
  - rewrite zlen_cons, (proj2 (Z.eqb_neq _ _)) by (pose proof (zlen_nonneg raws); lia). cbn [negb]. wp_run.
    apply wp_on_peers. eapply wp_on_peer; [exact Ha|]. eapply wp_mono; [apply SendEventsRLP_sent; by eapply session_peer|].
    intros err p' Hp'. wp_run. split; [done|]. exists n, (b :: raws), p'. split_and!; try done.
    cbn [pm set_pm set_pm_peers pm_peers heap set_heap]. apply list_lookup_insert_eq. by eapply lookup_lt_Some.
Qed.

(** C19: requested events are delivered as stored.  A well-formed request is
    answered with the stored encodings of the requested events, in order; the
    requester decodes them to exactly these events.  All known ones are sent
    unless the soft limit of 2 MiB is reached, and no answer is sent when none
    is known. *)
Theorem events_served (s : Service) (es : EpochState V) (a : nat) (p : peer) (msg : Msg) (requests : list (list Z)) :
  session_ok s es -> heap (pm_peers (pm s)) !! a = Some p -> Code msg = GetEventsMsg -> msg_Size msg <= protocolMaxMsgSize ->
  dec (Payload_ msg) = Some requests -> 0 < zlen requests <= hardLimitItems ->
  wp (handleMsg a (inr msg)) (fun r s' => r = None /\ exists n raws p',
    let known := omap (event_at (svc_store s)) (take n requests) in
    (n <= length requests)%nat /\ decode_events raws = Ret known /\
    (n = length requests \/ softResponseLimitSize <= zsum zlen raws) /\
    heap (pm_peers (pm s')) !! a = Some p' /\ sent p' = sent p ++ (if raws is [] then [] else [MEventsRLP raws])) s.
Proof. apply events_served_spec. Qed.

(** ** Broadcasts *)

(** The number of full recipients is a number of peers: the slices of
    [BroadcastEvent] are in range. *)
Lemma aggressiveness_range cfg size passed n : 0 <= n -> 0 <= decideBroadcastAggressiveness cfg size passed n <= n.
Proof.
  intros Hn. unfold decideBroadcastAggressiveness. cbv zeta. rewrite Z.gtb_ltb.
  set (t := if negb (ThroughputImportance cfg =? 0) then _ else _). clearbody t. set (c := i64 (passed + _)). clearbody c.
  set (all := Z.quot _ 100). clearbody all. set (root := i64 (all * 20)). clearbody root.
  set (r := if t >=? _ then _ else _). assert (0 <= r); [|destruct (Z.ltb_spec n r); lia].
  unfold r. pose proof (Z.sqrt_nonneg n). repeat (case_match; try lia).
Qed.

(** A new batch waits in a queue, or is dropped when the queue is full. *)
Definition offered_event (e : Event) (p p' : peer) : Prop :=
  queuedProps p' = (if zlen (queuedProps p) <? maxQueuedProps then queuedProps p ++ [[e]] else queuedProps p) /\
  queuedAnns p' = queuedAnns p /\ sent p' = sent p.

Definition offered_hash (e : Event) (p p' : peer) : Prop :=
  queuedAnns p' = (if zlen (queuedAnns p) <? maxQueuedAnns then queuedAnns p ++ [[id (base e)]] else queuedAnns p) /\
  queuedProps p' = queuedProps p /\ sent p' = sent p.

Lemma AsyncSendEvents_offers e p : peer_ok p ->
  wp (AsyncSendEvents [e]) (fun _ p' => (peer_ok p' /\ same_peer p p') /\ offered_event e p p') p.
Proof.
  intros Hp. apply wp_and; [by apply AsyncSendEvents_keeps|]. unfold AsyncSendEvents, offered_event. wp_run. apply wp_if; intros Hq; rewrite Hq; [|by wp_run].
  wp_step. wp_step. eapply wp_mono; [apply (mark_then_trim (fun e => id (base e)))|]. by intros [] q (k & [n ->] & _).
Qed.

Lemma AsyncSendNewEventHashes_offers e p : peer_ok p ->
  wp (AsyncSendNewEventHashes [id (base e)]) (fun _ p' => (peer_ok p' /\ same_peer p p') /\ offered_hash e p p') p.
Proof.
  intros Hp. apply wp_and; [by apply AsyncSendNewEventHashes_keeps|]. unfold AsyncSendNewEventHashes, offered_hash. wp_run. apply wp_if; intros Hq; rewrite Hq; [|by wp_run].
  wp_step. wp_step. eapply wp_mono; [apply (mark_then_trim (fun x => x))|]. by intros [] q (k & [n ->] & _).
Qed.

(** A method applied to distinct peers. *)
Lemma foreach_peers (m : stm peer unit) (P : peer -> peer -> Prop) l ps :
  (forall p, peer_ok p -> wp m (fun _ p' => (peer_ok p' /\ same_peer p p') /\ P p p') p) ->
  set_ok ps -> NoDup l -> Forall (fun a => (a < length (heap ps))%nat) l ->
  wp (foreach (fun a => on_peer a m) l) (fun _ ps' => set_ok ps' /\ same_set ps ps' /\
    forall a p, heap ps !! a = Some p -> exists p', heap ps' !! a = Some p' /\ if decide (a ∈ l) then P p p' else p' = p) ps.
Proof.
  intros Hm Hs Hd Hl. revert ps Hs Hl. induction Hd as [|a l Hnin Hd IH]; intros ps Hs Hl; cbn [foreach]; wp_run.
  { split_and!; try apply Hs; try done. intros a p Hp. exists p. by rewrite decide_False by (by apply not_elem_of_nil). }
  apply Forall_cons in Hl as [Ha Hl]. destruct (lookup_lt_is_Some_2 _ _ Ha) as [p Hp].
  assert (H1 : wp (on_peer a m) (fun _ ps1 => set_ok ps1 /\ same_set ps ps1) ps).
  { apply on_peer_keeps; [done..|]. intros q Hq. eapply wp_mono; [by apply Hm|]. by intros [] q' [? _]. }
  assert (H2 : wp (on_peer a m) (fun _ ps1 => exists p', heap ps1 = <[a := p']> (heap ps) /\ P p p') ps).
  { eapply wp_on_peer; [exact Hp|]. eapply wp_mono; [apply Hm; by eapply ok_peers|]. intros [] p' [_ HP]. by exists p'. }
  eapply wp_mono; [apply (wp_and _ _ _ _ H1 H2)|]. intros [] ps1 [[Hs1 Hk1] (p' & Hh & HP)]. cbv beta in *.
  eapply wp_mono; [apply IH; [done|by rewrite Hh, length_insert]|]. intros [] ps2 (Hs2 & Hk2 & Hq2).
  split; [done|]. split; [by etrans|]. intros b q Hq. destruct (decide (a = b)) as [<-|Hab].
  - destruct (Hq2 a p') as (p2 & Hp2 & E2); [by rewrite Hh, list_lookup_insert_eq|]. exists p2. split; [done|].
    rewrite decide_False in E2 by done. rewrite decide_True by left. rewrite Hp in Hq. injection Hq as <-. by subst p2.
  - destruct (Hq2 b q) as (q2 & Hq2' & E2); [by rewrite Hh, list_lookup_insert_ne|]. exists q2. split; [done|].
    revert E2. destruct (decide (b ∈ l)) as [Hb|Hb]; [by rewrite decide_True by (by right)|].
    by rewrite decide_False by (by intros [?|?]%elem_of_cons).
Qed.

(** The visits of the map of peers give distinct pointers. *)
Lemma range_peers_nodup ps ord : set_ok ps -> NoDup ord -> NoDup (range_peers ord ps).
Proof.
  intros [Hr _] Hd. unfold range_peers. induction Hd as [|n l Hn Hd IH]; [constructor|]. cbn [omap list_omap].
  destruct (peers ps !! n) as [a|] eqn:Ea; [|done]. constructor; [|done]. intros (n' & Hn' & Ea')%list_elem_of_omap.
  destruct (Hr n a Ea) as (p & Hp & E1 & _), (Hr n' a Ea') as (p' & Hp' & E2 & _). rewrite Hp in Hp'. injection Hp' as <-. congruence.
Qed.

Lemma on_peers_bind {A B} (m : stm peerSet A) (f : A -> stm peerSet B) (s : Service) :
  on_peers (m ≫= f) s = (on_peers m ≫= (fun x => on_peers (f x))) s.
Proof.
  unfold on_peers, mbind, stm_bind. destruct (m (pm_peers (pm s))) as [[x ps]|x|x|x]; [|done..].
  cbn [pm set_pm set_pm_peers pm_peers]. by destruct (f x ps) as [[y ps']|y|y|y].
Qed.

Lemma on_peers_foreach {A} (f : A -> stm peerSet unit) l (s : Service) :
  foreach (fun x => on_peers (f x)) l s = on_peers (foreach f l) s.
Proof.
  revert s. induction l as [|x l IH]; intros s; cbn [foreach].
  - unfold on_peers, mret, stm_ret. destruct s as [? ? ? ? ? ? ? ? [] ?]. reflexivity.
  - rewrite on_peers_bind. unfold mbind, stm_bind. by destruct (on_peers (f x) s) as [[[] s']|y|y|y].
Qed.

Lemma broadcast_to (s : Service) es l (m : stm peer unit) (P : peer -> peer -> Prop) :
  (forall p, peer_ok p -> wp m (fun _ p' => (peer_ok p' /\ same_peer p p') /\ P p p') p) ->
  session_ok s es -> NoDup l -> Forall (fun a => (a < length (heap (pm_peers (pm s))))%nat) l ->
  wp (foreach (fun a => peer_do a m) l) (fun _ s' => (session_ok s' es /\ undisturbed s s') /\
    forall a p, heap (pm_peers (pm s)) !! a = Some p -> exists p', heap (pm_peers (pm s')) !! a = Some p' /\
      if decide (a ∈ l) then P p p' else p' = p) s.
Proof.
  intros Hm [Hn Hs] Hd Hl.
  assert (Hw : wp (on_peers (foreach (fun a => on_peer a m) l)) (fun _ s' => (session_ok s' es /\ undisturbed s s') /\
    forall a p, heap (pm_peers (pm s)) !! a = Some p -> exists p', heap (pm_peers (pm s')) !! a = Some p' /\
      if decide (a ∈ l) then P p p' else p' = p) s).
  { apply wp_on_peers. eapply wp_mono; [by apply (foreach_peers m P)|]. intros [] ps (H1 & H2 & H3). cbn [pm set_pm set_pm_peers pm_peers].
    split; [|done]. split; [by split|]. apply same_set_names in H2. by split_and!. }
  change (foreach (fun a => peer_do a m) l) with (foreach (fun a => on_peers (on_peer a m)) l).
  unfold wp in *. by rewrite on_peers_foreach.
Qed.

(** The peers an event is offered to, and the rest of the map untouched. *)
Lemma interested_peers (s : Service) es i :
  session_ok s es ->
  wp (ord ← next_order; on_peers (PeersWithoutEvent ord i)) (fun l s' => (session_ok s' es /\ undisturbed s s') /\
    pm s' = pm s /\ NoDup l /\ forall a, a ∈ l <-> exists name p, peers (pm_peers (pm s)) !! name = Some a /\
      heap (pm_peers (pm s)) !! a = Some p /\ InterestedIn i p = true) s.
Proof.
  intros Hs. unfold next_order. wp_run. apply wp_next. intros n. wp_run. cbn [pm set_ticks].
  set (ps := pm_peers (pm s)). pose proof (range_order_all n (peers ps)) as Ho. set (ord := range_order n (peers ps)) in *.
  pose proof (proj2 Hs) as Hset. apply wp_on_peers. unfold PeersWithoutEvent, List_. wp_run. cbn [pm set_ticks]. fold ps.
  assert (Hd : NoDup (range_peers ord ps)) by (apply range_peers_nodup; [done|]; rewrite Ho; apply NoDup_elements).
  eapply wp_mono.
  { apply filter_peers_spec, Forall_forall. intros a Ha. destruct (range_peers_heap ps ord a Hset Ha) as (p & Hp & _). by eexists. }
  intros l ps' [-> ->]. split; [|split_and!].
  - split; [by destruct Hs|by split_and!].
  - unfold ps. cbn [pm set_pm]. by destruct (pm s).
  - by apply list.NoDup_filter.
  - intros a. rewrite list_elem_of_filter, (range_peers_elem ps ord a Ho). split.
    + intros [Hf [name Hn]]. destruct (heap ps !! a) as [p|] eqn:Ep; [|done]. exists name, p. split_and!; [done..|]. by apply Is_true_true.
    + intros (name & p & Hn & Hp & Hi). split; [|by exists name]. rewrite Hp. cbn [from_option]. by rewrite Hi.
Qed.

(** The first two statements of three, taken together. *)
Lemma wp_seq {S A B C} (m : stm S A) (f : A -> stm S B) (g : B -> stm S C) Q s :
  wp (m ≫= f) (fun y s' => wp (g y) Q s') s -> wp (m ≫= (fun x => f x ≫= g)) Q s.
Proof.
  unfold wp, mbind, stm_bind. destruct (m s) as [[x s']|x|x|x]; [|done..]. by destruct (f x s') as [[y s'']|y|y|y].
Qed.

Lemma broadcast_spec (s : Service) (es : EpochState V) (e : Event) (passed : Z) : session_ok s es ->
  wp (BroadcastEvent e passed) (fun n s' => session_ok s' es /\ undisturbed s s' /\ exists full rest,
    NoDup (full ++ rest) /\ n = zlen (full ++ rest) /\
    (n <> 0 -> zlen full = decideBroadcastAggressiveness (pm_config (pm s)) (Size e) (Z.max 0 passed) n) /\
    (forall a, a ∈ full ++ rest <-> exists name p, peers (pm_peers (pm s)) !! name = Some a /\
       heap (pm_peers (pm s)) !! a = Some p /\ InterestedIn (id (base e)) p = true) /\
    forall a p, heap (pm_peers (pm s)) !! a = Some p -> exists p', heap (pm_peers (pm s')) !! a = Some p' /\
      if decide (a ∈ full) then offered_event e p p' else if decide (a ∈ rest) then offered_hash e p p' else p' = p) s.
Proof.
  intros Hs. unfold BroadcastEvent. cbv zeta. set (i := id (base e)).
  assert (Hpass : (if passed <? 0 then 0 else passed) = Z.max 0 passed) by (case_test; lia). rewrite Hpass.
  apply wp_seq. eapply wp_mono; [exact (interested_peers s es i Hs)|]. intros l s1 ((Hs1 & Hu1) & Hpm & Hd & Hl). apply wp_if; intros Hz.
  { apply Z.eqb_eq in Hz. wp_run. split; [done|]. split; [done|]. exists [], []. destruct l as [|x l]; [|rewrite zlen_cons in Hz; pose proof (zlen_nonneg l); lia].
    split; [constructor|]. split_and!; try done. intros a p Hp. exists p. rewrite Hpm. by rewrite !decide_False by apply not_elem_of_nil. }
  apply Z.eqb_neq in Hz. wp_run. rewrite Hpm. set (k := decideBroadcastAggressiveness _ _ _ _).
  assert (Hk : 0 <= k <= zlen l) by (apply aggressiveness_range, zlen_nonneg).
  rewrite (proj2 (Z.ltb_ge k 0)), (proj2 (Z.ltb_ge (zlen l) k)) by lia. cbn [orb].
  set (full := take (Z.to_nat k) l). set (rest := drop (Z.to_nat k) l).
  assert (Hfr : full ++ rest = l) by apply take_drop. assert (Hlt : Forall (fun a => (a < length (heap (pm_peers (pm s))))%nat) (full ++ rest)).
  { rewrite Hfr. apply Forall_forall. intros a Ha. apply Hl in Ha as (name & p & _ & Hp & _). by eapply lookup_lt_Some. }
  rewrite <- Hfr in Hd. pose proof Hd as (Hd1 & Hdis & Hd2)%NoDup_app. apply Forall_app in Hlt as [Hlt1 Hlt2]. wp_run.
  eapply wp_mono; [apply (broadcast_to s1 es full _ (offered_event e) (AsyncSendEvents_offers e)); [done..|by rewrite Hpm]|].
  intros [] s2 ((Hs2 & Hu2) & Hq2). wp_run. cbv beta in *.
  eapply wp_mono; [apply (broadcast_to s2 es rest _ (offered_hash e) (AsyncSendNewEventHashes_offers e)); [done..|]|].
  { eapply Forall_impl; [exact Hlt2|]. intros a Ha. destruct Hu2 as (_ & _ & _ & _ & _ & _ & _ & Hkept & _).
    eapply names_kept_length; [exact Hkept|]. by rewrite Hpm. }
  intros [] s3 ((Hs3 & Hu3) & Hq3). wp_run. split; [done|]. split; [by etrans; [|etrans]|]. exists full, rest. rewrite Hfr in *.
  split_and!; try done.
  - intros _. fold k. unfold full, zlen in *. rewrite length_take. lia.
  - intros a p Hp. destruct (Hq2 a p) as (p2 & Hp2 & E2); [by rewrite Hpm|]. destruct (Hq3 a p2 Hp2) as (p3 & Hp3 & E3). exists p3. split; [done|].
    destruct (decide (a ∈ full)) as [Hf|Hf]; [|subst p2; by destruct (decide (a ∈ rest))].
    rewrite decide_False in E3 by (by apply Hdis). by subst p3.
Qed.

(** C17: an event reaches every interested peer.  A peer is interested in an event
    that it is not known to have, if its epoch is known and is that of the event
    or the one before ([InterestedIn]).  Broadcasting offers the event in full to
    some of the registered peers that are interested, in the number the
    configuration decides, and its id to all others of them; each gets it once,
    in its queue unless that is full, no other peer is touched, and the slicing
    never panics. *)
Theorem broadcast_reaches (s : Service) (es : EpochState V) (e : Event) (passed : Z) : session_ok s es ->
  wp (BroadcastEvent e passed) (fun n s' => session_ok s' es /\ undisturbed s s' /\ exists full rest,
    NoDup (full ++ rest) /\ n = zlen (full ++ rest) /\
    (n <> 0 -> zlen full = decideBroadcastAggressiveness (pm_config (pm s)) (Size e) (Z.max 0 passed) n) /\
    (forall a, a ∈ full ++ rest <-> exists name p, peers (pm_peers (pm s)) !! name = Some a /\
       heap (pm_peers (pm s)) !! a = Some p /\ InterestedIn (id (base e)) p = true) /\
    forall a p, heap (pm_peers (pm s)) !! a = Some p -> exists p', heap (pm_peers (pm s')) !! a = Some p' /\
      if decide (a ∈ full) then offered_event e p p' else if decide (a ∈ rest) then offered_hash e p p' else p' = p) s.
Proof. apply broadcast_spec. Qed.

(** ** The life of a connection *)

(** As [undisturbed], but for the peer at [a] and the registrations. *)
Definition but_peer (a : nat) (s s' : Service) : Prop :=
  same_tables (svc_store s) (svc_store s') /\ svc_net s' = svc_net s /\ svc_engine s' = svc_engine s /\
  svc_emitter s' = svc_emitter s /\ PubKeys s' = PubKeys s /\ stopped s' = stopped s /\ feed s' = feed s /\
  closed (pm_peers (pm s')) = closed (pm_peers (pm s)) /\
  (forall b q, b <> a -> heap (pm_peers (pm s)) !! b = Some q ->
     exists q', heap (pm_peers (pm s')) !! b = Some q' /\ p_id q' = p_id q /\ term q' = term q /\ trusted q' = trusted q) /\
  pm_config (pm s') = pm_config (pm s) /\ maxPeers (pm s') = maxPeers (pm s).

Lemma undisturbed_but a s s' : undisturbed s s' -> but_peer a s s'.
Proof.
  intros (A1 & A2 & A3 & A4 & A5 & A6 & A7 & (_ & B2 & B3) & A9 & A10). split_and!; try done. intros b q _. apply B3.
Qed.

Lemma but_peer_trans a s1 s2 s3 : but_peer a s1 s2 -> but_peer a s2 s3 -> but_peer a s1 s3.
Proof.
  intros (A1 & A2 & A3 & A4 & A5 & A6 & A7 & A8 & A9 & A10 & A11) (B1 & B2 & B3 & B4 & B5 & B6 & B7 & B8 & B9 & B10 & B11).
  split_and!; try congruence; [by etrans|]. intros b q Hb Hq. destruct (A9 b q Hb Hq) as (q' & Hq' & C1 & C2 & C3).
  destruct (B9 b q' Hb Hq') as (q'' & Hq'' & D1 & D2 & D3). exists q''. split_and!; congruence.
Qed.

Lemma but_new_peer a s s' : but_peer a s s' -> peers (pm_peers (pm s')) = peers (pm_peers (pm s)) ->
  (length (heap (pm_peers (pm s))) <= a)%nat -> undisturbed s s'.
Proof.
  intros (A1 & A2 & A3 & A4 & A5 & A6 & A7 & A8 & A9 & A10 & A11) Hp Ha. split_and!; try done. split_and!; try done.
  intros b q Hq. apply A9; [|done]. apply lookup_lt_Some in Hq. lia.
Qed.

(** The genesis block and the latest block are stored. *)
Definition has_blocks (s : Store) : Prop :=
  is_Some (block_at s 0) /\ exists bs, block_state_at s = Some bs /\ is_uint 64 (bs_Block bs) /\ is_Some (block_at s (bs_Block bs)).

Lemma has_blocks_same s s' : same_tables s s' -> has_blocks s -> has_blocks s'.
Proof. intros (A1 & _ & _ & A4 & _). unfold has_blocks, block_at, block_state_at. by rewrite A1, A4. Qed.

Lemma calm_GetPacksNumOrDefault a e : calm a (on_store (GetPacksNumOrDefault e)).
Proof. apply calm_store. intros s es Hok _ _. eapply wp_mono; [by apply GetPacksNumOrDefault_spec|]. by intros r s' [_ ->]. Qed.

Lemma calm_GetPackInfoOrDefault a e i : calm a (on_store (GetPackInfoOrDefault e i)).
Proof. apply calm_store. intros s es Hok _ _. eapply wp_mono; [by apply GetPackInfoOrDefault_spec|]. intros r s' (_ & Hok' & c & ->). by split; [|split_and!]. Qed.

(** A block that is stored can be read. *)
Lemma wp_block {B} a s0 s es n (f : list Z -> stm Service B) (Q : B -> Service -> Prop) :
  session_ok s es -> undisturbed s0 s -> (a < length (heap (pm_peers (pm s))))%nat -> is_uint 64 n -> is_Some (block_at (svc_store s) n) ->
  (forall x s', session_ok s' es -> undisturbed s0 s' -> (a < length (heap (pm_peers (pm s'))))%nat -> wp (f x) Q s') ->
  wp (b ← on_store (GetBlock n); x ← lift (atropos_of b); f x) Q s.
Proof.
  intros Hs Hu Ha Hn [b Hb] Hf. wp_run. apply wp_on_store. eapply wp_mono; [apply GetBlock_spec; [by eapply session_store|done]|].
  intros r st (-> & Hok & c & ->). rewrite Hb. wp_run. cbn [atropos_of or_exit]. apply Hf; [|etrans; [exact Hu|by split_and!]|done].
  apply (session_kept s); try done; first [by split_and!|by destruct Hs].
Qed.

Lemma myProgress_spec a s es : session_ok s es -> (a < length (heap (pm_peers (pm s))))%nat -> has_blocks (svc_store s) ->
  wp myProgress (fun _ s' => session_ok s' es /\ undisturbed s s') s.
Proof.
  intros Hs Ha [_ (bs & Hbs & Hu & Hb)]. unfold myProgress, GetLatestBlockIndex. wp_run. apply wp_on_store. wp_run.
  eapply wp_mono; [apply GetBlockState_spec; [by eapply session_store|done]|]. intros r st (-> & Hok & c & ->). wp_step.
  assert (Hs1 : session_ok (set_store (set_cBlockState c (svc_store s)) s) es) by (apply (session_kept s); try done; first [by split_and!|by destruct Hs]).
  eapply (wp_block a s _ es); [done|by split_and!|done..|]. intros x s2 Hs2 Hu2 Ha2.
  eapply wp_calm; [apply calm_GetEpoch|done..|]. intros ep s3 Hs3 Hu3 Ha3.
  eapply wp_calm; [apply calm_GetPacksNumOrDefault|done..|]. intros num s4 Hs4 Hu4 Ha4.
  eapply wp_calm; [apply calm_GetPackInfoOrDefault|done..|]. intros info s5 Hs5 Hu5 Ha5. by wp_run.
Qed.

Lemma handle_loop_calm a incoming : Forall sane incoming -> calm a (handle_loop a incoming).
Proof.
  induction 1 as [|m l Hm _ IH]; cbn [handle_loop]; [apply calm_ret|]. apply calm_bind.
  - intros s es Hs Ha. eapply wp_mono; [by apply (handleMsg_answers a m Hm)|]. by intros r s' [? _].
  - intros [e|]; [apply calm_ret|exact IH].
Qed.

Lemma Handshake_keeps network mine genesis incoming sched : keeps (Handshake network mine genesis incoming sched).
Proof.
  unfold Handshake. apply keeps_bind; [apply keeps_gets|intros vsn]. apply keeps_bind; [apply Send_keeps|intros err].
  apply keeps_bind; [apply Send_keeps|intros perr; apply keeps_ret].
Qed.

(** A registered peer is removed. *)
Lemma removePeer_spec s es a name : session_ok s es -> peers (pm_peers (pm s)) !! name = Some a ->
  wp (removePeer name) (fun _ s' => session_ok s' es /\ but_peer a s s' /\
    peers (pm_peers (pm s')) = delete name (peers (pm_peers (pm s)))) s.
Proof.
  intros [Hn Hset] Ha. unfold removePeer. wp_run. apply wp_on_peers. unfold lookupPeer. wp_run. rewrite Ha.
  unfold peer_removed, tell, mod_pm. wp_run. apply wp_on_peers. cbn [pm set_pm set_calls set_pm_peers pm_peers].
  eapply wp_mono; [by apply Unregister_spec|]. intros r ps1 (Hs1 & Hc1 & Hp1 & _ & Hh1). wp_run. apply wp_on_peers.
  cbn [pm set_pm set_calls set_pm_peers pm_peers]. destruct (ok_registered _ Hset name a Ha) as (p & Hp & _).
  assert (Ha1 : (a < length (heap ps1))%nat).
  { apply lookup_lt_is_Some. rewrite Hh1, decide_True by done. by rewrite Hp. }
  unfold Disconnect. assert (Hk : keeps (modify (set_disconnected true))) by (intros q [A B C]; split; [by constructor|by split_and!]).
  eapply wp_mono; [by apply on_peer_keeps|]. intros [] ps2 [Hs2 (K1 & K2 & K3)]. cbn [pm set_pm set_pm_peers pm_peers].
  split; [by split|]. split; [|by rewrite K1]. split_and!; try done; cbn [pm set_pm set_pm_peers pm_peers]; [congruence|].
  intros b q Hb Hq. destruct (K3 b q) as (q' & Hq' & D1 & _ & D2 & _ & _ & D3).
  - rewrite Hh1, decide_False by (rewrite Ha; congruence). done.
  - exists q'. by split_and!.
Qed.

Lemma heap_kept s0 s a p : undisturbed s0 s -> heap (pm_peers (pm s0)) !! a = Some p ->
  exists q, heap (pm_peers (pm s)) !! a = Some q /\ p_id q = p_id p /\ term q = term p.
Proof.
  intros (_ & _ & _ & _ & _ & _ & _ & (_ & _ & Hh) & _) Hp. destruct (Hh a p Hp) as (q & Hq & E1 & E2 & _). by exists q.
Qed.

(** After the handshake: registration, messages, removal. *)
Lemma handle_registered s es a p incoming : session_ok s es -> heap (pm_peers (pm s)) !! a = Some p -> term p = false -> Forall sane incoming ->
  wp (reg ← on_peers (Register a);
      match reg with
      | Some e => mret e
      | None => err ← handle_loop a incoming; _ ← handle_end a; mret err
      end) (fun _ s' => session_ok s' es /\ but_peer a s s' /\ peers (pm_peers (pm s')) = peers (pm_peers (pm s))) s.
Proof.
  intros Hs Hp Ht Hi. pose proof Hs as [Hn Hset]. wp_run. apply wp_on_peers. eapply wp_mono; [by apply (Register_spec _ a p)|].
  intros r ps (Hps & Hh & Hc & Hcase). set (s1 := set_pm _ s).
  assert (Hs1 : session_ok s1 es) by (by split). assert (Hb1 : but_peer a s s1).
  { split_and!; try done. intros b q _ Hq. exists q. cbn [s1 pm set_pm set_pm_peers pm_peers]. by rewrite Hh. }
  assert (Hr : (exists e, r = Some e) /\ peers ps = peers (pm_peers (pm s)) \/
    r = None /\ peers (pm_peers (pm s)) !! p_id p = None /\ peers ps = <[p_id p := a]> (peers (pm_peers (pm s)))).
  { destruct (closed (pm_peers (pm s))); [left; destruct Hcase as [-> ->]; eauto|].
    destruct (decide _) as [Hd|Hd]; destruct Hcase as [-> ->]; [left; eauto|right]. split_and!; try done. by apply eq_None_not_Some. }
  destruct Hr as [[[e ->] Epeers]|(-> & Hnone & Epeers)]; [wp_run; by split_and!|].
  assert (Hp1 : heap (pm_peers (pm s1)) !! a = Some p) by (cbn [s1 pm set_pm set_pm_peers pm_peers]; by rewrite Hh).
  eapply (wp_calm a _ _ s1 s1 es); [by apply handle_loop_calm|done|reflexivity|by eapply lookup_lt_Some|]. intros err s2 Hs2 Hu2 Ha2.
  destruct (heap_kept s1 s2 a p Hu2 Hp1) as (q & Hq & Eq & _).
  unfold handle_end, peer_get. wp_run. apply wp_on_peers. eapply wp_deref; [exact Hq|]. wp_run. rewrite Eq.
  assert (E2 : set_pm (set_pm_peers (pm_peers (pm s2)) (pm s2)) s2 = s2) by (by destruct s2 as [? ? ? ? ? ? ? ? [] ?]). rewrite E2.
  assert (Hp2 : peers (pm_peers (pm s2)) = <[p_id p := a]> (peers (pm_peers (pm s)))).
  { destruct Hu2 as (_ & _ & _ & _ & _ & _ & _ & (-> & _) & _). done. }
  eapply wp_mono; [apply (removePeer_spec s2 es a (p_id p)); [done|by rewrite Hp2, lookup_insert_eq]|].
  intros [] s3 (Hs3 & Hb3 & Hp3). wp_run. split; [done|]. split.
  - eapply but_peer_trans; [exact Hb1|]. eapply but_peer_trans; [by apply undisturbed_but|done].
  - rewrite Hp3, Hp2. by apply delete_insert_id.
Qed.

(** The greeting disturbs nothing. *)
Lemma greeting_spec s es a first : session_ok s es -> has_blocks (svc_store s) -> (a < length (heap (pm_peers (pm s))))%nat ->
  wp (handle_greeting a first) (fun _ s' => session_ok s' es /\ undisturbed s s') s.
Proof.
  intros Hs Hb Ha. unfold handle_greeting. wp_step. wp_step. wp_step. wp_step.
  eapply (wp_calm a _ _ s s es); [apply calm_peer_get|done|reflexivity|done|]. intros tr s1 Hs1 Hu1 Ha1.
  apply wp_if; intros _; [by wp_run|].
  assert (Hb1 : has_blocks (svc_store s1)) by (eapply has_blocks_same; [apply Hu1|done]).
  eapply (wp_block a s s1 es); [done..|apply Hb1|]. intros g s2 Hs2 Hu2 Ha2.
  assert (Hb2 : has_blocks (svc_store s2)) by (eapply has_blocks_same; [apply Hu2|done]).
  wp_step. eapply wp_mono; [by apply (myProgress_spec a s2 es)|]. intros mine s3 [Hs3 Hu3].
  assert (Ha3 : (a < length (heap (pm_peers (pm s3))))%nat) by (eapply names_kept_length; [apply Hu3|done]).
  assert (Hu3' : undisturbed s s3) by (by etrans). clear Hu3 Hu2 Hu1.
  eapply (wp_calm a _ _ s s3 es); [apply calm_gets|done..|]. intros net s4 Hs4 Hu4 Ha4.
  eapply (wp_calm a _ _ s s4 es); [apply calm_next|done..|]. intros sched s5 Hs5 Hu5 Ha5.
  eapply wp_mono; [by apply (calm_peer_do a _ (Handshake_keeps _ _ _ _ _) s5 es)|]. intros r s6 [Hs6 Hu6]. split; [done|by etrans].
Qed.

Lemma handle_spec s0 s es a p incoming : session_ok s es -> has_blocks (svc_store s) -> Forall sane incoming -> undisturbed s0 s ->
  heap (pm_peers (pm s)) !! a = Some p -> term p = false -> (length (heap (pm_peers (pm s0))) <= a)%nat ->
  wp (handle a incoming) (fun _ s' => session_ok s' es /\ undisturbed s0 s') s.
Proof.
  intros Hs Hb Hi Hu Hp Ht Hnew. unfold handle. wp_step.
  eapply wp_mono; [by apply (greeting_spec s es a); [..|eapply lookup_lt_Some]|]. intros [e|] s6 [Hs6 Hu6]; [wp_run; split; [done|by etrans]|].
  destruct (heap_kept s s6 a p Hu6 Hp) as (q & Hq & _ & Eq). eapply wp_mono.
  { apply (handle_registered s6 es a q (tail incoming)); [done..|congruence|]. destruct Hi; [constructor|done]. }
  intros err s7 (Hs7 & Hb7 & Hp7). split; [done|]. apply (but_new_peer a); [|by rewrite Hp7; apply (transitivity Hu Hu6)|done].
  eapply but_peer_trans; [|exact Hb7]. apply undisturbed_but. by etrans.
Qed.

Lemma svc_store_set_pm x (s : Service) : svc_store (set_pm x s) = svc_store s.
Proof. reflexivity. Qed.

Lemma session_of (s : Service) es ps : node_ok s es -> set_ok ps -> session_ok (set_pm (set_pm_peers ps (pm s)) s) es.
Proof. by split. Qed.

Lemma processable_set_pm x (s : Service) es e : processable s es e -> processable (set_pm x s) es e.
Proof. intros []. by constructor. Qed.

Lemma alloc_spec s es p : session_ok s es -> peer_ok p ->
  wp (on_peers (alloc p)) (fun a s' => session_ok s' es /\ undisturbed s s' /\ a = length (heap (pm_peers (pm s))) /\
    heap (pm_peers (pm s')) !! a = Some p) s.
Proof.
  intros [Hn [Hr Hp]] Hok. apply wp_on_peers. unfold alloc. wp_run. cbn [pm set_pm set_pm_peers pm_peers heap set_heap].
  assert (Hl : forall b q, heap (pm_peers (pm s)) !! b = Some q -> (heap (pm_peers (pm s)) ++ [p]) !! b = Some q)
    by (intros b q Hq; by apply lookup_app_l_Some).
  split; [split; [exact Hn|split]|split; [|split; [done|]]]; cbn [pm set_pm set_pm_peers pm_peers heap set_heap peers].
  - intros name b Hb. destruct (Hr name b Hb) as (q & Hq & E). exists q. split; [by apply Hl|done].
  - intros b q Hq. apply lookup_app_Some in Hq as [Hq|[_ Hq]]; [by eapply Hp|]. apply list_lookup_singleton_Some in Hq as [_ <-]. done.
  - split_and!; try done. split_and!; try done. intros b q Hq. exists q. split; [by apply Hl|done].
  - by rewrite lookup_app_r, Nat.sub_diag.
Qed.

(** C16: a connection leaves the node as it found it.  Whatever messages arrive,
    running a session with a new peer returns (or the process ends on a failing
    database); when it has ended, the peer is not registered any more, the store
    and the other peers are untouched, and the server pool is told. *)
Theorem session_returns (s : Service) (es : EpochState V) vsn name tr entry quitting incoming :
  session_ok s es -> has_blocks (svc_store s) -> Forall sane incoming ->
  wp (Run vsn name tr entry quitting incoming) (fun _ s' => session_ok s' es /\ undisturbed s s' /\
    forall x, entry = Some x -> last (calls (pm s')) = Some (CallPoolDisconnect x)) s.
Proof.
  intros Hs Hb Hi. unfold Run. wp_step.
  eapply wp_mono; [apply (alloc_spec s es (set_poolEntry entry (newPeer vsn name tr)) Hs); by constructor|]. intros a s1 (Hs1 & Hu1 & -> & Hp1).
  set (a := length (heap (pm_peers (pm s)))) in *.
  assert (Htail : forall (r : error) s2, session_ok s2 es -> undisturbed s s2 ->
    wp (_ ← pool_disconnect entry; mret r) (fun _ s' => session_ok s' es /\ undisturbed s s' /\
      forall x, entry = Some x -> last (calls (pm s')) = Some (CallPoolDisconnect x)) s2).
  { intros r s2 Hs2 Hu2. destruct entry as [x|]; unfold pool_disconnect, tell, mod_pm; wp_run; [|by split_and!].
    split; [by destruct Hs2|]. split; [etrans; [exact Hu2|by split_and!]|]. intros y [= <-]. cbn [pm set_pm set_calls calls]. apply last_snoc. }
  apply wp_if; intros _; [by apply Htail|]. wp_step. assert (Hb1 : has_blocks (svc_store s1)) by (eapply has_blocks_same; [apply Hu1|done]).
  eapply wp_mono; [by apply (handle_spec s s1 es a _ incoming Hs1 Hb1 Hi Hu1 Hp1)|]. intros err s2 [Hs2 Hu2]. by apply Htail.
Qed.

(** ** Events from the network *)

(** Processing an event does not touch the peers. *)
Definition same_pm (s s' : Service) : Prop := pm s' = pm s.

#[global] Instance same_pm_preorder : PreOrder same_pm.
Proof. split; [by intros s|]. intros s1 s2 s3 E1 E2. unfold same_pm in *. congruence. Qed.

Lemma same_pm_store {A} (m : stm Store A) : frames same_pm (on_store m).
Proof. by apply (frames_part same_pm m svc_store set_store). Qed.

Lemma same_pm_next {A} (f : nat -> A) : frames same_pm (next f).
Proof. apply (frames_next same_pm). by intros. Qed.
#[local] Hint Resolve same_pm_store same_pm_next : frames.

Lemma run_consensus_pm c : frames same_pm (run_consensus c).
Proof. apply (run_consensus_frames same_pm); try done. intros A m. apply same_pm_store. Qed.

Lemma OnNewEvent_pm e : frames same_pm (OnNewEvent e).
Proof. by apply (OnNewEvent_frames same_pm). Qed.
#[local] Hint Resolve run_consensus_pm OnNewEvent_pm : frames.

Lemma processEvent_pm e : frames same_pm (processEvent e).
Proof. unfold processEvent, onConnected, packsOnNewEvent, packsOnNewEpoch, Commit, send. frame. Qed.

Lemma onProcess_spec (s : Service) (es : EpochState V) (e : Event) : session_ok s es -> processable s es e ->
  wp (onProcess e) (fun r s' => processed s es e r s' /\ set_ok (pm_peers (pm s'))) s.
Proof.
  intros [Hn Hset] Hpr. unfold onProcess. wp_run. apply wp_next. intros n. wp_run. set (s1 := set_ticks (S n) s).
  assert (Hn1 : node_ok s1 es) by exact Hn. assert (Hpr1 : processable s1 es e) by (destruct Hpr; by constructor).
  eapply wp_mono; [apply (wp_frames _ _ _ _ (processEvent_pm e) (process_event_spec s1 es e Hn1 Hpr1))|].
  intros r s2 [Hp2 Hpm]. assert (Hset2 : set_ok (pm_peers (pm s2))) by (by rewrite Hpm). destruct r as [x|]; wp_run; [by split|].
  apply wp_if; intros _; wp_run; [|by split]. destruct Hp2 as [(es' & Hn2 & Hes) Hst].
  eapply wp_mono; [by apply (broadcast_spec s2 es'); split|]. intros k s3 ([Hn3 Hs3] & Hu3 & _). wp_run. split; [|done].
  split; [by exists es'|]. destruct Hst as [(A & B & Hadd & Hlast)|[? _]]; [left|done]. pose proof (proj1 Hu3) as (_ & Me & _).
  destruct (same_tables_dag _ _ (proj1 Hu3)) as (Ev & D1 & D2 & _). destruct (cur_same _ _ D1 D2) as [_ Ht]. split_and!; [done..| |].
  - intros i. rewrite Ev. apply Hadd.
  - unfold is_last, epoch_state_at. rewrite Me, Ht. exact Hlast.
Qed.

(** An event taken from the ordering buffer is processed and passed on.  The
    node stays consistent and its peers within their bounds; the event is stored
    if the result is no error, and every broadcast it triggers succeeds. *)
Theorem buffered_event_processed (s : Service) (es : EpochState V) (e : Event) : session_ok s es -> processable s es e ->
  wp (onProcess e) (fun r s' => (exists es', session_ok s' es' /\ (es' = es \/ es_Epoch es' = es_Epoch es + 1)) /\
    (r = None -> event_added (svc_store s) (svc_store s') e)) s.
Proof.
  intros Hs Hpr. eapply wp_mono; [by apply (onProcess_spec s es)|]. intros r s' [[(es' & Hn & Hes) Hst] Hset]. split.
  - exists es'. by split.
  - intros ->. by destruct Hst as [(_ & _ & Hadd & _)|[? _]].
Qed.

End Spec.

(** ** A concrete node with two peers *)

Module Sample.
Import StoreSpec.Sample Genesis.Sample ServiceSpec.Sample PeerSpec.Sample.
#[local] Existing Instance lachesis_be.
#[local] Existing Instance lachesis_be_laws.
#[local] Existing Instance lachesis_idx_be.
#[local] Existing Instance lachesis_idx_be_laws.
#[local] Existing Instance rlp_length_prefix.
#[local] Existing Instance rlp_length_prefix_laws.
#[local] Existing Instance kv_gmap.
#[local] Existing Instance kv_gmap_laws.
#[local] Existing Instance lru_gmap.
#[local] Existing Instance lru_gmap_laws.
#[local] Existing Instance codec_countable.
#[local] Existing Instance codec_countable_laws.
#[local] Existing Instance base_checks_any.
#[local] Existing Instance base_checks_any_laws.
#[local] Existing Instance Emitter.Sample.ext_any.
#[local] Existing Instance pos_total.
#[local] Existing Instance pos_total_laws.
#[local] Existing Instance engine_each.
#[local] Existing Instance engine_each_laws.
#[local] Existing Instance ServiceSpec.Sample.calm.
#[local] Existing Instance p2p_any.
#[local] Existing Instance p2p_any_laws.

Lemma rlp_length_prefix_safe : RlpSafe rlp_length_prefix.
Proof.
  split. intros raw Hb. cbn [rlp_bytes rlp_length_prefix]. case_bool_decide as Hd; [|done]. cbn [vis spare]. split.
  - rewrite app_nil_r. by apply Forall_take, Forall_drop.
  - unfold slice_cap, zlen. cbn [vis spare]. rewrite app_nil_r, length_take, length_drop. lia.
Qed.
#[local] Existing Instance rlp_length_prefix_safe.

#[local] Instance gossip_any : GossipExt := {|
  fetcher_Overloaded _ := false;
  downloader_Peer _ _ := true;
  IsBuffered _ _ := false;
  ErrAllUnknownBeforeKnown := Error "all unknown before known";
  range_order _ m := elements (dom m);
  arrivals _ := [FromSender; FromReader];
  io_EOF := Error "EOF";
  DiscTooManyPeers := Error "too many peers";
  DiscQuitting := Error "client quitting"
|}.

#[local] Instance gossip_any_laws : GossipExtLaws gossip_any.
Proof. split. by intros n m. Qed.

Definition no_codec A : Codec A := {| enc _ := []; dec _ := None |}.

#[local] Instance wire_any : Wire := {|
  raw_list b := Some [b];
  wire_hashes := codec_countable (list (list Z));
  wire_status := PeerSpec.Sample.status_codec;
  wire_progress := no_codec _;
  wire_getPackInfos := no_codec _;
  wire_packInfos := no_codec _;
  wire_getPack := no_codec _;
  wire_pack := no_codec _
|}.

#[local] Instance wire_any_laws : WireLaws wire_any.
Proof. split. intros b l Hb [= <-]. constructor; [by split|constructor]. Qed.

Definition node_with_peers : Service Z := set_pm (set_pm_peers two_peers (pm sample_node)) sample_node.

Lemma node_with_peers_ok : session_ok node_with_peers (genesis_epoch short_net).
Proof. exact (session_of _ _ _ (proj1 sample_node_ok) two_peers_ok). Qed.

Lemma node_with_peers_store : svc_store node_with_peers = svc_store sample_node.
Proof. apply svc_store_set_pm. Qed.

Definition request_msg : Msg := MkMsg GetEventsMsg 100 (enc [id (base first_event)]).

(** The node has processed its first event; its peers are as before. *)
Lemma node_with_event : exists (s1 : Service Z) es1, processEvent first_event node_with_peers = Ret (None, s1) /\ session_ok s1 es1 /\
  pm s1 = pm node_with_peers /\ event_at (svc_store s1) (id (base first_event)) = Some first_event.
Proof.
  assert (Hpr : processable node_with_peers (genesis_epoch short_net) first_event) by exact (processable_set_pm _ _ _ _ first_processable).
  assert (Hr : match processEvent first_event node_with_peers with Ret (r, _) => r | _ => Some (Error EmptyString) end = None) by (vm_compute; reflexivity).
  destruct (wp_total _ _ _ (fun x : may_exit => x) (wp_frames _ _ _ _ (processEvent_pm first_event)
    (process_event_spec node_with_peers (genesis_epoch short_net) first_event (proj1 node_with_peers_ok) Hpr)))
    as (r & s1 & E & [[(es1 & Hn & _) Hst] Hpm]).
  rewrite E in Hr. subst r. exists s1, es1. split; [exact E|]. split; [split; [exact Hn|rewrite Hpm; exact (proj2 node_with_peers_ok)]|].
  split; [exact Hpm|]. destruct Hst as [(_ & _ & Hadd & _)|[[] _]]; [|reflexivity]. rewrite Hadd. apply decide_True. reflexivity.
Qed.

(** The answer to a request of one stored event holds this event. *)
Lemma one_served (f : list Z -> option Event) n raws e i : f i = Some e -> n = 1%nat \/ softResponseLimitSize <= zsum zlen raws ->
  decode_events raws = Ret (omap f (take n [i])) -> omap f (take n [i]) = [e] /\ exists b, raws = [b] /\ decode_event b = Ret e.
Proof.
  intros Hi Hn. destruct n as [|n].
  { cbn [take omap list_omap]. destruct raws as [|b raws]; [by destruct Hn as [?|[]]|]. cbn [decode_events].
    destruct (decode_event b); cbn [mbind go_bind]; [|done..]. by destruct (decode_events raws). }
  cbn [take omap list_omap]. rewrite Hi, take_nil. cbn [omap list_omap]. intros Hd. split; [done|].
  destruct raws as [|b [|b' raws]]; cbn [decode_events] in Hd; [done|..];
    (destruct (decode_event b) as [e'| | |] eqn:Eb; cbn [mbind go_bind] in Hd; [|done..]).
  - exists b. split; [done|]. cbn in Hd. by injection Hd as ->.
  - destruct (decode_event b'); cbn [mbind go_bind] in Hd; [|done..]. by destruct (decode_events raws).
Qed.

(** A request of a stored event is answered with its encoding. *)
Lemma events_served_witness : exists (s1 s' : Service Z) b p', event_at (svc_store s1) (id (base first_event)) = Some first_event /\
  handleMsg 0 (inr request_msg) s1 = Ret (None, s') /\ heap (pm_peers (pm s')) !! 0%nat = Some p' /\
  sent p' = [MEventsRLP [b]] /\ decode_event b = Ret first_event.
Proof.
  destruct node_with_event as (s1 & es1 & _ & Hs & Hpm & Hev).
  assert (Hp0 : heap (pm_peers (pm s1)) !! 0%nat = Some (newPeer 62 "a" false)) by (rewrite Hpm; reflexivity).
  destruct (wp_total _ _ _ (fun x : may_exit => x) (events_served s1 es1 0 (newPeer 62 "a" false)
    request_msg [id (base first_event)] Hs Hp0 eq_refl ltac:(discriminate) eq_refl ltac:(split; [reflexivity|discriminate])))
    as (r & s' & E & -> & n & raws & p' & Hn & Hd & Hlim & Hp & Hsent).
  destruct (one_served _ _ _ _ _ Hev Hlim Hd) as (_ & b & -> & Hb). exists s1, s', b, p'.
  split; [exact Hev|]. split; [exact E|]. split; [exact Hp|]. split; [exact Hsent|exact Hb].
Defined.

Definition junk : Msg := MkMsg 0x77 3 [1; 2; 3].





Lemma broadcast_reaches_witness : exists n s', BroadcastEvent first_event 0 node_with_peers = Ret (n, s') /\
  session_ok s' (genesis_epoch short_net).
Proof.
  destruct (wp_total _ _ _ (fun x : may_exit => x) (broadcast_reaches node_with_peers (genesis_epoch short_net) first_event 0 node_with_peers_ok))
    as (n & s' & E & Hs & _).
  exists n, s'. split; [exact E|exact Hs].
Defined.

Lemma buffered_event_processed_witness : exists r s' es', onProcess first_event node_with_peers = Ret (r, s') /\ session_ok s' es'.
Proof.
  assert (Hpr : processable node_with_peers (genesis_epoch short_net) first_event) by exact (processable_set_pm _ _ _ _ first_processable).
  destruct (wp_total _ _ _ (fun x : may_exit => x) (buffered_event_processed node_with_peers (genesis_epoch short_net) first_event node_with_peers_ok Hpr))
    as (r & s' & E & (es' & Hs & _) & _).
  exists r, s', es'. split; [exact E|exact Hs].
Defined.

Lemma node_has_blocks : has_blocks (svc_store node_with_peers).
Proof.
  rewrite node_with_peers_store. split; [by_decide|]. exists (MkBlockState 0 0). split; [vm_compute; reflexivity|]. split; by_decide.
Qed.

Lemma session_returns_witness : exists err s',
  Run 62 "d" true (Some 5) false [inr (MkMsg StatusMsg 6 [62; 1]); inr junk] node_with_peers = Ret (err, s') /\
  peers (pm_peers (pm s')) = peers two_peers /\ last (calls (pm s')) = Some (CallPoolDisconnect 5).
Proof.
  assert (Hj : Forall sane [inr (MkMsg StatusMsg 6 [62; 1]); inr junk]) by (repeat constructor; vm_compute; done).
  destruct (wp_total _ _ _ (fun x : may_exit => x) (session_returns node_with_peers (genesis_epoch short_net) 62 "d" true (Some 5) false
    [inr (MkMsg StatusMsg 6 [62; 1]); inr junk] node_with_peers_ok node_has_blocks Hj)) as (err & s' & E & _ & Hu & Hl).
  exists err, s'. split; [exact E|]. split; [|by apply Hl]. destruct Hu as (_ & _ & _ & _ & _ & _ & _ & (Hp & _) & _). exact Hp.
Defined.

End Sample.
End HandlerSpec.
