(* ===== verification/SyncSpec.v ===== *)
(** * Events travel between nodes

    Two nodes put together: one asks for events with [GetEventsMsg], the other
    answers with the encodings it has stored, and the first hands the decoded
    events to its fetcher ([handleMsg] of [src/gossip/handler.go] on both sides).
    What arrives is what was stored, and is ready to be processed. *)

From Stdlib Require Import ZArith Lia Bool Sorted.
From stdpp Require Import base list numbers option strings gmap sorting.
From S2P Require Import Prelude Kv Sha256 Fast Event Serializer EventBuild Store StoreSpec Genesis Checks Emitter Peer PeerSpec Service ServiceSpec Handler HandlerSpec.
Import Event Serializer EventBuild Store StoreSpec Genesis Checks Emitter Peer PeerSpec Service ServiceSpec Handler HandlerSpec.
Local Open Scope Z_scope.

Module SyncSpec.

Section Spec.
Context {V : Type}.
Context {LB : LachesisBase} {LBL : LachesisBaseLaws LB} {LI : LachesisIdx} {LIL : LachesisIdxLaws LI}.
Context {R : Rlp} {RL : RlpLaws R} {RS : RlpSafe R} {K : Kv} {KL : KvLaws K} {L : Lru} {LL : LruLaws L}.
Context {CB : Codec Block} {CBL : CodecLaws Block} {CP : Codec PackInfo} {CPL : CodecLaws PackInfo}.
Context {CS : Codec BlockState} {CSL : CodecLaws BlockState}.
Context {CE : Codec (EpochState V)} {CEL : CodecLaws (EpochState V)}.
Context {BC : BaseChecks V} {BCL : BaseChecksLaws V} {EN : Engine V} {ENL : EngineLaws V} {X : EmitterExt}.
Context {ENV : Environment} {N : P2p} {NL : P2pLaws N} {G : GossipExt} {GL : GossipExtLaws G} {W : Wire} {WL : WireLaws W}.
Abbreviation Service := (Service V).
Abbreviation Store := (Store V).

(** The calls made to the other parts. *)
Definition same_calls (s s' : Service) : Prop := calls (pm s') = calls (pm s).

#[local] Instance same_calls_preorder : PreOrder same_calls.
Proof. unfold same_calls. split; [by intros s|]. intros s1 s2 s3 E1 E2. congruence. Qed.

Lemma calls_peer_do {A} a (m : stm peer A) : frames same_calls (peer_do (V := V) a m).
Proof. by apply (frames_part same_calls (on_peer a m) (fun s => pm_peers (pm s)) (fun ps s => set_pm (set_pm_peers ps (pm s)) s)). Qed.

Lemma MarkEvent_ids_keeps ee : keeps (foreach (fun e => MarkEvent (id (base e))) ee).
Proof.
  intros p Hp. pose proof (MarkEvents_keeps ((fun e => id (base e)) <$> ee) p Hp) as Hk.
  revert Hk. unfold wp. by rewrite <- (foreach_fmap MarkEvent (fun e => id (base e))).
Qed.

(** What the node tells its fetcher about a message of events: the events, unless
    the fetcher, asked when the message arrives, says that it is overloaded. *)
Definition enqueue_calls (s : Service) (name : string) (ee : list Event) : list call :=
  if fetcher_Overloaded (S (ticks s)) then [] else [CallFetcherEnqueue name ee].

(** A message of events is handed to the fetcher as it is decoded, unless the
    fetcher is overloaded. *)
Lemma events_enqueued (s : Service) es a p msg ee : session_ok s es -> heap (pm_peers (pm s)) !! a = Some p -> Code msg = EventsMsg ->
  msg_Size msg <= protocolMaxMsgSize -> decode_events_msg (Payload_ msg) = Ret ee -> 0 < zlen ee <= hardLimitItems ->
  wp (handleMsg a (inr msg)) (fun r s' => r = None /\ calls (pm s') = calls (pm s) ++ enqueue_calls s (p_id p) ee) s.
Proof.
  intros Hs Ha Hc Hz Hd Hn. cbn [handleMsg]. rewrite Z.gtb_ltb, (proj2 (Z.ltb_ge _ _)) by lia. unfold dispatch. wp_run. apply wp_on_store.
  eapply wp_mono; [apply (GetEpoch_spec _ _ (session_store s es Hs) (session_epoch s es Hs))|]. intros ep st (-> & Hok & c & ->). wp_run.
  unfold peer_get. wp_run. apply wp_on_peers. eapply wp_deref; [exact Ha|]. wp_run. unfold next. wp_run. cbv zeta.
  rewrite Hc. repeat (match goal with |- context [?x =? ?y] => let b := eval vm_compute in (x =? y) in change (x =? y) with b end; cbv iota).
  wp_run. cbn [ticks set_ticks set_store set_pm].
  unfold enqueue_calls. destruct (fetcher_Overloaded (S (ticks s))); [wp_run; split; [done|by rewrite app_nil_r]|]. rewrite Hd.
  unfold handleEvents, limited, checkLenLimits. rewrite (proj2 (Z.leb_gt _ _)), Z.gtb_ltb, (proj2 (Z.ltb_ge _ _)) by lia. wp_run.
  match goal with |- wp _ _ ?s1 => set (s2 := s1) end.
  assert (Hs2 : session_ok s2 es).
  { apply (session_kept s); try done; first [by split_and!|by destruct Hs]. }
  assert (Hl : (a < length (heap (pm_peers (pm s2))))%nat) by (by eapply lookup_lt_Some).
  eapply wp_mono; [exact (wp_frames same_calls _ _ _ (calls_peer_do _ _) (calm_peer_do a _ (MarkEvent_ids_keeps ee) s2 es Hs2 Hl))|].
  intros [] s3 [_ Hcalls]. unfold tell, mod_pm. wp_run. split; [done|]. cbn [pm set_pm set_calls calls]. by rewrite Hcalls.
Qed.

Lemma decode_events_length l ee : decode_events l = Ret ee -> length ee = length l.
Proof.
  revert ee. induction l as [|b l IH]; intros ee; cbn [decode_events]; [by intros [= <-]|]. intros E. apply bind_Ret_inv in E as (e & _ & E).
  apply bind_Ret_inv in E as (ee' & E & [= <-]). cbn. f_equal. by apply IH.
Qed.

(** Stored events can be stored by any other node. *)
Lemma stored_storable (s : Service) es ids : node_ok s es -> Forall storable (omap (event_at (svc_store s)) ids).
Proof.
  intros (_ & _ & Hd & _). apply Forall_forall. intros e He. apply list_elem_of_omap in He as (i & _ & Hi). by destruct (d_events _ _ Hd _ _ Hi).
Qed.

Lemma omap_length {A B} (f : A -> option B) l : (length (omap f l) <= length l)%nat.
Proof. induction l as [|x l IH]; [done|]. cbn [omap list_omap length]. destruct (f x); cbn; lia. Qed.

Lemma known_length {A B} (f : A -> option B) n l : (length (omap f (take n l)) <= length l)%nat.
Proof. etrans; [apply omap_length|]. rewrite length_take. lia. Qed.

(** C18: events travel unchanged.  A node that is asked for events sends the
    encodings of those it has, in the order of the request and up to the size at
    which a response is full, in one message, or no message when it has none of
    them.  A node that receives this message accepts it, stays consistent, and
    hands exactly these events to its fetcher, unless the fetcher says that it is
    overloaded; and each of them can be processed as soon as its parents are
    stored. *)
Theorem events_travel (sA sB : Service) esA esB a b p q request requests :
  session_ok sA esA -> heap (pm_peers (pm sA)) !! a = Some p -> Code request = GetEventsMsg -> msg_Size request <= protocolMaxMsgSize ->
  dec (Payload_ request) = Some requests -> 0 < zlen requests <= hardLimitItems ->
  session_ok sB esB -> heap (pm_peers (pm sB)) !! b = Some q ->
  wp (handleMsg a (inr request)) (fun r sA' => r = None /\ exists n raws p', let known := omap (event_at (svc_store sA)) (take n requests) in
    (n = length requests \/ softResponseLimitSize <= zsum zlen raws) /\ decode_events raws = Ret known /\
    heap (pm_peers (pm sA')) !! a = Some p' /\ sent p' = sent p ++ (if known is [] then [] else [MEventsRLP raws]) /\
    forall answer, Code answer = EventsMsg -> raw_list (Payload_ answer) = Some raws -> known <> [] -> sane (inr answer) ->
      msg_Size answer <= protocolMaxMsgSize ->
      wp (handleMsg b (inr answer)) (fun r sB' => r = None /\ session_ok sB' esB /\
        calls (pm sB') = calls (pm sB) ++ enqueue_calls sB (p_id q) known /\
        forall e, e ∈ known -> Forall (fun i => is_Some (event_at (svc_store sB) i)) (parents (base e)) -> quiet (svc_emitter sB) e ->
          es_Epoch esB + 1 < 2 ^ 32 -> open_pack (svc_store sB) (es_Epoch esB) + 1 < 2 ^ 32 -> processable sB' esB e) sB) sA.
Proof.
  intros HsA Ha Hc Hz Hd Hn HsB Hb. eapply wp_mono; [by apply (events_served_spec sA esA a p request requests)|].
  intros r sA' (-> & n & raws & p' & Hle & Hdec & Hlim & Hp' & Hsent). split; [done|]. exists n, raws, p'. cbv zeta in *.
  pose proof (stored_storable sA esA (take n requests) (proj1 HsA)) as Hst. pose proof (known_length (event_at (svc_store sA)) n requests) as Hkl.
  revert Hdec Hst Hkl. generalize (omap (event_at (svc_store sA)) (take n requests)). intros known Hdec Hst Hkl. pose proof (decode_events_length _ _ Hdec) as El.
  split; [done|]. split; [done|]. split; [done|]. split; [by destruct raws, known|].
  intros answer Hc' Hraw Hne Hsane Hsz.
  assert (Hd' : decode_events_msg (Payload_ answer) = Ret known) by (unfold decode_events_msg; by rewrite Hraw).
  assert (Hlen : 0 < zlen known <= hardLimitItems) by (unfold zlen in *; destruct known; [done|cbn [length] in *; lia]).
  assert (Hbl : (b < length (heap (pm_peers (pm sB))))%nat) by (by eapply lookup_lt_Some).
  eapply wp_mono; [exact (wp_and _ _ _ _ (events_enqueued sB esB b q answer known HsB Hb Hc' Hsz Hd' Hlen) (handleMsg_answers b (inr answer) Hsane sB esB HsB Hbl))|].
  intros r' sB' [[-> Hcalls] [[HsB' Hu] _]]. split; [done|]. split; [done|]. split; [done|]. intros e He Hpar Hq H1 H2.
  rewrite Forall_forall in Hst.
  pose proof Hu as (Ht & _ & _ & Hem & _). destruct (same_tables_dag _ _ Ht) as (Hev & _ & _ & _ & Hpn & _).
  constructor; [by apply Hst| |by rewrite Hem|done|unfold open_pack, packs_num_at in *; by rewrite Hpn].
  eapply Forall_impl; [exact Hpar|]. intros i. by rewrite Hev.
Qed.

End Spec.

(** ** Two nodes over tables in memory *)

Module Sample.
Import StoreSpec.Sample Genesis.Sample ServiceSpec.Sample PeerSpec.Sample HandlerSpec.Sample.
#[local] Existing Instance lachesis_be.
#[local] Existing Instance lachesis_be_laws.
#[local] Existing Instance lachesis_idx_be.
#[local] Existing Instance lachesis_idx_be_laws.
#[local] Existing Instance rlp_length_prefix.
#[local] Existing Instance rlp_length_prefix_laws.
#[local] Existing Instance kv_gmap.
#[local] Existing Instance kv_gmap_laws.
#[local] Existing Instance lru_gmap.
#[local] Existing Instance lru_gmap_laws.
#[local] Existing Instance codec_countable.
#[local] Existing Instance codec_countable_laws.
#[local] Existing Instance base_checks_any.
#[local] Existing Instance base_checks_any_laws.
#[local] Existing Instance Emitter.Sample.ext_any.
#[local] Existing Instance pos_total.
#[local] Existing Instance pos_total_laws.
#[local] Existing Instance engine_each.
#[local] Existing Instance engine_each_laws.
#[local] Existing Instance ServiceSpec.Sample.calm.
#[local] Existing Instance p2p_any.
#[local] Existing Instance p2p_any_laws.
#[local] Existing Instance rlp_length_prefix_safe.
#[local] Existing Instance gossip_any.
#[local] Existing Instance gossip_any_laws.
#[local] Existing Instance wire_any.
#[local] Existing Instance wire_any_laws.

Lemma first_answer : match processEvent first_event node_with_peers with
  | Ret (_, s1) => match handleMsg 0 (inr request_msg) s1 with Ret (_, s') => sent <$> heap (pm_peers (pm s')) !! 0%nat | _ => None end
  | _ => None
  end = Some [MEventsRLP [rlp_encode first_raw]].
Proof. vm_compute. reflexivity. Qed.

Lemma first_raw_bytes : is_bytes (rlp_encode first_raw) /\ zlen (rlp_encode first_raw) <= protocolMaxMsgSize.
Proof. split; by_decide. Qed.

(** A node that has the event is asked for it; another node receives the answer
    and hands the event to its fetcher. *)
Lemma events_travel_witness : exists (s1 sA' sB' : Service Z) p', let raw := rlp_encode first_raw in
  event_at (svc_store s1) (id (base first_event)) = Some first_event /\ handleMsg 0 (inr request_msg) s1 = Ret (None, sA') /\
  heap (pm_peers (pm sA')) !! 0%nat = Some p' /\ sent p' = [MEventsRLP [raw]] /\
  handleMsg 2 (inr (MkMsg EventsMsg (zlen raw) raw)) node_with_peers = Ret (None, sB') /\
  calls (pm sB') = [CallFetcherEnqueue "c" [first_event]] /\ processable sB' (genesis_epoch short_net) first_event.
Proof.
  destruct node_with_event as (s1 & es1 & E0 & Hs & Hpm & Hev).
  assert (Hp0 : heap (pm_peers (pm s1)) !! 0%nat = Some (newPeer 62 "a" false)) by (rewrite Hpm; reflexivity).
  destruct (wp_total _ _ _ (fun x : may_exit => x) (events_travel s1 node_with_peers es1 (genesis_epoch short_net)
    0 2 (newPeer 62 "a" false) (newPeer 62 "c" false) request_msg [id (base first_event)] Hs Hp0 eq_refl ltac:(discriminate) eq_refl
    ltac:(split; [reflexivity|discriminate]) node_with_peers_ok eq_refl)) as (r & sA' & E & -> & n & raws & p' & Hn & Hd & Hp & Hsent & Hans).
  destruct (one_served _ _ _ _ _ Hev Hn Hd) as (Hk & b & -> & Hb). rewrite Hk in Hsent, Hans.
  pose proof first_answer as Hraw. rewrite E0, E, Hp in Hraw. cbn [fmap option_fmap option_map] in Hraw. rewrite Hsent in Hraw. injection Hraw as ->.
  set (raw := rlp_encode first_raw) in *.
  destruct (wp_total _ _ _ (fun x : may_exit => x) (Hans (MkMsg EventsMsg (zlen raw) raw) eq_refl eq_refl ltac:(discriminate)
    (conj (proj1 first_raw_bytes) (Z.le_refl _)) (proj2 first_raw_bytes))) as (r & sB' & EB & -> & _ & Hcalls & Hpr).
  exists s1, sA', sB', p'. split; [exact Hev|]. split; [exact E|]. split; [exact Hp|]. split; [exact Hsent|]. split; [exact EB|]. split; [exact Hcalls|].
  assert (Hpn : processable node_with_peers (genesis_epoch short_net) first_event) by exact (processable_set_pm _ _ _ _ first_processable).
  destruct Hpn as [_ Hpar Hq H1 H2]. apply Hpr; [by left|exact Hpar|exact Hq|exact H1|exact H2].
Defined.

End Sample.
End SyncSpec.
