(* ===== verification/Api.v ===== *)
(** * What the node shows to its stack

    [src/api], [src/gossip/api_backend.go], [enr_entry.go] and [sync.go], and the
    accessors of [service.go] and [handler.go] that the node stack, the RPC
    server and the ordering buffer call: protocols, APIs, subscriptions, and
    information about the node and its peers. *)

From Stdlib Require Import ZArith Lia Bool Sorted.
From stdpp Require Import base list numbers option strings pretty gmap sorting.
From S2P Require Import Prelude Kv Sha256 Fast Event Serializer EventBuild Store StoreSpec Genesis Checks Emitter Peer PeerSpec Service ServiceSpec Handler HandlerSpec.
Import Event Serializer EventBuild Store StoreSpec Genesis Checks Emitter Peer PeerSpec Service ServiceSpec Handler HandlerSpec.
Local Open Scope Z_scope.

Module Api.

(** ** api/api.go, api/backend.go *)

(** [PublicNetAPI]: the number of connected peers is asked of the server. *)
Record PublicNetAPI := MkPublicNetAPI { net_PeerCount : nat -> Z; networkVersion : Z }.

Definition NewPublicNetAPI (net : nat -> Z) (networkVersion : Z) : PublicNetAPI := MkPublicNetAPI net networkVersion.
Definition Listening (s : PublicNetAPI) : bool := true.
Definition PeerCount (s : PublicNetAPI) (now : nat) : Z := u64 (net_PeerCount s now).
Definition Version (s : PublicNetAPI) : string := pretty (networkVersion s).

(** [rpc.API]: the name space, its version, the service and whether it is public. *)
Record API (A : Type) := MkAPI { Namespace : string; api_Version : string; api_Service : A; Public : bool }.
Arguments MkAPI {A} _ _ _ _.
Arguments Namespace {A} _.
Arguments api_Service {A} _.
Arguments Public {A} _.

Definition GetAPIs {A} : list (API A) := [].

(** ** enr_entry.go *)

(** [forkid.ID] of go-ethereum. *)
Record ForkID := MkForkID { fork_Hash : list Z; fork_Next : Z }.
Record Enr := MkEnr { enr_ForkID : ForkID; Rest : list (list Z) }.
Definition ENRKey (e : Enr) : string := "miniopera".

(** All fields at their zero values. *)
Definition currentEnr : Enr := MkEnr (MkForkID (replicate 4 0) 0) [].

(** ** sync.go *)

Inductive signal := NewPeerCh (a : nat) | NoMorePeers.

(** The loop takes every announced peer, and returns at the end of the node; what
    it has not taken is left. *)
Fixpoint syncer (l : list signal) : option (list signal) :=
  match l with
  | [] => None
  | NewPeerCh _ :: l => syncer l
  | NoMorePeers :: l => Some l
  end.

Section Definitions.
Context {V : Type}.
Context `{LachesisBase, LachesisIdx, Rlp, Kv, Lru}.
Context `{Codec Block, Codec PackInfo, Codec BlockState, Codec (EpochState V)}.
Context `{BaseChecks V, Engine V, EmitterExt, Environment, P2p, GossipExt, Wire}.
Abbreviation SV := (stm (Service V)).

(** ** service.go *)

Definition APIs (netRPCService : PublicNetAPI) : list (API PublicNetAPI) :=
  GetAPIs ++ [MkAPI "net" "1.0" netRPCService true].

Definition protocolName : string := "miniopera".

(** [p2p.Protocol]. *)
Record Protocol := MkProtocol { proto_Name : string; proto_Version : Z; Length : Z; Attributes : list Enr }.

Fixpoint protocols_of (versions : list Z) : go (list Protocol) :=
  match versions with
  | [] => Ret []
  | vsn :: versions =>
      length ← makeProtocol vsn;
      protos ← protocols_of versions;
      Ret (MkProtocol protocolName vsn length [currentEnr] :: protos)
  end.

Definition Protocols : go (list Protocol) := protocols_of ProtocolVersions.

(** [ServiceFeed]: a channel gets what is sent after the subscription. *)
Inductive channel := ChNewEpoch | ChNewPack | ChNewEmitted | ChNewLogs.

Definition carries (c : channel) (n : notification) : bool :=
  match c, n with
  | ChNewEpoch, NewEpoch _ | ChNewPack, NewPack _ | ChNewEmitted, NewEmittedEvent _ => true
  | _, _ => false
  end.

Record Subscription := MkSubscription { sub_channel : channel; sub_from : nat }.

Definition Subscribe (c : channel) : SV Subscription := gets (fun s => MkSubscription c (length (feed s))).
Definition SubscribeNewEpoch : SV Subscription := Subscribe ChNewEpoch.
Definition SubscribeNewPack : SV Subscription := Subscribe ChNewPack.
Definition SubscribeNewEmitted : SV Subscription := Subscribe ChNewEmitted.
Definition SubscribeNewLogs : SV Subscription := Subscribe ChNewLogs.

(** What has been sent to the channel of a subscription. *)
Definition received (sub : Subscription) (s : Service V) : list notification :=
  filter (fun n => carries (sub_channel sub) n = true) (drop (sub_from sub) (feed s)).

(** ** handler.go: the callbacks given to the stack and to the ordering buffer *)

Definition NodeInfo_callback : SV NodeInfo := GetNodeInfo.

(** [name] is the hexadecimal prefix of the node's id. *)
Definition PeerInfo_callback (name : string) : SV (option PeerInfo) :=
  p ← on_peers (lookupPeer name);
  match p with
  | Some a => i ← peer_get a Info; mret (Some i)
  | None => mret None
  end.

Definition Exists_callback (i : list Z) : SV bool := on_store (HasEvent i).
Definition Get_callback (i : list Z) : SV (option Event) := on_store (GetEvent i).

End Definitions.

Section Spec.
Context {V : Type}.
Context {LB : LachesisBase} {LBL : LachesisBaseLaws LB} {LI : LachesisIdx} {LIL : LachesisIdxLaws LI}.
Context {R : Rlp} {RL : RlpLaws R} {RS : RlpSafe R} {K : Kv} {KL : KvLaws K} {L : Lru} {LL : LruLaws L}.
Context {CB : Codec Block} {CBL : CodecLaws Block} {CP : Codec PackInfo} {CPL : CodecLaws PackInfo}.
Context {CS : Codec BlockState} {CSL : CodecLaws BlockState}.
Context {CE : Codec (EpochState V)} {CEL : CodecLaws (EpochState V)}.
Context {BC : BaseChecks V} {BCL : BaseChecksLaws V} {EN : Engine V} {ENL : EngineLaws V} {X : EmitterExt}.
Context {ENV : Environment} {N : P2p} {NL : P2pLaws N} {G : GossipExt} {GL : GossipExtLaws G} {W : Wire} {WL : WireLaws W}.
Abbreviation Service := (Service V).

(** Every version the node announces has a length, and every message the handler
    knows fits in it: the stack delivers all of them. *)
Theorem protocols_fit : exists ps, Protocols = Ret ps /\ proto_Version <$> ps = ProtocolVersions /\
  Forall (fun p => forall c, c ∈ codes -> c < Length p) ps.
Proof.
  eexists. split; [reflexivity|]. split; [reflexivity|]. apply Forall_singleton. intros c Hc. cbn [Length].
  unfold codes in Hc. repeat (apply elem_of_cons in Hc as [->|Hc]; [reflexivity|]). by apply elem_of_nil in Hc.
Qed.

Lemma received_send sub n (s : Service) : (sub_from sub <= length (feed s))%nat ->
  wp (send n) (fun _ s' => received sub s' = received sub s ++ (if carries (sub_channel sub) n then [n] else [])) s.
Proof.
  intros Hl. unfold send. wp_run. unfold received. cbn [feed set_feed]. rewrite drop_app_le by done. rewrite list.filter_app. f_equal.
  rewrite filter_cons, filter_nil. by destruct (carries _ n).
Qed.

(** The stack is told what is known of a registered peer, and nothing is changed. *)
Theorem peer_info_exact (s : Service) es name : session_ok s es ->
  wp (PeerInfo_callback name) (fun r s' => s' = s /\
    r = Info <$> (peers (pm_peers (pm s)) !! name ≫= fun a => heap (pm_peers (pm s)) !! a)) s.
Proof.
  intros [_ Hset]. assert (Hid : forall s : Service, set_pm (set_pm_peers (pm_peers (pm s)) (pm s)) s = s) by (by intros [? ? ? ? ? ? ? ? []]).
  unfold PeerInfo_callback. wp_step. apply wp_on_peers. unfold lookupPeer. wp_run. rewrite Hid.
  destruct (peers (pm_peers (pm s)) !! name) as [a|] eqn:Ea; [|by wp_run].
  destruct (ok_registered _ Hset name a Ea) as (p & Hp & _). cbn [mbind option_bind]. rewrite Hp.
  unfold peer_get. wp_run. apply wp_on_peers. eapply wp_deref; [exact Hp|]. wp_run. by rewrite Hid.
Qed.

(** The syncer returns once the end is signalled, having taken all peers before. *)
Theorem syncer_returns l1 l2 : (forall x, x ∈ l1 -> x <> NoMorePeers) -> syncer (l1 ++ NoMorePeers :: l2) = Some l2.
Proof.
  induction l1 as [|[a|] l IH]; intros Hl; cbn; [done|apply IH; intros x Hx; apply Hl; by right|]. exfalso. by apply (Hl NoMorePeers); [left|].
Qed.

End Spec.
End Api.
