(* ===== verification/Utils.v ===== *)
(** * Utilities: migrations, the execution queue, bit arrays

    [src/utils/migration] (the versions of a database), [src/gossip/execqueue.go]
    (functions executed one at a time), [src/utils/bits.go] (numbers of less than
    8 bits packed across byte boundaries). *)

From Stdlib Require Import ZArith Lia Bool.
From stdpp Require Import base list numbers option strings gmap.
From S2P Require Import Prelude Kv.
Local Open Scope Z_scope.

(** ** Migrations *)

Module Migration.

Section Migration.
Context `{Kv}.

(** The data the steps work on, and the identifiers of their names
    (hexadecimal Keccak-256 digests). *)
Context {D : Type} (keccak_hex : string -> list Z).

(** The state: the table of versions and the data. *)
Definition world : Type := tbl * D.
Abbreviation M := (stm world).

(** A chain of steps, the last one first; the very first has no [exec]. *)
Inductive Migration :=
| Begin (name : string)
| Next_ (name : string) (exec : stm D (option error)) (prev : Migration).

Definition name_of (m : Migration) : string := match m with Begin n => n | Next_ n _ _ => n end.

(** [Next] panics on an empty name. *)
Definition Next (m : Migration) (name : string) (exec : stm D (option error)) : go Migration :=
  if bool_decide (name = EmptyString) then Panics (PanicMsg "empty name") else Ret (Next_ name exec m).

Definition ID (m : Migration) : list Z := keccak_hex (name_of m).

Fixpoint IDs (m : Migration) : list (list Z) :=
  match m with Begin _ => [ID m] | Next_ _ _ prev => IDs prev ++ [ID m] end.

Definition idKey : list Z := [105; 100].

Definition GetID : M (list Z) := fun w =>
  match kv_get (fst w) idKey with
  | Ret id => Ret (default [] id, w)
  | Err _ => Exits "Failed to get key-value"
  | Panics p => Panics p
  | Exits x => Exits x
  end.

Definition SetID (id : list Z) : M unit := fun w =>
  match kv_put (fst w) idKey id with
  | Ret t => Ret (tt, (t, snd w))
  | Err _ => Exits "Failed to put key-value"
  | Panics p => Panics p
  | Exits x => Exits x
  end.

Definition on_data {A} (m : stm D A) : M A := fun w =>
  match m (snd w) with
  | Ret (a, d) => Ret (a, (fst w, d))
  | Err e => Err e
  | Panics p => Panics p
  | Exits x => Exits x
  end.

Definition errUnknownVersion : error := Error "unknown version".

(** One step, after the ones before it. *)
Definition apply_step (exec : stm D (option error)) (id : list Z) : M (option error) :=
  err ← on_data exec;
  match err with
  | Some e => mret (Some e)
  | None => _ ← SetID id; mret None
  end.

Fixpoint Exec (m : Migration) : M (option error) :=
  currID ← GetID;
  match m with
  | Begin _ => mret (if bool_decide (currID = []) then None else Some errUnknownVersion)
  | Next_ _ exec prev =>
      if bool_decide (currID = ID m) then mret None
      else
        err ← Exec prev;
        match err with
        | Some e => mret (Some e)
        | None => apply_step exec (ID m)
        end
  end.

(** *** The specification: run what the stored version does not cover yet *)

(** The steps in the order they are applied. *)
Fixpoint steps (m : Migration) : list (list Z * stm D (option error)) :=
  match m with Begin _ => [] | Next_ _ exec prev => steps prev ++ [(ID m, exec)] end.

(** The steps after version [cur]; [None] if the chain does not have it. *)
Fixpoint after (cur : list Z) (l : list (list Z * stm D (option error))) : option (list (list Z * stm D (option error))) :=
  match l with
  | [] => None
  | (i, _) :: l => if bool_decide (i = cur) then Some l else after cur l
  end.

Definition pending (m : Migration) (cur : list Z) : option (list (list Z * stm D (option error))) :=
  if bool_decide (cur = []) then Some (steps m) else after cur (steps m).

(** Apply steps in order until one fails. *)
Fixpoint run (l : list (list Z * stm D (option error))) : M (option error) :=
  match l with
  | [] => mret None
  | (i, exec) :: l =>
      err ← apply_step exec i;
      match err with Some e => mret (Some e) | None => run l end
  end.

(** Versions are distinct and none is empty. *)
Definition chain_ok (m : Migration) : Prop := NoDup (fst <$> steps m) /\ [] ∉ fst <$> steps m.

Context {KL : KvLaws H}.

Definition version_of (w : world) : list Z := default [] (kv_map (fst w) !! idKey).

(** Reading the version and going on. *)
Lemma GetID_then {A} (f : list Z -> M A) w :
  (c ← GetID; f c) w = f (version_of w) w \/ exists x, (c ← GetID; f c) w = Exits x /\ kv_may_fail.
Proof.
  unfold mbind, stm_bind, GetID, version_of. pose proof (kv_get_ok (fst w) idKey) as Hg.
  destruct (kv_get (fst w) idKey) as [r|x|x|x]; cbn [or_err] in Hg; [left|right; by eexists|done|done]. by rewrite Hg.
Qed.

Lemma run_app l k w : run (l ++ k) w = (err ← run l; match err with Some e => mret (Some e) | None => run k end) w.
Proof.
  revert w. induction l as [|[i exec] l IH]; intros w; [done|]. cbn [run app]. unfold mbind, stm_bind.
  destruct (apply_step exec i w) as [[[e|] w']|x|x|x]; done.
Qed.

Lemma run_snoc l i exec w :
  match run l w with
  | Ret (err, w') => match err with Some e => mret (Some e) | None => apply_step exec i end w'
  | Err e => Err e
  | Panics p => Panics p
  | Exits x => Exits x
  end = run (l ++ [(i, exec)]) w.
Proof.
  rewrite run_app. unfold mbind, stm_bind. destruct (run l w) as [[[e|] w']|x|x|x]; try done.
  cbn [run]. unfold mbind, stm_bind. by destruct (apply_step exec i w') as [[[e|] w'']|x|x|x].
Qed.

Lemma after_app cur l i exec : after cur (l ++ [(i, exec)]) =
  match after cur l with Some k => Some (k ++ [(i, exec)]) | None => if bool_decide (i = cur) then Some [] else None end.
Proof. induction l as [|[j ex] l IH]; [done|]. cbn [after app]. destruct (bool_decide (j = cur)); [done|exact IH]. Qed.

Lemma after_in cur l : is_Some (after cur l) -> cur ∈ fst <$> l.
Proof.
  induction l as [|[j ex] l IH]; cbn [after]; [by intros [? ?]|]. case_bool_decide; [subst; intros _; left|]. intros Hx. right. by apply IH.
Qed.

(** The result of [Exec] on a store whose table can be read. *)
Definition outcome (m : Migration) (w : world) : go (option error * world) :=
  match pending m (version_of w) with Some l => run l w | None => Ret (Some errUnknownVersion, w) end.

Lemma Exec_outcome m w : chain_ok m -> Exec m w = outcome m w \/ exists x, Exec m w = Exits x /\ kv_may_fail.
Proof.
  unfold outcome, pending. revert w. induction m as [n|n exec prev IH]; intros w [Hnd Hne]; cbn [Exec steps].
  - destruct (GetID_then (fun c => mret (if bool_decide (c = []) then None else Some errUnknownVersion)) w) as [->|(x & -> & Hx)];
      [left; cbn; by case_bool_decide|right; by exists x].
  - cbn [steps] in Hnd, Hne. rewrite fmap_app in Hnd, Hne. cbn [fmap list_fmap fst] in Hnd, Hne.
    apply NoDup_app in Hnd as (Hnd & Hdis & _). rewrite not_elem_of_app, list_elem_of_singleton in Hne. destruct Hne as [Hne Hi].
    match goal with |- mbind ?f _ w = _ \/ _ => destruct (GetID_then f w) as [->|(x & -> & Hx)]; [|right; by exists x] end. cbv beta.
    set (v := version_of w). set (i := ID (Next_ n exec prev)) in *. rewrite after_app.
    destruct (bool_decide_reflect (v = i)) as [E|E].
    + rewrite bool_decide_false by congruence. left.
      destruct (after v (steps prev)) eqn:Ea; [|by rewrite bool_decide_true].
      exfalso. apply (Hdis v); [apply after_in; by rewrite Ea|]. rewrite E. left.
    + unfold mbind, stm_bind. destruct (IH w (conj Hnd Hne)) as [->|(x & -> & Hx)]; [|right; by exists x]. left. fold v.
      rewrite (bool_decide_false (i = v)) by congruence. case_bool_decide as Hv; [apply run_snoc|].
      destruct (after v (steps prev)) as [k|]; [apply run_snoc|done].
Qed.

(** *** Resuming *)

Lemma apply_step_version exec i w r w' : apply_step exec i w = Ret (r, w') ->
  version_of w' = match r with None => i | Some _ => version_of w end.
Proof.
  unfold apply_step, mbind, stm_bind, on_data. destruct (exec (snd w)) as [[[e|] d]|x|x|x]; try done.
  - by intros [= <- <-].
  - unfold SetID. pose proof (kv_put_ok (fst w) idKey i) as Hp. cbn [fst snd]. destruct (kv_put (fst w) idKey i) as [t|x|x|x]; try done.
    intros [= <- <-]. cbn in Hp. unfold version_of. cbn [fst]. by rewrite Hp, lookup_insert_eq.
Qed.

(** Where a run of steps ends: at its end, or before a step that failed. *)
Lemma run_version l w r w' : run l w = Ret (r, w') ->
  exists done_ todo, l = done_ ++ todo /\ version_of w' = default (version_of w) (fst <$> last done_) /\ (r = None <-> todo = []).
Proof.
  revert w. induction l as [|[i exec] l IH]; intros w; cbn [run]; [intros [= <- <-]; by exists [], []|].
  unfold mbind, stm_bind. destruct (apply_step exec i w) as [[[e|] w1]|x|x|x] eqn:Es; try done.
  - intros [= <- <-]. exists [], ((i, exec) :: l). rewrite (apply_step_version _ _ _ _ _ Es). by split_and!.
  - intros Hr. destruct (IH w1 Hr) as (d & t & -> & Hv & Ht). exists ((i, exec) :: d), t. split; [done|]. split; [|done].
    rewrite Hv, (apply_step_version _ _ _ _ _ Es). rewrite last_cons. by destruct (last d) as [[j ex]|].
Qed.

(** The steps after the last of a prefix are the rest. *)
Lemma after_prefix l i exec t : NoDup (fst <$> (l ++ (i, exec) :: t)) -> after i (l ++ (i, exec) :: t) = Some t.
Proof.
  induction l as [|[j ex] l IH]; cbn [app after fmap list_fmap fst]; [by rewrite bool_decide_true|].
  intros [Hj Hnd]%NoDup_cons. rewrite bool_decide_false; [by apply IH|]. intros ->. apply Hj.
  rewrite fmap_app. apply elem_of_app. right. left.
Qed.

Lemma after_split cur l k : after cur l = Some k -> exists l1 ex, l = l1 ++ (cur, ex) :: k.
Proof.
  induction l as [|[j ex] l IH]; cbn [after]; [done|]. case_bool_decide as Hj; [intros [= <-]; subst; by exists [], ex|].
  intros (l1 & ex' & ->)%IH. by exists ((j, ex) :: l1), ex'.
Qed.

Lemma pending_suffix m cur l : pending m cur = Some l -> exists l1, steps m = l1 ++ l /\ (l1 = [] /\ cur = [] \/ exists l2 ex, l1 = l2 ++ [(cur, ex)]).
Proof.
  unfold pending. case_bool_decide as Hc; [intros [= <-]; exists []; by split; [|left]|]. intros (l1 & ex & E)%after_split.
  exists (l1 ++ [(cur, ex)]). rewrite <- app_assoc. split; [done|]. right. by exists l1, ex.
Qed.

Lemma pending_resumes m cur l d t : chain_ok m -> pending m cur = Some l -> l = d ++ t ->
  pending m (default cur (fst <$> last d)) = Some t.
Proof.
  intros [Hnd Hne] Hp ->. destruct (pending_suffix m cur _ Hp) as (l1 & E & Hcase).
  destruct (last d) as [[i ex]|] eqn:El; cbn [fmap option_fmap option_map default fst].
  - apply last_Some in El as [d' ->]. unfold pending. rewrite E in Hnd, Hne |- *. rewrite bool_decide_false.
    + rewrite <- (app_assoc d'), (app_assoc l1) in *. by apply after_prefix.
    + intros Hi0. cbv in Hi0. subst i. apply Hne. rewrite !fmap_app. apply elem_of_app. right. apply elem_of_app. left. apply elem_of_app. right. left.
  - apply last_None in El as ->. exact Hp.
Qed.

(** Migrations are applied once, in order, and resume.  [Exec] applies exactly
    the steps after the stored version, in order, storing the version of each
    step that succeeded; a version the chain does not have is refused with
    nothing changed.  After a failed step the pending ones are that step and the
    later ones, so that the next execution resumes there; after success nothing
    is pending. *)
Theorem migrations_resume (m : Migration) (w : world) : chain_ok m ->
  match pending m (version_of w) with
  | None => or_exit (Exec m w) (fun r => r = (Some errUnknownVersion, w))
  | Some l => (Exec m w = run l w \/ exists x, Exec m w = Exits x /\ kv_may_fail) /\
      forall r w', Exec m w = Ret (r, w') -> exists t, t `suffix_of` l /\ pending m (version_of w') = Some t /\ (r = None <-> t = [])
  end.
Proof.
  intros Hm. pose proof (Exec_outcome m w Hm) as Ho. unfold outcome in Ho. destruct (pending m (version_of w)) as [l|] eqn:Ep.
  - split; [exact Ho|]. intros r w' Er. destruct Ho as [Ho|(x & Ho & _)]; rewrite Er in Ho; [|done].
    destruct (run_version l w r w' (eq_sym Ho)) as (d & t & -> & Hv & Ht). exists t. split; [by exists d|]. split; [|done].
    rewrite Hv. by eapply pending_resumes.
  - by destruct Ho as [->|(x & -> & Hx)].
Qed.

End Migration.

Module Sample.
#[local] Existing Instance kv_gmap.
#[local] Existing Instance kv_gmap_laws.

(** Three steps that count; the last one fails the first time. *)
Definition keccak_any (s : string) : list Z := match s with String a _ => [Z.of_N (Ascii.N_of_ascii a)] | EmptyString => [] end.
Definition count : stm Z (option error) := fun d => Ret (None, d + 1).
Definition fails_at_two : stm Z (option error) := fun d => Ret (if d =? 2 then Some (Error "try again") else None, d + 10).
Definition sample_chain : Migration := Next_ "c" fails_at_two (Next_ "b" count (Next_ "a" count (Begin "app"))).

Lemma sample_chain_ok : chain_ok keccak_any sample_chain.
Proof. split; by_decide. Qed.

Example first_run : exists t, Exec keccak_any sample_chain (∅, 0) = Ret (Some (Error "try again"), (t, 12)) /\
  exists t', Exec keccak_any sample_chain (t, 12) = Ret (None, (t', 22)).
Proof. eexists. split; [vm_compute; reflexivity|]. eexists. vm_compute. reflexivity. Qed.

Lemma migrations_resume_witness : chain_ok keccak_any sample_chain /\
  (Exec keccak_any sample_chain (∅, 0) = run (steps keccak_any sample_chain) (∅, 0) \/
   exists x, Exec keccak_any sample_chain (∅, 0) = Exits x /\ kv_may_fail).
Proof. split; [exact sample_chain_ok|]. exact (proj1 (migrations_resume keccak_any sample_chain (∅, 0) sample_chain_ok)). Defined.

End Sample.
End Migration.

(** ** The execution queue *)

Module ExecQueue.

Section Queue.
Context {F : Type}.

(** The goroutine of [loop]: waiting for a function, executing one, or ended. *)
Inductive loop_state := Waiting | Executing (f : F) | Ended.

Record execQueue := MkQueue {
  funcs : list F;
  cap : Z;
  closeWait : bool;       (** the channel is made: the queue is closed *)
  loop : loop_state;
  executed : list F;      (** started, in order *)
  accepted : list F       (** queued with success, in order *)
}.

Definition newExecQueue (capacity : Z) : execQueue := MkQueue [] capacity false Waiting [] [].

Definition isClosed (q : execQueue) : bool := closeWait q.

Definition canQueue (q : execQueue) : bool := negb (isClosed q) && (zlen (funcs q) <? cap q).

Definition queue (f : F) (q : execQueue) : bool * execQueue :=
  if canQueue q
  then (true, MkQueue (funcs q ++ [f]) (cap q) (closeWait q) (loop q) (executed q) (accepted q ++ [f]))
  else (false, q).

Definition clear (q : execQueue) : execQueue := MkQueue [] (cap q) (closeWait q) (loop q) (executed q) (accepted q).

Definition quit (q : execQueue) : execQueue := MkQueue (funcs q) (cap q) true (loop q) (executed q) (accepted q).

(** [waitNext] up to the point where it blocks or returns, and the start of the
    function it returns; without one the loop ends. *)
Definition waitNext (drop : bool) (q : execQueue) : execQueue :=
  let fs := if drop && (0 <? zlen (funcs q)) then tail (funcs q) else funcs q in
  if isClosed q then MkQueue fs (cap q) (closeWait q) Ended (executed q) (accepted q)
  else match fs with
       | f :: _ => MkQueue fs (cap q) (closeWait q) (Executing f) (executed q ++ [f]) (accepted q)
       | [] => MkQueue fs (cap q) (closeWait q) Waiting (executed q) (accepted q)
       end.

Inductive action := Queue (f : F) | Clear | Quit | LoopTurn.

(** A turn of the loop: wake up, or return from the function. *)
Definition turn (q : execQueue) : execQueue :=
  match loop q with
  | Waiting => waitNext false q
  | Executing _ => waitNext true q
  | Ended => q
  end.

Definition step (a : action) (q : execQueue) : execQueue :=
  match a with
  | Queue f => snd (queue f q)
  | Clear => clear q
  | Quit => quit q
  | LoopTurn => turn q
  end.

Definition run_actions (l : list action) (q : execQueue) : execQueue := foldl (fun q a => step a q) q l.

(** The function that is running is still the first of the queue. *)
Definition waiting_funcs (q : execQueue) : list F :=
  match loop q with Executing _ => tail (funcs q) | _ => funcs q end.

Record queue_ok (q : execQueue) : Prop := {
  q_fifo : loop q <> Ended -> accepted q = executed q ++ waiting_funcs q;
  q_prefix : executed q `prefix_of` accepted q;
  q_running : forall f, loop q = Executing f -> exists l, funcs q = f :: l /\ last (executed q) = Some f;
  q_cap : zlen (funcs q) <= cap q
}.

Lemma turn_ok q : queue_ok q -> queue_ok (turn q) /\ cap (turn q) = cap q.
Proof.
  intros [Hf Hp Hr Hc]. unfold turn. destruct q as [fs c cl lo ex ac]. cbn [loop funcs cap executed accepted closeWait] in *.
  destruct lo as [|f|]; [| |by split].
  - specialize (Hf ltac:(done)). unfold waiting_funcs in Hf. cbn [loop funcs] in Hf. unfold waitNext, isClosed. cbn [funcs cap closeWait executed accepted andb].
    destruct cl; [by split|]. destruct fs as [|g fs]; [by split|]. split; [|done]. constructor; cbn [funcs cap loop executed accepted]; try done.
    + intros _. unfold waiting_funcs. cbn. by rewrite <- app_assoc.
    + subst ac. exists fs. by rewrite <- app_assoc.
    + intros h [= ->]. exists fs. by rewrite last_snoc.
  - specialize (Hf ltac:(done)). unfold waiting_funcs in Hf. cbn [loop funcs] in Hf. destruct (Hr f eq_refl) as (l & -> & _).
    rewrite zlen_cons in Hc. pose proof (zlen_nonneg l). unfold waitNext, isClosed. cbn [funcs cap closeWait executed accepted].
    rewrite zlen_cons, (proj2 (Z.ltb_lt 0 (1 + zlen l))) by lia. cbn [andb tail] in *.
    destruct cl; [split; [constructor; cbn [funcs cap loop executed accepted]; try done; lia|done]|].
    destruct l as [|g l]; (split; [|done]); constructor; cbn [funcs cap loop executed accepted]; try done; try lia.
    + intros _. unfold waiting_funcs. cbn. by rewrite <- app_assoc.
    + subst ac. exists l. by rewrite <- app_assoc.
    + intros h [= ->]. exists l. by rewrite last_snoc.
Qed.

Lemma queue_step_ok f q : queue_ok q -> queue_ok (snd (queue f q)) /\ cap (snd (queue f q)) = cap q.
Proof.
  intros [Hf Hp Hr Hc]. unfold queue, canQueue. destruct (negb (isClosed q) && (zlen (funcs q) <? cap q)) eqn:E; [|by split].
  apply andb_true_iff in E as [_ E]. apply Z.ltb_lt in E. split; [|done]. cbn [snd]. constructor; cbn [funcs cap loop executed accepted].
  - intros Hl. rewrite (Hf Hl), <- app_assoc. f_equal. unfold waiting_funcs. cbn [loop funcs].
    destruct (loop q) as [|g|] eqn:El; try done. destruct (Hr g eq_refl) as (l & -> & _). done.
  - by apply prefix_app_r.
  - intros g Hg. destruct (Hr g Hg) as (l & -> & Hl). exists (l ++ [f]). done.
  - rewrite zlen_app. change (zlen [f]) with 1. lia.
Qed.

Lemma action_ok a q : a <> Clear -> queue_ok q -> queue_ok (step a q) /\ cap (step a q) = cap q.
Proof.
  intros Ha Hq. destruct a; cbn [step]; [by apply queue_step_ok|done| |by apply turn_ok].
  split; [|done]. destruct Hq as [Hf Hp Hr Hc]. by constructor.
Qed.

Lemma run_actions_ok l q : Forall (fun a => a <> Clear) l -> queue_ok q -> queue_ok (run_actions l q) /\ cap (run_actions l q) = cap q.
Proof.
  intros Hl. revert q. induction Hl as [|a l Ha Hl IH]; intros q Hq; [by split|]. cbn [run_actions foldl].
  destruct (action_ok a q Ha Hq) as [Hq' Hc]. destruct (IH _ Hq') as [H1 H2]. split; [exact H1|]. etrans; [exact H2|exact Hc].
Qed.

(** Functions are executed in the order they were queued, each at most once.
    In every interleaving of callers with the loop (no [clear]), what has been
    started is a prefix of what was accepted; until the loop ends the rest is
    exactly what waits, which never exceeds the capacity; and a turn of the loop
    starts the next function, or ends the loop once the queue is closed. *)
Theorem exec_queue_fifo (capacity : Z) (l : list action) : 0 <= capacity -> Forall (fun a => a <> Clear) l ->
  let q := run_actions l (newExecQueue capacity) in
  executed q `prefix_of` accepted q /\ zlen (funcs q) <= capacity /\
  (loop q <> Ended -> accepted q = executed q ++ waiting_funcs q /\
     (closeWait q = true -> loop (turn q) = Ended) /\
     (closeWait q = false -> forall f fs, waiting_funcs q = f :: fs -> loop (turn q) = Executing f)).
Proof.
  intros Hc Hl q. assert (H0 : queue_ok (newExecQueue capacity)) by (constructor; done || (cbn; lia)).
  destruct (run_actions_ok l _ Hl H0) as [[Hf Hp Hr Hcap] Ecap]. fold q in Hf, Hp, Hr, Hcap, Ecap. rewrite Ecap in Hcap. cbn in Hcap.
  split; [done|]. split; [done|]. intros Hne. split; [by apply Hf|]. unfold turn, waitNext, isClosed, waiting_funcs in *.
  destruct (loop q) as [|f|] eqn:El; [| |done]; (split; [by intros ->|]); intros -> g fs E.
  - by rewrite E.
  - destruct (Hr f eq_refl) as (k & Ek & _). rewrite Ek in *. cbn [tail] in E. subst k. rewrite !zlen_cons.
    rewrite (proj2 (Z.ltb_lt 0 _)) by (pose proof (zlen_nonneg fs); lia). done.
Qed.

End Queue.

Lemma exec_queue_fifo_witness :
  let q := run_actions [Queue 1; Queue 2; LoopTurn; Queue 3; LoopTurn] (newExecQueue 2) in
  executed q = [1; 2] /\ accepted q = [1; 2] /\ executed q `prefix_of` accepted q.
Proof.
  assert (Hl : Forall (fun a => a <> Clear) [Queue 1; Queue 2; LoopTurn; Queue 3; LoopTurn]) by (repeat constructor; discriminate).
  pose proof (exec_queue_fifo 2 [Queue 1; Queue 2; LoopTurn; Queue 3; LoopTurn] ltac:(lia) Hl) as [H _].
  split; [reflexivity|]. split; [reflexivity|exact H].
Defined.

(** A function queued while another runs is lost if [clear] was called in
    between: the loop drops it instead of the one that has finished. *)
Theorem clear_loses_next :
  let q := run_actions [Queue 1; LoopTurn; Clear; Queue 2; LoopTurn] (newExecQueue 2) in
  accepted q = [1; 2] /\ executed q = [1] /\ funcs q = [] /\ loop q = Waiting.
Proof. by vm_compute. Qed.

End ExecQueue.

(** ** Bit arrays across byte boundaries *)

Module WideBits.

Record BitArray := MkBitArray { bits : Z; count : Z; size : Z }.

Definition calcSize (b n : Z) : Z :=
  let t := u64 (b * n) in Z.quot t 8 + (if Z.rem t 8 >? 0 then 1 else 0).

Definition NewBitArray (b n : Z) : go BitArray :=
  if b >=? 8 then Panics (PanicMsg "too big size, use bytes") else Ret (MkBitArray b n (calcSize b n)).

Record BitArrayWriter := MkWriter { w_array : BitArray; w_offset : Z; w_raw : list Z; w_i : Z; w_buf : Z; w_n : Z }.
Record BitArrayReader := MkReader { r_array : BitArray; r_offset : Z; r_raw : list Z; r_mask : Z; r_i : Z; r_buf : Z; r_n : Z }.

Definition Writer (a : BitArray) (w : list Z) : go BitArrayWriter :=
  if negb (zlen w =? size a) then Panics (PanicMsg "need .Size() bytes for writing") else Ret (MkWriter a 0 w 0 0 0).

Definition Reader (a : BitArray) (r : list Z) : go BitArrayReader :=
  if negb (zlen r =? size a) then Panics (PanicMsg "need .Size() bytes for reading")
  else Ret (MkReader a 0 r (u16 (u16 (Z.shiftl 1 (bits a)) - 1)) 0 0 0).

(** [for a.n >= 8 { a.offset++; a.buf = a.buf >> 8; a.n -= 8 }]; [n] is below 16. *)
Definition carry (w : BitArrayWriter) : BitArrayWriter :=
  if w_n w >=? 8 then MkWriter (w_array w) (w_offset w + 1) (w_raw w) (w_i w) (Z.shiftr (w_buf w) 8) (w_n w - 8) else w.

Definition Push (v : Z) (w : BitArrayWriter) : go BitArrayWriter :=
  if v <? 0 then Panics (PanicMsg "only positives accepts")
  else if v >=? Z.shiftl 1 (bits (w_array w)) then Panics (PanicMsg "too big number")
  else if w_i w >=? count (w_array w) then Panics (PanicMsg "array is full")
  else
    let buf := u16 (w_buf w + u16 (Z.shiftl v (w_n w))) in
    let n := w_n w + bits (w_array w) in
    raw ← go_update (w_raw w) (w_offset w) (u8 buf);
    let w := carry (MkWriter (w_array w) (w_offset w) raw (w_i w) buf n) in
    Ret (MkWriter (w_array w) (w_offset w) (w_raw w) (w_i w + 1) (w_buf w) (w_n w)).

Definition Pop (r : BitArrayReader) : go (Z * BitArrayReader) :=
  if r_i r >=? count (r_array r) then Panics (PanicMsg "no numbers more")
  else
    '(offset, buf, n) ← (if r_n r <? bits (r_array r)
                         then v ← go_index (r_raw r) (r_offset r);
                              Ret (r_offset r + 1, u16 (r_buf r + u16 (Z.shiftl v (r_n r))), r_n r + 8)
                         else Ret (r_offset r, r_buf r, r_n r));
    Ret (Z.land buf (r_mask r),
         MkReader (r_array r) offset (r_raw r) (r_mask r) (r_i r + 1) (Z.shiftr buf (bits (r_array r))) (n - bits (r_array r))).

Fixpoint push_all (vs : list Z) (w : BitArrayWriter) : go BitArrayWriter :=
  match vs with [] => Ret w | v :: vs => w ← Push v w; push_all vs w end.

Fixpoint pop_n (n : nat) (r : BitArrayReader) : go (list Z) :=
  match n with O => Ret [] | S n => '(v, r) ← Pop r; vs ← pop_n n r; Ret (v :: vs) end.

(** Write numbers into a fresh array and read them back. *)
Definition write_read (b : Z) (vs : list Z) : go (list Z) :=
  a ← NewBitArray b (zlen vs);
  w ← Writer a (replicate (Z.to_nat (size a)) 0);
  w ← push_all vs w;
  r ← Reader a (w_raw w);
  pop_n (length vs) r.

Example eight_numbers : write_read 3 [1; 2; 3; 4; 5; 6; 7; 0] = Ret [1; 2; 3; 4; 5; 6; 7; 0].
Proof. reflexivity. Qed.

(** The last number is cut when its bits cross into a byte that no later number
    writes. *)
Theorem last_number_cut : write_read 3 [0; 0; 4] = Ret [0; 0; 0].
Proof. reflexivity. Qed.

End WideBits.
