(* ===== verification/Helpers.v ===== *)
(** * Small packages the node's files share

    [src/utils/uint2hash.go] and [to_ftm.go] (conversions of numbers), the bytes
    of a timestamp ([src/inter/time.go]), [src/utils/throughput] (the meter of
    processed bytes), [src/logger/periodic_log.go] (messages written once in a
    period), and [src/utils/scheme.go] (texts side by side). *)

From Stdlib Require Import ZArith Lia Bool.
From stdpp Require Import base list numbers option strings.
From S2P Require Import Prelude.
Local Open Scope Z_scope.

(** ** Numbers as bytes *)

(** go-ethereum's [common.BytesToHash] crops from the left and pads on the left;
    lachesis-base's [bigendian] is exact on 8 bytes. *)
Class FixedBytes := {
  BytesToHash : list Z -> list Z;
  Uint64ToBytes : Z -> list Z;
  BytesToUint64 : list Z -> Z;
  BytesToHash_pads : forall b, (length b <= 32)%nat -> BytesToHash b = replicate (32 - length b) 0 ++ b;
  BytesToHash_crops : forall b, (32 < length b)%nat -> BytesToHash b = drop (length b - 32) b;
  BytesToUint64_ToBytes : forall n, is_uint 64 n -> BytesToUint64 (Uint64ToBytes n) = n
}.

Module Convert.

(** [big.Int.Bytes]: the absolute value, most significant byte first, without
    leading zeros. *)
Fixpoint le_digits (fuel : nat) (n : Z) : list Z :=
  match fuel with
  | O => []
  | S fuel => if n <=? 0 then [] else n mod 256 :: le_digits fuel (n / 256)
  end.
Definition big_Bytes (n : Z) : list Z := rev (le_digits (Z.to_nat (Z.abs n)) (Z.abs n)).

Definition be_val (l : list Z) : Z := foldl (fun a b => 256 * a + b) 0 l.

Section Definitions.
Context `{FixedBytes}.

Definition BigTo256 (b : Z) : list Z := BytesToHash (big_Bytes b).
Definition U64to256 (n : Z) : list Z := BigTo256 n.
Definition I64to256 (n : Z) : list Z := BigTo256 n.

Definition ToFtm (ftm : Z) : Z := ftm * 10 ^ 18.

(** [Timestamp.Bytes] and [BytesToTimestamp]. *)
Definition Timestamp_Bytes (t : Z) : list Z := Uint64ToBytes t.
Definition BytesToTimestamp (b : list Z) : Z := BytesToUint64 b.

Lemma be_val_app l x : be_val (l ++ [x]) = 256 * be_val l + x.
Proof. unfold be_val. by rewrite foldl_app. Qed.

Lemma be_val_zeros n l : be_val (replicate n 0 ++ l) = be_val l.
Proof. unfold be_val. rewrite foldl_app. f_equal. induction n as [|n IH]; [done|]. cbn. exact IH. Qed.

Lemma le_digits_val fuel n : 0 <= n -> n <= Z.of_nat fuel -> be_val (rev (le_digits fuel n)) = n.
Proof.
  revert n. induction fuel as [|fuel IH]; intros n Hn Hf; cbn [le_digits]; [by replace n with 0 by lia|].
  destruct (Z.leb_spec n 0); [by replace n with 0 by lia|]. cbn [rev]. rewrite be_val_app, IH.
  - pose proof (Z.div_mod n 256 ltac:(done)). lia.
  - apply Z.div_pos; lia.
  - assert (n / 256 < n) by (apply Z.div_lt; lia). lia.
Qed.

Lemma le_digits_length k : forall fuel n, n < 256 ^ Z.of_nat k -> (length (le_digits fuel n) <= k)%nat.
Proof.
  induction k as [|k IH]; intros [|fuel] n Hn; cbn [le_digits]; try (cbn; lia); destruct (Z.leb_spec n 0); try (cbn; lia).
  cbn [length]. apply le_n_S, IH. apply Z.div_lt_upper_bound; [lia|]. rewrite Nat2Z.inj_succ, Z.pow_succ_r in Hn by lia. lia.
Qed.

Lemma big_Bytes_length k n : Z.abs n < 256 ^ Z.of_nat k -> (length (big_Bytes n) <= k)%nat.
Proof. intros Hn. unfold big_Bytes. rewrite length_rev. by apply le_digits_length. Qed.

(** A number of at most 256 bits has 32 bytes that give its absolute value back;
    so different unsigned numbers have different hashes. *)
Theorem BigTo256_value n : Z.abs n < 2 ^ 256 -> length (BigTo256 n) = 32%nat /\ be_val (BigTo256 n) = Z.abs n.
Proof.
  intros Hn. pose proof (big_Bytes_length 32 n Hn) as Hl. unfold BigTo256. rewrite BytesToHash_pads by done. split.
  - rewrite length_app, length_replicate. lia.
  - rewrite be_val_zeros. unfold big_Bytes. apply le_digits_val; lia.
Qed.

Lemma U64to256_inj n m : is_uint 64 n -> is_uint 64 m -> U64to256 n = U64to256 m -> n = m.
Proof.
  unfold is_uint, U64to256. intros Hn Hm E. assert (B : 2 ^ 64 < 2 ^ 256) by done.
  pose proof (proj2 (BigTo256_value n ltac:(lia))). pose proof (proj2 (BigTo256_value m ltac:(lia))). rewrite E in *. lia.
Qed.

(** The sign of an int64 is lost. *)
Lemma I64to256_unsigned n : I64to256 (- n) = I64to256 n.
Proof. unfold I64to256, BigTo256, big_Bytes. by rewrite Z.abs_opp. Qed.

Lemma timestamp_roundtrip t : is_uint 64 t -> BytesToTimestamp (Timestamp_Bytes t) = t.
Proof. apply BytesToUint64_ToBytes. Qed.

End Definitions.
End Convert.

(** ** The meter of a throughput *)

Module Throughput.

Record Meter := MkMeter { start : Z; bytes : Z }.

Definition New (now : Z) : Meter := MkMeter now 0.
Definition Mark (s : Z) (m : Meter) : Meter := MkMeter (start m) (u64 (bytes m + s)).
Definition Total (m : Meter) : Z := bytes m.

(** The total is the sum of the marks modulo 2^64. *)
Lemma Total_sum now l : Total (foldl (fun m s => Mark s m) (New now) l) = u64 (foldl Z.add 0 l).
Proof.
  unfold New. assert (G : forall m, bytes m = u64 (bytes m) -> Total (foldl (fun m s => Mark s m) m l) = u64 (foldl Z.add (bytes m) l)).
  2: { by rewrite G. }
  induction l as [|s l IH]; intros m Hm; [done|]. cbn [foldl]. rewrite IH by (cbn; unfold u64; by rewrite Z.mod_mod).
  cbn [bytes Mark]. unfold u64. assert (A : forall x y, foldl Z.add x l mod 2 ^ 64 = foldl Z.add y l mod 2 ^ 64 \/ x mod 2 ^ 64 <> y mod 2 ^ 64).
  { clear. induction l as [|s l IH]; intros x y; cbn [foldl]; [destruct (decide (x mod 2 ^ 64 = y mod 2 ^ 64)); [by left|by right]|].
    destruct (IH (x + s) (y + s)) as [E|E]; [by left|]. right. intros Ex. apply E. by rewrite (Z.add_mod x), (Z.add_mod y), Ex by lia. }
  destruct (A ((bytes m + s) mod 2 ^ 64) (bytes m + s)) as [E|E]; [done|]. by rewrite Z.mod_mod in E.
Qed.

End Throughput.

(** ** A logger that is quiet for a period *)

Module Periodic.

Inductive level := Info | Warn | Error_ | Debug | Trace.

(** [prevLogTime] and what was written, with the times. *)
Record logger := MkLogger { prevLogTime : Z; written : list (Z * level * string) }.

(** The five methods differ in the level only; the two readings of the clock are
    [now] and [later]. *)
Definition log (lv : level) (now later period : Z) (msg : string) (l : logger) : logger :=
  if now - prevLogTime l >? period then MkLogger later (written l ++ [(now, lv, msg)]) else l.

(** The calls of a program, the clock going forward. *)
Record entry := MkEntry { e_level : level; e_now : Z; e_later : Z; e_period : Z; e_msg : string }.
Definition run (l : logger) (cs : list entry) : logger :=
  foldl (fun l c => log (e_level c) (e_now c) (e_later c) (e_period c) (e_msg c) l) l cs.

Fixpoint forward (from : Z) (cs : list entry) : Prop :=
  match cs with [] => True | c :: cs => from <= e_now c /\ e_now c <= e_later c /\ forward (e_later c) cs end.

Definition times (l : logger) : list Z := (fun w => w.1.1) <$> written l.

Fixpoint apart (d : Z) (l : list Z) : Prop :=
  match l with [] => True | x :: l => (match l with [] => True | y :: _ => x + d < y end) /\ apart d l end.

Lemma apart_snoc d l x : apart d l -> (forall y, last l = Some y -> y + d < x) -> apart d (l ++ [x]).
Proof.
  induction l as [|a l IH]; intros Ha Hx; [done|]. destruct Ha as [Ha Hl]. cbn [app apart]. split.
  - destruct l as [|b l]; cbn [app]; [by apply Hx|done].
  - apply IH; [done|]. intros y Hy. apply Hx. by destruct l.
Qed.

(** A period is kept: when all calls ask for at least [d], any two messages that
    are written are more than [d] apart, whatever their levels. *)
Theorem written_apart d cs l from : apart d (times l) -> (forall t, last (times l) = Some t -> t <= prevLogTime l) ->
  forward from cs -> Forall (fun c => d <= e_period c) cs -> apart d (times (run l cs)).
Proof.
  revert l from. induction cs as [|c cs IH]; intros l from Ha Hl Hf Hc; [done|]. destruct Hf as (_ & H2 & Hf).
  apply Forall_cons in Hc as [Hp Hc]. cbn [run foldl]. apply (IH _ (e_later c)); [..|done|done];
    unfold log; destruct (Z.gtb_spec (e_now c - prevLogTime l) (e_period c)); try done;
    unfold times; cbn [written prevLogTime]; rewrite fmap_app; cbn [fmap list_fmap fst].
  - apply apart_snoc; [done|]. intros y Hy. specialize (Hl y Hy). lia.
  - intros t. rewrite last_snoc. by intros [= <-].
Qed.

(** The first message is written. *)
Lemma first_written lv now later period msg l : period < now - prevLogTime l ->
  log lv now later period msg l = MkLogger later (written l ++ [(now, lv, msg)]).
Proof. intros Hp. unfold log. destruct (Z.gtb_spec (now - prevLogTime l) period); [done|lia]. Qed.

End Periodic.

(** ** Texts side by side *)

Module Columns.

(** A text is the list of its runes; its lines are limited in bytes. *)
Abbreviation text := (list Z).
Definition newline : Z := 10.
Definition rune_bytes (r : Z) : Z := if r <? 128 then 1 else if r <? 2048 then 2 else if r <? 65536 then 3 else 4.
Definition text_bytes (t : text) : Z := foldr (fun r n => rune_bytes r + n) 0 t.

(** [bufio.ScanLines]: up to each newline, and what is left at the end. *)
Fixpoint raw_lines (t cur : text) : list text :=
  match t with
  | [] => match cur with [] => [] | _ => [rev cur] end
  | r :: t => if r =? newline then rev cur :: raw_lines t [] else raw_lines t (r :: cur)
  end.

Definition dropCR (t : text) : text :=
  match rev t with 13 :: t' => rev t' | _ => t end.

(** The scanner stops at a line that does not fit its buffer. *)
Fixpoint scan (lines : list text) : list text :=
  match lines with
  | [] => []
  | l :: lines => if text_bytes l <? 65536 then dropCR l :: scan lines else []
  end.

Definition column (t : text) : list text := scan (raw_lines t []).
Definition width (col : list text) : Z := foldl (fun w l => if w <? zlen l then zlen l else w) 0 col.

(** [strings.Repeat] panics on a negative count. *)
Definition Repeat (n : Z) : go text :=
  if n <? 0 then Panics (PanicMsg "strings: negative Repeat count") else Ret (replicate (Z.to_nat n) 32).

(** One row: its text, and whether all columns have ended. *)
Fixpoint row (cols : list (list text)) (j : nat) : go (text * bool) :=
  match cols with
  | [] => Ret ([], true)
  | col :: cols =>
      '(s, more) ← match col !! j with
                   | Some s => pad ← Repeat (width col - zlen s); Ret (s ++ pad, true)
                   | None => pad ← Repeat (width col); Ret (pad, false)
                   end;
      '(rest, eof) ← row cols j;
      Ret (s ++ [9] ++ rest, negb more && eof)
  end.

(** The rows from [j] on; [None] when the fuel runs out. *)
Fixpoint rows (fuel : nat) (cols : list (list text)) (j : nat) : option (go text) :=
  match fuel with
  | O => None
  | S fuel =>
      match row cols j with
      | Ret (s, true) => Some (Ret (s ++ [newline]))
      | Ret (s, false) => r ← rows fuel cols (S j); Some (rest ← r; Ret (s ++ [newline] ++ rest))
      | Err e => Some (Err e)
      | Panics p => Some (Panics p)
      | Exits x => Some (Exits x)
      end
  end.

Definition height (cols : list (list text)) : nat := foldr (fun c n => length c `max` n)%nat O cols.

Definition TextColumns (texts : list text) : option (go text) :=
  let columns := column <$> texts in rows (S (height columns)) columns 0.

Lemma width_ge (col : list text) : forall w, w <= foldl (fun w l => if w <? zlen l then zlen l else w) w col /\
  Forall (fun l => zlen l <= foldl (fun w l => if w <? zlen l then zlen l else w) w col) col.
Proof.
  induction col as [|l col IH]; intros w; cbn [foldl]; [by split; [lia|constructor]|].
  destruct (IH (if w <? zlen l then zlen l else w)) as [H1 H2]. destruct (Z.ltb_spec w (zlen l)); (split; [lia|]); constructor; (lia || done).
Qed.

Definition total_width (cols : list (list text)) : nat := foldr (fun c n => Z.to_nat (width c) + 1 + n)%nat O cols.

(** Every row can be padded, and has the width of the widest lines. *)
Lemma row_spec cols j : exists s, row cols j = Ret (s, bool_decide (height cols <= j)%nat) /\ length s = total_width cols.
Proof.
  induction cols as [|col cols (s & E & Hs)]; [exists []; split; [by rewrite bool_decide_true by (cbn; lia)|done]|].
  destruct (width_ge col 0) as [H0 Hw]. fold (width col) in H0, Hw. cbn [row height foldr total_width]. fold (height cols) (total_width cols).
  destruct (col !! j) as [l|] eqn:El; unfold Repeat.
  - pose proof (proj1 (Forall_lookup _ _) Hw j l El) as Hl. cbn beta in Hl. apply lookup_lt_Some in El.
    destruct (Z.ltb_spec (width col - zlen l) 0); [lia|]. cbn [mbind go_bind]. rewrite E. cbn [mbind go_bind]. eexists. split.
    + cbn [negb andb]. rewrite bool_decide_false by lia. reflexivity.
    + rewrite !length_app, length_replicate. unfold zlen in *. cbn. lia.
  - apply lookup_ge_None in El. destruct (Z.ltb_spec (width col) 0); [lia|]. cbn [mbind go_bind]. rewrite E. cbn [mbind go_bind]. eexists. split.
    + cbn [negb andb]. rewrite (bool_decide_ext _ (length col `max` height cols <= j)%nat) by lia. reflexivity.
    + rewrite !length_app, length_replicate. cbn. lia.
Qed.

Lemma rows_spec cols fuel j : (j <= height cols)%nat -> (height cols - j < fuel)%nat ->
  exists ls, rows fuel cols j = Some (Ret (concat ((fun l => l ++ [newline]) <$> ls))) /\
    length ls = S (height cols - j) /\ Forall (fun l => length l = total_width cols) ls.
Proof.
  revert j. induction fuel as [|fuel IH]; intros j Hj Hf; [lia|]. cbn [rows]. destruct (row_spec cols j) as (s & E & Hs). rewrite E.
  case_bool_decide as Hh.
  - exists [s]. cbn. rewrite app_nil_r. split_and!; [done|lia|by constructor].
  - destruct (IH (S j)) as (ls & El & Hl & Hw); [lia..|]. rewrite El. exists (s :: ls). cbn [fmap list_fmap concat mbind option_bind go_bind].
    rewrite <- app_assoc. split_and!; [done|cbn; lia|by constructor].
Qed.

(** The texts are laid out side by side: the loop ends, no padding is negative,
    there is a row for each line of the longest text and a last one that is
    blank, and all rows have the same number of runes. *)
Theorem TextColumns_rectangular texts : exists ls,
  TextColumns texts = Some (Ret (concat ((fun l => l ++ [newline]) <$> ls))) /\
  length ls = S (height (column <$> texts)) /\ Forall (fun l => length l = total_width (column <$> texts)) ls.
Proof.
  unfold TextColumns. destruct (rows_spec (column <$> texts) (S (height (column <$> texts))) 0) as (ls & E & Hl & Hw); [lia..|].
  exists ls. rewrite Nat.sub_0_r in Hl. by split_and!.
Qed.

Example two_columns : TextColumns [[97; 10; 98; 99]; [120]] =
  Some (Ret [97; 32; 9; 120; 9; 10; 98; 99; 9; 32; 9; 10; 32; 32; 9; 32; 9; 10]).
Proof. reflexivity. Qed.

End Columns.
