(* ===== verification/Host.v ===== *)
(** * The host: strings, paths, home directories, the error lock

    What the node uses of Go's [strings], [strconv] and [path] packages;
    [src/cmd/miniopera/defaults.go] (the data directory), [expandHome] of
    [src/debug/api.go], [src/utils/errlock] (the file that keeps a node from
    starting after a permanent error) and [src/utils/checkpid.go].  The operating
    system is a parameter: its environment variables, users and files, and which
    accesses fail. *)

From Stdlib Require Import ZArith Lia Bool Ascii.
From stdpp Require Import base list numbers option strings pretty gmap.
From S2P Require Import Prelude.
Local Open Scope Z_scope.
Local Open Scope string_scope.

Module Str.

(** ** strings and strconv *)

(** [strings.SplitN(s, sep, 2)] for a separator of one byte: the parts before
    and after its first occurrence, or the whole string. *)
Fixpoint cut (sep : ascii) (s : string) : option (string * string) :=
  match s with
  | EmptyString => None
  | String c s =>
      if bool_decide (c = sep) then Some (EmptyString, s)
      else match cut sep s with Some (a, b) => Some (String c a, b) | None => None end
  end.

Definition SplitN2 (sep : ascii) (s : string) : list string :=
  match cut sep s with Some (a, b) => [a; b] | None => [s] end.

(** The parts between all occurrences. *)
Fixpoint split (sep : ascii) (s : string) : list string :=
  match s with
  | EmptyString => [EmptyString]
  | String c s =>
      if bool_decide (c = sep) then EmptyString :: split sep s
      else match split sep s with p :: ps => String c p :: ps | [] => [String c EmptyString] end
  end.

Fixpoint join (sep : string) (l : list string) : string :=
  match l with [] => EmptyString | [x] => x | x :: l => x +:+ sep +:+ join sep l end.

Fixpoint take_bytes (n : nat) (s : string) : string :=
  match n, s with S n, String c s => String c (take_bytes n s) | _, _ => EmptyString end.

Definition ErrSyntax : error := Error "invalid syntax".
Definition ErrRange : error := Error "value out of range".

(** The value of a decimal digit. *)
Definition digit (c : ascii) : option Z :=
  let n := Z.of_nat (nat_of_ascii c) in
  if bool_decide (48 <= n <= 57) then Some (n - 48) else None.

(** [strconv.ParseUint(s, 10, 32)]: digits are read until one is wrong or the
    value leaves 32 bits; the value comes with the error. *)
Fixpoint parse_digits (s : string) (n : Z) : Z * option error :=
  match s with
  | EmptyString => (n, None)
  | String c s =>
      match digit c with
      | None => (0, Some ErrSyntax)
      | Some d => let n1 := n * 10 + d in
                  if n1 >? 2 ^ 32 - 1 then (2 ^ 32 - 1, Some ErrRange) else parse_digits s n1
      end
  end.

Definition ParseUint32 (s : string) : Z * option error :=
  if bool_decide (s = EmptyString) then (0, Some ErrSyntax) else parse_digits s 0.

(** ** path and filepath, on Unix *)

(** One component of a path: the ones before it are on the stack. *)
Definition clean_step (rooted : bool) (out : list string) (c : string) : list string :=
  if bool_decide (c = EmptyString \/ c = ".") then out
  else if bool_decide (c = "..")
  then match out with
       | x :: out' => if bool_decide (x = "..") then c :: out else out'
       | [] => if rooted then [] else [c]
       end
  else c :: out.

Definition is_rooted (p : string) : bool :=
  match p with String c _ => bool_decide (c = "/"%char) | EmptyString => false end.

Definition Clean (p : string) : string :=
  let out := join "/" (rev (foldl (clean_step (is_rooted p)) [] (split "/" p))) in
  if is_rooted p then "/" +:+ out
  else if bool_decide (out = EmptyString) then "." else out.

Fixpoint drop_empty (l : list string) : list string :=
  match l with EmptyString :: l => drop_empty l | _ => l end.

Definition Join (elem : list string) : string :=
  match drop_empty elem with [] => EmptyString | l => Clean (join "/" l) end.

(** ** Decimal numbers *)

(** A non-empty string of digits and its value. *)
Fixpoint digits_from (s : string) (n : Z) : option Z :=
  match s with
  | EmptyString => Some n
  | String c s => match digit c with Some d => digits_from s (n * 10 + d) | None => None end
  end.

Definition decimal (s : string) (n : Z) : Prop := s <> EmptyString /\ digits_from s 0 = Some n.

Lemma digit_range c d : digit c = Some d -> 0 <= d <= 9.
Proof. unfold digit. case_bool_decide; intros [= <-]. lia. Qed.

Lemma digits_from_grows s n m : 0 <= n -> digits_from s n = Some m -> n <= m.
Proof.
  revert n. induction s as [|c s IH]; intros n Hn; simpl; [by intros [= ->]|].
  destruct (digit c) as [d|] eqn:Ed; [|done]. apply digit_range in Ed. intros E. apply IH in E; lia.
Qed.

Lemma parse_digits_iff s n m : 0 <= n < 2 ^ 32 -> parse_digits s n = (m, None) <-> digits_from s n = Some m /\ m < 2 ^ 32.
Proof.
  revert n. induction s as [|c s IH]; intros n Hn; simpl; [split; [intros [= <-]; split; [done|lia]|by intros [[= <-] _]]|].
  destruct (digit c) as [d|] eqn:Ed; [|split; [done|by intros [? _]]]. apply digit_range in Ed.
  destruct (Z.gtb_spec (n * 10 + d) (2 ^ 32 - 1)) as [Hg|Hg]; [|apply IH; lia].
  split; [done|]. intros [E Hm]. apply digits_from_grows in E; lia.
Qed.

Lemma ParseUint32_iff s n : ParseUint32 s = (n, None) <-> decimal s n /\ n < 2 ^ 32.
Proof.
  unfold ParseUint32, decimal. case_bool_decide as Hs; [split; [done|by intros [[? _] _]]|].
  rewrite parse_digits_iff by lia. tauto.
Qed.

Lemma digit_char x : (x < 10)%N -> digit (pretty_N_char x) = Some (Z.of_N x).
Proof. intros Hx. destruct x as [|p]; [done|]. do 4 (destruct p as [p|p|]; try done; try lia). Qed.

Lemma digits_from_pretty_go x s : digits_from (pretty_N_go x s) 0 = digits_from s (Z.of_N x).
Proof.
  revert s. induction x as [x IH] using (well_founded_induction N.lt_wf_0). intros s.
  destruct (decide (x = 0%N)) as [->|Hx]; [by rewrite pretty_N_go_0|].
  rewrite pretty_N_go_step by lia. rewrite IH by (apply N.div_lt; lia). cbn [digits_from].
  assert (x `mod` 10 < 10)%N by (apply N.mod_lt; lia). rewrite digit_char by done. f_equal. rewrite N2Z.inj_div, N2Z.inj_mod. dlia.
Qed.

Lemma pretty_N_decimal x : decimal (pretty x) (Z.of_N x).
Proof.
  unfold decimal, pretty, pretty_N. case_decide as Hx; [by subst|]. rewrite digits_from_pretty_go. split; [|done].
  intros E. pose proof (digits_from_pretty_go x EmptyString) as H. rewrite E in H. injection H. lia.
Qed.

(** What [%d] prints is a decimal number. *)
Lemma pretty_decimal n : 0 <= n -> decimal (pretty n) n.
Proof.
  intros Hn. pose proof (pretty_N_decimal (Z.to_N n)) as H. rewrite Z2N.id in H by done.
  destruct n as [|n|n]; [done| |lia]. exact H.
Qed.

(** ** Characters and splitting *)

(** Whether a byte occurs. *)
Fixpoint occurs (c : ascii) (s : string) : Prop :=
  match s with EmptyString => False | String x s => x = c \/ occurs c s end.

Lemma occurs_app c s1 s2 : occurs c (s1 +:+ s2) <-> occurs c s1 \/ occurs c s2.
Proof. induction s1 as [|x s1 IH]; simpl; [tauto|]. rewrite IH. tauto. Qed.

Lemma digits_from_occurs c s n : digit c = None -> is_Some (digits_from s n) -> ~ occurs c s.
Proof.
  intros Hc. revert n. induction s as [|x s IH]; intros n; simpl; [tauto|].
  destruct (digit x) as [d|] eqn:Ed; [|by intros [? ?]]. intros H [->|Ho]; [congruence|by eapply IH].
Qed.

Lemma decimal_occurs c s n : digit c = None -> decimal s n -> ~ occurs c s.
Proof. intros Hc [_ E]. by apply (digits_from_occurs c s 0). Qed.

Lemma cut_app c a b : ~ occurs c a -> cut c (a +:+ String c b) = Some (a, b).
Proof.
  induction a as [|x a IH]; simpl; intros Ho; [by rewrite bool_decide_true|].
  rewrite bool_decide_false by tauto. by rewrite IH by tauto.
Qed.

Lemma cut_none c s : ~ occurs c s -> cut c s = None.
Proof. induction s as [|x s IH]; simpl; intros Ho; [done|]. rewrite bool_decide_false by tauto. by rewrite IH by tauto. Qed.

Lemma cut_inv c s a b : cut c s = Some (a, b) -> s = a +:+ String c b.
Proof.
  revert a. induction s as [|x s IH]; intros a; simpl; [done|]. case_bool_decide as Hx; [by intros [= <- <-]; subst|].
  destruct (cut c s) as [[a' b']|]; [|done]. intros [= <- <-]. cbn. by rewrite (IH a' eq_refl) at 1.
Qed.

Lemma split_single c s : ~ occurs c s -> split c s = [s].
Proof. induction s as [|x s IH]; simpl; intros Ho; [done|]. rewrite bool_decide_false by tauto. by rewrite IH by tauto. Qed.

Lemma split_not_nil c s : split c s <> [].
Proof. destruct s as [|x s]; simpl; [done|]. case_bool_decide; [done|]. by destruct (split c s). Qed.

Lemma split_app c a b : split c (a +:+ String c b) = (split c a ++ split c b)%list.
Proof.
  induction a as [|x a IH]; simpl; [by rewrite bool_decide_true|]. case_bool_decide; [by rewrite IH|].
  rewrite IH. pose proof (split_not_nil c a). by destruct (split c a).
Qed.

(** ** Joining a name to a directory *)

(** The name of a file, as opposed to a path or a dot. *)
Definition plain (x : string) : Prop := ~ occurs "/" x /\ x <> EmptyString /\ x <> "." /\ x <> "..".

Lemma app_nil_str (a : string) : a +:+ EmptyString = a.
Proof. induction a as [|x a IH]; [done|]. change (String x (a +:+ EmptyString) = String x a). by rewrite IH. Qed.

Lemma app_assoc_str (a b c : string) : (a +:+ b) +:+ c = a +:+ (b +:+ c).
Proof. induction a as [|x a IH]; [done|]. change (String x ((a +:+ b) +:+ c) = String x (a +:+ (b +:+ c))). by rewrite IH. Qed.

Lemma join_last sep l x : exists pre, join sep (l ++ [x])%list = pre +:+ x /\ forall y, join sep (l ++ [y])%list = pre +:+ y.
Proof.
  induction l as [|z l (pre & E & Ey)]; [by exists EmptyString|]. exists (z +:+ sep +:+ pre). simpl.
  destruct (l ++ [x])%list as [|u us] eqn:Eu; [by destruct l|]. rewrite !app_assoc_str, <- E. split; [done|]. intros y.
  rewrite !app_assoc_str, <- Ey. by destruct l.
Qed.

(** Different names in a directory have different paths. *)
Lemma Join_inj dir x y : dir <> EmptyString -> plain x -> plain y -> Join [dir; x] = Join [dir; y] -> x = y.
Proof.
  intros Hd (Hx & Hx1 & Hx2 & Hx3) (Hy & Hy1 & Hy2 & Hy3). unfold Join.
  assert (Ej : forall z, drop_empty [dir; z] = [dir; z]) by (intros z; by destruct dir). rewrite !Ej. cbn [join]. unfold Clean.
  assert (Hr : forall z, is_rooted (dir +:+ "/" +:+ z) = is_rooted dir) by (intros z; by destruct dir). rewrite !Hr.
  assert (Hs : forall z, ~ occurs "/" z -> z <> EmptyString -> z <> "." -> z <> ".." ->
    rev (foldl (clean_step (is_rooted dir)) [] (split "/" (dir +:+ "/" +:+ z))) = (rev (foldl (clean_step (is_rooted dir)) [] (split "/" dir)) ++ [z])%list).
  { intros z Hz Hz1 Hz2 Hz3. change ("/" +:+ z) with (String "/" z). rewrite split_app, (split_single _ z) by done. rewrite foldl_app. cbn [foldl].
    unfold clean_step at 1. rewrite bool_decide_false by (intros [?|?]; done). by rewrite bool_decide_false by done. }
  rewrite !Hs by done. set (l := rev _). destruct (join_last "/" l x) as (pre & E1 & E2). rewrite E1, E2.
  assert (Hne : forall z, z <> EmptyString -> pre +:+ z <> EmptyString) by (intros z Hz; by destruct pre).
  destruct (is_rooted dir); [intros [= E]; by apply (inj (String.append pre))|].
  rewrite !bool_decide_false by (by apply Hne). intros E. by apply (inj (String.append pre)).
Qed.

End Str.
Import Str.

(** The operating system as the node sees it. *)
Class Os := {
  os_Getenv : string -> string;
  user_Current : option string;              (** the home directory of the user *)
  runtime_GOOS : string;
  os_Open : string -> option error;          (** the failure of an open, if any *)
  os_Read : string -> option error;
  os_WriteFile : string -> option error      (** the failure to open for writing *)
}.

Module Host.

Section Definitions.
Context `{Os}.

(** The files of the host: their contents; and the entries of its directories. *)
Abbreviation files := (gmap string string) (only parsing).

(** ** cmd/miniopera/defaults.go *)

Definition homeDir : string :=
  let home := os_Getenv "HOME" in
  if negb (bool_decide (home = EmptyString)) then home
  else match user_Current with Some h => h | None => EmptyString end.

Definition windowsAppData : go string :=
  let v := os_Getenv "LOCALAPPDATA" in
  if bool_decide (v = EmptyString) then Panics (PanicMsg "environment variable LocalAppData is undefined") else Ret v.

(** [dirs] gives the entries of the directories that can be opened. *)
Definition isNonEmptyDir (dirs : gmap string (list string)) (dir : string) : bool :=
  match dirs !! dir with Some (_ :: _) => true | _ => false end.

Definition DefaultDataDir (dirs : gmap string (list string)) : go string :=
  let home := homeDir in
  if negb (bool_decide (home = EmptyString))
  then
    if bool_decide (runtime_GOOS = "darwin") then Ret (Join [home; "Library"; "Lachesis"])
    else if bool_decide (runtime_GOOS = "windows")
    then
      let fallback := Join [home; "AppData"; "Roaming"; "Lachesis"] in
      appdata ← windowsAppData;
      if bool_decide (appdata = EmptyString) || isNonEmptyDir dirs fallback then Ret fallback
      else Ret (Join [appdata; "Lachesis"])
    else Ret (Join [home; ".miniopera"])
  else Ret EmptyString.

(** ** debug/api.go: [~/file] *)

Definition has_prefix (pre s : string) : bool := String.prefix pre s.

Definition expandHome (p : string) : string :=
  let p :=
    if has_prefix "~/" p || has_prefix "~\" p
    then
      let home := os_Getenv "HOME" in
      let home := if bool_decide (home = EmptyString)
                  then match user_Current with Some h => h | None => home end else home in
      if negb (bool_decide (home = EmptyString))
      then home +:+ match p with String _ rest => rest | EmptyString => EmptyString end
      else p
    else p in
  Clean p.

(** ** utils/errlock *)

Definition eLockPath (dir : string) : string := Join [dir; "errlock"].

Definition maxFileLen : nat := 5000.

Definition io_EOF : error := Error "EOF".
Definition ErrNotExist : error := Error "file does not exist".

(** Whether the lock is there, the reason, the path, and an error.  An empty file
    is read with [io.EOF]. *)
Definition read (dir : string) (fs : files) : bool * string * string * option error :=
  let path := eLockPath dir in
  match os_Open path, fs !! path with
  | Some e, _ => (false, EmptyString, path, Some e)
  | None, None => (false, EmptyString, path, Some ErrNotExist)
  | None, Some data =>
      match os_Read path with
      | Some e => (true, EmptyString, path, Some e)
      | None =>
          if bool_decide (data = EmptyString) then (true, EmptyString, path, Some io_EOF)
          else (true, take_bytes maxFileLen data, path, None)
      end
  end.

Definition write (dir eLockStr : string) (fs : files) : string * option error * files :=
  let path := eLockPath dir in
  match os_WriteFile path with
  | Some e => (path, Some e, fs)
  | None => (path, None, <[path := eLockStr]> fs)
  end.

Definition quoted (s : string) : string := String "034" EmptyString +:+ s +:+ String "034" EmptyString.
Definition newline : string := String "010" EmptyString.

Definition start_refused (path reason : string) : string :=
  "Node isn't allowed to start due to a previous error. Please fix the issue and then delete file " +:+ quoted path
    +:+ ". Error message:" +:+ newline +:+ reason.

Definition node_stopping (path reason : string) : string :=
  "Node is permanently stopping due to an issue. Please fix the issue and then delete file " +:+ quoted path
    +:+ ". Error message:" +:+ newline +:+ reason.

(** [datadir] is the variable that [SetDefaultDatadir] sets. *)
Definition Check (datadir : string) (fs : files) : go unit :=
  let '(locked, reason, path, _) := read datadir fs in
  if locked : bool then Exits (start_refused path reason) else Ret tt.

(** The files are left behind by the process that ends. *)
Definition Permanent (datadir err : string) (fs : files) : go unit * files :=
  let '(path, _, fs) := write datadir err fs in
  (Exits (node_stopping path err), fs).

(** ** utils/checkpid.go *)

(** The process table: which processes exist and take a signal. *)
Record processes := MkProcesses {
  self : Z; find_process : Z -> option error; signal_process : Z -> option error;
  pidfile_Read : files -> Z * option error; pidfile_Write : option error; pidfile_set : Z -> files -> files }.

Definition CheckPid (ps : processes) (fs : files) : option error * files :=
  let '(pid, err) := pidfile_Read ps fs in
  let clash :=
    if bool_decide (err = None) && (pid >? 0)
    then match find_process ps pid with
         | Some e => Some (Error "failed to find process")
         | None => match signal_process ps pid with
                   | None => Some (Error "perhaps another miniopera is already running")
                   | Some _ => None
                   end
         end
    else None in
  match clash with
  | Some e => (Some e, fs)
  | None => match pidfile_Write ps with
            | Some _ => (Some (Error "error writing into pidfile"), fs)
            | None => (None, pidfile_set ps (self ps) fs)
            end
  end.

(** ** The lock *)

(** A host without a failing access to the lock file. *)
Definition lock_accessible (dir : string) : Prop :=
  os_Open (eLockPath dir) = None /\ os_Read (eLockPath dir) = None /\ os_WriteFile (eLockPath dir) = None.

Lemma take_bytes_empty n : take_bytes n EmptyString = EmptyString.
Proof. by destruct n. Qed.

Lemma Check_locked dir fs data : os_Open (eLockPath dir) = None -> os_Read (eLockPath dir) = None -> fs !! eLockPath dir = Some data ->
  Check dir fs = Exits (start_refused (eLockPath dir) (take_bytes maxFileLen data)).
Proof.
  intros H1 H2 H3. unfold Check, read. rewrite H1, H3, H2. case_bool_decide as Hd; [|done]. subst data. by rewrite take_bytes_empty.
Qed.

(** C36: a permanent error keeps the node from starting until an operator
    intervenes.  [Permanent] ends the process; every later start of a node with
    this data directory ends at the check, whatever happens to the other files,
    and shows the first 5000 bytes of the error; only deleting the lock file lets
    the node start.  If the lock cannot be written the process ends all the same,
    and a lock that cannot be read keeps the node from starting. *)
Theorem errlock_holds (dir err : string) (fs : files) :
  (exists msg, fst (Permanent dir err fs) = Exits msg) /\
  (lock_accessible dir -> forall fs', fs' !! eLockPath dir = snd (Permanent dir err fs) !! eLockPath dir ->
     Check dir fs' = Exits (start_refused (eLockPath dir) (take_bytes maxFileLen err)) /\
     Check dir (delete (eLockPath dir) fs') = Ret tt) /\
  (os_Open (eLockPath dir) = None -> is_Some (fs !! eLockPath dir) -> exists msg, Check dir fs = Exits msg) /\
  (forall path, path <> eLockPath dir -> snd (Permanent dir err fs) !! path = fs !! path).
Proof.
  unfold Permanent, write. split_and!.
  - destruct (os_WriteFile _); eauto.
  - intros (H1 & H2 & H3) fs'. rewrite H3. cbn [snd]. rewrite lookup_insert_eq. intros Hf. split.
    + by apply Check_locked.
    + unfold Check, read. by rewrite H1, lookup_delete_eq.
  - intros H1 [data Hd]. unfold Check, read. rewrite H1, Hd. destruct (os_Read _); [by eexists|]. case_bool_decide; by eexists.
  - intros path Hp. destruct (os_WriteFile _); [done|]. cbn [snd]. by rewrite lookup_insert_ne.
Qed.

(** A node starts only if no live process holds the file of process ids, and then
    it holds the file itself. *)
Lemma CheckPid_exclusive (ps : processes) (fs fs' : files) : CheckPid ps fs = (None, fs') ->
  (forall pid, pidfile_Read ps fs = (pid, None) -> 0 < pid -> find_process ps pid = None -> signal_process ps pid <> None) /\
  fs' = pidfile_set ps (self ps) fs.
Proof.
  unfold CheckPid. destruct (pidfile_Read ps fs) as [pid err]. intros E. split.
  - intros p [= <- ->] Hp Hf Hs. rewrite bool_decide_true in E by done. rewrite Z.gtb_ltb, (proj2 (Z.ltb_lt 0 pid)) in E by lia. cbn [andb] in E.
    by rewrite Hf, Hs in E.
  - cbv zeta in E. repeat case_match; by simplify_eq.
Qed.

End Definitions.

(** ** A Unix host *)

Module Sample.
#[local] Instance unix : Os := {|
  os_Getenv v := if bool_decide (v = "HOME") then "/home/opera/" else EmptyString;
  user_Current := None; runtime_GOOS := "linux";
  os_Open _ := None; os_Read _ := None; os_WriteFile _ := None |}.

Example default_dir : DefaultDataDir ∅ = Ret "/home/opera/.miniopera".
Proof. reflexivity. Qed.

Example clean_paths : Clean "a//b/./../c/" = "a/c" /\ Clean "/../x" = "/x" /\ Clean "../../y" = "../../y" /\ Clean EmptyString = "." /\
  expandHome "~/log" = "/home/opera/log" /\ expandHome "~bob/log" = "~bob/log".
Proof. split_and!; reflexivity. Qed.

Lemma errlock_holds_witness : lock_accessible "/data" /\
  let fs := snd (Permanent "/data" "double sign" ∅) in
  Check "/data" fs = Exits (start_refused "/data/errlock" "double sign") /\ Check "/data" (delete (eLockPath "/data") fs) = Ret tt.
Proof.
  assert (Ha : lock_accessible "/data") by (split_and!; reflexivity).
  destruct (errlock_holds "/data" "double sign" ∅) as (_ & H & _). split; [exact Ha|]. cbv zeta.
  destruct (H Ha (snd (Permanent "/data" "double sign" ∅)) eq_refl) as [H1 H2]. split; [exact H1|exact H2].
Defined.

End Sample.
End Host.
