(* ===== verification/Debug.v ===== *)
(** * Debugging, logging and metrics

    [src/debug/api.go], [trace.go] and [flags.go] (profiles and traces written to
    files), [src/logger/periodic_log.go], [src/utils/spin_lock.go],
    [src/metrics/prometheus] (what the metrics server shows) and
    [src/cmd/miniopera/metrics].  The profilers of the Go runtime, the metrics of
    go-ethereum and floating-point numbers are parameters. *)

From Stdlib Require Import ZArith Lia Bool Ascii.
From stdpp Require Import base list numbers option strings pretty gmap.
From S2P Require Import Prelude Host.
Import Str.
Local Open Scope Z_scope.

(** ** The debugging handler *)

Module Profiles.

(** A file that is open for writing, by its path. *)
Record handle := MkHandle { h_path : string; h_no : nat }.

#[export] Instance handle_eq_dec : EqDecision handle.
Proof. solve_decision. Defined.

(** [HandlerT]: the two writers and the names they were started with. *)
Record HandlerT := MkHandler { cpuW : option handle; cpuFile : string; traceW : option handle; traceFile : string }.

(** The process: the handler, the open files, and how many were opened; the
    runtime's CPU profiler and tracer. *)
Record process := MkProcess { handler : HandlerT; opened : list handle; created : nat; pprof_to : option handle; trace_to : option handle }.

Definition set_handler h (p : process) := MkProcess h (opened p) (created p) (pprof_to p) (trace_to p).
Definition set_pprof x (p : process) := MkProcess (handler p) (opened p) (created p) x (trace_to p).
Definition set_trace x (p : process) := MkProcess (handler p) (opened p) (created p) (pprof_to p) x.

(** What the operating system and the runtime answer to one call: the failure of
    [os.Create], and of starting the profiler or the tracer. *)
Record answers := MkAnswers { ans_create : option error; ans_start : option error }.

Section Definitions.
Context `{Os}.

Definition os_Create (path : string) (a : option error) : stm process (handle + error) :=
  match a with
  | Some e => mret (inr e)
  | None => fun p => let f := MkHandle path (created p) in
                     Ret (inl f, MkProcess (handler p) (f :: opened p) (S (created p)) (pprof_to p) (trace_to p))
  end.

Definition Close (f : handle) : stm process unit :=
  modify (fun p => MkProcess (handler p) (filter (fun g => g <> f) (opened p)) (created p) (pprof_to p) (trace_to p)).

(** A profiler that is on refuses to be started again. *)
Definition pprof_StartCPUProfile (f : handle) (a : option error) : stm process (option error) :=
  on ← gets pprof_to;
  match on, a with
  | Some _, _ => mret (Some (Error "cpu profiling already in use"))
  | None, Some e => mret (Some e)
  | None, None => _ ← modify (set_pprof (Some f)); mret None
  end.

Definition trace_Start (f : handle) (a : option error) : stm process (option error) :=
  on ← gets trace_to;
  match on, a with
  | Some _, _ => mret (Some (Error "tracing is already enabled"))
  | None, Some e => mret (Some e)
  | None, None => _ ← modify (set_trace (Some f)); mret None
  end.

(** *** api.go *)

Definition StartCPUProfile (file : string) (a : answers) : stm process (option error) :=
  h ← gets handler;
  match cpuW h with
  | Some _ => mret (Some (Error "CPU profiling already in progress"))
  | None =>
      r ← os_Create (Host.expandHome file) (ans_create a);
      match r with
      | inr e => mret (Some e)
      | inl f =>
          err ← pprof_StartCPUProfile f (ans_start a);
          match err with
          | Some e => _ ← Close f; mret (Some e)
          | None => _ ← modify (fun p => set_handler (MkHandler (Some f) file (traceW (handler p)) (traceFile (handler p))) p); mret None
          end
      end
  end.

Definition StopCPUProfile : stm process (option error) :=
  _ ← modify (set_pprof None);
  h ← gets handler;
  match cpuW h with
  | None => mret (Some (Error "CPU profiling not in progress"))
  | Some f =>
      _ ← Close f;
      _ ← modify (fun p => set_handler (MkHandler None EmptyString (traceW (handler p)) (traceFile (handler p))) p);
      mret None
  end.

(** The seconds between the start and the stop are an interval of the other
    calls: here the profile of a quiet process. *)
Definition CPUProfile (file : string) (a : answers) : stm process (option error) :=
  err ← StartCPUProfile file a;
  match err with
  | Some e => mret (Some e)
  | None => _ ← StopCPUProfile; mret None
  end.

(** *** trace.go *)

Definition StartGoTrace (file : string) (a : answers) : stm process (option error) :=
  h ← gets handler;
  match traceW h with
  | Some _ => mret (Some (Error "trace already in progress"))
  | None =>
      r ← os_Create (Host.expandHome file) (ans_create a);
      match r with
      | inr e => mret (Some e)
      | inl f =>
          err ← trace_Start f (ans_start a);
          match err with
          | Some e => _ ← Close f; mret (Some e)
          | None => _ ← modify (fun p => set_handler (MkHandler (cpuW (handler p)) (cpuFile (handler p)) (Some f) file) p); mret None
          end
      end
  end.

Definition StopGoTrace : stm process (option error) :=
  _ ← modify (set_trace None);
  h ← gets handler;
  match traceW h with
  | None => mret (Some (Error "trace not in progress"))
  | Some f =>
      _ ← Close f;
      _ ← modify (fun p => set_handler (MkHandler (cpuW (handler p)) (cpuFile (handler p)) None EmptyString) p);
      mret None
  end.

Definition GoTrace (file : string) (a : answers) : stm process (option error) :=
  err ← StartGoTrace file a;
  match err with
  | Some e => mret (Some e)
  | None => _ ← StopGoTrace; mret None
  end.

(** [writeProfile]: [ans_start] is the failure of writing the records. *)
Definition writeProfile (file : string) (a : answers) : stm process (option error) :=
  r ← os_Create (Host.expandHome file) (ans_create a);
  match r with
  | inr e => mret (Some e)
  | inl f => _ ← Close f; mret (ans_start a)
  end.

(** *** flags.go *)

(** The part of [Setup] that starts the trace and the profile of the command
    line; [Exit] stops them. *)
Definition Setup_profiles (traceFlag cpuprofileFlag : string) (a1 a2 : answers) : stm process (option error) :=
  err ← (if bool_decide (traceFlag = EmptyString) then mret None else StartGoTrace traceFlag a1);
  match err with
  | Some e => mret (Some e)
  | None => if bool_decide (cpuprofileFlag = EmptyString) then mret None else StartCPUProfile cpuprofileFlag a2
  end.

Definition Exit : stm process unit :=
  _ ← StopCPUProfile;
  _ ← StopGoTrace;
  mret tt.

(** The calls of the debugging API. *)
Inductive op :=
| OpStartCPU (file : string) (a : answers) | OpStopCPU | OpCPU (file : string) (a : answers)
| OpStartTrace (file : string) (a : answers) | OpStopTrace | OpTrace (file : string) (a : answers)
| OpWrite (file : string) (a : answers) | OpSetup (tr cpu : string) (a1 a2 : answers).

Definition run_op (o : op) : stm process (option error) :=
  match o with
  | OpStartCPU f a => StartCPUProfile f a
  | OpStopCPU => StopCPUProfile
  | OpCPU f a => CPUProfile f a
  | OpStartTrace f a => StartGoTrace f a
  | OpStopTrace => StopGoTrace
  | OpTrace f a => GoTrace f a
  | OpWrite f a => writeProfile f a
  | OpSetup t c a1 a2 => Setup_profiles t c a1 a2
  end.

Fixpoint run_ops (os : list op) : stm process unit :=
  match os with [] => mret tt | o :: os => _ ← run_op o; run_ops os end.

(** *** No file is left open *)

(** The open files are those of the handler, and what runs writes to them. *)
Record files_ok (p : process) : Prop := {
  fo_nodup : NoDup (opened p);
  fo_opened : forall f, f ∈ opened p <-> cpuW (handler p) = Some f \/ traceW (handler p) = Some f;
  fo_fresh : forall f, f ∈ opened p -> (h_no f < created p)%nat;
  fo_apart : forall f, cpuW (handler p) = Some f -> traceW (handler p) = Some f -> False;
  fo_cpu : pprof_to p = cpuW (handler p);
  fo_trace : trace_to p = traceW (handler p)
}.

Lemma filter_out (f : handle) (l : list handle) : f ∉ l -> filter (fun g => g <> f) l = l.
Proof. induction l as [|g l IH]; [done|]. intros Hf. apply not_elem_of_cons in Hf as [Hg Hl]. rewrite filter_cons_True by done. by rewrite IH. Qed.

Definition fresh_handle (path : string) (p : process) : handle := MkHandle path (created p).

Lemma fresh_not_opened path p : files_ok p -> fresh_handle path p ∉ opened p.
Proof. intros Hp Hf. apply (fo_fresh _ Hp) in Hf. simpl in Hf. lia. Qed.

Lemma created_closed path p : files_ok p -> filter (fun g => g <> fresh_handle path p) (fresh_handle path p :: opened p) = opened p.
Proof. intros Hp. rewrite filter_cons_False by (intros H1; by apply H1). by apply filter_out, fresh_not_opened. Qed.

Lemma files_ok_created p : files_ok p -> files_ok (MkProcess (handler p) (opened p) (S (created p)) (pprof_to p) (trace_to p)).
Proof. intros []. constructor; try done. intros f Hf. apply fo_fresh0 in Hf. simpl. lia. Qed.

(** A file was opened, or one was closed, for the handler [h']. *)
Lemma files_ok_opened p h' x y path : files_ok p -> let f := fresh_handle path p in
  (forall g, cpuW h' = Some g \/ traceW h' = Some g <-> g = f \/ cpuW (handler p) = Some g \/ traceW (handler p) = Some g) ->
  (forall g, cpuW h' = Some g -> traceW h' = Some g -> False) -> x = cpuW h' -> y = traceW h' ->
  files_ok (MkProcess h' (f :: opened p) (S (created p)) x y).
Proof.
  intros Hp f Hh Ha -> ->. pose proof (fresh_not_opened path p Hp) as Hf. destruct Hp. constructor; try done.
  - by apply NoDup_cons.
  - intros g. cbn [opened handler]. rewrite Hh, elem_of_cons. by rewrite fo_opened0.
  - intros g. cbn [opened created]. rewrite elem_of_cons. intros [->|Hg]; [simpl; lia|]. apply fo_fresh0 in Hg. lia.
Qed.

Lemma files_ok_closed p h' x y f : files_ok p ->
  (forall g, cpuW h' = Some g \/ traceW h' = Some g <-> g <> f /\ (cpuW (handler p) = Some g \/ traceW (handler p) = Some g)) ->
  (forall g, cpuW h' = Some g -> traceW h' = Some g -> False) -> x = cpuW h' -> y = traceW h' ->
  files_ok (MkProcess h' (filter (fun g => g <> f) (opened p)) (created p) x y).
Proof.
  intros [] Hh Ha -> ->. constructor; try done.
  - by apply NoDup_filter.
  - intros g. cbn [opened handler]. rewrite Hh, list_elem_of_filter. by rewrite fo_opened0.
  - intros g. cbn [opened created]. rewrite list_elem_of_filter. intros [_ Hg]. by apply fo_fresh0.
Qed.

(** An operation returns and keeps the files in order. *)
Definition tidy (m : stm process (option error)) : Prop := forall p, files_ok p -> exists r p', m p = Ret (r, p') /\ files_ok p'.

Lemma StartCPUProfile_tidy file a : tidy (StartCPUProfile file a).
Proof.
  intros p Hp. pose proof (files_ok_created p Hp) as Hc. pose proof (created_closed (Host.expandHome file) p Hp) as Hcl. pose proof Hp as [F1 F2 F3 F4 F5 F6].
  unfold StartCPUProfile, gets, mbind, stm_bind, mret, stm_ret. destruct (cpuW (handler p)) as [w|] eqn:Ew; [by eauto|].
  unfold os_Create. destruct (ans_create a); [by eauto|]. unfold pprof_StartCPUProfile, gets, mbind, stm_bind, modify, mret, stm_ret. cbn [pprof_to handler]. rewrite F5.
  destruct (ans_start a); [unfold Close, modify; cbn [opened]; unfold fresh_handle in Hcl; rewrite Hcl; rewrite F5 in Hc; by eauto|]. do 2 eexists. split; [reflexivity|].
  apply (files_ok_opened p); cbn [cpuW traceW]; try done; [intros g; rewrite Ew; naive_solver|].
  intros g [= <-] Ht. apply (fresh_not_opened (Host.expandHome file) p Hp), F2. by right.
Qed.

Lemma StartGoTrace_tidy file a : tidy (StartGoTrace file a).
Proof.
  intros p Hp. pose proof (files_ok_created p Hp) as Hc. pose proof (created_closed (Host.expandHome file) p Hp) as Hcl. pose proof Hp as [F1 F2 F3 F4 F5 F6].
  unfold StartGoTrace, gets, mbind, stm_bind, mret, stm_ret. destruct (traceW (handler p)) as [w|] eqn:Ew; [by eauto|].
  unfold os_Create. destruct (ans_create a); [by eauto|]. unfold trace_Start, gets, mbind, stm_bind, modify, mret, stm_ret. cbn [trace_to handler]. rewrite F6.
  destruct (ans_start a); [unfold Close, modify; cbn [opened]; unfold fresh_handle in Hcl; rewrite Hcl; rewrite F6 in Hc; by eauto|]. do 2 eexists. split; [reflexivity|].
  apply (files_ok_opened p); cbn [cpuW traceW]; try done; [intros g; rewrite Ew; naive_solver|].
  intros g Ht [= <-]. apply (fresh_not_opened (Host.expandHome file) p Hp), F2. by left.
Qed.

Lemma StopCPUProfile_spec p : files_ok p -> exists r p', StopCPUProfile p = Ret (r, p') /\ files_ok p' /\
  cpuW (handler p') = None /\ traceW (handler p') = traceW (handler p).
Proof.
  intros Hp. pose proof Hp as [F1 F2 F3 F4 F5 F6]. unfold StopCPUProfile, gets, mbind, stm_bind, modify, mret, stm_ret. cbn [handler set_pprof].
  destruct (cpuW (handler p)) as [w|] eqn:Ew.
  - do 2 eexists. split; [reflexivity|]. split; [|done]. apply (files_ok_closed p); cbn [cpuW traceW]; try done.
    intros g. rewrite Ew. specialize (F4 g). split; [intros [?|Ht]; [done|]|naive_solver]. split; [|by right]. intros ->. by apply F4.
  - do 2 eexists. split; [reflexivity|]. split; [|done]. unfold set_pprof. rewrite <- F5. by destruct p.
Qed.

Lemma StopGoTrace_spec p : files_ok p -> exists r p', StopGoTrace p = Ret (r, p') /\ files_ok p' /\
  traceW (handler p') = None /\ cpuW (handler p') = cpuW (handler p).
Proof.
  intros Hp. pose proof Hp as [F1 F2 F3 F4 F5 F6]. unfold StopGoTrace, gets, mbind, stm_bind, modify, mret, stm_ret. cbn [handler set_trace].
  destruct (traceW (handler p)) as [w|] eqn:Ew.
  - do 2 eexists. split; [reflexivity|]. split; [|done]. apply (files_ok_closed p); cbn [cpuW traceW]; try done.
    intros g. rewrite Ew. specialize (F4 g). split; [intros [Ht|?]; [|done]|naive_solver]. split; [|by left]. intros ->. by apply F4.
  - do 2 eexists. split; [reflexivity|]. split; [|done]. unfold set_trace. rewrite <- F6. by destruct p.
Qed.

Lemma writeProfile_tidy file a : tidy (writeProfile file a).
Proof.
  intros p Hp. pose proof (files_ok_created p Hp) as Hc. pose proof (created_closed (Host.expandHome file) p Hp) as Hcl.
  unfold writeProfile, os_Create, mbind, stm_bind. destruct (ans_create a); [by eauto|]. unfold Close, modify, mret, stm_ret. cbn [opened]. unfold fresh_handle in Hcl. rewrite Hcl. by eauto.
Qed.

Lemma tidy_bind (m : stm process (option error)) f : tidy m -> (forall r, tidy (f r)) -> tidy (m ≫= f).
Proof. intros Hm Hf p Hp. destruct (Hm p Hp) as (r & p1 & E & H1). destruct (Hf r p1 H1) as (r2 & p2 & E2 & H2). exists r2, p2. split; [|done]. unfold mbind, stm_bind. by rewrite E. Qed.

Lemma tidy_ret r : tidy (mret r).
Proof. intros p Hp. by exists r, p. Qed.

Lemma run_op_tidy o : tidy (run_op o).
Proof.
  assert (Hs : tidy StopCPUProfile) by (intros p Hp; destruct (StopCPUProfile_spec p Hp) as (r & p' & ? & ? & _); by exists r, p').
  assert (Ht : tidy StopGoTrace) by (intros p Hp; destruct (StopGoTrace_spec p Hp) as (r & p' & ? & ? & _); by exists r, p').
  destruct o; cbn [run_op]; unfold CPUProfile, GoTrace, Setup_profiles;
    repeat first [done | apply StartCPUProfile_tidy | apply StartGoTrace_tidy | apply writeProfile_tidy | apply tidy_ret | apply tidy_bind; [|intros ?] | case_match].
Qed.

Lemma run_ops_ok os p : files_ok p -> exists p', run_ops os p = Ret (tt, p') /\ files_ok p'.
Proof.
  revert p. induction os as [|o os IH]; intros p Hp; [by exists p|]. destruct (run_op_tidy o p Hp) as (r & p1 & E & H1).
  destruct (IH p1 H1) as (p2 & E2 & H2). exists p2. split; [|done]. cbn [run_ops]. unfold mbind, stm_bind. by rewrite E.
Qed.

Lemma Exit_spec p : files_ok p -> exists p', Exit p = Ret (tt, p') /\ files_ok p' /\ opened p' = [] /\ pprof_to p' = None /\ trace_to p' = None.
Proof.
  intros Hp. destruct (StopCPUProfile_spec p Hp) as (r1 & p1 & E1 & H1 & C1 & _). destruct (StopGoTrace_spec p1 H1) as (r2 & p2 & E2 & H2 & T2 & C2).
  exists p2. unfold Exit, mbind, stm_bind. rewrite E1, E2. split; [done|]. split; [done|]. rewrite (fo_cpu _ H2), (fo_trace _ H2), C2, C1, T2. split; [|done].
  destruct (opened p2) as [|f l] eqn:Eo; [done|]. assert (Hf : f ∈ opened p2) by (rewrite Eo; by left). apply (fo_opened _ H2) in Hf. rewrite C2, C1, T2 in Hf. naive_solver.
Qed.

End Definitions.

Definition started : process := MkProcess (MkHandler None EmptyString None EmptyString) [] 0 None None.

Lemma started_ok : files_ok started.
Proof. constructor; try done; [constructor|intros f; cbn; split; [by intros ?%elem_of_nil|naive_solver]|by intros f ?%elem_of_nil]. Qed.

(** No profile or trace is left behind.  Whatever calls of the debugging API
    are made, and whichever of them fail to create their file or to start the
    profiler, they all return; the files that are open are exactly those of the
    profile and the trace that run, which are two different files; and the exit
    of the program stops both and closes every file. *)
Theorem profiles_closed `{Os} (os : list op) : exists p p',
  run_ops os started = Ret (tt, p) /\ files_ok p /\
  Exit p = Ret (tt, p') /\ opened p' = [] /\ pprof_to p' = None /\ trace_to p' = None.
Proof.
  destruct (run_ops_ok os started started_ok) as (p & E & Hp). destruct (Exit_spec p Hp) as (p' & E' & _ & H'). by exists p, p'.
Qed.

End Profiles.

(** ** utils/spin_lock.go *)

Module SpinLock.

(** The word [f] of the lock. *)
Definition TryLock (f : Z) : bool * Z := if f =? 0 then (true, 1) else (false, f).
Definition Unlock (f : Z) : Z := 0.
Definition String_ (f : Z) : string := if f =? 1 then "Locked" else "Unlocked".

(** A goroutine is outside, in the loop of [Lock], or has the lock. *)
Inductive phase := Outside | Spinning | Holding.

Record state := MkState { word : Z; phases : gmap nat phase }.

(** One turn of the loop is a [TryLock]; a failed one yields and goes on. *)
Definition turn (t : nat) (s : state) : state :=
  let '(ok, f) := TryLock (word s) in MkState f (<[t := if ok : bool then Holding else Spinning]> (phases s)).

(** [Unlock] is called by the holder, or by anyone while the lock is free. *)
Inductive step : state -> state -> Prop :=
| step_lock s t : phases s !! t = Some Outside -> step s (MkState (word s) (<[t := Spinning]> (phases s)))
| step_try s t : phases s !! t = Some Spinning -> step s (turn t s)
| step_unlock s t : phases s !! t = Some Holding -> step s (MkState (Unlock (word s)) (<[t := Outside]> (phases s)))
| step_unlock_free s : String_ (word s) = "Unlocked"%string -> step s (MkState (Unlock (word s)) (phases s)).

Record exclusive (s : state) : Prop := {
  ex_word : word s = 0 \/ word s = 1;
  ex_held : word s = 1 <-> exists t, phases s !! t = Some Holding;
  ex_one : forall t1 t2, phases s !! t1 = Some Holding -> phases s !! t2 = Some Holding -> t1 = t2
}.

(** Moving a goroutine that does not hold the lock between the other phases. *)
Lemma exclusive_move s t p : exclusive s -> p <> Holding -> phases s !! t <> Some Holding ->
  exclusive (MkState (word s) (<[t := p]> (phases s))).
Proof.
  intros [H1 H2 H3] Hp Ht. assert (Hx : forall u, <[t := p]> (phases s) !! u = Some Holding <-> phases s !! u = Some Holding).
  { intros u. rewrite lookup_insert_Some. destruct (decide (t = u)) as [->|]; naive_solver. }
  constructor; cbn [word phases]; [done| |].
  - rewrite H2. split; intros [u Hu]; exists u; by apply Hx.
  - intros t1 t2. rewrite !Hx. apply H3.
Qed.

Lemma step_exclusive s s' : exclusive s -> step s s' -> exclusive s'.
Proof.
  intros He Hs. destruct Hs as [s t Ht|s t Ht|s t Ht|s Hf].
  - apply exclusive_move; [done|done|congruence].
  - unfold turn, TryLock. destruct He as [H1 H2 H3]. destruct (Z.eqb_spec (word s) 0) as [H0|H0]; [|apply exclusive_move; [by constructor|done|congruence]].
    assert (Hn : forall u, phases s !! u <> Some Holding) by (intros u Hu; assert (word s = 1) by (apply H2; eauto); lia).
    constructor; cbn [word phases]; [by right|split; [intros _; exists t; by rewrite lookup_insert_eq|done]|].
    intros t1 t2. rewrite !lookup_insert_Some. naive_solver.
  - destruct He as [H1 H2 H3]. unfold Unlock. assert (Hn : forall u, <[t := Outside]> (phases s) !! u <> Some Holding).
    { intros u. rewrite lookup_insert_Some. intros [[_ ?]|[Hne Hu]]; [done|]. by apply Hne, H3. }
    constructor; cbn [word phases]; [by left|split; [done|by intros [u ?%Hn]]|by intros t1 t2 ?%Hn].
  - destruct He as [H1 H2 H3]. assert (word s = 0) as E.
    { unfold String_ in Hf. destruct (Z.eqb_spec (word s) 1); [done|]. destruct H1; done. }
    unfold Unlock. rewrite <- E. by destruct s.
Qed.

Definition unlocked (ts : gset nat) : state := MkState 0 (gset_to_gmap Outside ts).

(** The spin lock excludes and can be taken.  However goroutines interleave
    their attempts, and with any calls of [Unlock] on a free lock, at most one of
    them has the lock, which reads as locked exactly while one has it; and
    whenever it is free, the next attempt of any goroutine in its loop takes it. *)
Theorem spin_lock_excludes (ts : gset nat) (s : state) : rtc step (unlocked ts) s ->
  (forall t1 t2, phases s !! t1 = Some Holding -> phases s !! t2 = Some Holding -> t1 = t2) /\
  (String_ (word s) = "Locked"%string <-> exists t, phases s !! t = Some Holding) /\
  (forall t, phases s !! t = Some Spinning -> (forall u, phases s !! u <> Some Holding) -> phases (turn t s) !! t = Some Holding).
Proof.
  intros Hr. assert (exclusive s) as [H1 H2 H3].
  { remember (unlocked ts) as s0 eqn:E. assert (H0 : exclusive s0).
    { subst. constructor; cbn; [by left|split; [done|]|]; [intros [t Ht]|intros t1 t2 Ht]; apply lookup_gset_to_gmap_Some in Ht as [_ ?]; done. }
    clear E. induction Hr; [done|]. eauto using step_exclusive. }
  split; [exact H3|]. split.
  - rewrite <- H2. unfold String_. by destruct (Z.eqb_spec (word s) 1).
  - intros t Ht Hn. unfold turn, TryLock. destruct (Z.eqb_spec (word s) 0); [cbn [phases]; by rewrite lookup_insert_eq|].
    destruct H1 as [?|H1]; [done|]. apply H2 in H1 as [u Hu]. by apply Hn in Hu.
Qed.

Definition two : gset nat := {[0; 1]}%nat.
Definition held_by_0 : state := turn 0 (MkState 0 (<[0%nat := Spinning]> (phases (unlocked two)))).

Lemma held_by_0_reached : rtc step (unlocked two) held_by_0.
Proof.
  eapply rtc_l; [apply (step_lock _ 0%nat); reflexivity|]. eapply rtc_l; [apply (step_try _ 0%nat); reflexivity|]. apply rtc_refl.
Qed.

Lemma spin_lock_excludes_witness : phases held_by_0 !! 0%nat = Some Holding /\ phases held_by_0 !! 1%nat <> Some Holding /\ String_ (word held_by_0) = "Locked"%string.
Proof.
  destruct (spin_lock_excludes two held_by_0 held_by_0_reached) as (H1 & H2 & _). split; [reflexivity|].
  split; [intros H; discriminate (H1 0%nat 1%nat eq_refl H)|apply H2; by exists 0%nat].
Defined.

(** An [Unlock] by a goroutine that does not hold a taken lock lets a second one in. *)
Example stray_unlock : let s := turn 1 (MkState (Unlock (word held_by_0)) (<[1%nat := Spinning]> (phases held_by_0))) in
  phases s !! 0%nat = Some Holding /\ phases s !! 1%nat = Some Holding.
Proof. by split. Qed.

End SpinLock.

(** ** metrics/prometheus *)

(** Floating-point numbers and their text, as far as they are passed on. *)
Class Floats := {
  float64 : Type;
  of_int64 : Z -> float64;
  FormatFloat : float64 -> string;
  BuildFQName : string -> string -> string -> string   (** of the prometheus client *)
}.

Module Prometheus.

Section Definitions.
Context `{Floats}.

(** A snapshot of the metrics of go-ethereum: what is read of it.  Percentiles
    come in the order of the requested quantiles. *)
Record snapshot := MkSnapshot {
  Count : Z; Sum : Z; Min : Z; Max : Z; Mean : float64;
  Rate1 : float64; Rate5 : float64; Rate15 : float64; RateMean : float64;
  Percentiles : list float64 -> list float64 }.

Inductive metric :=
| Counter (count : Z) | Gauge (value : Z) | GaugeFloat64 (value : float64) | Healthcheck (err : option error)
| Meter (t : snapshot) | Histogram (t : snapshot) | Timer (t : snapshot) | ResettingTimer (t : snapshot)
| OtherMetric.

(** [dto.Metric]: a summary and labels. *)
Record Summary := MkSummary { SampleCount : option Z; SampleSum : option float64; Quantile : list (float64 * float64) }.
Record dto_Metric := MkDto { out_Summary : option Summary; out_Label : list (string * string) }.

Definition pairI (name : string) (val : Z) : string * string := (name, pretty val).
Definition pairF (name : string) (val : float64) : string * string := (name, FormatFloat val).

(** 0.5, 0.75, 0.95, 0.99, 0.999 *)
Context (qq : list float64).

(** The loop reads [ps[i]] for every [i] of [qq]. *)
Fixpoint quantiles (qs ps : list float64) : go (list (float64 * float64)) :=
  match qs, ps with
  | [], _ => Ret []
  | q :: qs, p :: ps => l ← quantiles qs ps; Ret ((q, p) :: l)
  | _ :: _, [] => Panics IndexOutOfRange
  end.

Definition rates (t : snapshot) : list (string * string) :=
  [pairF "rate1m" (Rate1 t); pairF "rate5m" (Rate5 t); pairF "rate15m" (Rate15 t); pairF "rate" (RateMean t)].
Definition extremes (t : snapshot) : list (string * string) := [pairI "min" (Min t); pairI "max" (Max t); pairF "mean" (Mean t)].

Definition Write (m : metric) (out : dto_Metric) : go dto_Metric :=
  match m with
  | Meter t => Ret (MkDto (Some (MkSummary (Some (u64 (Count t))) None [])) (rates t))
  | Histogram t =>
      q ← quantiles qq (Percentiles t qq);
      Ret (MkDto (Some (MkSummary (Some (u64 (Count t))) (Some (of_int64 (Sum t))) q)) (extremes t))
  | Timer t =>
      q ← quantiles qq (Percentiles t qq);
      Ret (MkDto (Some (MkSummary (Some (u64 (Count t))) (Some (of_int64 (Sum t))) q)) (extremes t ++ rates t))
  | ResettingTimer t =>
      q ← quantiles qq (Percentiles t qq);
      Ret (MkDto (Some (MkSummary None None q)) (out_Label out))
  | _ => Ret out
  end.

(** *** metrics.go *)

Definition prometheusDelims (name : string) : string := join ":" (split "/"%char name).

(** A collector: a function of the value, or one with the labels it declares. *)
Inductive collector := FuncCollector (value : float64) | Collector (fields : list string) (m : metric).

Definition namespace : string := "miniopera".

Definition collector_of (m : metric) : option collector :=
  match m with
  | Counter n => Some (FuncCollector (of_int64 n))
  | Gauge n => Some (FuncCollector (of_int64 n))
  | GaugeFloat64 v => Some (FuncCollector v)
  | Healthcheck err => Some (FuncCollector (of_int64 (match err with Some _ => 1 | None => 0 end)))
  | Meter t => Some (Collector ["rate1m"; "rate5m"; "rate15m"; "rate"]%string m)
  | Histogram t => Some (Collector ["min"; "max"; "mean"]%string m)
  | Timer t | ResettingTimer t => Some (Collector ["min"; "max"; "mean"; "rate1m"; "rate5m"; "rate15m"; "rate"]%string m)
  | OtherMetric => None
  end.

(** The full name and the collector. *)
Definition convertToPrometheusMetric (name : string) (m : metric) : option (string * collector) :=
  c ← collector_of m; Some (BuildFQName namespace EmptyString (prometheusDelims name), c).

(** *** handler.go *)

(** The registry refuses a name that is taken, which [collect] passes over. *)
Definition collect (name : string) (m : metric) (reg : gmap string collector) : gmap string collector :=
  match convertToPrometheusMetric name m with
  | None => reg
  | Some (n, c) => match reg !! n with Some _ => reg | None => <[n := c]> reg end
  end.

Definition ListenTo (ms : list (string * metric)) (reg : gmap string collector) : gmap string collector :=
  foldl (fun r nm => collect nm.1 nm.2 r) reg ms.

(** *** What the server shows *)

Lemma quantiles_zip qs ps : length ps = length qs -> quantiles qs ps = Ret (zip qs ps).
Proof. revert ps. induction qs as [|q qs IH]; intros [|p ps]; try done. intros [= E]. cbn [quantiles zip]. by rewrite IH. Qed.

(** The labels that a collector declares are those it writes, except for a
    resetting timer, which declares seven and writes none. *)
Lemma labels_declared (m : metric) fields out out' : (forall t, length (Percentiles t qq) = length qq) ->
  collector_of m = Some (Collector fields m) -> Write m out = Ret out' ->
  match m with ResettingTimer _ => length fields = 7%nat /\ out_Label out' = out_Label out | _ => (fst <$> out_Label out') = fields end.
Proof.
  intros Hp Hc Hw. destruct m; try done; cbn [Write collector_of] in *; rewrite ?quantiles_zip in Hw by apply Hp; cbn [mbind go_bind] in Hw;
    injection Hw as <-; injection Hc as <-; done.
Qed.

(** A metric keeps its collector, whatever is registered after it. *)
Lemma ListenTo_keeps ms reg n c : reg !! n = Some c -> ListenTo ms reg !! n = Some c.
Proof.
  revert reg. induction ms as [|[name m] ms IH]; intros reg Hn; [done|]. cbn [ListenTo foldl fst snd]. apply IH. unfold collect.
  destruct (convertToPrometheusMetric name m) as [[n' c']|]; [|done]. destruct (reg !! n') eqn:E; [done|].
  rewrite lookup_insert_ne; [done|congruence].
Qed.

End Definitions.
End Prometheus.

(** ** cmd/miniopera/metrics *)

Module DbSize.

(** An entry that [filepath.Walk] visits: an error, or whether it is a directory
    and its size. *)
Inductive entry := Unreadable (e : error) | Entry (is_dir : bool) (size : Z).

(** The walk stops at the first error. *)
Fixpoint walk (es : list entry) (size : Z) : Z * option error :=
  match es with
  | [] => (size, None)
  | Unreadable e :: _ => (size, Some e)
  | Entry d n :: es => walk es (if d then size else i64 (size + n))
  end.

Definition measureDbDir (datadir : option string) (visit : string -> list entry) : Z :=
  match datadir with
  | None => 0
  | Some dir =>
      if bool_decide (dir = EmptyString \/ dir = "inmemory"%string) then 0
      else match walk (visit dir) 0 with (size, None) => size | (_, Some _) => 0 end
  end.

Definition file_size (e : entry) : Z := match e with Entry false n => n | _ => 0 end.

Lemma walk_sum es size : Forall (fun e => match e with Unreadable _ => False | Entry _ n => 0 <= n end) es -> 0 <= size ->
  size + foldr Z.add 0 (file_size <$> es) < 2 ^ 63 -> walk es size = (size + foldr Z.add 0 (file_size <$> es), None).
Proof.
  intros Hf. revert size. induction Hf as [|e es He Hf IH]; intros size H0 Hs; [cbn; f_equal; lia|].
  destruct e as [e|d n]; [done|]. assert (0 <= foldr Z.add 0 (file_size <$> es)).
  { clear - Hf. induction Hf as [|e es He Hf IH]; [done|]. csimpl. destruct e as [|[] ?]; simpl; lia. }
  csimpl in Hs. cbn [walk]. destruct d; cbn [file_size] in *; rewrite IH by (rewrite ?i64_id by lia; lia); csimpl; f_equal; rewrite ?i64_id by lia; lia.
Qed.

End DbSize.
