(* ===== verification/Launch.v ===== *)
(** * integration and the start of a node

    [src/integration/assembly.go] opens the databases, writes the genesis and
    makes the consensus engine; [makeNode] of [src/cmd/miniopera/main.go] makes
    the service over them; [Start] and [Stop] of [src/gossip/service.go] run it.
    A node can be launched on an empty database, and again on whatever it had
    flushed when it was stopped or killed. *)

From Stdlib Require Import ZArith Lia Bool Sorted.
From stdpp Require Import base list numbers option strings gmap sorting.
From S2P Require Import Prelude Kv Sha256 Fast Event Serializer EventBuild Store StoreSpec Genesis Checks Emitter Peer PeerSpec Service.
From S2P Require Import ServiceSpec ChainSpec ServiceWorld Handler HandlerSpec Utils.
Import Event Serializer EventBuild Store StoreSpec Genesis Checks Emitter Peer PeerSpec Service ServiceSpec ChainSpec ServiceWorld Handler HandlerSpec.
Local Open Scope Z_scope.

(** The databases of the engine (lachesis-base): writing its genesis, making the
    engine over them, and restoring its state. *)
Class EngineBoot (V : Type) `{Engine V} := {
  engine_db : Type;
  abft_ApplyGenesis : engine_db -> Z -> V -> list Z -> engine_db * option error;
  NewLachesis : engine_db -> engine;
  engine_Bootstrap : engine -> engine * option error
}.

Module Launch.

Section Definitions.
Context {V : Type}.
Context `{LachesisBase, LachesisIdx, Rlp, Kv, Lru}.
Context `{Codec Block, Codec PackInfo, Codec BlockState, Codec (EpochState V)}.
Context `{BaseChecks V, Engine V, EmitterExt, Environment, P2p, GossipExt, PosBuilder V, !EngineBoot V}.
Context (keccak_hex : string -> list Z) (FakeKey : Z -> private_key).

(** ** gossip/store.go, store_migration.go *)

(** [NewStore] over the databases of the pool: the tables are there, the caches
    are new, and no database of an epoch is in use. *)
Definition OpenStore (cfg : StoreConfig) (dbs : Store V) : Store V :=
  MkStore (BlockStateT dbs) (EpochStateT dbs) (Events dbs) (Blocks dbs) (PackInfos dbs) (Packs dbs) (PacksNum dbs)
    (makeCache Event (EventsCacheSize cfg)) (makeCache Block (BlockCacheSize cfg)) (makeCache PackInfo (PackInfosCacheSize cfg))
    None None (epochDBs dbs) None.

(** The chain of migrations has no steps yet. *)
Definition migrations : Migration.Migration (D := Store V) := Migration.Begin "miniopera-gossip-store".

Definition Migrate (versions : tbl) (s : Store V) : go (option error * Store V) :=
  '(err, (_, s)) ← Migration.Exec keccak_hex migrations (versions, s); Ret (err, s).

(** ** integration/assembly.go *)

(** What is on disk: the table of versions, the databases of the store and those
    of the engine. *)
Record Databases := MkDatabases { db_versions : tbl; db_store : Store V; db_engine : engine_db }.

(** [SyncedPool.Flush] of lachesis-base, as in [Commit]: with [flush] for what it
    returns, it writes the tables of [gdb] over those on disk, [dsk], or none. *)
Definition pool_Flush (flush : list Z -> option error) (id : list Z) (dsk gdb : Store V) : option error * Store V :=
  match flush id with
  | Some e => (Some e, dsk)
  | None => (None, gdb)
  end.

(** The engine, the pool of databases, of which the tables of the store are kept
    as they are on disk, and the store. *)
Definition MakeEngine (flush : list Z -> option error) (cfg : Config) (dbs : Databases) : go (engine * Store V * Store V) :=
  let gdb := OpenStore (cfg_Store cfg) (db_store dbs) in
  '(err, gdb) ← Migrate (db_versions dbs) gdb;
  match err with
  | Some _ => Exits "Failed to migrate Gossip DB"
  | None =>
      '(r, gdb) ← ApplyGenesis (cfg_Net cfg) gdb;
      match gen_err r with
      | Some _ => Exits "Failed to write Gossip genesis state"
      | None =>
          '(cdb, gdb) ← (if new r
                         then '(ep, gdb) ← GetEpoch gdb;
                              let '(cdb, err) := abft_ApplyGenesis (db_engine dbs) ep
                                (Validators_Build (gen_Validators (net_Genesis (cfg_Net cfg)))) (genesisAtropos r) in
                              match err with
                              | Some _ => Exits "Failed to write Miniopera genesis state"
                              | None => Ret (cdb, gdb)
                              end
                         else Ret (db_engine dbs, gdb));
          let '(err, dsk) := pool_Flush flush (genesisAtropos r) (db_store dbs) gdb in
          match err with
          | Some _ => Exits "Failed to flush genesis state"
          | None => Ret (NewLachesis cdb, dsk, gdb)
          end
      end
  end.

(** ** cmd/miniopera/main.go: the constructor registered by [makeNode] *)

Definition gossipService (cfg : Config) (eng : engine) (dsk gdb : Store V) (em : Emitter) : go (Service V) :=
  svc ← NewService (cfg_Net cfg) (cfg_Protocol cfg) eng em dsk gdb;
  let '(eng, err) := engine_Bootstrap (svc_engine svc) in
  match err with
  | Some e => Err e
  | None => Ret (set_engine eng svc)
  end.

(** ** gossip/service.go: [Start] and [Stop] *)

(** The intervals are randomized with [r1] and [r2]. *)
Definition makeEmitter (net : NetConfig) (config : EmitterConfig) (r1 r2 : Z) : Emitter :=
  New net (MkEmitterConfig (ec_Validator config) (BytesPerSec config) (PayloadSize config)
             (EpochTailLength config) (RandomizeEmitTime (ec_EmitIntervals config) r1 r2)).

Definition Start (maxPeers : Z) (config : EmitterConfig) (r1 r2 : Z) : stm (Service V) unit :=
  ep ← on_store GetEpoch;
  _ ← on_store (loadEpochStore ep);
  g ← on_store (GetBlock 0);
  _ ← lift (atropos_of g);
  _ ← PM_Start maxPeers;
  _ ← tell (CallStart "serverPool");
  let key := if ec_Validator config =? 0 then None else Some (FakeKey (ec_Validator config)) in
  net ← gets svc_net;
  _ ← modify (set_emitter (makeEmitter net config r1 r2));
  StartEventEmission (V := V) key.

Definition Stop : stm (Service V) (option error) :=
  _ ← StopEventEmission;
  _ ← PM_Stop;
  _ ← modify (set_stopped true);
  Commit None true.

(** ** A whole start *)

(** What the environment of a launch decides: the result of the flush, the limit
    of peers, and the random intervals of the emitter. *)
Record Start_env := MkStartEnv { se_flush : list Z -> option error; se_maxPeers : Z; se_r1 : Z; se_r2 : Z }.

Definition launch (env : Start_env) (cfg : Config) (dbs : Databases) : go (Service V) :=
  '(eng, dsk, gdb) ← MakeEngine (se_flush env) cfg dbs;
  svc ← gossipService cfg eng dsk gdb (New (cfg_Net cfg) (cfg_Emitter cfg));
  '(_, svc) ← Start (se_maxPeers env) (cfg_Emitter cfg) (se_r1 env) (se_r2 env) svc;
  Ret svc.

(** ** integration/integration.go: the service of the integration tests *)

Definition integration_config (network : NetConfig) (validator : Z) : Config :=
  let cfg := DefaultConfig network in
  let em := cfg_Emitter cfg in
  let ei := ec_EmitIntervals em in
  MkConfig (cfg_Net cfg)
    (MkEmitterConfig validator (BytesPerSec em) (PayloadSize em) (EpochTailLength em)
       (MkEmitIntervals (ei_Min ei) (3 * second) 0 (ParallelInstanceProtection ei)))
    (cfg_Store cfg) (cfg_Protocol cfg).

(** The engine is made with the configuration before the changes. *)
Definition NewIntegration (flush : list Z -> option error) (network : NetConfig) (validator : Z) (dbs : Databases) : go (Service V) :=
  '(eng, dsk, gdb) ← MakeEngine flush (DefaultConfig network) dbs;
  let cfg := integration_config network validator in
  match gossipService cfg eng dsk gdb (New (cfg_Net cfg) (cfg_Emitter cfg)) with
  | Err (Error msg) => Panics (PanicMsg msg)
  | r => r
  end.

End Definitions.
Arguments Databases V {_ _ _ _}.
End Launch.
