(* ===== verification/LaunchSpec.v ===== *)
(** * A node can be launched, and launched again

    On an empty database a launch writes the genesis and gives a running node.
    On the databases a node has flushed, whenever it was stopped or killed, a
    launch gives a running node with exactly the flushed events, blocks and
    packs. *)

From Stdlib Require Import ZArith Lia Bool Sorted.
From stdpp Require Import base list numbers option strings gmap sorting.
From S2P Require Import Prelude Kv Sha256 Fast Event Serializer EventBuild Store StoreSpec Genesis Checks Emitter Peer PeerSpec Service.
From S2P Require Import ServiceSpec ChainSpec ServiceWorld Handler HandlerSpec Utils Launch.
Import Event Serializer EventBuild Store StoreSpec Genesis Checks Emitter Peer PeerSpec Service ServiceSpec ChainSpec ServiceWorld Handler HandlerSpec Launch.
Local Open Scope Z_scope.

Module LaunchSpec.

Section Spec.
Context {V : Type}.
Context {LB : LachesisBase} {LBL : LachesisBaseLaws LB} {LI : LachesisIdx} {LIL : LachesisIdxLaws LI}.
Context {R : Rlp} {RL : RlpLaws R} {K : Kv} {KL : KvLaws K} {L : Lru} {LL : LruLaws L}.
Context {CB : Codec Block} {CBL : CodecLaws Block} {CP : Codec PackInfo} {CPL : CodecLaws PackInfo}.
Context {CS : Codec BlockState} {CSL : CodecLaws BlockState}.
Context {CE : Codec (EpochState V)} {CEL : CodecLaws (EpochState V)}.
Context {BC : BaseChecks V} {BCL : BaseChecksLaws V} {EN : Engine V} {ENL : EngineLaws V} {X : EmitterExt} {XL : EmitterExtLaws X}.
Context {ENV : Environment} {N : P2p} {G : GossipExt} {PB : PosBuilder V} {PBL : PosBuilderLaws V} {BOOT : EngineBoot V}.
Context (keccak_hex : string -> list Z) (FakeKey : Z -> private_key).
Abbreviation Service := (Service V).
Abbreviation Store := (Store V).

(** ** Opening a store *)

Lemma makeCache_agrees {A} n (f : list Z -> option A) : agrees (makeCache A n) f.
Proof. unfold makeCache. destruct (n <=? 0); [done|]. intros k v. by rewrite lru_new_view, lookup_empty. Qed.

Lemma OpenStore_ok cfg (s : Store) : store_ok s -> store_ok (OpenStore cfg s).
Proof. intros []. constructor; try done; apply makeCache_agrees. Qed.

Lemma Migrate_spec versions (s : Store) : kv_map versions !! Migration.idKey = None ->
  or_exit (Migrate keccak_hex versions s) (fun r => r = (None, s)).
Proof.
  intros Hv. unfold Migrate, migrations. apply or_exit_bind. cbn [Migration.Exec].
  destruct (Migration.GetID_then (D := Store) (fun c => mret (if bool_decide (c = []) then None else Some Migration.errUnknownVersion))
    (versions, s)) as [->|(x & -> & Hx)]; [|exact Hx].
  unfold Migration.version_of. cbn [fst]. rewrite Hv. done.
Qed.

(** ** Code that only reads, on a running node *)

Lemma chain_ok_tables (s s' : Store) n : Blocks s' = Blocks s -> BlockStateT s' = BlockStateT s -> store_ok s' -> chain_ok s n -> chain_ok s' n.
Proof.
  intros E1 E2 Hok [H1 H2 H3 H4]. constructor; unfold block_state_at, block_at in *; rewrite ?E1, ?E2; try done.
  intros v Hv. pose proof (ok_cBlockState _ Hok v Hv) as Hs. unfold block_state_at in Hs. by rewrite E2 in Hs.
Qed.

Lemma running_same (s s' : Service) es n b0 : running s es n b0 -> same_tables (svc_store s) (svc_store s') -> store_ok (svc_store s') ->
  svc_net s' = svc_net s -> PubKeys s' = PubKeys s -> disk s' = disk s -> running s' es n b0.
Proof.
  intros [Hn Hc Hg Hd] Ht Hok E1 E2 E3. pose proof Ht as (A1 & A2 & _ & A4 & _). pose proof Hn as (He & Hb & _). constructor.
  - apply (node_ok_same s); try done; [by apply same_tables_dag|..]; unfold epoch_state_at, block_state_at; by rewrite ?A1, ?A2.
  - by apply (chain_ok_tables (svc_store s)).
  - unfold block_at. by rewrite A4.
  - by rewrite E3.
Qed.

Lemma running_ok s es n b0 : running s es n b0 -> store_ok (svc_store s).
Proof. intros [(_ & _ & Hd & _) _ _ _]. apply (d_store _ _ Hd). Qed.

Definition readonly {A} (m : stm Service A) : Prop := forall s es n b0, running s es n b0 ->
  wp m (fun _ s' => running s' es n b0 /\ same_tables (svc_store s) (svc_store s')) s.

Lemma readonly_bind {A B} (m : stm Service A) (f : A -> stm Service B) : readonly m -> (forall x, readonly (f x)) -> readonly (m ≫= f).
Proof.
  intros Hm Hf s es n b0 Hr. apply wp_bind. eapply wp_mono; [by apply Hm|]. intros x s1 [H1 T1].
  eapply wp_mono; [by apply Hf|]. intros y s2 [H2 T2]. split; [done|by etrans].
Qed.

Lemma readonly_ret {A} (x : A) : readonly (mret x).
Proof. intros s es n b0 Hr. wp_run. by split. Qed.

Lemma readonly_gets {A} (f : Service -> A) : readonly (gets f).
Proof. intros s es n b0 Hr. wp_run. by split. Qed.

Lemma readonly_modify (f : Service -> Service) :
  (forall s, svc_store (f s) = svc_store s /\ svc_net (f s) = svc_net s /\ PubKeys (f s) = PubKeys s /\ disk (f s) = disk s) -> readonly (modify f).
Proof.
  intros Hf s es n b0 Hr. wp_run. destruct (Hf s) as (E1 & E2 & E3 & E4). rewrite E1. split; [|reflexivity].
  apply (running_same s); rewrite ?E1; try done. by eapply running_ok.
Qed.

Lemma readonly_store {A} (m : stm Store A) :
  (forall (s : Store) es, store_ok s -> epoch_state_at s = Some es -> wp m (fun _ s' => store_ok s' /\ same_tables s s') s) -> readonly (on_store m).
Proof.
  intros Hm s es n b0 Hr. apply wp_on_store. eapply wp_mono; [apply (Hm _ es); [by eapply running_ok|exact (proj1 (ru_node _ _ _ _ Hr))]|].
  intros x st [Hok Ht]. split; [|done]. by apply (running_same s).
Qed.

Lemma readonly_next {A} (f : nat -> A) : readonly (next f).
Proof. unfold next. apply readonly_bind; [apply readonly_gets|intros n]. apply readonly_bind; [by apply readonly_modify|intros _; apply readonly_ret]. Qed.

(** A stored block can be read. *)
Lemma wp_stored_block {B} i s es n b0 (f : list Z -> stm Service B) : running s es n b0 -> 0 <= i <= n -> (forall x, readonly (f x)) ->
  wp (b ← on_store (GetBlock i); x ← lift (atropos_of b); f x) (fun _ s' => running s' es n b0 /\ same_tables (svc_store s) (svc_store s')) s.
Proof.
  intros Hr Hi Hf. wp_run. apply wp_on_store. pose proof (ru_chain _ _ _ _ Hr) as [Hn _ _ Hb]. destruct (Hb i Hi) as [b Eb].
  eapply wp_mono; [apply GetBlock_spec; [by eapply running_ok|unfold is_uint in *; lia]|]. intros r st (-> & Hok & c & ->). rewrite Eb. wp_run. cbn [atropos_of or_exit].
  eapply wp_mono; [apply Hf; apply (running_same s); try done; by split_and!|]. intros x s2 [H2 T2]. split; [done|]. etrans; [|exact T2]. by split_and!.
Qed.

Ltac store_reads lem := apply readonly_store; intros ? ? ? ?; (eapply wp_mono; [by eapply lem|]); intros ? ? Hx; cbv beta in Hx;
  destruct_and?; simplify_eq; repeat match goal with H : exists _, _ |- _ => destruct H end; simplify_eq; by split; [|split_and!].

Lemma readonly_GetEpoch : readonly (on_store GetEpoch).
Proof. store_reads GetEpoch_spec. Qed.

Lemma readonly_GetEpochValidators : readonly (on_store GetEpochValidators).
Proof. store_reads GetEpochValidators_spec. Qed.

Lemma readonly_GetEvent i : readonly (on_store (GetEvent i)).
Proof. store_reads (GetEvent_spec (V := V)). Qed.

Lemma readonly_GetLastEvent v : readonly (on_store (GetLastEvent v)).
Proof. store_reads (GetLastEvent_spec (V := V)). Qed.

Lemma readonly_GetPacksNumOrDefault e : readonly (on_store (GetPacksNumOrDefault e)).
Proof. store_reads (GetPacksNumOrDefault_spec (V := V)). Qed.

Lemma readonly_GetPackInfoOrDefault e i : readonly (on_store (GetPackInfoOrDefault e i)).
Proof. store_reads (GetPackInfoOrDefault_spec (V := V)). Qed.

Lemma readonly_myProgress : readonly myProgress.
Proof.
  intros s es n b0 Hr. unfold myProgress, GetLatestBlockIndex. wp_run. apply wp_on_store. wp_run.
  pose proof (ru_chain _ _ _ _ Hr) as [Hn [k Hk] _ _]. eapply wp_mono; [apply GetBlockState_spec; [by eapply running_ok|done]|].
  intros r st (-> & Hok & c & ->). wp_step. set (s1 := set_store _ s). assert (H1 : running s1 es n b0) by (apply (running_same s); try done; by split_and!).
  eapply wp_mono; [apply (wp_stored_block n s1 es n b0); [done|unfold is_uint in *; lia|]|].
  - intros x. apply readonly_bind; [apply readonly_GetEpoch|intros ep]. apply readonly_bind; [apply readonly_GetPacksNumOrDefault|intros num].
    apply readonly_bind; [apply readonly_GetPackInfoOrDefault|intros info]. apply readonly_ret.
  - intros p s2 [H2 T2]. split; [done|]. etrans; [|exact T2]. by split_and!.
Qed.

Lemma readonly_PM_Start m : readonly (PM_Start m).
Proof.
  unfold PM_Start, tell, mod_pm. repeat (apply readonly_bind; [first [apply readonly_myProgress|by apply readonly_modify]|intros ?]).
  by apply readonly_modify.
Qed.

Lemma readonly_StartEventEmission key : readonly (StartEventEmission (V := V) key).
Proof.
  unfold StartEventEmission, init, loadPrevEmitTime, mod_sync, mod_em, get_em. change time_Now with (next clock).
  change (w_GetEpochValidators (V := V)) with (on_store (GetEpochValidators (V := V))).
  change (w_GetLastEvent (V := V)) with (fun v => on_store (GetLastEvent (V := V) v)).
  change (w_GetEvent (V := V)) with (fun i => on_store (GetEvent (V := V) i)). cbv beta.
  repeat first
    [ apply readonly_ret | apply readonly_gets | apply readonly_next | by apply readonly_modify | apply readonly_GetEpochValidators
    | apply readonly_GetLastEvent | apply readonly_GetEvent | apply readonly_bind; [|intros ?] | case_match ].
Qed.

(** ** Starting the service *)

(** What the databases hold is what the store shows. *)
Definition restored (dbs s : Store) : Prop :=
  BlockStateT s = BlockStateT dbs /\ EpochStateT s = EpochStateT dbs /\ Events s = Events dbs /\ Blocks s = Blocks dbs /\
  PackInfos s = PackInfos dbs /\ Packs s = Packs dbs /\ PacksNum s = PacksNum dbs /\
  forall e, default (MkEpochTables kv_empty kv_empty) (epochDBs s !! e) = default (MkEpochTables kv_empty kv_empty) (epochDBs dbs !! e).

Lemma restored_tables dbs s s' : restored dbs s -> same_tables s s' -> restored dbs s'.
Proof.
  intros (A1 & A2 & A3 & A4 & A5 & A6 & A7 & A8) (B1 & B2 & B3 & B4 & B5 & B6 & B7 & B8 & _). split_and!; [congruence..|].
  intros e. by rewrite B8.
Qed.

Lemma load_epoch_db (s : Store) E : dag_ok (set_epochStore (Some E) s) E -> epochStore s = None ->
  wp (loadEpochStore E) (fun _ s' => dag_ok s' E /\ restored s s' /\ exists d, s' = set_epochStore (Some E) (set_epochDBs d s)) s.
Proof.
  intros [D1 D2 D3 D4 D5 D6 D7 D8] Ho. unfold loadEpochStore, createEpochStore. wp_run. rewrite Ho. wp_run.
  set (s' := set_epochStore _ _). assert (Hc : cur_tables s' = cur_tables (set_epochStore (Some E) s)).
  { unfold cur_tables. cbn [s' epochStore set_epochStore set_epochDBs epochDBs mbind option_bind]. by rewrite lookup_insert_eq. }
  split; [|split; [split_and!; try done; intros e|by eexists]].
  - constructor; try done; unfold cur_heads, cur_tips in *; rewrite ?Hc; try done.
    + destruct D1. by constructor.
    + intros n. cbn [s' epochDBs set_epochStore set_epochDBs]. rewrite lookup_insert_is_Some. intros [->|[_ Hn]]; [lia|by apply D4].
  - cbn [s' epochDBs set_epochStore set_epochDBs]. destruct (decide (e = E)) as [->|Hne]; [by rewrite lookup_insert_eq|by rewrite lookup_insert_ne].
Qed.

(** The state of the service between its creation and [Start]. *)
Record created (s : Service) (b0 : Block) (dbs : Store) : Prop := {
  cr_durable : durable (svc_store s) b0;
  cr_store : store_ok (svc_store s);
  cr_closed : epochStore (svc_store s) = None;
  cr_restored : restored dbs (svc_store s);
  cr_disk : durable (disk s) b0;
  cr_flushed : restored (disk s) (svc_store s);
  cr_keys : forall es, epoch_state_at (svc_store s) = Some es ->
    PubKeys s = Some (NewEpochPubKeys (es_Epoch es) (gen_Validators (net_Genesis (svc_net s))))
}.

Lemma Start_running s b0 dbs m ec r1 r2 : created s b0 dbs ->
  wp (Start FakeKey m ec r1 r2) (fun _ s' => exists es n, running s' es n b0 /\ epoch_state_at dbs = Some es /\
    (exists k, block_state_at dbs = Some (MkBlockState n k)) /\ restored dbs (svc_store s')) s.
Proof.
  intros [Hdu Hok Ho Hres Hdisk _ Hk]. destruct Hdu as [(es & He & Hd & Hp) [n Hc] Hg].
  unfold Start. wp_step. apply wp_on_store.
  eapply wp_mono; [by eapply GetEpoch_spec|]. intros ep st (-> & Hok1 & c & ->). wp_step. apply wp_on_store. cbn [svc_store set_store].
  eapply wp_mono; [apply load_epoch_db; [|exact Ho]|].
  { apply (dag_ok_same (set_epochStore (Some (es_Epoch es)) (svc_store s))); try done. destruct Hok1. by constructor. }
  intros _ st (Hd1 & Hr1 & d & ->). set (s1 := set_store _ _).
  assert (H1 : running s1 es n b0).
  { constructor; [|by apply (chain_ok_same (svc_store s))|exact Hg|exact Hdisk].
    split_and!; [exact He|destruct Hc as [_ [k Hk'] _ _]; by exists (MkBlockState n k)|exact Hd1| |by apply Hk].
    by apply (packs_ok_same (svc_store s)). }
  assert (Hres1 : restored dbs (svc_store s1)).
  { destruct Hres as (A1 & A2 & A3 & A4 & A5 & A6 & A7 & A8), Hr1 as (_ & _ & _ & _ & _ & _ & _ & B8). split_and!; try done.
    intros e. etrans; [apply B8|apply A8]. }
  eapply wp_mono; [apply (wp_stored_block 0 s1 es n b0); [done|destruct (ch_num _ _ Hc); lia|]|].
  - intros x. apply readonly_bind; [apply readonly_PM_Start|intros _]. apply readonly_bind; [by apply readonly_modify|intros _].
    apply readonly_bind; [apply readonly_gets|intros net]. apply readonly_bind; [by apply readonly_modify|intros _]. apply readonly_StartEventEmission.
  - intros x s2 [H2 T2]. exists es, n. split; [done|]. split; [|split; [|by eapply restored_tables]].
    + unfold epoch_state_at in *. by destruct Hres as (_ & <- & _).
    + destruct Hc as [_ [k Hk'] _ _]. exists k. unfold block_state_at in *. by destruct Hres as (<- & _).
Qed.

(** Starting writes nothing to disk. *)
Lemma Start_disk m ec r1 r2 : frames same_disk (Start FakeKey m ec r1 r2).
Proof.
  assert (Hs : forall A (m : stm Store A), frames same_disk (on_store m)) by (intros; apply disk_store).
  assert (Hn : forall A (f : nat -> A), frames same_disk (next (V := V) f)) by (intros; apply disk_next).
  unfold Start, PM_Start, myProgress, tell, mod_pm, StartEventEmission, init, loadPrevEmitTime, mod_sync, mod_em, get_em.
  change time_Now with (next clock). change (w_GetEpochValidators (V := V)) with (on_store (GetEpochValidators (V := V))).
  change (w_GetLastEvent (V := V)) with (fun v => on_store (GetLastEvent (V := V) v)).
  change (w_GetEvent (V := V)) with (fun i => on_store (GetEvent (V := V) i)). cbv beta.
  repeat first [apply Hs|apply Hn|frame_step].
Qed.

Lemma Start_spec s b0 dbs m ec r1 r2 : created s b0 dbs ->
  wp (Start FakeKey m ec r1 r2) (fun _ s' => (exists es n, running s' es n b0 /\ epoch_state_at dbs = Some es /\
    (exists k, block_state_at dbs = Some (MkBlockState n k)) /\ restored dbs (svc_store s')) /\ restored (disk s') (svc_store s')) s.
Proof.
  intros Hc. assert (Hc' : created s b0 (disk s)) by (destruct Hc; by constructor).
  eapply wp_mono; [apply (wp_frames same_disk _ _ _ (Start_disk m ec r1 r2) (wp_and _ _ _ _ (Start_running s b0 dbs m ec r1 r2 Hc) (Start_running s b0 _ m ec r1 r2 Hc')))|].
  intros x s' [[H1 (es & n & _ & _ & _ & H2)] Hd]. split; [exact H1|]. by rewrite (proj1 Hd).
Qed.

(** The engine's databases accept the genesis, or are restored. *)
Definition engine_ready (cfg : Config) (dbs : Databases V) (h : list Z) : Prop :=
  snd (abft_ApplyGenesis (db_engine dbs) first_epoch (Validators_Build (gen_Validators (net_Genesis (cfg_Net cfg)))) h) = None /\
  forall eng, snd (engine_Bootstrap eng) = None.

(** On a store that has just been flushed. *)
Lemma gossipService_spec cfg eng gdb em b0 : durable gdb b0 -> store_ok gdb -> epochStore gdb = None ->
  (forall eng, snd (engine_Bootstrap eng) = None) ->
  or_exit (gossipService cfg eng gdb gdb em) (fun s => created s b0 gdb).
Proof.
  intros Hdu Hok Ho Hb. pose proof Hdu as [(es & He & Hd & Hp) [n Hc] Hg]. unfold gossipService, NewService. apply or_exit_bind. apply or_exit_bind.
  eapply or_exit_mono; [apply (GetEpoch_spec gdb es Hok He)|]. intros [ep st] (Ee & Hok2 & c & Est). cbn [fst snd] in *. subst ep st. cbn [or_exit].
  cbn [svc_engine]. specialize (Hb eng). destruct (engine_Bootstrap eng) as [eng' err]. cbn [snd] in Hb. subst err. cbn [or_exit].
  assert (Hdu' : durable (set_cEpochState c gdb) b0).
  { constructor; [|exists n; by apply (chain_ok_same gdb)|exact Hg]. exists es. split_and!; [exact He| |by apply (packs_ok_same gdb)].
    apply (dag_ok_same (set_epochStore (Some (es_Epoch es)) gdb)); try done. destruct Hok2. by constructor. }
  constructor; try done. intros es2 He2. replace es2 with es; [done|]. unfold epoch_state_at in *. cbn in He2. congruence.
Qed.

(** ** Making the engine *)

(** The tables of all databases; which one of an epoch is in use may differ. *)
Definition same_databases (s s' : Store) : Prop :=
  BlockStateT s' = BlockStateT s /\ EpochStateT s' = EpochStateT s /\ Events s' = Events s /\ Blocks s' = Blocks s /\
  PackInfos s' = PackInfos s /\ Packs s' = Packs s /\ PacksNum s' = PacksNum s /\ epochDBs s' = epochDBs s.

Lemma durable_same s s' b0 : durable s b0 -> store_ok s' -> same_databases s s' -> durable s' b0.
Proof.
  intros [(es & He & Hd & Hp) [n Hc] Hg] Hok (A1 & A2 & A3 & A4 & A5 & A6 & A7 & A8). constructor.
  - exists es. split_and!; [unfold epoch_state_at; by rewrite A2| |].
    + apply (dag_ok_same (set_epochStore (Some (es_Epoch es)) s)); try done; [destruct Hok; by constructor|].
      intros i. unfold event_at. cbn. by rewrite A3.
    + apply (packs_ok_same s); try done; intros; unfold event_at, pack_info_at; by rewrite ?A3, ?A5.
  - exists n. by apply (chain_ok_tables s).
  - unfold block_at. by rewrite A4.
Qed.

(** A fresh store with its genesis. *)
Lemma genesis_durable (s : Store) net h : store_ok s -> genesis_written s net h ->
  (forall i, event_at s i = None) -> epochDBs s = ∅ -> Packs s = kv_empty -> PacksNum s = kv_empty -> PackInfos s = kv_empty ->
  durable s (genesis_block net h).
Proof.
  intros Hok (Hb & He & Hs) Hev Hdb Hp Hn Hi. constructor; [|exists 0; constructor|exact Hb].
  - exists (genesis_epoch net). split_and!; [done| |by apply fresh_packs_ok].
    assert (Hcur : forall E, cur_heads (set_epochStore (Some E) s) = ∅ /\ cur_tips (set_epochStore (Some E) s) = ∅).
    { intros E. unfold cur_heads, cur_tips, cur_tables. cbn [epochStore set_epochStore epochDBs mbind option_bind]. rewrite Hdb, lookup_empty.
      split; exact kv_empty_map. }
    destruct (Hcur (es_Epoch (genesis_epoch net))) as [Hh Ht]. set (s' := set_epochStore _ s) in *.
    assert (Hev' : forall i, event_at s' i = None) by exact Hev. constructor; try done.
    + destruct Hok. by constructor.
    + apply first_epoch_ok.
    + intros n. cbn [s' epochDBs set_epochStore]. rewrite Hdb, lookup_empty. by intros [? ?].
    + intros i e. by rewrite Hev'.
    + intros i e p. by rewrite Hev'.
    + intros x. rewrite Hh, lookup_empty. split; [by intros [? ?]|]. intros [(e & Hx & _) _]. by rewrite Hev' in Hx.
    + intros v i _. by rewrite Ht, lookup_empty.
    + intros i e. by rewrite Hev'.
  - unfold is_uint. lia.
  - by exists 0.
  - intros v Hv. by apply (ok_cBlockState _ Hok).
  - intros i Hi'. replace i with 0 by lia. by rewrite Hb.
Qed.

Lemma durable_ok s b0 : durable s b0 -> store_ok s.
Proof. intros [(es & _ & Hd & _) _ _]. destruct (d_store _ _ Hd). by constructor. Qed.

(** The databases of a network with genesis [b0]. *)
Definition databases_of (cfg : Config) (dbs : Databases V) (b0 : Block) : Prop :=
  durable (db_store dbs) b0 /\ prettyHash (cfg_Net cfg) = Ret (atropos b0) /\ kv_map (db_versions dbs) !! Migration.idKey = None.

Lemma MakeEngine_known flush cfg dbs b0 : databases_of cfg dbs b0 -> (forall f, flush f = None) ->
  or_exit (MakeEngine keccak_hex flush cfg dbs) (fun r => snd (fst r) = snd r /\ durable (snd r) b0 /\ store_ok (snd r) /\
    epochStore (snd r) = None /\ same_databases (db_store dbs) (snd r)).
Proof.
  intros (Hd & Hh & Hv) Hf. unfold MakeEngine. apply or_exit_bind. eapply or_exit_mono; [by apply Migrate_spec|]. intros r ->.
  pose proof (OpenStore_ok (cfg_Store cfg) _ (durable_ok _ _ Hd)) as Hok. apply or_exit_bind.
  eapply or_exit_mono; [exact (ApplyGenesis_known _ (cfg_Net cfg) b0 _ Hok (du_genesis _ _ Hd) Hh)|].
  intros [r gdb] (Er & Hok2 & c & Eg). cbn [fst snd] in *. subst r gdb. rewrite decide_True by done. cbn [gen_err new genesisAtropos mbind go_bind].
  unfold pool_Flush. rewrite Hf. cbn [or_exit snd]. split_and!; try done. by apply (durable_same (db_store dbs)).
Qed.

Lemma MakeEngine_fresh flush cfg versions edb a b c h : net_ok (cfg_Net cfg) -> prettyHash (cfg_Net cfg) = Ret h ->
  kv_map versions !! Migration.idKey = None -> (forall f, flush f = None) -> engine_ready cfg (MkDatabases versions (NewStore a b c) edb) h ->
  or_exit (MakeEngine keccak_hex flush cfg (MkDatabases versions (NewStore a b c) edb)) (fun r =>
    snd (fst r) = snd r /\ durable (snd r) (genesis_block (cfg_Net cfg) h) /\ store_ok (snd r) /\ epochStore (snd r) = None /\
    epoch_state_at (snd r) = Some (genesis_epoch (cfg_Net cfg)) /\ block_state_at (snd r) = Some (MkBlockState 0 0) /\
    (forall i, event_at (snd r) i = None) /\ PacksNum (snd r) = kv_empty).
Proof.
  intros Hn Hh Hv Hf [Hg _]. unfold MakeEngine. apply or_exit_bind. eapply or_exit_mono; [by apply Migrate_spec|]. intros r ->.
  cbn [db_store db_versions db_engine] in *. set (s0 := OpenStore _ _). apply or_exit_bind.
  eapply or_exit_mono; [apply (ApplyGenesis_fresh s0 (cfg_Net cfg) h); [apply OpenStore_ok, NewStore_ok|exact (proj1 (NewStore_empty a b c 0 []))|done]|].
  intros [r gdb] (Er & Hok & Hw & Hev & Hp & Hpn & Hpi & Hdb & Hes). cbn [fst snd] in *. subst r. cbn [gen_err new genesisAtropos].
  assert (Hev0 : forall i, event_at gdb i = None) by (intros i; rewrite Hev; exact (proj2 (NewStore_empty a b c 0 i))).
  apply or_exit_bind. apply or_exit_bind. eapply or_exit_mono; [apply (GetEpoch_spec gdb _ Hok (proj1 (proj2 Hw)))|].
  intros [ep st] (Ee & Hok2 & c2 & Est). cbn [fst snd] in *. subst ep st. cbn [genesis_epoch es_Epoch].
  destruct (abft_ApplyGenesis _ _ _ _) as [cdb err]. cbn [snd] in Hg. subst err. cbn [or_exit]. unfold pool_Flush. rewrite Hf. cbn [or_exit snd].
  split_and!; try done; [|apply Hw..]. apply (durable_same gdb); try done. by apply genesis_durable.
Qed.

Lemma launch_known env cfg dbs b0 : databases_of cfg dbs b0 -> (forall f, se_flush env f = None) -> (forall eng, snd (engine_Bootstrap eng) = None) ->
  or_exit (launch keccak_hex FakeKey env cfg dbs) (fun s => exists es n, running s es n b0 /\ restored (db_store dbs) (svc_store s) /\
    restored (disk s) (svc_store s)).
Proof.
  intros Hd Hf Hb. unfold launch. apply or_exit_bind. eapply or_exit_mono; [by apply (MakeEngine_known _ _ _ b0)|].
  intros [[eng dsk] gdb] (Ed & Hdu & Hok & Ho & Hs). cbn [fst snd] in *. subst dsk. apply or_exit_bind. eapply or_exit_mono; [by apply (gossipService_spec _ _ _ _ b0)|].
  intros s Hc. apply or_exit_bind. eapply or_exit_mono; [exact (Start_spec s _ gdb _ _ _ _ Hc)|]. intros [[] s2] [(es & n & Hr & _ & _ & Hres) Hfl]. cbn [fst snd or_exit] in *.
  exists es, n. split; [done|]. split; [|exact Hfl]. destruct Hres as (A1 & A2 & A3 & A4 & A5 & A6 & A7 & A8), Hs as (B1 & B2 & B3 & B4 & B5 & B6 & B7 & B8).
  rewrite B8 in A8. split_and!; congruence.
Qed.

Lemma launch_fresh env cfg versions edb a b c :
  net_ok (cfg_Net cfg) -> kv_map versions !! Migration.idKey = None -> (forall f, se_flush env f = None) ->
  (forall h, engine_ready cfg (MkDatabases versions (NewStore a b c) edb) h) ->
  or_exit (launch keccak_hex FakeKey env cfg (MkDatabases versions (NewStore a b c) edb)) (fun s => exists h,
    prettyHash (cfg_Net cfg) = Ret h /\ running s (genesis_epoch (cfg_Net cfg)) 0 (genesis_block (cfg_Net cfg) h) /\
    (forall i, event_at (svc_store s) i = None) /\ open_pack (svc_store s) (es_Epoch (genesis_epoch (cfg_Net cfg))) = 1 /\
    restored (disk s) (svc_store s)).
Proof.
  intros Hn Hv Hf He. destruct (prettyHash_returns _ Hn) as [h Hh]. unfold launch. apply or_exit_bind.
  eapply or_exit_mono; [by apply (MakeEngine_fresh _ _ _ _ _ _ _ h)|]. intros [[eng dsk] gdb] (Ed & Hdu & Hok & Ho & Hes & Hbs & Hev & Hpn). cbn [fst snd] in *. subst dsk.
  apply or_exit_bind. eapply or_exit_mono; [apply (gossipService_spec _ _ _ _ (genesis_block (cfg_Net cfg) h)); try done; apply (He h)|]. intros s Hc. apply or_exit_bind.
  eapply or_exit_mono; [exact (Start_spec s _ gdb _ _ _ _ Hc)|]. intros [[] s2] [(es & n & Hr & Hes' & [k Hk] & Hres) Hfl]. cbn [fst snd or_exit] in *.
  exists h. split; [done|]. rewrite Hes in Hes'. rewrite Hbs in Hk. simplify_eq. split; [done|].
  destruct Hres as (_ & _ & A & _ & _ & _ & B & _). split; [intros i; unfold event_at in *; rewrite A; apply Hev|]. split; [|exact Hfl].
  unfold open_pack, packs_num_at. by rewrite B, Hpn, kv_empty_map, lookup_empty.
Qed.

(** C22: a node launched on an empty database is running.  The genesis is written
    to the store and given to the engine, everything is flushed, and the service
    starts: the node is consistent, in the first epoch with the validators of
    the genesis, with the genesis as its only block, no events and an empty open
    pack. *)
Theorem node_boots env cfg versions edb a b c :
  net_ok (cfg_Net cfg) -> kv_map versions !! Migration.idKey = None -> (forall f, se_flush env f = None) ->
  (forall h, engine_ready cfg (MkDatabases versions (NewStore a b c) edb) h) ->
  or_exit (launch keccak_hex FakeKey env cfg (MkDatabases versions (NewStore a b c) edb)) (fun s => exists h,
    prettyHash (cfg_Net cfg) = Ret h /\ running s (genesis_epoch (cfg_Net cfg)) 0 (genesis_block (cfg_Net cfg) h) /\
    (forall i, event_at (svc_store s) i = None) /\ open_pack (svc_store s) (es_Epoch (genesis_epoch (cfg_Net cfg))) = 1 /\
    restored (disk s) (svc_store s)).
Proof. apply launch_fresh. Qed.

(** C8: a node that dies can be restarted.  Processing an event returns, or ends
    the process on a failing table.  At whatever moment of it the process dies,
    what is on disk is the state before the event, or the state after the event
    has been accepted, never one between; launching the node again on it gives a
    running node of the same network that shows exactly the tables on disk.  (One
    flush is taken to be atomic.) *)
Theorem crash_restarts s es e n b0 env cfg versions edb :
  running s es n b0 -> processable s es e -> n + max_blocks < 2 ^ 64 ->
  prettyHash (cfg_Net cfg) = Ret (atropos b0) -> kv_map versions !! Migration.idKey = None ->
  (forall f, se_flush env f = None) -> (forall eng, snd (engine_Bootstrap eng) = None) ->
  wp (processEvent e) (fun _ _ => True) s /\ forall d, dies_with s (processEvent e s) d ->
    (d = disk s \/ exists s', processEvent e s = Ret (None, s') /\ event_added (svc_store s) (svc_store s') e /\ d = svc_store s') /\
    or_exit (launch keccak_hex FakeKey env cfg (MkDatabases versions d edb)) (fun s2 =>
      exists es2 n2, running s2 es2 n2 b0 /\ restored d (svc_store s2)).
Proof.
  intros Hr Hp Hn Hh Hv Hf Hb. pose proof (process_event_running s es e n b0 Hr Hp Hn) as Hw.
  split; [by eapply wp_mono|]. intros d Hd.
  assert (Hres : durable d b0 /\ (d = disk s \/ exists s', processEvent e s = Ret (None, s') /\ event_added (svc_store s) (svc_store s') e /\ d = svc_store s')).
  { apply (flushes_dies _ _ _ _ (processEvent_flushes e)) in Hd as [->|(r & s' & E & -> & -> & _)].
    - split; [apply Hr|by left].
    - revert Hw. unfold wp, or_exit. rewrite E. cbn [fst snd]. intros ([_ Hpr] & es' & n' & Hr' & _). split; [by eapply running_durable|].
      right. exists s'. by destruct Hpr as [(_ & _ & ? & _)|[? _]].
    - revert Hw. unfold wp, or_exit. destruct (processEvent e s) as [?|?|?|?]; try done; [left|right]; by eexists. }
  destruct Hres as [Hdu Hcase]. split; [exact Hcase|].
  eapply or_exit_mono; [apply (launch_known env cfg (MkDatabases versions d edb) b0); try done; by split_and!|].
  intros s2 (es2 & n2 & Hr2 & Hres & _). by exists es2, n2.
Qed.

(** The service of a test is that of a node before its start, with its own
    validator and without the protection against double signs. *)
Lemma NewIntegration_created flush net v versions edb a b c :
  net_ok net -> kv_map versions !! Migration.idKey = None -> (forall f, flush f = None) ->
  (forall h, engine_ready (DefaultConfig net) (MkDatabases versions (NewStore a b c) edb) h) ->
  or_exit (NewIntegration keccak_hex flush net v (MkDatabases versions (NewStore a b c) edb)) (fun s => exists h gdb,
    prettyHash net = Ret h /\ created s (genesis_block net h) gdb /\ epoch_state_at gdb = Some (genesis_epoch net)).
Proof.
  intros Hn Hv Hf He. destruct (prettyHash_returns _ Hn) as [h Hh]. unfold NewIntegration. apply or_exit_bind.
  eapply or_exit_mono; [by apply (MakeEngine_fresh _ (DefaultConfig net) _ _ _ _ _ h)|]. intros [[eng dsk] gdb] (Ed & Hdu & Hok & Ho & Hes & _). cbn [fst snd] in *. subst dsk.
  pose proof (gossipService_spec (integration_config net v) eng gdb (New net (cfg_Emitter (integration_config net v))) _ Hdu Hok Ho (proj2 (He h))) as Hs.
  cbv zeta. change (cfg_Net (integration_config net v)) with net. destruct (gossipService _ _ _ _ _) as [s|e|p|x]; try done. exists h, gdb. by split_and!.
Qed.

(** ** Who the node is *)

(** The emitter's configuration and key, the network of the service and the peers. *)
Definition same_identity (s s' : Service) : Prop :=
  svc_net s' = svc_net s /\ em_config (svc_emitter s') = em_config (svc_emitter s) /\
  em_privKey (svc_emitter s') = em_privKey (svc_emitter s) /\ done (svc_emitter s') = done (svc_emitter s) /\
  em_net (svc_emitter s') = em_net (svc_emitter s) /\ pm_peers (pm s') = pm_peers (pm s).

#[local] Instance same_identity_preorder : PreOrder same_identity.
Proof. split; [intros s; by split_and!|]. intros s1 s2 s3 (A1 & A2 & A3 & A4 & A5 & A6) (B1 & B2 & B3 & B4 & B5 & B6). split_and!; congruence. Qed.

Lemma on_store_identity {A} (m : stm Store A) : frames same_identity (on_store m).
Proof. by apply (frames_part same_identity m svc_store set_store). Qed.
#[local] Hint Resolve on_store_identity : frames.

Lemma clock_identity : frames same_identity (time_Now (W := Service)).
Proof. apply (frames_next same_identity). intros. by split_and!. Qed.
#[local] Hint Resolve clock_identity : frames.

Lemma init_identity : frames same_identity (init (W := Service) (V := V)).
Proof.
  unfold init, loadPrevEmitTime, mod_sync, mod_em, get_em, OnNewEpoch.
  change (w_GetEpochValidators (V := V)) with (on_store (GetEpochValidators (V := V))).
  change (w_GetLastEvent (V := V)) with (fun v => on_store (GetLastEvent (V := V) v)).
  change (w_GetEvent (V := V)) with (fun i => on_store (GetEvent (V := V) i)). cbv beta. frame.
Qed.

Lemma PM_Start_identity n : frames same_identity (PM_Start n).
Proof. unfold PM_Start, tell, mod_pm, myProgress, GetLatestBlockIndex. frame. Qed.

Lemma StartEventEmission_identity key (s s' : Service) x : StartEventEmission (V := V) key s = Ret (x, s') -> done (svc_emitter s) = false ->
  svc_net s' = svc_net s /\ em_config (svc_emitter s') = em_config (svc_emitter s) /\ em_privKey (svc_emitter s') = key /\ done (svc_emitter s') = true /\
  em_net (svc_emitter s') = em_net (svc_emitter s) /\ pm_peers (pm s') = pm_peers (pm s).
Proof.
  unfold StartEventEmission, mod_em, get_em. intros E Hd. stm_step E as em s1 E1. stm_prim E1.
  change (w_emitter s) with (svc_emitter s) in E. rewrite Hd in E.
  stm_step E as u1 s2 E2. unfold modify in E2. injection E2 as _ <-. stm_step E as u2 s3 E3. unfold modify in E3. injection E3 as _ <-.
  apply init_identity in E as (N6 & C6 & K6 & D6 & M6 & P6). by rewrite N6, C6, K6, D6, M6, P6.
Qed.

Lemma Start_identity mx ec r1 r2 (s s' : Service) x : Start FakeKey mx ec r1 r2 s = Ret (x, s') ->
  svc_net s' = svc_net s /\ ec_Validator (em_config (svc_emitter s')) = ec_Validator ec /\ done (svc_emitter s') = true /\
  em_privKey (svc_emitter s') = (if ec_Validator ec =? 0 then None else Some (FakeKey (ec_Validator ec))) /\
  PayloadSize (em_config (svc_emitter s')) = PayloadSize ec /\ em_net (svc_emitter s') = svc_net s /\ pm_peers (pm s') = pm_peers (pm s).
Proof.
  unfold Start. intros E. stm_step E as ep s1 E1. stm_step E as u s2 E2. stm_step E as g s3 E3. stm_step E as h s4 E4. apply lift_Ret_inv in E4 as [_ ->].
  stm_step E as u1 s5 E5. stm_step E as u2 s6 E6. injection E6 as _ E6. stm_step E as net s7 E7. injection E7 as Enet <-.
  stm_step E as u3 s8 E8. injection E8 as _ E8.
  apply StartEventEmission_identity in E as (N6 & C6 & K6 & D6 & M6 & P6); [|by rewrite <- E8].
  apply on_store_identity in E1 as (N1 & _ & _ & _ & _ & P1). apply on_store_identity in E2 as (N2 & _ & _ & _ & _ & P2).
  apply on_store_identity in E3 as (N3 & _ & _ & _ & _ & P3). apply PM_Start_identity in E5 as (N5 & _ & _ & _ & _ & P5).
  assert (H8 : svc_net s8 = svc_net s6 /\ pm_peers (pm s8) = pm_peers (pm s6) /\ ec_Validator (em_config (svc_emitter s8)) = ec_Validator ec /\
    PayloadSize (em_config (svc_emitter s8)) = PayloadSize ec /\ em_net (svc_emitter s8) = net) by (by rewrite <- E8).
  assert (H7 : svc_net s6 = svc_net s5 /\ pm_peers (pm s6) = pm_peers (pm s5)) by (by rewrite <- E6).
  destruct H8 as (N8 & P8 & C8 & Z8 & M8), H7 as [N7 P7]. rewrite C6, K6, D6, M6, P6, C8, Z8, M8. split_and!; congruence.
Qed.

Lemma gossipService_net cfg eng dsk gdb em (s : Service) : gossipService cfg eng dsk gdb em = Ret s -> svc_net s = cfg_Net cfg.
Proof. unfold gossipService, NewService. intros E. go_inv. destruct v0 as [ep st]. go_inv. destruct (engine_Bootstrap _) as [eng' [e|]]; [done|]. by go_inv. Qed.

(** ** Stopping *)

Context {GL : GossipExtLaws G}.

Lemma Stop_spec (s : Service) : set_ok (pm_peers (pm s)) ->
  wp Stop (fun r s' => stopped s' = true /\ svc_store s' = svc_store s /\
    ((r = None /\ disk s' = svc_store s) \/ ((exists k f, flush_result k f <> None) /\ disk s' = disk s))) s.
Proof.
  intros Hs. unfold Stop, StopEventEmission, mod_em, get_em. wp_run. apply (wp_mono _ (fun _ s' => svc_store s' = svc_store s /\ disk s' = disk s /\ pm s' = pm s)).
  { apply wp_if; intros _; by wp_run. }
  intros [] s1 (E1 & D1 & P1). wp_step. apply (wp_mono _ (fun _ s' => svc_store s' = svc_store s /\ disk s' = disk s)).
  - unfold PM_Stop, tell, mod_pm, next_order. wp_run. apply wp_next. intros k. wp_run. apply wp_on_peers.
    cbn [pm set_pm set_calls set_pm_peers pm_peers set_ticks]. rewrite P1.
    destruct (Close_returns (pm_peers (pm s)) (range_order k (peers (pm_peers (pm s)))) Hs (range_order_all _ _)) as (ps & E & _).
    unfold wp. cbn [set_calls pm_peers peers]. rewrite E. by split.
  - intros [] s2 [E2 D2]. wp_step. wp_step. unfold Commit. wp_run. apply wp_next. intros k1. wp_run. apply wp_next. intros k2. cbn [negb andb].
    wp_run. apply wp_next. intros k3. match goal with |- context [flush_result k3 ?f] => destruct (flush_result k3 f) eqn:Ef end; wp_run.
    + split; [done|]. split; [done|]. right. split; [eexists k3, _; by rewrite Ef|done].
    + split; [done|]. split; [done|]. by left.
Qed.

(** C23: stopping a node loses nothing.  A running node that is stopped has
    flushed its whole state, and a node launched on it afterwards shows exactly
    the same events, blocks, packs, heads and tips; the stopped service refuses
    further events and changes nothing on disk. *)
Theorem stop_then_launch s es n b0 env cfg versions edb e :
  running s es n b0 -> set_ok (pm_peers (pm s)) -> (forall k f, flush_result k f = None) ->
  prettyHash (cfg_Net cfg) = Ret (atropos b0) -> kv_map versions !! Migration.idKey = None ->
  (forall f, se_flush env f = None) -> (forall eng, snd (engine_Bootstrap eng) = None) ->
  wp (r ← Stop; r' ← processEvent e; mret (r, r')) (fun r s' => r = (None, Some errStopped) /\
    or_exit (launch keccak_hex FakeKey env cfg (MkDatabases versions (disk s') edb)) (fun s2 =>
      running s2 es n b0 /\ restored (svc_store s) (svc_store s2))) s.
Proof.
  intros Hr Hs Hf Hh Hv Hl Hb. wp_step. eapply wp_mono; [by apply Stop_spec|]. intros r s' (Hst & E1 & [[-> E2]|[(k & f & []) _]]); [|apply Hf].
  wp_step. unfold processEvent. wp_run. rewrite Hst. wp_run. split; [done|]. rewrite E2.
  eapply or_exit_mono; [apply (launch_known env cfg (MkDatabases versions (svc_store s) edb) b0); try done; split_and!; [by eapply running_durable|done..]|].
  cbn [db_store]. intros s2 (es2 & n2 & Hr2 & Hres & _). split; [|done]. destruct Hres as (A1 & A2 & _).
  pose proof (proj1 (ru_node _ _ _ _ Hr)) as He. pose proof (proj1 (ru_node _ _ _ _ Hr2)) as He2.
  destruct (ch_state _ _ (ru_chain _ _ _ _ Hr)) as [k Hk], (ch_state _ _ (ru_chain _ _ _ _ Hr2)) as [k2 Hk2].
  unfold epoch_state_at, block_state_at in *. rewrite A2 in He2. rewrite A1 in Hk2. rewrite He in He2. rewrite Hk in Hk2. by simplify_eq.
Qed.

End Spec.

(** ** A node over tables in memory *)

Module Sample.
Import StoreSpec.Sample Genesis.Sample ServiceSpec.Sample PeerSpec.Sample HandlerSpec.Sample.
#[local] Existing Instance lachesis_be.
#[local] Existing Instance lachesis_be_laws.
#[local] Existing Instance lachesis_idx_be.
#[local] Existing Instance lachesis_idx_be_laws.
#[local] Existing Instance rlp_length_prefix.
#[local] Existing Instance rlp_length_prefix_laws.
#[local] Existing Instance kv_gmap.
#[local] Existing Instance kv_gmap_laws.
#[local] Existing Instance lru_gmap.
#[local] Existing Instance lru_gmap_laws.
#[local] Existing Instance codec_countable.
#[local] Existing Instance codec_countable_laws.
#[local] Existing Instance base_checks_any.
#[local] Existing Instance base_checks_any_laws.
#[local] Existing Instance Emitter.Sample.ext_any.
#[local] Existing Instance pos_total.
#[local] Existing Instance pos_total_laws.
#[local] Existing Instance engine_each.
#[local] Existing Instance engine_each_laws.
#[local] Existing Instance ServiceSpec.Sample.calm.
#[local] Existing Instance p2p_any.
#[local] Existing Instance gossip_any.
#[local] Existing Instance gossip_any_laws.

#[local] Instance boot_any : EngineBoot Z := {|
  engine_db := unit; abft_ApplyGenesis _ _ _ _ := (tt, None); NewLachesis _ := tt; engine_Bootstrap e := (e, None) |}.

Definition no_versions : tbl := kv_empty.
Definition hex (s : string) : list Z := [Z.of_nat (String.length s)].
Definition fake_key (i : Z) : private_key := tt.
Definition env : Start_env := MkStartEnv (fun _ => None) 50 0 0.
Definition cfg : Config := MkConfig short_net DefaultEmitterConfig DefaultStoreConfig default_pc.
Definition edb0 : @engine_db Z _ boot_any := tt.
Definition empty_dbs : Databases Z := MkDatabases no_versions (NewStore 10 10 10) edb0.

Definition booted : Service Z := match launch hex fake_key env cfg empty_dbs with Ret s => s | _ => sample_node end.

Lemma booted_running : exists h, prettyHash short_net = Ret h /\
  running booted (genesis_epoch short_net) 0 (genesis_block short_net h) /\
  (forall i, event_at (svc_store booted) i = None) /\ open_pack (svc_store booted) (es_Epoch (genesis_epoch short_net)) = 1.
Proof.
  pose proof (launch_fresh hex fake_key env cfg no_versions edb0 10 10 10 short_net_ok eq_refl (fun _ => eq_refl)
    (fun _ => conj eq_refl (fun _ => eq_refl))) as H. unfold booted, empty_dbs.
  destruct (launch hex fake_key env cfg _) as [s|x|x|x]; [|destruct H..].
  destruct H as (h & Hh & Hr & Hev & Ho & _). exists h. split; [exact Hh|]. split; [exact Hr|]. split; [exact Hev|exact Ho].
Qed.

Lemma node_boots_witness : exists s h, launch hex fake_key env cfg empty_dbs = Ret s /\
  running s (genesis_epoch short_net) 0 (genesis_block short_net h).
Proof.
  pose proof (node_boots hex fake_key env cfg no_versions edb0 10 10 10 short_net_ok eq_refl (fun _ => eq_refl)
    (fun _ => conj eq_refl (fun _ => eq_refl))) as H. unfold empty_dbs.
  destruct (launch hex fake_key env cfg _) as [s|x|x|x]; [|destruct H..]. destruct H as (h & _ & H & _). exists s, h. split; [reflexivity|exact H].
Defined.

(** The node of the sample, with no peers and no emitter. *)
Definition idle (s : Service Z) : Service Z :=
  set_pm (NewProtocolManager default_pc) (set_emitter (New short_net DefaultEmitterConfig) s).

Lemma idle_running s es n b0 : running s es n b0 -> running (idle s) es n b0.
Proof. intros H. apply (running_same s); [done|by split_and!|exact (running_ok _ _ _ _ H)|done..]. Qed.

Lemma idle_processable s : open_pack (svc_store s) (es_Epoch (genesis_epoch short_net)) = 1 ->
  processable (idle s) (genesis_epoch short_net) first_event.
Proof.
  intros Ho. constructor; [exact first_storable|constructor|by left|reflexivity|].
  cbn [svc_store idle set_pm set_emitter]. rewrite Ho. reflexivity.
Qed.

Lemma idle_peers s : set_ok (pm_peers (pm (idle s))).
Proof. split; by intros. Qed.

(** The first event seals the epoch, so it is flushed. *)
Lemma first_flushed : flushed (idle booted) = [] /\
  match processEvent first_event (idle booted) with Ret (_, s') => length (flushed s') | _ => 0%nat end = 1%nat.
Proof. split; vm_compute; reflexivity. Qed.

(** The process dies after the first event has been flushed. *)
Lemma crash_restarts_witness : exists r s' d s2 es2 n2 b0, processEvent first_event (idle booted) = Ret (r, s') /\ flushed s' = [d] /\
  dies_with (idle booted) (Ret (r, s')) d /\ launch hex fake_key env cfg (MkDatabases no_versions d edb0) = Ret s2 /\ running s2 es2 n2 b0.
Proof.
  destruct booted_running as (h & Hh & Hr & _ & Ho).
  destruct (crash_restarts hex fake_key (idle booted) (genesis_epoch short_net) first_event 0
    (genesis_block short_net h) env cfg no_versions edb0 (idle_running _ _ _ _ Hr) (idle_processable booted Ho) eq_refl Hh eq_refl (fun _ => eq_refl)
    (fun _ => eq_refl)) as [Hw Hl]. destruct (wp_total _ _ _ (fun x : may_exit => x) Hw) as (r & s' & E & _). destruct first_flushed as [F1 F2].
  rewrite E in F2, Hl. destruct (flushed s') as [|d [|d2 l]] eqn:Ef; [discriminate F2| |discriminate F2].
  assert (Hd : dies_with (idle booted) (Ret (r, s')) d).
  { right. exists [d]. rewrite Ef, F1. split; [reflexivity|apply list_elem_of_here]. }
  destruct (Hl d Hd) as [_ Hlaunch].
  destruct (launch hex fake_key env cfg (MkDatabases no_versions d edb0)) as [s2|x|x|x] eqn:El; [|destruct Hlaunch..].
  destruct Hlaunch as (es2 & n2 & H2 & _). exists r, s', d, s2, es2, n2, (genesis_block short_net h).
  split; [exact E|]. split; [exact Ef|]. split; [exact Hd|]. split; [exact El|exact H2].
Defined.

Lemma flush_succeeds k f : flush_result k f = None.
Proof. reflexivity. Qed.

Lemma stop_then_launch_witness : exists s' s2 b0,
  (r ← Stop; r' ← processEvent first_event; mret (r, r')) (idle booted) = Ret ((None, Some errStopped), s') /\
  launch hex fake_key env cfg (MkDatabases no_versions (disk s') edb0) = Ret s2 /\ running s2 (genesis_epoch short_net) 0 b0.
Proof.
  destruct booted_running as (h & Hh & Hr & _).
  destruct (wp_total _ _ _ (fun x : may_exit => x) (stop_then_launch hex fake_key (idle booted) (genesis_epoch short_net) 0
    (genesis_block short_net h) env cfg no_versions edb0 first_event (idle_running _ _ _ _ Hr) (idle_peers booted) flush_succeeds Hh eq_refl (fun _ => eq_refl)
    (fun _ => eq_refl))) as (r & s' & E & -> & Hl).
  destruct (launch hex fake_key env cfg (MkDatabases no_versions (disk s') edb0)) as [s2|x|x|x] eqn:El; [|destruct Hl..].
  exists s', s2, (genesis_block short_net h). split; [exact E|]. split; [exact El|exact (proj1 Hl)].
Defined.

Lemma chain_append_only_witness : exists r s' es' n' b0, processEvent first_event (idle booted) = Ret (r, s') /\ running s' es' n' b0 /\ 0 <= n'.
Proof.
  destruct booted_running as (h & Hh & Hr & _ & Ho).
  destruct (wp_total _ _ _ (fun x : may_exit => x) (chain_append_only (idle booted) (genesis_epoch short_net) first_event 0
    (genesis_block short_net h) (idle_running _ _ _ _ Hr) (idle_processable booted Ho) eq_refl)) as (r & s' & E & es' & n' & H & Hn & _).
  exists r, s', es', n', (genesis_block short_net h). split; [exact E|]. split; [exact H|exact (proj1 Hn)].
Defined.

End Sample.
End LaunchSpec.
