(* ===== verification/Node.v ===== *)
(** * The life of a node

    The parts of the node put together: a machine that is up, with the state of
    its service, or down, with what its last flush left on disk.  While it is up
    its goroutines take turns: sessions with peers ([Run] and [handle] of
    [src/gossip/handler.go], one message at a time), the ordering buffer, the
    ticker of the emitter and the broadcast loops.  It can be stopped, or die at
    any moment, and be launched again. *)

From Stdlib Require Import ZArith Lia Bool Sorted.
From stdpp Require Import base list numbers option strings gmap sorting relations.
From S2P Require Import Prelude Kv Sha256 Fast Event Serializer EventBuild Store StoreSpec Genesis Checks Emitter Peer PeerSpec Service.
From S2P Require Import ServiceSpec ChainSpec ServiceWorld Handler HandlerSpec Utils Launch LaunchSpec.
Import Event Serializer EventBuild Store StoreSpec Genesis Checks Emitter Peer PeerSpec Service ServiceSpec ChainSpec ServiceWorld Handler HandlerSpec Launch LaunchSpec.
Local Open Scope Z_scope.

Module Node.

(** What a goroutine of the node is woken by. *)
Inductive input :=
| Connect (version : Z) (name : string) (tr : bool) (entry : option Z) (first : error + Msg)
| Receive (a : nat) (m : error + Msg)               (** a message of a session *)
| Leave (a : nat) (entry : option Z)                (** the end of a session *)
| Process (e : Event)                               (** an event leaves the ordering buffer *)
| Drop (name : string) (err : option error)         (** the buffer or a checker refuses an event *)
| Tick (neededBytes : Z)                            (** the ticker of the emitter *)
| Emitted (e : Event)                               (** the loops of broadcasts *)
| PackDone
| EpochDone (newEpoch : Z).

Section Definitions.
Context {V : Type}.
Context {LB : LachesisBase} {LBL : LachesisBaseLaws LB} {LI : LachesisIdx} {LIL : LachesisIdxLaws LI}.
Context {R : Rlp} {RL : RlpLaws R} {K : Kv} {KL : KvLaws K} {L : Lru} {LL : LruLaws L}.
Context {CB : Codec Block} {CBL : CodecLaws Block} {CP : Codec PackInfo} {CPL : CodecLaws PackInfo}.
Context {CS : Codec BlockState} {CSL : CodecLaws BlockState}.
Context {CE : Codec (EpochState V)} {CEL : CodecLaws (EpochState V)}.
Context {BC : BaseChecks V} {EN : Engine V} {X : EmitterExt} {XL : EmitterExtLaws X}.
Context {ENV : Environment} {N : P2p} {G : GossipExt} {W : Wire} {PB : PosBuilder V} {BOOT : EngineBoot V}.
Context (keccak_hex : string -> list Z) (FakeKey : Z -> private_key).
Abbreviation Service := (Service V).
Abbreviation Store := (Store V).
Abbreviation SV := (stm Service).

(** ** The turns of a session *)

(** [Run] and [handle] up to the registration of the peer. *)
Definition connect (version : Z) (name : string) (tr : bool) (entry : option Z) (first : error + Msg) : SV (nat * option error) :=
  a ← on_peers (alloc (set_poolEntry entry (newPeer version name tr)));
  err ← handle_greeting a first;
  match err with
  | Some e => _ ← pool_disconnect entry; mret (a, Some e)
  | None =>
      reg ← on_peers (Register a);
      match reg with
      | Some e => _ ← pool_disconnect entry; mret (a, Some e)
      | None => mret (a, None)
      end
  end.

(** Their deferred statements. *)
Definition leave (a : nat) (entry : option Z) : SV unit := _ ← handle_end a; pool_disconnect entry.

(** ** One turn of a goroutine *)

Definition react (i : input) : SV unit :=
  match i with
  | Connect version name tr entry first => _ ← connect version name tr entry first; mret tt
  | Receive a m => _ ← handleMsg a m; mret tt
  | Leave a entry => leave a entry
  | Process e => _ ← onProcess e; mret tt
  | Drop name err => onDrop name err
  | Tick neededBytes => on_tick (V := V) neededBytes
  | Emitted e => _ ← onEmitted e; mret tt
  | PackDone => onNewPack
  | EpochDone newEpoch => onNewEpoch_ newEpoch
  end.

(** ** The machine *)

Inductive machine := Up (s : Service) | Down (d : Store).

(** What a reader of the node, or of its databases, sees; and what is on disk. *)
Definition view (m : machine) : Store := match m with Up s => svc_store s | Down d => d end.
Definition disk_of (m : machine) : Store := match m with Up s => disk s | Down d => d end.

(** The counters of epochs, packs and blocks have not run out. *)
Definition room (s : Service) : Prop := exists es bs,
  epoch_state_at (svc_store s) = Some es /\ block_state_at (svc_store s) = Some bs /\
  es_Epoch es + 1 < 2 ^ 32 /\ open_pack (svc_store s) (es_Epoch es) + 1 < 2 ^ 32 /\ bs_Block bs + max_blocks < 2 ^ 64.

(** The inputs the theorems speak of.  Messages consist of bytes and belong to a
    peer that was made, and the ordering buffer releases an event when its parents
    are stored.  An event of the node's own validator that another instance has
    emitted ends the process by design ([quiet]).  And an event is [storable]: its
    encoding is the canonical one.  Nothing in the code makes sure of the last: the
    decoder also takes other encodings, and the event of such a one is stored
    under an identifier that is not its own
    ([ServiceSpec.Sample.noncanonical_event_changes]). *)
Definition admissible (s : Service) (i : input) : Prop :=
  match i with
  | Connect _ _ _ _ first => sane first
  | Receive a m => sane m /\ (a < length (heap (pm_peers (pm s))))%nat
  | Leave a _ => (a < length (heap (pm_peers (pm s))))%nat
  | Process e => storable e /\ Forall (fun p => is_Some (event_at (svc_store s) p)) (parents (base e)) /\ quiet (svc_emitter s) e /\ room s
  | Tick _ => counters_room s /\ room s
  | Drop _ _ | Emitted _ | PackDone | EpochDone _ => True
  end.

(** A configuration the node can run with, of the network [net]. *)
Definition config_valid (net : NetConfig) (cfg : Config) : Prop :=
  cfg_Net cfg = net /\ is_uint 32 (ec_Validator (cfg_Emitter cfg)) /\ 0 < MaxParents (Dag net) < 2 ^ 32 /\
  0 <= PayloadSize (cfg_Emitter cfg) < 2 ^ 60.

(** What a launch finds besides the databases of the store. *)
Record boot_env := MkBootEnv { be_env : Start_env; be_cfg : Config; be_versions : tbl; be_engine : engine_db }.

(** The engine accepts the genesis or restores its state, and the first flush
    succeeds. *)
Definition boot_ok (net : NetConfig) (b : boot_env) : Prop :=
  config_valid net (be_cfg b) /\ kv_map (be_versions b) !! Migration.idKey = None /\ (forall f, se_flush (be_env b) f = None) /\
  (forall d h, engine_ready (be_cfg b) (MkDatabases (be_versions b) d (be_engine b)) h).

Definition boot (b : boot_env) (d : Store) : go Service :=
  launch keccak_hex FakeKey (be_env b) (be_cfg b) (MkDatabases (be_versions b) d (be_engine b)).

(** A machine that dies in the middle of a turn, of [Stop] or of a launch is left
    with what is on disk at that moment: [dies_with].  A launch flushes in
    [MakeEngine], and writes nothing after ([LaunchSpec.Start_disk]). *)
Inductive step (net : NetConfig) : machine -> machine -> Prop :=
| step_react s i s' : admissible s i -> react i s = Ret (tt, s') -> step net (Up s) (Up s')
| step_dies s i d : admissible s i -> dies_with s (react i s) d -> step net (Up s) (Down d)
| step_killed s : step net (Up s) (Down (disk s))
| step_stop s r s' : Stop s = Ret (r, s') -> step net (Up s) (Down (disk s'))
| step_stop_dies s d : dies_with s (Stop s) d -> step net (Up s) (Down d)
| step_boot d b s : boot_ok net b -> boot b d = Ret s -> step net (Down d) (Up s)
| step_boot_dies d b eng dsk gdb : boot_ok net b ->
    MakeEngine keccak_hex (se_flush (be_env b)) (be_cfg b) (MkDatabases (be_versions b) d (be_engine b)) = Ret (eng, dsk, gdb) ->
    step net (Down d) (Down dsk).

End Definitions.
Arguments machine V {_ _ _ _}.
Arguments boot_env V {_ _ _}.

End Node.
