(* ===== verification/NodeSpec.v ===== *)
(** * Whatever happens, the node stays consistent

    By induction over the life of a machine: in every state it can reach from
    empty databases it is running and consistent, or down with databases it can
    be launched on again; no turn panics; and a block or an event that has been
    flushed is there for ever. *)

From Stdlib Require Import ZArith Lia Bool Sorted.
From stdpp Require Import base list numbers option strings gmap sorting relations.
From S2P Require Import Prelude Kv Sha256 Fast Event Serializer EventBuild Store StoreSpec Genesis Checks Emitter Peer PeerSpec Service.
From S2P Require Import ServiceSpec ChainSpec ServiceWorld Handler HandlerSpec Utils Launch LaunchSpec Node.
Import Event Serializer EventBuild Store StoreSpec Genesis Checks Emitter Peer PeerSpec Service ServiceSpec ChainSpec ServiceWorld Handler HandlerSpec Launch LaunchSpec Node.
Local Open Scope Z_scope.

Module NodeSpec.

Section Spec.
Context {V : Type}.
Context {LB : LachesisBase} {LBL : LachesisBaseLaws LB} {LI : LachesisIdx} {LIL : LachesisIdxLaws LI}.
Context {R : Rlp} {RL : RlpLaws R} {RS : RlpSafe R} {K : Kv} {KL : KvLaws K} {L : Lru} {LL : LruLaws L}.
Context {CB : Codec Block} {CBL : CodecLaws Block} {CP : Codec PackInfo} {CPL : CodecLaws PackInfo}.
Context {CS : Codec BlockState} {CSL : CodecLaws BlockState}.
Context {CE : Codec (EpochState V)} {CEL : CodecLaws (EpochState V)}.
Context {BC : BaseChecks V} {BCL : BaseChecksLaws V} {EN : Engine V} {ENL : EngineLaws V} {X : EmitterExt} {XL : EmitterExtLaws X}.
Context {ENV : Environment} {N : P2p} {NL : P2pLaws N} {G : GossipExt} {GL : GossipExtLaws G} {W : Wire} {WL : WireLaws W}.
Context {PB : PosBuilder V} {PBL : PosBuilderLaws V} {BOOT : EngineBoot V}.
Context (keccak_hex : string -> list Z) (FakeKey : Z -> private_key).
Abbreviation Service := (Service V).
Abbreviation Store := (Store V).

(** A session is its turns: the connection, the messages until one fails, the end. *)
Lemma Run_turns version name tr entry incoming (s : Service) :
  Run version name tr entry false incoming s =
  ('(a, err) ← connect version name tr entry (default (inl io_EOF) (head incoming));
   match err with
   | Some e => mret e
   | None => err ← handle_loop a (tail incoming); _ ← leave a entry; mret err
   end) s.
Proof.
  unfold Run, handle, connect, leave, mbind, stm_bind. destruct (on_peers (alloc _) s) as [[a s1]|x|x|x]; [|done..].
  destruct (handle_greeting _ _ s1) as [[[e|] s2]|x|x|x]; [|..|done|done|done].
  { cbn. by destruct (pool_disconnect entry s2) as [[[] s3]|x|x|x]. }
  destruct (on_peers (Register a) s2) as [[[e|] s3]|x|x|x]; [|..|done|done|done].
  { cbn. by destruct (pool_disconnect entry s3) as [[[] s4]|x|x|x]. }
  cbn. destruct (handle_loop a (tail incoming) s3) as [[err s4]|x|x|x]; [|done..].
  by destruct (handle_end a s4) as [[[] s5]|x|x|x].
Qed.

(** ** Sessions and broadcasts leave the disk alone *)

(** A call of the peers changes nothing else. *)
Lemma frames_on_peers (Rel : Service -> Service -> Prop) `{!PreOrder Rel} {A} (m : stm peerSet A) :
  (forall s x, Rel s (set_pm x s)) -> frames Rel (on_peers m).
Proof. intros H. by apply (frames_part Rel m (fun s => pm_peers (pm s)) (fun ps s => set_pm (set_pm_peers ps (pm s)) s)). Qed.

Lemma disk_on_peers {A} (m : stm peerSet A) : frames same_disk (on_peers (V := V) m).
Proof. by apply (frames_on_peers same_disk). Qed.

#[local] Hint Resolve disk_store disk_next disk_on_peers : frames.

Lemma disk_peer_get {A} a (f : peer -> A) : frames same_disk (peer_get (V := V) a f).
Proof. unfold peer_get. frame. Qed.

Lemma disk_peer_do {A} a (m : stm peer A) : frames same_disk (peer_do (V := V) a m).
Proof. apply disk_on_peers. Qed.

Lemma disk_tell c : frames same_disk (tell (V := V) c).
Proof. unfold tell, mod_pm. frame. Qed.

Lemma disk_foreach {A} (f : A -> stm Service unit) l : (forall x, frames same_disk (f x)) -> frames same_disk (foreach f l).
Proof. intros Hf. induction l as [|x l IH]; cbn [foreach]; [frame|]. apply (frames_bind same_disk); [apply Hf|by intros _]. Qed.

#[local] Hint Resolve disk_peer_get disk_peer_do disk_tell : frames.

Lemma disk_collect_events l raws ids size : frames same_disk (collect_events (V := V) l raws ids size).
Proof.
  revert raws ids size. induction l as [|i l IH]; intros raws ids size; cbn [collect_events]; [frame|].
  apply (frames_bind same_disk); [frame|intros [r|]]; cbv zeta; frame; apply IH.
Qed.

Lemma disk_collect_packInfos e n l raws size : frames same_disk (collect_packInfos (V := V) e n l raws size).
Proof.
  revert raws size. induction l as [|i l IH]; intros raws size; cbn [collect_packInfos]; [frame|].
  destruct (_ >=? _); [apply IH|]. apply (frames_bind same_disk); [frame|intros [r|]]; cbv zeta; frame; apply IH.
Qed.

Lemma disk_notify_infos a name e l : frames same_disk (notify_infos (V := V) a name e l).
Proof. induction l as [|i l IH]; cbn [notify_infos]; [frame|]. destruct (_ =? _); [frame|]. frame. Qed.

#[local] Hint Resolve disk_collect_events disk_collect_packInfos disk_notify_infos : frames.

Lemma disk_handleMsg a m : frames same_disk (handleMsg (V := V) a m).
Proof.
  unfold handleMsg, dispatch, decoding, handleProgress, handleNewEventHashes, handleEvents, handleGetEvents, handleGetPackInfos,
    handleGetPack, handlePackInfos, handlePack, limited, mod_pm. frame.
Qed.

Lemma disk_removePeer name : frames same_disk (removePeer (V := V) name).
Proof. unfold removePeer, peer_removed. frame. Qed.

Lemma disk_myProgress : frames same_disk (myProgress (V := V)).
Proof. unfold myProgress. frame. Qed.

#[local] Hint Resolve disk_removePeer disk_myProgress : frames.

Lemma disk_pool_disconnect entry : frames same_disk (pool_disconnect (V := V) entry).
Proof. unfold pool_disconnect. frame. Qed.
#[local] Hint Resolve disk_pool_disconnect : frames.

Lemma disk_connect v name tr entry first : frames same_disk (connect (V := V) v name tr entry first).
Proof. unfold connect, handle_greeting. frame. Qed.

Lemma disk_leave a entry : frames same_disk (leave (V := V) a entry).
Proof. unfold leave, handle_end. frame. Qed.

Lemma disk_BroadcastEvent e passed : frames same_disk (BroadcastEvent (V := V) e passed).
Proof.
  unfold BroadcastEvent, next_order. cbv zeta. repeat first [apply disk_foreach; intros ?|frame_step].
Qed.

Lemma disk_onNewPack : frames same_disk (onNewPack (V := V)).
Proof. unfold onNewPack, next_order, mod_pm. repeat first [apply disk_foreach; intros ?|frame_step]. Qed.

Lemma disk_any_at_epoch e l b : frames same_disk (any_at_epoch (V := V) e l b).
Proof. revert b. induction l as [|a l IH]; intros b; cbn [any_at_epoch]; [frame|]. apply (frames_bind same_disk); [frame|intros pr; apply IH]. Qed.
#[local] Hint Resolve disk_any_at_epoch : frames.

Lemma disk_onNewEpoch_ e : frames same_disk (onNewEpoch_ (V := V) e).
Proof. unfold onNewEpoch_, next_order, mod_pm. frame. Qed.

(** ** Which code touches blocks, the disk and the configuration of the emitter *)

Lemma blocks_on_peers {A} (m : stm peerSet A) : frames same_blocks (on_peers (V := V) m).
Proof. by apply (frames_on_peers same_blocks). Qed.

Lemma stores_on_peers {A} (m : stm peerSet A) : frames same_stores (on_peers (V := V) m).
Proof. by apply (frames_on_peers same_stores). Qed.

Lemma stores_next {A} (f : nat -> A) : frames same_stores (next (V := V) f).
Proof. by apply (frames_next same_stores). Qed.

(** Frames of a broadcast, which only touches peers. *)
Lemma BroadcastEvent_frames (Rel : Service -> Service -> Prop) `{!PreOrder Rel} e passed :
  (forall s n, Rel s (set_ticks n s)) -> (forall A (m : stm peerSet A), frames Rel (on_peers m)) -> frames Rel (BroadcastEvent e passed).
Proof.
  intros Ht Hp. assert (Hn : forall A (f : nat -> A), frames Rel (next f)) by (intros; by apply frames_next).
  assert (Hf : forall m l, frames Rel (foreach (fun a => peer_do a m) l)).
  { intros m l. induction l as [|x l IH]; cbn [foreach]; [frame|]. apply (frames_bind Rel); [apply Hp|by intros _]. }
  unfold BroadcastEvent, next_order. cbv zeta. repeat first [apply Hf|apply Hp|apply Hn|frame_step].
Qed.

Definition same_setup (s s' : Service) : Prop :=
  em_config (svc_emitter s') = em_config (svc_emitter s) /\ em_net (svc_emitter s') = em_net (svc_emitter s).

#[local] Instance same_setup_preorder : PreOrder same_setup.
Proof. unfold same_setup. split; [by intros s|]. intros s1 s2 s3 [] []. split; congruence. Qed.

Lemma setup_store {A} (m : stm Store A) : frames same_setup (on_store m).
Proof. by apply (frames_part same_setup m svc_store set_store). Qed.

Lemma setup_next {A} (f : nat -> A) : frames same_setup (next (V := V) f).
Proof. by apply (frames_next same_setup). Qed.

#[local] Hint Resolve setup_store setup_next : frames.

Lemma setup_processEvent e : frames same_setup (processEvent e).
Proof.
  unfold processEvent, onConnected, packsOnNewEvent, packsOnNewEpoch, Commit, send.
  repeat first [by apply (OnNewEvent_frames same_setup)|apply (run_consensus_frames same_setup); [apply @setup_store|done..]|frame_step].
Qed.
#[local] Hint Resolve setup_processEvent : frames.

Lemma setup_onProcess e : frames same_setup (onProcess e).
Proof.
  unfold onProcess. repeat first [apply (BroadcastEvent_frames same_setup); [done|]|frame_step].
  intros A m. by apply (frames_on_peers same_setup).
Qed.

Lemma onProcess_appends e : appends max_blocks (onProcess e).
Proof.
  assert (Hm : 0 <= max_blocks) by (unfold max_blocks; lia). unfold onProcess. apply appends_after; [apply blocks_next|intros now|done].
  rewrite <- (Z.add_0_r max_blocks). apply appends_bind; [apply processEvent_appends| |done]. intros [x|]; (apply appends_frames; [|done]); [frame|].
  repeat first [apply (BroadcastEvent_frames same_blocks); [done|exact @blocks_on_peers]|frame_step].
Qed.

(** Broadcasts do not end the process. *)
Lemma never_exits_on_peers {A} (m : stm peerSet A) : never_exits m -> never_exits (on_peers (V := V) m).
Proof. intros Hm s x. unfold on_peers. destruct (m _) as [[y ps]|y|y|y] eqn:E; try done. by destruct (Hm _ _ E). Qed.

Lemma never_exits_on_peer {A} a (m : stm peer A) : never_exits m -> never_exits (on_peer a m).
Proof.
  intros Hm. unfold on_peer, deref. no_exit. intros s0 y. unfold lift. match goal with |- context [m ?p] => destruct (m p) eqn:E end; try done.
  by destruct (Hm _ _ E).
Qed.

Lemma never_exits_foreach {S A} (f : A -> stm S unit) l : (forall x, never_exits (f x)) -> never_exits (foreach f l).
Proof. intros Hf. induction l as [|x l IH]; cbn [foreach]; [by intros s x|]. apply never_exits_bind; [apply Hf|by intros _]. Qed.

Lemma never_exits_filter_peers f l : never_exits (filter_peers f l).
Proof. induction l as [|a l IH]; cbn [filter_peers]; [by intros s x|]. unfold deref. no_exit. Qed.
#[local] Hint Resolve never_exits_filter_peers : never_exits.

Lemma BroadcastEvent_never_exits e passed : never_exits (BroadcastEvent (V := V) e passed).
Proof.
  unfold BroadcastEvent, next_order. cbv zeta.
  repeat first [apply never_exits_foreach; intros ?; apply never_exits_on_peers, never_exits_on_peer|apply never_exits_on_peers|no_exit].
  all: unfold AsyncSendEvents, AsyncSendNewEventHashes; repeat first [apply never_exits_foreach; intros ?|no_exit].
Qed.
#[local] Hint Resolve BroadcastEvent_never_exits : never_exits.

Lemma onProcess_flushes e : flushes (fun r => r = None) (onProcess e).
Proof.
  unfold onProcess. apply flushes_after; [apply disk_next|intros now]. apply (flushes_before (fun r => r = None)); [apply processEvent_flushes| | |apply _].
  - intros [x|] Hx; [by apply flushes_frames; frame|done].
  - intros x ->. split_and!; [|by no_exit|].
    + repeat first [apply (BroadcastEvent_frames same_stores); [done|exact @stores_on_peers]|frame_step].
    + intros s y s' E. stm_step E as sy s1 E1. destruct sy; [stm_step E as k s2 E2|]; by injection E.
Qed.

(** *** The ticker *)

Lemma blocks_createEvent pl : frames same_blocks (createEvent (V := V) pl).
Proof.
  apply (createEvent_frames same_blocks); [done|..]; intros; apply blocks_store;
    unfold GetEvent, GetLastEvent, GetHeads, GetEpochValidators, GetEpochState, getEpochStore; frame.
Qed.

Lemma disk_createEvent pl : frames same_disk (createEvent (V := V) pl).
Proof. apply (createEvent_frames same_disk); [done|..]; intros; apply disk_store. Qed.

Lemma setup_createEvent pl : frames same_setup (createEvent (V := V) pl).
Proof. apply (createEvent_frames same_setup); [done|..]; intros; apply setup_store. Qed.

Lemma pm_createEvent pl : frames same_pm (createEvent (V := V) pl).
Proof. apply (createEvent_frames same_pm); [done|..]; intros; apply same_pm_store. Qed.

(** The ticker, given the frames of its parts. *)
Lemma on_tick_frames (Rel : Service -> Service -> Prop) `{!PreOrder Rel} n :
  (forall s n, Rel s (set_ticks n s)) -> (forall s x, Rel s (set_feed x s)) ->
  (forall s x, em_config x = em_config (svc_emitter s) -> em_net x = em_net (svc_emitter s) -> Rel s (set_emitter x s)) ->
  (forall pl, frames Rel (createEvent (V := V) pl)) -> (forall e, frames Rel (processEvent e)) -> frames Rel (on_tick (V := V) n).
Proof.
  intros Ht Hf He Hc Hp. unfold on_tick, EmitEvent, mod_sync, mod_em, get_em, w_ProcessEvent, service_emitter_world, processEmitted, send.
  change time_Now with (next clock). change PeersNum with (gets (fun s : Service => Len (pm_peers (pm s)))).
  change IsSynced with (gets (fun s : Service => synced (pm s))).
  repeat first [by apply (frames_next Rel)|apply Hc|apply Hp|by apply (getTestPayload_frames Rel)|apply (frames_modify Rel); intros; first [by apply He|apply Hf]|frame_step].
Qed.

#[local] Hint Resolve blocks_next stores_next : frames.

(** The statements of [on_tick] before the emission. *)
Ltac tick_prefix := change time_Now with (next clock); change PeersNum with (gets (fun s : Service => Len (pm_peers (pm s))));
  change IsSynced with (gets (fun s : Service => synced (pm s))); unfold mod_sync, mod_em, get_em; frame.

Lemma EmitEvent_appends n : appends max_blocks (EmitEvent (V := V) n).
Proof.
  assert (Hm : 0 <= max_blocks) by (unfold max_blocks; lia). unfold EmitEvent, get_em. apply appends_after; [frame|intros em|done].
  destruct (_ =? 0); [apply appends_frames; [frame|done]|]. apply appends_after; [by apply (getTestPayload_frames same_blocks)|intros pl|done].
  apply appends_after; [apply blocks_createEvent|intros [e|]|done]; [|apply appends_frames; [frame|done]].
  apply appends_after; [unfold mod_sync, mod_em; frame|intros _|done]. rewrite <- (Z.add_0_r max_blocks). apply appends_bind; [|intros r|done].
  - unfold w_ProcessEvent, service_emitter_world, processEmitted. rewrite <- (Z.add_0_r max_blocks).
    apply appends_bind; [apply processEvent_appends|intros r; apply appends_frames; [unfold send; frame|done]|done].
  - apply appends_frames; [unfold mod_em; frame|done].
Qed.

Lemma EmitEvent_flushes n : flushes (fun r => r <> None) (EmitEvent (V := V) n).
Proof.
  unfold EmitEvent, get_em. apply flushes_after; [frame|intros em]. destruct (_ =? 0); [by apply flushes_frames; frame|].
  apply flushes_after; [by apply (getTestPayload_frames same_disk)|intros pl]. apply flushes_after; [apply disk_createEvent|intros [e|]]; [|by apply flushes_frames; frame].
  apply flushes_after; [unfold mod_sync, mod_em; frame|intros _]. apply (flushes_before (fun r => r = None)); [| | |apply _].
  - unfold w_ProcessEvent, service_emitter_world, processEmitted. apply (flushes_before (fun r => r = None)); [apply processEvent_flushes| | |apply _].
    + intros [x|] Hx; [by apply flushes_frames; frame|done].
    + intros x ->. split_and!; [unfold send; frame|unfold send; by no_exit|]. intros s y s' E. stm_step E as u s1 E1. by injection E.
  - intros [x|] Hx; [by apply flushes_frames; frame|done].
  - intros x ->. split_and!; [unfold mod_em; frame|unfold mod_em; by no_exit|]. intros s y s' E. stm_step E as u s1 E1. stm_step E as u2 s2 E2.
    by injection E as <- _.
Qed.

Lemma on_tick_appends n : appends max_blocks (on_tick (V := V) n).
Proof.
  assert (Hm : 0 <= max_blocks) by (unfold max_blocks; lia). unfold on_tick.
  do 6 (apply appends_after; [by tick_prefix|intros ?|done]). destruct (_ <=? _); [|apply appends_frames; [frame|done]].
  rewrite <- (Z.add_0_r max_blocks). apply appends_bind; [apply EmitEvent_appends|intros r; apply appends_frames; [frame|done]|done].
Qed.

Lemma on_tick_flushes n : flushes (fun _ => True) (on_tick (V := V) n).
Proof.
  unfold on_tick. do 6 (apply flushes_after; [by tick_prefix|intros ?]). destruct (_ <=? _); [|by apply flushes_frames; frame].
  apply (flushes_before (fun r => r <> None)); [apply EmitEvent_flushes| | |apply _].
  - intros r _. by apply flushes_frames; frame.
  - intros r _. split_and!; [frame|by no_exit|done].
Qed.

Lemma on_tick_setup n : frames same_setup (on_tick (V := V) n).
Proof. apply (on_tick_frames same_setup); try done; [apply setup_createEvent|apply setup_processEvent]. Qed.

Lemma on_tick_pm n : frames same_pm (on_tick (V := V) n).
Proof. apply (on_tick_frames same_pm); try done; [apply pm_createEvent|apply processEvent_pm]. Qed.

(** What the ticker changes before it emits. *)
Definition ticked (s s' : Service) : Prop :=
  svc_store s' = svc_store s /\ svc_net s' = svc_net s /\ PubKeys s' = PubKeys s /\ same_setup s s'.

#[local] Instance ticked_preorder : PreOrder ticked.
Proof.
  split; [by intros s; split_and!|]. intros s1 s2 s3 (A1 & A2 & A3 & A4) (B1 & B2 & B3 & B4). split_and!; try congruence; by etrans.
Qed.

Lemma node_ok_ticked s s' es : ticked s s' -> node_ok s es -> node_ok s' es.
Proof.
  intros (E1 & E2 & E3 & _) Hn. pose proof Hn as (He & Hb & Hd & _). apply (node_ok_same s); rewrite ?E1; try done. apply Hd.
Qed.

Definition events_kept (s s' : Store) : Prop := forall i e, event_at s i = Some e -> event_at s' i = Some e.

Lemma event_added_kept s s' e : event_at s (id (base e)) = None -> event_added s s' e -> events_kept s s'.
Proof. intros Hn Ha i e' Hi. rewrite (Ha i). case_decide; [congruence|done]. Qed.

(** The node after a turn that may end the process, on a failing table or on its
    own event being refused. *)
Definition turned (s : Service) {A} (o : go (A * Service)) : Prop :=
  match o with
  | Ret (_, s') => (exists es', node_ok s' es') /\ events_kept (svc_store s) (svc_store s')
  | Exits x => kv_may_fail \/ exit_msg x = own_refused
  | _ => False
  end.

Lemma turned_after {A B} (m : stm Service A) (f : A -> stm Service B) s s0 : ticked s s0 -> frames ticked m -> wp m (fun _ _ => True) s0 ->
  (forall x s1, ticked s s1 -> turned s (f x s1)) -> turned s ((m ≫= f) s0).
Proof.
  intros T0 Hf Hw Hk. apply (after_wp _ _ (fun _ _ => True)); [exact Hw|by intros; left|]. intros x s1 E _. apply Hk. etrans; [exact T0|]. by eapply Hf.
Qed.

Lemma tick_turned s es n : node_ok s es -> config_ok (svc_emitter s) -> 0 <= PayloadSize (em_config (svc_emitter s)) < 2 ^ 60 ->
  counters_room s -> es_Epoch es + 1 < 2 ^ 32 -> open_pack (svc_store s) (es_Epoch es) + 1 < 2 ^ 32 -> turned s (on_tick (V := V) n s).
Proof.
  intros Hn Hcfg Hps Hroom H1 H2. unfold on_tick, mod_sync, mod_em, get_em. change time_Now with (next clock).
  change PeersNum with (gets (fun s : Service => Len (pm_peers (pm s)))). change IsSynced with (gets (fun s : Service => synced (pm s))).
  unfold next.
  do 5 (apply turned_after; [first [reflexivity|assumption]|by frame|repeat first [apply wp_if; intros _|wp_step]; done|intros ? ? ?]).
  apply turned_after; [assumption|by frame|by wp_run|intros em st T]. pose proof T as (E1 & _ & _ & E4 & E5).
  pose proof (node_ok_ticked _ _ _ T Hn) as Hn1. destruct (_ <=? _).
  2: { cbn. split; [by exists es|]. unfold events_kept. rewrite E1. done. }
  assert (He : emitted st es (EmitEvent (V := V) n st)).
  { apply emit_spec; [done|..]; unfold config_ok, counters_room, v_event, service_view in *; rewrite ?E1, ?E4, ?E5; done. }
  unfold mbind, stm_bind. destruct (EmitEvent n st) as [[r s']|?|?|?]; [|done..]. destruct He as [(es' & Hn' & _) He]. split; [by exists es'|].
  cbn [fst snd]. rewrite <- E1. destruct r as [e|]; [|intros i e; by rewrite (proj1 (same_tables_dag _ _ He))].
  destruct He as (pl & _ & Hnew & Hadd & _). by eapply event_added_kept.
Qed.

(** ** The state of a machine *)

(** [d'] has all blocks of the chain of [d] and all its events. *)
Definition grows (d d' : Store) : Prop :=
  (forall n, chain_ok d n -> exists n', chain_ok d' n' /\ n <= n' /\ forall i, 0 <= i <= n -> block_at d' i = block_at d i) /\
  events_kept d d'.

#[local] Instance grows_preorder : PreOrder grows.
Proof.
  split.
  - intros d. split; [|by intros i e]. intros n Hn. exists n. split_and!; [done|lia|done].
  - intros d1 d2 d3 [A1 A2] [B1 B2]. split; [|intros i e Hi; by apply B2, A2]. intros n Hn. destruct (A1 n Hn) as (n1 & Hn1 & Hl1 & Hb1).
    destruct (B1 n1 Hn1) as (n2 & Hn2 & Hl2 & Hb2). exists n2. split_and!; [done|lia|]. intros i Hi. rewrite Hb2 by lia. by apply Hb1.
Qed.

Lemma grows_tables d d' : same_tables d d' -> store_ok d' -> grows d d'.
Proof.
  intros Ht Hok. pose proof Ht as (A1 & _ & A3 & A4 & _). split.
  - intros n Hn. exists n. split_and!; [by apply (chain_ok_tables d)|lia|]. intros i _. unfold block_at. by rewrite A4.
  - intros i e. unfold event_at. by rewrite A3.
Qed.

Context (net : NetConfig) (h : list Z).
Abbreviation b0 := (genesis_block net h).

Definition emitter_ok (em : Emitter) : Prop := config_ok em /\ 0 <= PayloadSize (em_config em) < 2 ^ 60.

(** A machine that is up: a running node of the network, its peers and its
    configuration in order, ahead of its disk. *)
Record alive (s : Service) : Prop := {
  al_running : exists es n, running s es n b0;
  al_peers : set_ok (pm_peers (pm s));
  al_emitter : emitter_ok (svc_emitter s);
  al_flushed : grows (disk s) (svc_store s)
}.

(** A machine that is down: its databases are those of a node, or empty. *)
Definition recoverable (d : Store) : Prop := durable d b0 \/ exists a b c, d = NewStore a b c.

Definition machine_ok (m : machine V) : Prop := match m with Up s => alive s | Down d => recoverable d end.

(** A turn from [s]: where it leads to, what is on disk if the process dies during
    it, and why it may end the process itself; [emits] says whether the node's own
    event can be refused in it. *)
Definition good_turn (emits : Prop) (s : Service) {A} (o : go (A * Service)) : Prop :=
  match o with
  | Ret (_, s') => alive s' /\ grows (svc_store s) (svc_store s') /\ grows (disk s) (disk s') /\
      forall d, dies_with s o d -> d = disk s \/ d = disk s'
  | Exits x => stamped s x /\ (kv_may_fail \/ emits /\ exit_msg x = own_refused)
  | _ => False
  end.

(** *** Turns that keep the store *)

Definition unmoved (s s' : Service) : Prop :=
  same_tables (svc_store s) (svc_store s') /\ svc_net s' = svc_net s /\ svc_emitter s' = svc_emitter s /\ PubKeys s' = PubKeys s.

#[local] Instance unmoved_preorder : PreOrder unmoved.
Proof.
  split; [by intros s; split_and!|]. intros s1 s2 s3 (A1 & A2 & A3 & A4) (B1 & B2 & B3 & B4). split_and!; try congruence. by etrans.
Qed.

Lemma undisturbed_unmoved (s s' : Service) : undisturbed s s' -> unmoved s s'.
Proof. intros (A1 & A2 & _ & A4 & A5 & _). by split_and!. Qed.

Lemma but_peer_unmoved a (s s' : Service) : but_peer a s s' -> unmoved s s'.
Proof. intros (A1 & A2 & _ & A4 & A5 & _). by split_and!. Qed.

Lemma running_unmoved (s s' : Service) es n : running s es n b0 -> unmoved s s' -> store_ok (svc_store s') -> disk s' = disk s -> running s' es n b0.
Proof. intros Hr (A1 & A2 & _ & A4) Hok Hd. by apply (running_same s). Qed.

Lemma alive_unmoved (s s' : Service) es : alive s -> session_ok s' es -> unmoved s s' -> disk s' = disk s ->
  alive s' /\ grows (svc_store s) (svc_store s') /\ grows (disk s) (disk s').
Proof.
  intros [(es0 & n & Hr) Hp He Hf] Hs Hu Hd. pose proof (session_store _ _ Hs) as Hok. pose proof Hu as (A1 & _ & A3 & _).
  assert (Hg : grows (svc_store s) (svc_store s')) by (by apply grows_tables). split; [|rewrite Hd; by split].
  constructor; [exists es0, n; by eapply running_unmoved|apply Hs|by rewrite A3|]. rewrite Hd. by etrans.
Qed.

Lemma running_blocks (s : Service) es n : running s es n b0 -> has_blocks (svc_store s).
Proof.
  intros [_ [Hn [k Hk] _ Hb] _ _]. split; [apply Hb; unfold is_uint in *; lia|]. exists (MkBlockState n k). split_and!; [done..|].
  apply Hb. cbn. unfold is_uint in *. lia.
Qed.

Lemma calm_turn {A} (m : stm Service A) s : alive s -> frames same_disk m ->
  (forall es n, running s es n b0 -> session_ok s es -> has_blocks (svc_store s) -> wp m (fun _ s' => session_ok s' es /\ unmoved s s') s) ->
  good_turn False s (m s).
Proof.
  intros Ha Hf Hm. pose proof Ha as [(es & n & Hr) Hp _ _]. specialize (Hm es n Hr (conj (ru_node _ _ _ _ Hr) Hp) (running_blocks _ _ _ Hr)).
  pose proof (flushes_dies (fun _ => False) m s) as Hdies. revert Hm. unfold wp, or_exit, good_turn.
  destruct (m s) as [[x s']|x|x|x] eqn:E; [|done..|intros ?; split; [by eapply disk_exits|by left]]. intros [Hs Hu]. destruct (Hf _ _ _ E) as [Hd _].
  destruct (alive_unmoved s s' es Ha Hs Hu Hd) as (A1 & A2 & A3). split_and!; [done..|]. intros d Hdw.
  destruct (Hdies d) as [->|(? & ? & _ & [] & _)]; [by apply flushes_frames|left; by eexists|done|by left].
Qed.

(** Any sequence of turns with peers that were made. *)
Lemma foreach_calm (f : nat -> stm Service unit) l s es : session_ok s es -> (forall a, calm a (f a)) ->
  Forall (fun a => (a < length (heap (pm_peers (pm s))))%nat) l -> wp (foreach f l) (fun _ s' => session_ok s' es /\ undisturbed s s') s.
Proof.
  intros Hs Hf. revert s Hs. induction l as [|a l IH]; intros s Hs Hl; cbn [foreach]; wp_run; [by split|]. apply Forall_cons in Hl as [Ha Hl].
  eapply wp_mono; [by apply Hf|]. intros [] s1 [Hs1 Hu1]. eapply wp_mono; [apply IH; [done|]|].
  - eapply Forall_impl; [exact Hl|]. intros b Hb. eapply names_kept_length; [apply Hu1|done].
  - intros [] s2 [Hs2 Hu2]. split; [done|by etrans].
Qed.

(** The visit of the registered peers. *)
Lemma visit_spec s es : session_ok s es -> wp (ord ← next_order; on_peers (List_ ord)) (fun l s' => session_ok s' es /\ undisturbed s s' /\
  Forall (fun a => (a < length (heap (pm_peers (pm s'))))%nat) l) s.
Proof.
  intros Hs. unfold next_order. wp_run. apply wp_next. intros n. wp_run. apply wp_on_peers. unfold List_. wp_run.
  split; [by destruct Hs|]. split; [by split_and!|]. apply Forall_forall. intros a Ha.
  destruct (range_peers_heap (pm_peers (pm s)) _ a (proj2 Hs) Ha) as (p & Hp & _). by eapply lookup_lt_Some.
Qed.

Lemma removePeer_calm s es name : session_ok s es -> wp (removePeer name) (fun _ s' => session_ok s' es /\ unmoved s s') s.
Proof.
  intros Hs. destruct (peers (pm_peers (pm s)) !! name) as [a|] eqn:Ea.
  - eapply wp_mono; [by apply (removePeer_spec s es a)|]. intros [] s' (Hs' & Hb & _). split; [done|by eapply but_peer_unmoved].
  - unfold removePeer. wp_run. apply wp_on_peers. unfold lookupPeer. wp_run. rewrite Ea. wp_run. split; [by destruct Hs|by split_and!].
Qed.

Lemma pool_disconnect_calm s es entry : session_ok s es -> wp (pool_disconnect entry) (fun _ s' => session_ok s' es /\ unmoved s s') s.
Proof. intros Hs. destruct entry as [x|]; unfold pool_disconnect, tell, mod_pm; wp_run; split; [by destruct Hs|by split_and!|done|reflexivity]. Qed.

Lemma leave_calm s es a entry : session_ok s es -> (a < length (heap (pm_peers (pm s))))%nat ->
  wp (leave a entry) (fun _ s' => session_ok s' es /\ unmoved s s') s.
Proof.
  intros Hs Ha. unfold leave, handle_end. wp_step. wp_step. eapply wp_mono; [by apply (calm_peer_get a p_id s es)|]. intros name s1 [Hs1 Hu1].
  eapply wp_mono; [by apply removePeer_calm|]. intros [] s2 [Hs2 Hu2]. eapply wp_mono; [by apply pool_disconnect_calm|]. intros [] s3 [Hs3 Hu3].
  split; [done|]. etrans; [by apply undisturbed_unmoved|]. by etrans.
Qed.

Lemma connect_calm s es v name tr entry first : session_ok s es -> has_blocks (svc_store s) ->
  wp (connect v name tr entry first) (fun _ s' => session_ok s' es /\ unmoved s s') s.
Proof.
  intros Hs Hb. unfold connect. wp_step. eapply wp_mono; [apply (alloc_spec s es (set_poolEntry entry (newPeer v name tr)) Hs); by constructor|].
  intros a s1 (Hs1 & Hu1 & _ & Hp1). assert (Hb1 : has_blocks (svc_store s1)) by (eapply has_blocks_same; [apply Hu1|done]).
  wp_step. eapply wp_mono; [by apply (greeting_spec s1 es a); [..|eapply lookup_lt_Some]|]. intros err s2 [Hs2 Hu2].
  assert (Hu : unmoved s s2) by (apply undisturbed_unmoved; by etrans).
  assert (Hend : forall (r : nat * option error) s3, session_ok s3 es -> unmoved s s3 ->
    wp (_ ← pool_disconnect entry; mret r) (fun _ s' => session_ok s' es /\ unmoved s s') s3).
  { intros r s3 Hs3 Hu3. wp_step. eapply wp_mono; [by apply pool_disconnect_calm|]. intros [] s4 [Hs4 Hu4]. wp_run. split; [done|by etrans]. }
  destruct err as [e|]; [by apply Hend|]. destruct (heap_kept s1 s2 a _ Hu2 Hp1) as (q & Hq & _ & Et).
  wp_step. apply wp_on_peers. eapply wp_mono; [apply (Register_spec _ a q); [apply Hs2|done|by rewrite Et]|]. intros reg ps (Hps & _).
  assert (Hs3 : session_ok (set_pm (set_pm_peers ps (pm s2)) s2) es) by (split; [apply Hs2|done]).
  assert (Hu3 : unmoved s (set_pm (set_pm_peers ps (pm s2)) s2)) by (etrans; [exact Hu|by split_and!]).
  destruct reg as [e|]; [by apply Hend|]. wp_run. by split.
Qed.

Lemma any_at_epoch_calm e l b s es : session_ok s es -> Forall (fun a => (a < length (heap (pm_peers (pm s))))%nat) l ->
  wp (any_at_epoch e l b) (fun _ s' => session_ok s' es /\ undisturbed s s') s.
Proof.
  intros Hs. revert s b Hs. induction l as [|a l IH]; intros s b Hs Hl; cbn [any_at_epoch]; wp_run; [by split|]. apply Forall_cons in Hl as [Ha Hl].
  eapply wp_mono; [by apply (calm_peer_get a progress s es)|]. intros pr s1 [Hs1 Hu1]. eapply wp_mono; [apply IH; [done|]|].
  - eapply Forall_impl; [exact Hl|]. intros c Hc. eapply names_kept_length; [apply Hu1|done].
  - intros r s2 [Hs2 Hu2]. split; [done|by etrans].
Qed.

(** Everything but the store. *)
Definition same_sides (s s' : Service) : Prop :=
  svc_net s' = svc_net s /\ svc_emitter s' = svc_emitter s /\ PubKeys s' = PubKeys s /\ pm s' = pm s /\ disk s' = disk s.

#[local] Instance same_sides_preorder : PreOrder same_sides.
Proof. unfold same_sides. split; [by intros s|]. intros s1 s2 s3 (A1 & A2 & A3 & A4 & A5) (B1 & B2 & B3 & B4 & B5). split_and!; congruence. Qed.

Lemma sides_store {A} (m : stm Store A) : frames same_sides (on_store m).
Proof. by apply (frames_part same_sides m svc_store set_store). Qed.
#[local] Hint Resolve sides_store : frames.

Lemma myProgress_calm s es n : running s es n b0 -> set_ok (pm_peers (pm s)) -> wp myProgress (fun _ s' => session_ok s' es /\ unmoved s s') s.
Proof.
  intros Hr Hp. assert (Hf : frames same_sides myProgress) by (unfold myProgress; frame).
  eapply wp_mono; [apply (wp_frames same_sides _ _ _ Hf (readonly_myProgress s es n b0 Hr))|].
  intros pr s' [[Hr' Ht] (A1 & A2 & A3 & A4 & _)]. split; [split; [apply Hr'|by rewrite A4]|by split_and!].
Qed.

Lemma SendProgress_calm pr a : calm (V := V) a (_ ← peer_do a (SendProgress pr); mret tt).
Proof. apply calm_bind; [apply calm_peer_do, Send_keeps|intros; apply calm_ret]. Qed.

Lemma onNewPack_calm s es n : running s es n b0 -> session_ok s es -> wp onNewPack (fun _ s' => session_ok s' es /\ unmoved s s') s.
Proof.
  intros Hr Hs. unfold onNewPack. apply wp_seq. assert (Hf : frames same_disk (ord ← next_order (V := V); on_peers (List_ ord))) by (unfold next_order; frame).
  eapply wp_mono; [apply (wp_frames same_disk _ _ _ Hf (visit_spec s es Hs))|]. intros l s1 [(Hs1 & Hu1 & Hl) Hd1]. wp_step. wp_step. wp_step.
  set (f := fun a : nat => _). assert (Hf2 : frames same_disk (foreach f l)) by (apply disk_foreach; intros a; unfold f; frame).
  eapply wp_mono; [exact (wp_frames same_disk _ _ _ Hf2 (foreach_calm f l s1 es Hs1 (SendProgress_calm _) Hl))|].
  intros [] s2 [[Hs2 Hu2] Hd2]. assert (Hu : unmoved s s2) by (apply undisturbed_unmoved; by etrans).
  assert (Hr2 : running s2 es n b0) by (eapply running_unmoved; [done..|by eapply session_store|destruct Hd1, Hd2; congruence]).
  wp_step. eapply wp_mono; [apply (myProgress_calm s2 es n Hr2), Hs2|]. intros mine s3 [[Hn3 Hp3] Hu3]. unfold mod_pm. wp_run.
  split; [by split|]. etrans; [exact Hu|]. etrans; [exact Hu3|by split_and!].
Qed.

Lemma onNewEpoch_calm s es e : session_ok s es -> wp (onNewEpoch_ e) (fun _ s' => session_ok s' es /\ unmoved s s') s.
Proof.
  intros Hs. unfold onNewEpoch_. wp_step. wp_step. wp_step.
  assert (Hend : forall s1, session_ok s1 es -> unmoved s s1 -> wp (_ ← tell CallBufferClear; epochs ← gets (fun s => peer_epochs (pm_peers (pm s)));
    tell (CallDownloaderOnNewEpoch e epochs)) (fun _ s' => session_ok s' es /\ unmoved s s') s1).
  { intros s1 [Hn1 Hp1] Hu1. unfold tell, mod_pm. wp_run. split; [by split|]. etrans; [exact Hu1|by split_and!]. }
  apply wp_if; intros _; [|wp_run; by apply Hend]. apply wp_seq. eapply wp_mono; [by apply (visit_spec s es)|]. intros l s1 (Hs1 & Hu1 & Hl).
  wp_step. eapply wp_mono; [by apply any_at_epoch_calm|]. intros b s2 [Hs2 Hu2].
  assert (Hu : unmoved s s2) by (apply undisturbed_unmoved; by etrans). apply wp_if; intros _; unfold mod_pm; wp_run; [|by apply Hend].
  apply Hend; [by destruct Hs2|]. etrans; [exact Hu|by split_and!].
Qed.

(** *** Turns that append *)

Lemma appending_turn {A} emits ok (m : stm Service A) s : alive s -> room s -> appends max_blocks m -> flushes ok m -> frames same_setup m ->
  turned s (m s) -> (emits \/ forall x, m s = Exits x -> kv_may_fail) -> (forall x s', m s = Ret (x, s') -> set_ok (pm_peers (pm s'))) -> good_turn emits s (m s).
Proof.
  intros [(es & n & Hr) Hp He Hf] (es0 & bs & _ & Hbs & _ & _ & Hroom) Ha Hfl Hset Ht Hem Hpeers.
  pose proof (flushes_dies ok m s) as Hdies. pose proof (Hfl s) as Hfls. unfold turned, good_turn in *.
  destruct (m s) as [[x s']|x|x|x] eqn:E; [|done..|split; [exact Hfls|by destruct Ht, Hem; eauto]]. destruct Ht as [[es' Hn'] Hev].
  destruct (ch_state _ _ (ru_chain _ _ _ _ Hr)) as [k Hk]. rewrite Hk in Hbs. injection Hbs as <-. cbn in Hroom.
  destruct (running_next ok m max_blocks s es n b0 x s' es' Hr E Ha Hfl Hroom Hn') as (n' & Hr' & Hle & Hb).
  assert (Hg : grows (svc_store s) (svc_store s')).
  { split; [|done]. intros n1 Hn1. assert (n1 = n) as ->.
    { destruct (ch_state _ _ Hn1) as [k1 Hk1]. rewrite Hk in Hk1. congruence. }
    exists n'. split; [apply Hr'|]. split; [lia|done]. }
  assert (Hd : grows (disk s) (disk s') /\ grows (disk s') (svc_store s')).
  { destruct Hfls as [[-> _]|[_ [-> _]]]; split; first [reflexivity|exact (transitivity Hf Hg)]. }
  destruct (Hset _ _ _ E) as [E1 E2]. split; [|split; [done|split; [apply Hd|]]].
  - constructor; [by exists es', n'|by eapply Hpeers| |apply Hd]. unfold emitter_ok, config_ok in *. by rewrite E1, E2.
  - intros d Hdw. destruct (Hdies d) as [->|(y & s2 & [= -> ->] & _ & _ & ->)]; [done|left; by eexists|done|by left|by right].
Qed.

Lemma process_turn s e : alive s -> admissible s (Process e) -> good_turn False s (onProcess e s).
Proof.
  intros Ha (Hst & Hpar & Hq & Hroom). pose proof Ha as [(es & n & Hr) Hp He Hf]. pose proof Hroom as (es0 & bs & Hes & Hbs & H1 & H2 & _).
  rewrite (proj1 (ru_node _ _ _ _ Hr)) in Hes. injection Hes as <-.
  assert (Hpr : processable s es e) by (by constructor). pose proof (onProcess_spec s es e (conj (ru_node _ _ _ _ Hr) Hp) Hpr) as Hw.
  apply (appending_turn _ (fun r => r = None)); [done..|apply onProcess_appends|apply onProcess_flushes|apply setup_onProcess| | |].
  - revert Hw. unfold wp, or_exit, turned. destruct (onProcess e s) as [[r s']|x|x|x]; [|done..|by left]. intros [[(es' & Hn' & _) Hev] _].
    split; [by exists es'|]. destruct Hev as [(Hnew & _ & Hadd & _)|(_ & [Hsame _] & _)]; [by eapply event_added_kept|]. intros i e' Hi. by rewrite Hsame.
  - right. intros x E. revert Hw. unfold wp, or_exit. by rewrite E.
  - intros r s' E. revert Hw. unfold wp, or_exit. rewrite E. by intros [_ ?].
Qed.

Lemma tick_turn s n : alive s -> admissible s (Tick n) -> good_turn True s (on_tick (V := V) n s).
Proof.
  intros Ha (Hc & Hroom). pose proof Ha as [(es & k & Hr) Hp [He1 He2] Hf]. pose proof Hroom as (es0 & bs & Hes & Hbs & H1 & H2 & _).
  rewrite (proj1 (ru_node _ _ _ _ Hr)) in Hes. injection Hes as <-.
  apply (appending_turn _ (fun _ => True)); [done..|apply on_tick_appends|apply on_tick_flushes|apply on_tick_setup| |by left|].
  - apply (tick_turned s es); [apply Hr|done..].
  - intros r s' E. by rewrite (on_tick_pm n _ _ _ E).
Qed.

(** *** Every turn *)

Lemma good_unit {A} emits s (m : stm Service A) : good_turn emits s (m s) -> good_turn emits s ((_ ← m; mret tt) s).
Proof. unfold good_turn, mbind, stm_bind. by destruct (m s) as [[x s']|x|x|x]. Qed.

Lemma good_weaken {A} (P Q : Prop) s (o : go (A * Service)) : (P -> Q) -> good_turn P s o -> good_turn Q s o.
Proof. intros H. destruct o as [[x s']|x|x|x]; try done. cbn. intros [? [?|[? ?]]]; split; auto. Qed.

Lemma react_good s i : alive s -> admissible s i -> good_turn (exists n, i = Tick n) s (react i s).
Proof.
  intros Ha Hi. assert (Hw : good_turn (if i is Tick _ then True else False) s (react i s)).
  2: { eapply good_weaken; [|exact Hw]. destruct i; try done. intros _. by eexists. } destruct i as [v name tr entry first|a m|a entry|e|name err|n|e| |ep]; cbn [react] in *.
  - apply good_unit, calm_turn; [done|apply disk_connect|]. intros es n _. apply connect_calm.
  - destruct Hi as [Hm Hl]. apply good_unit, calm_turn; [done|apply disk_handleMsg|]. intros es n _ Hs _.
    eapply wp_mono; [by apply (handleMsg_answers a m Hm s es)|]. intros r s' [[Hs' Hu] _]. split; [done|by apply undisturbed_unmoved].
  - apply calm_turn; [done|apply disk_leave|]. intros es n _ Hs _. by apply leave_calm.
  - by apply good_unit, process_turn.
  - apply calm_turn; [done|unfold onDrop; frame|]. intros es n _ Hs _. unfold onDrop. apply wp_if; intros _; [by apply removePeer_calm|wp_run; by split].
  - by apply tick_turn.
  - apply good_unit, calm_turn; [done|apply disk_BroadcastEvent|]. intros es n _ Hs _. unfold onEmitted.
    eapply wp_mono; [by apply (broadcast_spec s es)|]. intros r s' (Hs' & Hu & _). split; [done|by apply undisturbed_unmoved].
  - apply calm_turn; [done|apply disk_onNewPack|]. intros es n Hr Hs _. by eapply onNewPack_calm.
  - apply calm_turn; [done|apply disk_onNewEpoch_|]. intros es n _ Hs _. by apply onNewEpoch_calm.
Qed.

(** *** Launching *)

Lemma grows_restored d d' : BlockStateT d' = BlockStateT d -> Events d' = Events d -> Blocks d' = Blocks d -> store_ok d' -> grows d d'.
Proof.
  intros A1 A3 A4 Hok. split.
  - intros n Hn. exists n. split_and!; [by apply (chain_ok_tables d)|lia|]. intros i _. unfold block_at. by rewrite A4.
  - intros i e. unfold event_at. by rewrite A3.
Qed.

Lemma grows_empty a b c d : grows (NewStore a b c) d.
Proof.
  split.
  - intros n Hn. destruct (ch_blocks _ _ Hn 0) as [x Hx]; [destruct (ch_num _ _ Hn); lia|]. by rewrite (proj1 (NewStore_empty a b c 0 [])) in Hx.
  - intros i e Hi. by rewrite (proj2 (NewStore_empty a b c 0 i)) in Hi.
Qed.

Lemma launch_identity env cfg dbs s : launch keccak_hex FakeKey env cfg dbs = Ret s ->
  ec_Validator (em_config (svc_emitter s)) = ec_Validator (cfg_Emitter cfg) /\
  PayloadSize (em_config (svc_emitter s)) = PayloadSize (cfg_Emitter cfg) /\ em_net (svc_emitter s) = cfg_Net cfg /\
  pm_peers (pm s) = newPeerSet.
Proof.
  unfold launch. intros E. apply bind_Ret_inv in E as ([[eng dsk] gdb] & _ & E). apply bind_Ret_inv in E as (svc & E1 & E).
  apply bind_Ret_inv in E as ([[] s2] & E2 & [= <-]). apply Start_identity in E2 as (N6 & C6 & _ & _ & Z6 & M6 & P6).
  rewrite C6, Z6, M6, P6, (gossipService_net _ _ _ _ _ _ E1). split_and!; try done.
  unfold gossipService, NewService in E1. apply bind_Ret_inv in E1 as (sv & E1 & E3). apply bind_Ret_inv in E1 as ([ep st] & _ & [= <-]).
  destruct (engine_Bootstrap _) as [eng' [e|]]; [done|]. by injection E3 as <-.
Qed.

Hypothesis Hnet : net_ok net.
Hypothesis Hh : prettyHash net = Ret h.

(** A launch returns, on whatever a machine that is down has on disk. *)
Lemma boot_runs b d : recoverable d -> boot_ok net b -> or_exit (boot keccak_hex FakeKey b d) (fun s => 
  (exists es n, running s es n b0) /\ grows d (svc_store s) /\ grows d (disk s) /\ grows (disk s) (svc_store s)).
Proof.
  intros Hd ((Hc & _) & Hv & Hf & He). unfold boot. destruct Hd as [Hd|(x & y & z & ->)].
  - eapply or_exit_mono; [apply (launch_known _ _ (be_env b) (be_cfg b) (MkDatabases (be_versions b) d (be_engine b)) b0); [|done|apply (He d h)]|].
    { split_and!; [exact Hd|by rewrite Hc|done]. }
    intros s (es & n & Hr & (A1 & _ & A3 & A4 & _) & (B1 & _ & B3 & B4 & _)). cbn [db_store] in *. pose proof (running_ok _ _ _ _ Hr) as Hok.
    split; [by exists es, n|]. split; [by apply grows_restored|]. split; [|by apply grows_restored].
    apply grows_restored; [congruence..|]. eapply durable_ok, (ru_disk _ _ _ _ Hr).
  - rewrite <- Hc in Hnet, Hh. eapply or_exit_mono; [by apply (launch_fresh _ _ (be_env b) (be_cfg b) (be_versions b) (be_engine b) x y z)|].
    intros s (h' & Hh' & Hr & _ & _ & (B1 & _ & B3 & B4 & _)). rewrite Hh in Hh'. injection Hh' as <-. rewrite Hc in Hr.
    split; [by exists (genesis_epoch net), 0|]. split; [apply grows_empty|]. split; [apply grows_empty|]. apply grows_restored; try done. by eapply running_ok.
Qed.

Lemma boot_alive b d s : recoverable d -> boot_ok net b -> boot keccak_hex FakeKey b d = Ret s ->
  alive s /\ grows d (svc_store s) /\ grows d (disk s).
Proof.
  intros Hd Hb E. pose proof (boot_runs b d Hd Hb) as Hr. rewrite E in Hr. destruct Hr as (Hr & G1 & G2 & G3).
  apply launch_identity in E as (E1 & E2 & E3 & E4). destruct Hb as ((Hc & C1 & C2 & C3) & _). split; [|done]. constructor; [done|..|done].
  - rewrite E4. split; by intros.
  - unfold emitter_ok, config_ok. by rewrite E1, E2, E3, Hc.
Qed.

(** A launch that dies after its flush leaves what it would have started from. *)
Lemma boot_dies b d eng dsk gdb : recoverable d -> boot_ok net b ->
  MakeEngine keccak_hex (se_flush (be_env b)) (be_cfg b) (MkDatabases (be_versions b) d (be_engine b)) = Ret (eng, dsk, gdb) ->
  recoverable dsk /\ grows d dsk.
Proof.
  intros Hd ((Hc & _) & Hv & Hf & He) E. destruct Hd as [Hd|(x & y & z & ->)].
  - assert (Hdb : databases_of (be_cfg b) (MkDatabases (be_versions b) d (be_engine b)) b0) by (split_and!; [exact Hd|by rewrite Hc|done]).
    pose proof (MakeEngine_known keccak_hex _ _ _ _ Hdb Hf) as H. rewrite E in H. cbn [or_exit fst snd db_store] in H.
    destruct H as (-> & Hdu & Hok & _ & A1 & _ & A3 & A4 & _). split; [by left|]. by apply grows_restored.
  - rewrite <- Hc in Hnet, Hh. pose proof (MakeEngine_fresh keccak_hex (se_flush (be_env b)) (be_cfg b) (be_versions b) (be_engine b) x y z h Hnet Hh Hv Hf (He _ _)) as H.
    rewrite E in H. cbn [or_exit fst snd] in H. destruct H as (-> & Hdu & _). rewrite Hc in Hdu. split; [by left|apply grows_empty].
Qed.

(** *** Stopping *)

Lemma Stop_flushes : flushes (fun r => r = None) (Stop (V := V)).
Proof.
  unfold Stop. apply flushes_after; [unfold StopEventEmission, mod_em, get_em; frame|intros _]. apply flushes_after.
  { unfold PM_Stop, tell, mod_pm, next_order. repeat first [apply disk_on_peers|frame_step]. }
  intros _. apply flushes_after; [frame|intros _]. apply Commit_flushes.
Qed.

(** Whether it returns or dies, [Stop] leaves the old disk or the whole store. *)
Lemma Stop_dies (s : Service) d : set_ok (pm_peers (pm s)) -> dies_with s (Stop s) d -> d = disk s \/ d = svc_store s.
Proof.
  intros Hs Hd. pose proof (Stop_spec s Hs) as Hw. revert Hw. unfold wp, or_exit.
  destruct (flushes_dies _ _ s d Stop_flushes) as [->|(r & s' & E & _ & -> & _)]; [|done|by left|rewrite E; cbn [fst snd]; intros (_ & E2 & _); by right].
  pose proof (Stop_spec s Hs) as Hw. revert Hw. unfold wp, or_exit. destruct (Stop s); try done; [left|right]; by eexists.
Qed.

Lemma Stop_disk (s : Service) r s' : set_ok (pm_peers (pm s)) -> Stop s = Ret (r, s') -> disk s' = disk s \/ disk s' = svc_store s.
Proof. intros Hs E. pose proof (Stop_spec s Hs) as Hw. revert Hw. unfold wp, or_exit. rewrite E. cbn. intros (_ & _ & [[_ ->]|[_ ->]]); auto. Qed.

(** *** One step, any number of steps *)

Lemma alive_disk s : alive s -> recoverable (disk s) /\ grows (disk s) (disk s).
Proof. intros [(es & n & Hr) _ _ _]. split; [left; apply Hr|reflexivity]. Qed.

Lemma alive_store s : alive s -> recoverable (svc_store s) /\ grows (disk s) (svc_store s).
Proof. intros [(es & n & Hr) _ _ Hf]. split; [left; by eapply running_durable|done]. Qed.

(** A turn that the process dies in leaves databases a launch accepts. *)
Lemma turn_dies {A} emits s (o : go (A * Service)) d : alive s -> good_turn emits s o -> dies_with s o d -> recoverable d /\ grows (disk s) d.
Proof.
  intros Ha Hg Hd. unfold good_turn in Hg. destruct o as [[x s']|x|x|x]; try done.
  - destruct Hg as (Ha' & _ & Hgd & Hdies). destruct (Hdies d Hd) as [->| ->]; [by apply alive_disk|]. split; [by apply alive_disk|done].
  - destruct Hg as [Hx _]. rewrite (Hd Hx). by apply alive_disk.
Qed.

Lemma machine_step_ok m m' : machine_ok m -> step keccak_hex FakeKey net m m' -> machine_ok m' /\ grows (disk_of m) (disk_of m').
Proof.
  intros Hm Hs. destruct Hs as [s i s' Hi E|s i d Hi Hd|s|s r s' E|s d Hd|d b s Hb E|d b eng dsk gdb Hb E]; cbn [machine_ok disk_of] in *.
  - pose proof (react_good s i Hm Hi) as Hg. rewrite E in Hg. by destruct Hg as (? & _ & ? & _).
  - eapply turn_dies; [done|by apply react_good|done].
  - by apply alive_disk.
  - destruct (Stop_disk s r s' (al_peers _ Hm) E) as [->| ->]; [by apply alive_disk|by apply alive_store].
  - destruct (Stop_dies s d (al_peers _ Hm) Hd) as [->| ->]; [by apply alive_disk|by apply alive_store].
  - destruct (boot_alive b d s Hm Hb E) as (? & _ & ?). by split.
  - by eapply boot_dies.
Qed.

Lemma steps_ok m m' : machine_ok m -> rtc (step keccak_hex FakeKey net) m m' -> machine_ok m' /\ grows (disk_of m) (disk_of m').
Proof.
  intros Hm Hs. induction Hs as [m|m1 m2 m3 H1 _ IH]; [by split|]. destruct (machine_step_ok m1 m2 Hm H1) as [H2 G2]. destruct (IH H2) as [H3 G3].
  split; [done|by etrans].
Qed.

Lemma view_ahead m : machine_ok m -> grows (disk_of m) (view m).
Proof. destruct m as [s|d]; [by intros []|reflexivity]. Qed.

(** The states of a machine that starts on empty databases. *)
Definition reachable (m : machine V) : Prop := exists a b c, rtc (step keccak_hex FakeKey net) (Down (NewStore a b c)) m.

Lemma machine_reachable_ok m : reachable m -> machine_ok m.
Proof. intros (a & b & c & Hs). apply (steps_ok (Down (NewStore a b c))); [|done]. right. by exists a, b, c. Qed.

(** C1: whatever happens, the node stays consistent.  From empty databases, under
    any interleaving of sessions, messages, ticks, broadcasts and events whose
    encoding is canonical ([storable]: the decoder lets others pass), with stops,
    launches and deaths of the process at any moment of a turn, of a stop or of a
    launch in between, a machine that is up is a running node of its network: its
    graph of events, heads, last events, packs and chain of blocks are
    consistent, its peers within their bounds; and one that is down has databases
    that a launch accepts. *)
Theorem node_always_consistent m : reachable m -> machine_ok m.
Proof. apply machine_reachable_ok. Qed.

(** C2: what is flushed is final.  A block of the chain or an event that is on
    disk at some moment of a machine's life is shown, unchanged, at every later
    moment, across crashes and launches. *)
Theorem flushed_is_final m m' : reachable m -> rtc (step keccak_hex FakeKey net) m m' ->
  (forall n i b, chain_ok (disk_of m) n -> 0 <= i <= n -> block_at (disk_of m) i = Some b -> block_at (view m') i = Some b) /\
  (forall i e, event_at (disk_of m) i = Some e -> event_at (view m') i = Some e).
Proof.
  intros Hm Hs. destruct (steps_ok m m' (machine_reachable_ok m Hm) Hs) as [Hm' Hd]. destruct (transitivity Hd (view_ahead m' Hm')) as [Hb He].
  split; [|exact He]. intros n i b Hn Hi <-. destruct (Hb n Hn) as (n' & _ & _ & E). by apply E.
Qed.


End Spec.

(** ** The life of a machine over tables in memory *)

Module Sample.
Import StoreSpec.Sample Genesis.Sample ServiceSpec.Sample PeerSpec.Sample HandlerSpec.Sample LaunchSpec.Sample.
#[local] Existing Instance lachesis_be.
#[local] Existing Instance lachesis_be_laws.
#[local] Existing Instance lachesis_idx_be.
#[local] Existing Instance lachesis_idx_be_laws.
#[local] Existing Instance rlp_length_prefix.
#[local] Existing Instance rlp_length_prefix_laws.
#[local] Existing Instance rlp_length_prefix_safe.
#[local] Existing Instance kv_gmap.
#[local] Existing Instance kv_gmap_laws.
#[local] Existing Instance lru_gmap.
#[local] Existing Instance lru_gmap_laws.
#[local] Existing Instance codec_countable.
#[local] Existing Instance codec_countable_laws.
#[local] Existing Instance base_checks_any.
#[local] Existing Instance base_checks_any_laws.
#[local] Existing Instance Emitter.Sample.ext_any.
#[local] Existing Instance Emitter.Sample.ext_any_laws.
#[local] Existing Instance pos_total.
#[local] Existing Instance pos_total_laws.
#[local] Existing Instance engine_each.
#[local] Existing Instance engine_each_laws.
#[local] Existing Instance ServiceSpec.Sample.calm.
#[local] Existing Instance p2p_any.
#[local] Existing Instance p2p_any_laws.
#[local] Existing Instance gossip_any.
#[local] Existing Instance gossip_any_laws.
#[local] Existing Instance wire_any.
#[local] Existing Instance wire_any_laws.
#[local] Existing Instance boot_any.

Definition sample_boot : boot_env Z := MkBootEnv env cfg no_versions edb0.

Lemma sample_boot_ok : boot_ok short_net sample_boot.
Proof.
  split; [split; [reflexivity|]|].
  - split; [|split]; split; first [reflexivity|discriminate].
  - split; [reflexivity|]. split; [reflexivity|].
    intros d h. split; reflexivity.
Qed.

Lemma booted_launched : boot hex fake_key sample_boot (NewStore 10 10 10) = Ret booted.
Proof.
  pose proof (launch_fresh hex fake_key env cfg no_versions edb0 10 10 10 short_net_ok eq_refl (fun _ => eq_refl)
    (fun _ => conj eq_refl (fun _ => eq_refl))) as H. unfold booted, empty_dbs. unfold boot. cbn [be_env be_cfg be_versions be_engine sample_boot].
  destruct (launch hex fake_key env cfg _) as [s|x|x|x]; [reflexivity|destruct H..].
Qed.

Lemma booted_reachable : reachable hex fake_key short_net (Up booted).
Proof.
  exists 10, 10, 10. apply rtc_once. eapply step_boot; [exact sample_boot_ok|exact booted_launched].
Qed.

Lemma node_always_consistent_witness : exists h, reachable hex fake_key short_net (Up booted) /\ machine_ok short_net h (Up booted).
Proof.
  destruct booted_running as (h & Hh & _). exists h. split; [exact booted_reachable|].
  exact (node_always_consistent hex fake_key short_net h short_net_ok Hh (Up booted) booted_reachable).
Defined.

(** The process is killed, and its databases still show the genesis. *)
Lemma flushed_is_final_witness : exists n b, block_at (disk booted) 0 = Some b /\ chain_ok (disk booted) n /\
  block_at (view (Down (disk booted))) 0 = Some b.
Proof.
  destruct booted_running as (h & Hh & Hr & _). destruct (ru_disk _ _ _ _ Hr) as [_ [n Hn] Hg]. exists n, (genesis_block short_net h).
  split; [exact Hg|]. split; [exact Hn|].
  apply (proj1 (flushed_is_final hex fake_key short_net h short_net_ok Hh (Up booted) (Down (disk booted)) booted_reachable
    (rtc_once _ _ (step_killed hex fake_key short_net booted))) n 0 _ Hn); [|exact Hg].
  split; [reflexivity|exact (proj1 (ch_num _ _ Hn))].
Defined.



End Sample.
End NodeSpec.
