(* ===== verification/Command.v ===== *)
(** * The command line

    [src/cmd/miniopera]: the configuration of a node from defaults, a TOML file
    and flags ([config.go], [defaults.go], [fake.go], [emitter.go]), the making
    and starting of the node ([main.go]) and the endpoint that a console attaches
    to ([consolecmd.go]).  The flag parser, the settings that go-ethereum reads
    from the command line, the TOML package and the node stack are parameters. *)

From Stdlib Require Import ZArith Lia Bool Ascii Sorted.
From stdpp Require Import base list numbers option strings pretty gmap sorting.
From S2P Require Import Prelude Kv Sha256 Fast Event Serializer EventBuild Store StoreSpec Genesis Checks Emitter Peer PeerSpec Service.
From S2P Require Import ServiceSpec ChainSpec ServiceWorld Handler HandlerSpec Utils Host Launch LaunchSpec.
Import Event Serializer EventBuild Store StoreSpec Genesis Checks Emitter Peer PeerSpec Service ServiceSpec ChainSpec ServiceWorld Handler HandlerSpec
  Launch LaunchSpec Str.
Local Open Scope Z_scope.

(** The command line of a run, as the cli package shows it: which flags are set
    and their values, defaults included. *)
Record Context := MkContext {
  GlobalIsSet : string -> bool;
  GlobalString : string -> string;
  GlobalBool : string -> bool;
  GlobalInt : string -> Z;
  GlobalUint64 : string -> Z;
  cli_Args : list string
}.

(** go-ethereum: names of its flags, types and values of [node.Config] that the
    program only passes on. *)
Class EthFlags := {
  utils_DataDirFlag : string; TestnetFlag : string; RinkebyFlag : string; DeveloperFlag : string; ExternalSignerFlag : string;
  NetworkIdFlag : string;
  timeouts : Type; DefaultHTTPTimeouts : timeouts;
  nat_Interface : Type; nat_Any : nat_Interface;
  node_other : Type; node_other_zero : node_other;
  VersionWithCommit : string -> string -> string
}.

Module Command.

Definition BytesPerSecondFlag : string := "bps".
Definition PayloadFlag : string := "payload".
Definition FakeNetFlag : string := "fakenet".
Definition configFileFlag : string := "config".
Definition validatorFlag : string := "validator".

(** ** fake.go *)

(** Slash and comma. *)
Definition slash : ascii := "/"%char.
Definition comma : ascii := ","%char.

Definition errFormat : error := Error "use %d/%d format".
Definition errKeyNum : error :=
  Error "key-num should be in range from 1 to validators (<key-num>/<validators>), or should be zero for non-validator node".

Definition parseFakeGen (s : string) : Z * Z * option error :=
  match SplitN2 slash s with
  | [p0; p1] =>
      match ParseUint32 p0 with
      | (_, Some err) => (0, 0, Some err)
      | (id, None) =>
          let '(num, err) := ParseUint32 (hd EmptyString (SplitN2 comma p1)) in
          if (num <? 0) || (num <? id) then (id, num, Some errKeyNum) else (id, num, err)
      end
  | _ => (0, 0, Some errFormat)
  end.

Definition fake_stake : Z := 100000.
Definition getFakeValidators (fake_pubkey : Z -> list Z) (num : Z) : list Validator := FakeValidators fake_pubkey num fake_stake.

(** ** emitter.go *)

Definition set_Validator (v : Z) (c : EmitterConfig) : EmitterConfig :=
  MkEmitterConfig v (BytesPerSec c) (PayloadSize c) (EpochTailLength c) (ec_EmitIntervals c).

Definition setValidator (ctx : Context) (cfg : EmitterConfig) : EmitterConfig :=
  let validatorID :=
    if GlobalIsSet ctx validatorFlag then u32 (GlobalInt ctx validatorFlag)
    else if GlobalIsSet ctx FakeNetFlag then (parseFakeGen (GlobalString ctx FakeNetFlag)).1.1
    else 0 in
  if validatorID =? 0 then cfg else set_Validator validatorID cfg.

(** ** defaults.go and config.go: the configuration of the node *)

Section Node.
Context `{EthFlags}.

Record P2PConfig := MkP2PConfig { NoDiscovery : bool; DiscoveryV5 : bool; ListenAddr : string; MaxPeers : Z; NAT : nat_Interface }.

(** [node.Config]: the settings this program names, and all others. *)
Record NodeConfig := MkNodeConfig {
  node_Name : string; node_Version : string; DataDir : string; IPCPath : string;
  HTTPPort : Z; HTTPModules : list string; HTTPVirtualHosts : list string; HTTPTimeouts : timeouts;
  WSPort : Z; WSModules : list string; GraphQLPort : Z; GraphQLVirtualHosts : list string; node_P2P : P2PConfig; node_rest : node_other }.

Definition set_DataDir (dir : string) (c : NodeConfig) : NodeConfig :=
  MkNodeConfig (node_Name c) (node_Version c) dir (IPCPath c) (HTTPPort c) (HTTPModules c) (HTTPVirtualHosts c) (HTTPTimeouts c)
    (WSPort c) (WSModules c) (GraphQLPort c) (GraphQLVirtualHosts c) (node_P2P c) (node_rest c).

Definition DefaultP2PPort : Z := 5050.
Definition DefaultHTTPPort : Z := 18545.
Definition DefaultWSPort : Z := 18546.
Definition DefaultGraphQLPort : Z := 18547.

(** [dir] is [DefaultDataDir()]. *)
Definition NodeDefaultConfig (dir : string) : NodeConfig :=
  MkNodeConfig EmptyString EmptyString dir EmptyString DefaultHTTPPort [] ["localhost"%string] DefaultHTTPTimeouts DefaultWSPort []
    DefaultGraphQLPort ["localhost"%string] (MkP2PConfig false true (":" +:+ pretty DefaultP2PPort) 50 nat_Any) node_other_zero.

Definition clientIdentifier : string := "go-miniopera".
Definition gitCommit : string := EmptyString.
Definition gitDate : string := EmptyString.
Definition node_modules : list string := ["eth"; "ftm"; "sfc"; "web3"]%string.

Definition defaultNodeConfig (dir : string) : NodeConfig :=
  let cfg := NodeDefaultConfig dir in
  MkNodeConfig clientIdentifier (VersionWithCommit gitCommit gitDate) dir "miniopera.ipc" (HTTPPort cfg) (HTTPModules cfg ++ node_modules)
    (HTTPVirtualHosts cfg) (HTTPTimeouts cfg) (WSPort cfg) (WSModules cfg ++ node_modules) (GraphQLPort cfg) (GraphQLVirtualHosts cfg)
    (node_P2P cfg) (node_rest cfg).

(** [config] of config.go. *)
Record config := MkAllConfig { cfg_Node : NodeConfig; Lachesis : Config }.

End Node.
End Command.
Import Command.

(** go-ethereum: the settings it reads from the command line, the check of
    exclusive flags, the node stack; and the TOML package: an error of its
    decoder may carry a line. *)
Inductive toml_error := LineError (msg : string) | OtherError (msg : string).

Class EthNode `{EthFlags} := {
  SetNodeConfig : Context -> NodeConfig -> go NodeConfig;
  CheckExclusive : Context -> list string -> go unit;
  toml_Decode : string -> config -> config * option toml_error;
  toml_Marshal : config -> string + error;
  node_New : NodeConfig -> option error;
  node_Register : NodeConfig -> option error;
  node_Attach : NodeConfig -> option error;
  DefaultIPCEndpoint : string -> string
}.

(** Documented behaviour: at most one of the flags may be set, or the program
    ends. *)
Class EthNodeLaws `{EthNode} : Prop := {
  exclusive_one : forall ctx flags f g, CheckExclusive ctx flags = Ret tt -> f ∈ flags -> g ∈ flags -> f <> g ->
    GlobalIsSet ctx f = true -> GlobalIsSet ctx g = false
}.

Module Configure.

Section Definitions.
Context `{EthNode, Os}.
Context (fake_pubkey : Z -> list Z).
Abbreviation files := (gmap string string).
Abbreviation dirs := (gmap string (list string)).

(** ** config.go *)

Definition toml_message (file : string) (e : toml_error) : string :=
  match e with LineError m => file +:+ ", " +:+ m | OtherError m => m end.

Definition loadAllConfigs (fs : files) (file : string) (cfg : config) : config * option error :=
  match os_Open file, fs !! file with
  | Some e, _ => (cfg, Some e)
  | None, None => (cfg, Some Host.ErrNotExist)
  | None, Some data =>
      let '(cfg, err) := toml_Decode data cfg in
      match err with
      | Some e => (cfg, Some (Error ("TOML config file error: " +:+ toml_message file e +:+ "." +:+ Host.newline +:+
                     "Use 'dumpconfig' command to get an example config file." +:+ Host.newline +:+
                     "If node was recently upgraded and a previous miniopera config file is used, then check updates for the config file.")))
      | None => (cfg, None)
      end
  end.

Definition defaultMinioperaConfig (ctx : Context) : go NetConfig :=
  let n := if GlobalIsSet ctx FakeNetFlag then GlobalString ctx FakeNetFlag else "1/1"%string in
  match parseFakeGen n with
  | (_, _, Some _) => Exits "Invalid flag"
  | (_, num, None) => Ret (FakeNetConfig (getFakeValidators fake_pubkey num))
  end.

Definition setDataDir (ds : dirs) (ctx : Context) (cfg : NodeConfig) : go NodeConfig :=
  defaultDataDir ← Host.DefaultDataDir ds;
  if GlobalIsSet ctx utils_DataDirFlag then Ret (set_DataDir (GlobalString ctx utils_DataDirFlag) cfg)
  else if GlobalIsSet ctx FakeNetFlag
  then match parseFakeGen (GlobalString ctx FakeNetFlag) with
       | (_, _, Some _) => Exits "Invalid flag"
       | (_, num, None) => Ret (set_DataDir (Join [defaultDataDir; ("fakenet-" +:+ pretty num)%string]) cfg)
       end
  else if GlobalBool ctx TestnetFlag then Ret (set_DataDir (Join [defaultDataDir; "testnet"%string]) cfg)
  else Ret (set_DataDir defaultDataDir cfg).

Definition set_PayloadSize (n : Z) (c : Config) : Config :=
  let em := cfg_Emitter c in
  MkConfig (cfg_Net c) (MkEmitterConfig (ec_Validator em) (BytesPerSec em) n (EpochTailLength em) (ec_EmitIntervals em)) (cfg_Store c) (cfg_Protocol c).
Definition set_BytesPerSec (n : Z) (c : Config) : Config :=
  let em := cfg_Emitter c in
  MkConfig (cfg_Net c) (MkEmitterConfig (ec_Validator em) n (PayloadSize em) (EpochTailLength em) (ec_EmitIntervals em)) (cfg_Store c) (cfg_Protocol c).
Definition set_NetworkID (n : Z) (c : Config) : Config :=
  let net := cfg_Net c in
  MkConfig (MkNetConfig (Name net) n (net_Genesis net) (Dag net)) (cfg_Emitter c) (cfg_Store c) (cfg_Protocol c).

Definition gossipConfigWithFlags (ctx : Context) (src : Config) : go Config :=
  _ ← CheckExclusive ctx [FakeNetFlag; DeveloperFlag; TestnetFlag];
  _ ← CheckExclusive ctx [FakeNetFlag; DeveloperFlag; ExternalSignerFlag];
  let cfg := src in
  let cfg := if GlobalIsSet ctx PayloadFlag then set_PayloadSize (GlobalUint64 ctx PayloadFlag) cfg else cfg in
  let cfg := if GlobalIsSet ctx BytesPerSecondFlag then set_BytesPerSec (GlobalUint64 ctx BytesPerSecondFlag) cfg else cfg in
  let cfg := if GlobalIsSet ctx NetworkIdFlag then set_NetworkID (GlobalUint64 ctx NetworkIdFlag) cfg else cfg in
  Ret cfg.

Definition nodeConfigWithFlags (ds : dirs) (ctx : Context) (cfg : NodeConfig) : go NodeConfig :=
  cfg ← SetNodeConfig ctx cfg;
  setDataDir ds ctx cfg.

Definition makeAllConfigs (fs : files) (ds : dirs) (ctx : Context) : go config :=
  net ← defaultMinioperaConfig ctx;
  dir ← Host.DefaultDataDir ds;
  let cfg := MkAllConfig (defaultNodeConfig dir) (DefaultConfig net) in
  let file := GlobalString ctx configFileFlag in
  cfg ← (if bool_decide (file = EmptyString) then Ret cfg
         else match loadAllConfigs fs file cfg with
              | (_, Some (Error msg)) => Exits msg
              | (cfg, None) => Ret cfg
              end);
  lachesis ← gossipConfigWithFlags ctx (Lachesis cfg);
  node ← nodeConfigWithFlags ds ctx (cfg_Node cfg);
  Ret (MkAllConfig node lachesis).

(** The dump goes to the standard output, or to the file that is the argument. *)
Inductive dump := Stdout (text : string) | ToFile (name text : string).

Definition dumpConfig (fs : files) (ds : dirs) (ctx : Context) : go dump :=
  cfg ← makeAllConfigs fs ds ctx;
  match toml_Marshal cfg with
  | inr e => Err e
  | inl out =>
      match cli_Args ctx with
      | [] => Ret (Stdout out)
      | name :: _ => match os_WriteFile name with Some e => Err e | None => Ret (ToFile name out) end
      end
  end.

(** ** consolecmd.go: where [attach] connects to *)

Definition remote_endpoint (ds : dirs) (ctx : Context) : go string :=
  let endpoint := match cli_Args ctx with a :: _ => a | [] => EmptyString end in
  if bool_decide (endpoint = EmptyString)
  then
    path ← Host.DefaultDataDir ds;
    let path := if GlobalIsSet ctx utils_DataDirFlag then GlobalString ctx utils_DataDirFlag else path in
    let path := if negb (bool_decide (path = EmptyString))
                then if GlobalBool ctx TestnetFlag then Join [path; "testnet"%string]
                     else if GlobalBool ctx RinkebyFlag then Join [path; "rinkeby"%string] else path
                else path in
    Ret (path +:+ "/miniopera.ipc")
  else Ret endpoint.

Fixpoint drop_bytes (n : nat) (s : string) : string :=
  match n, s with S n, String _ s => drop_bytes n s | _, _ => s end.

(** The address that [dialRPC] dials. *)
Definition dialRPC (endpoint : string) : string :=
  if bool_decide (endpoint = EmptyString) then DefaultIPCEndpoint clientIdentifier
  else if Host.has_prefix "rpc:" endpoint || Host.has_prefix "ipc:" endpoint then drop_bytes 4 endpoint
  else endpoint.

End Definitions.

(** ** Making and starting a node: main.go, integration/db.go *)

Section Main.
Context {V : Type}.
Context `{LachesisBase, LachesisIdx, Rlp, Kv, Lru}.
Context `{Codec Block, Codec PackInfo, Codec BlockState, Codec (EpochState V)}.
Context `{BaseChecks V, Engine V, EmitterExt, Environment, P2p, GossipExt, PosBuilder V, !EngineBoot V, EthNode, Os}.
Context (keccak_hex : string -> list Z) (FakeKey : Z -> private_key) (FromECDSAPub : private_key -> list Z).

Definition fake_pubkey (i : Z) : list Z := FromECDSAPub (FakeKey i).

(** Where the databases are. *)
Inductive producer := InMemory | LevelDB (dir : string).

Definition DBProducer (dbdir : string) : producer :=
  if bool_decide (dbdir = "inmemory"%string \/ dbdir = EmptyString) then InMemory else LevelDB dbdir.

(** What a start finds: the files and directories, the databases of each
    directory, the result of the flush of the genesis, and the random intervals
    of the emitter. *)
Record Machine := MkMachine {
  m_files : gmap string string; m_dirs : gmap string (list string); m_dbs : producer -> Databases V;
  m_flush : list Z -> option error; m_r1 : Z; m_r2 : Z }.

Definition makeConfigNode (cfg : NodeConfig) : go unit :=
  match node_New cfg with Some _ => Exits "Failed to create the protocol stack" | None => Ret tt end.

(** The stack: its configuration and the constructor of the service. *)
Record stack := MkStack { st_config : NodeConfig; st_gossip : Config; st_constructor : go (Service V) }.

Definition makeNode (ctx : Context) (cfg : config) (m : Machine) : go stack :=
  let dir := DataDir (cfg_Node cfg) in
  _ ← Host.Check dir (m_files m);
  _ ← makeConfigNode (cfg_Node cfg);
  '(eng, dsk, gdb) ← MakeEngine keccak_hex (m_flush m) (Lachesis cfg) (m_dbs m (DBProducer dir));
  let l := Lachesis cfg in
  let l := MkConfig (cfg_Net l) (setValidator ctx (cfg_Emitter l)) (cfg_Store l) (cfg_Protocol l) in
  match node_Register (cfg_Node cfg) with
  | Some _ => Exits "Failed to register the service"
  | None => Ret (MkStack (cfg_Node cfg) l (gossipService l eng dsk gdb (New (cfg_Net l) (cfg_Emitter l))))
  end.

(** The stack makes the service and starts it with its server, then the program
    attaches to it; wallets and the watch for the end of the synchronisation run
    beside the node. *)
Definition startNode (st : stack) (m : Machine) : go (Service V) :=
  match st_constructor st with
  | Err _ => Exits "Error starting protocol stack"
  | Ret svc =>
      '(_, svc) ← Start FakeKey (MaxPeers (node_P2P (st_config st))) (cfg_Emitter (st_gossip st)) (m_r1 m) (m_r2 m) svc;
      match node_Attach (st_config st) with
      | Some _ => Exits "Failed to attach to self"
      | None => Ret svc
      end
  | Panics p => Panics p
  | Exits msg => Exits msg
  end.

(** The node that runs until it is stopped. *)
Definition minioperaMain (ctx : Context) (m : Machine) : go (Service V) :=
  match cli_Args ctx with
  | arg :: _ => Err (Error ("invalid command: " +:+ Host.quoted arg))
  | [] =>
      cfg ← makeAllConfigs fake_pubkey (m_files m) (m_dirs m) ctx;
      st ← makeNode ctx cfg m;
      startNode st m
  end.

End Main.
Arguments Machine V {_ _ _ _}.
End Configure.
