(* ===== verification/CommandSpec.v ===== *)
(** * What the command line promises

    The [--fakenet] flag is read exactly; the configuration of a node comes from
    flags, then the file, then defaults; a node is started only when nothing
    forbids it; and a node of a fake network validates with its own key. *)

From Stdlib Require Import ZArith Lia Bool Ascii Sorted.
From stdpp Require Import base list numbers option strings pretty gmap sorting.
From S2P Require Import Prelude Kv Sha256 Fast Event Serializer EventBuild Store StoreSpec Genesis Checks Emitter Peer PeerSpec Service.
From S2P Require Import ServiceSpec ChainSpec ServiceWorld Handler HandlerSpec Utils Host Launch LaunchSpec Command.
Import Event Serializer EventBuild Store StoreSpec Genesis Checks Emitter Peer PeerSpec Service ServiceSpec ChainSpec ServiceWorld Handler HandlerSpec
  Launch LaunchSpec Str Command Configure.
Local Open Scope Z_scope.

Module CommandSpec.

(** ** The flag of a fake network *)

(** [n/N], and after a comma anything. *)
Definition fake_flag (s : string) (id num : Z) : Prop := exists a b rest,
  s = (a +:+ String slash (b +:+ rest))%string /\ (rest = EmptyString \/ exists r, rest = String comma r) /\
  decimal a id /\ decimal b num /\ id <= num < 2 ^ 32.

Lemma decimal_nonneg s n : decimal s n -> 0 <= n.
Proof. intros [_ E]. by apply digits_from_grows in E. Qed.

Lemma SplitN2_head sep s a rest : ~ occurs sep a -> s = (a +:+ rest)%string -> rest = EmptyString \/ (exists r, rest = String sep r) ->
  hd EmptyString (SplitN2 sep s) = a.
Proof.
  intros Ho -> Hr. unfold SplitN2. destruct Hr as [->|[r ->]]; [|by rewrite cut_app].
  rewrite app_nil_str. by rewrite cut_none.
Qed.

Lemma parse_accepts s id num : fake_flag s id num -> parseFakeGen s = (id, num, None).
Proof.
  intros (a & b & rest & -> & Hr & Ha & Hb & Hn). unfold parseFakeGen, SplitN2 at 1.
  rewrite cut_app by (by eapply (decimal_occurs slash)). rewrite (proj2 (ParseUint32_iff a id)) by (split; [done|lia]).
  rewrite (SplitN2_head comma _ b rest) by (try done; by eapply (decimal_occurs comma)).
  rewrite (proj2 (ParseUint32_iff b num)) by (split; [done|lia]). apply decimal_nonneg in Hb.
  destruct (Z.ltb_spec num 0), (Z.ltb_spec num id); try lia. done.
Qed.

Lemma parse_accepted s id num : parseFakeGen s = (id, num, None) -> fake_flag s id num.
Proof.
  unfold parseFakeGen, SplitN2 at 1. destruct (cut slash s) as [[a p]|] eqn:Ec; [|done]. apply cut_inv in Ec.
  destruct (ParseUint32 a) as [i [e|]] eqn:Ea; [done|]. apply ParseUint32_iff in Ea as [Ha _].
  destruct (ParseUint32 (hd _ _)) as [n err] eqn:Eb. destruct (Z.ltb_spec n 0), (Z.ltb_spec n i); try done. cbn [orb].
  intros [= -> -> ->]. apply ParseUint32_iff in Eb as [Hb Hn]. unfold SplitN2 in Hb.
  destruct (cut comma p) as [[b r]|] eqn:Ep; cbn [hd] in Hb.
  - apply cut_inv in Ep. exists a, b, (String comma r). subst. by split_and!; eauto.
  - exists a, p, EmptyString. rewrite app_nil_str. by split_and!; eauto.
Qed.

(** C39: the [--fakenet] flag is read exactly.  It is accepted if and only if it is
    [n/N], possibly followed by a comma and anything, where both are decimal
    numbers, [n] is at most [N] and [N] fits 32 bits, and then these are the
    numbers read; in particular, what is printed for [n] and [N] is read back. *)
Theorem fakenet_flag_exact (s : string) (id num : Z) :
  (parseFakeGen s = (id, num, None) <-> fake_flag s id num) /\
  (0 <= id <= num -> num < 2 ^ 32 -> parseFakeGen (pretty id +:+ String slash (pretty num)) = (id, num, None)).
Proof.
  split; [split; [apply parse_accepted|apply parse_accepts]|]. intros Hi Hn. apply parse_accepts.
  exists (pretty id), (pretty num), EmptyString. rewrite app_nil_str. split_and!; auto; try apply pretty_decimal; lia.
Qed.

Lemma fakenet_flag_exact_witness : parseFakeGen "3/5" = (3, 5, None) /\ fake_flag "3/5" 3 5.
Proof.
  destruct (fakenet_flag_exact "3/5" 3 5) as [[H1 _] H2]. specialize (H2 ltac:(lia) ltac:(lia)). split; [exact H2|exact (H1 H2)].
Defined.

Example fakenet_refused : snd (parseFakeGen "6/5") = Some errKeyNum /\ snd (parseFakeGen "1/") = Some errKeyNum /\
  snd (parseFakeGen "0/x") = Some ErrSyntax /\ snd (parseFakeGen "1/4294967296") = Some ErrRange /\ snd (parseFakeGen "5") = Some errFormat.
Proof. split_and!; reflexivity. Qed.

(** ** The configuration *)

Section Priority.
Context {ETH : EthFlags} {ETHN : EthNode} {OS : Os}.
Context (pk : Z -> list Z) (fs : gmap string string) (ds : gmap string (list string)) (ctx : Context).

(** The defaults, changed by the file if one is named. *)
Definition from_file (dflt base : config) : Prop :=
  let file := GlobalString ctx configFileFlag in
  (file = EmptyString /\ base = dflt) \/ (file <> EmptyString /\ loadAllConfigs fs file dflt = (base, None)).

Definition fakenet_dir (num : Z) : string := "fakenet-" +:+ pretty num.

(** The data directory: the flag, the one of the fake network, that of the test
    network, or the default. *)
Definition data_dir (dir : string) : string :=
  if GlobalIsSet ctx utils_DataDirFlag then GlobalString ctx utils_DataDirFlag
  else if GlobalIsSet ctx FakeNetFlag then Join [dir; fakenet_dir (parseFakeGen (GlobalString ctx FakeNetFlag)).1.2]
  else if GlobalBool ctx TestnetFlag then Join [dir; "testnet"%string] else dir.

Definition flag_or (flag : string) (x : Z) : Z := if GlobalIsSet ctx flag then GlobalUint64 ctx flag else x.

Lemma setDataDir_spec c c' : setDataDir ds ctx c = Ret c' -> exists dir, Host.DefaultDataDir ds = Ret dir /\ c' = set_DataDir (data_dir dir) c.
Proof.
  unfold setDataDir, data_dir, fakenet_dir. intros E. go_inv. exists v. split; [done|]. repeat case_match; by simplify_eq/=.
Qed.

Lemma gossipConfig_spec src l : gossipConfigWithFlags ctx src = Ret l ->
  l = MkConfig (MkNetConfig (Name (cfg_Net src)) (flag_or NetworkIdFlag (NetworkID (cfg_Net src))) (net_Genesis (cfg_Net src)) (Dag (cfg_Net src)))
        (MkEmitterConfig (ec_Validator (cfg_Emitter src)) (flag_or BytesPerSecondFlag (BytesPerSec (cfg_Emitter src)))
           (flag_or PayloadFlag (PayloadSize (cfg_Emitter src))) (EpochTailLength (cfg_Emitter src)) (ec_EmitIntervals (cfg_Emitter src)))
        (cfg_Store src) (cfg_Protocol src) /\
  CheckExclusive ctx [FakeNetFlag; DeveloperFlag; TestnetFlag] = Ret tt /\
  CheckExclusive ctx [FakeNetFlag; DeveloperFlag; ExternalSignerFlag] = Ret tt.
Proof.
  unfold gossipConfigWithFlags, flag_or. intros E. go_inv. repeat match goal with u : unit |- _ => destruct u end. split; [|done].
  destruct src as [[] [] ? ?]. by repeat case_match.
Qed.

Lemma makeAllConfigs_spec cfg : makeAllConfigs pk fs ds ctx = Ret cfg -> exists net dir base node,
  defaultMinioperaConfig pk ctx = Ret net /\ Host.DefaultDataDir ds = Ret dir /\
  from_file (MkAllConfig (defaultNodeConfig dir) (DefaultConfig net)) base /\
  gossipConfigWithFlags ctx (Lachesis base) = Ret (Lachesis cfg) /\
  SetNodeConfig ctx (cfg_Node base) = Ret node /\ cfg_Node cfg = set_DataDir (data_dir dir) node.
Proof.
  unfold makeAllConfigs, nodeConfigWithFlags. intros E. go_inv. rename v into net, v0 into dir, v1 into base, v2 into l.
  match goal with H : setDataDir _ _ ?x = Ret _ |- _ => rename x into node; apply setDataDir_spec in H as (d & Hd & ->) end.
  exists net, dir, base, node. replace d with dir in * by congruence. split_and!; try done.
  unfold from_file. case_bool_decide as Hf; [left; split; [done|congruence]|right]. split; [done|].
  destruct (loadAllConfigs _ _ _) as [c [[msg]|]]; congruence.
Qed.

(** [--fakenet] is no flag of high priority: its network is the default that the
    configuration file changes, so a genesis in the file replaces that of the fake
    network, whose data directory and whose validator are used all the same. *)
Lemma file_overrides_fakenet cfg base net dir : makeAllConfigs pk fs ds ctx = Ret cfg -> GlobalIsSet ctx FakeNetFlag = true ->
  defaultMinioperaConfig pk ctx = Ret net -> Host.DefaultDataDir ds = Ret dir -> GlobalString ctx configFileFlag <> EmptyString ->
  loadAllConfigs fs (GlobalString ctx configFileFlag) (MkAllConfig (defaultNodeConfig dir) (DefaultConfig net)) = (base, None) ->
  net_Genesis (cfg_Net (Lachesis cfg)) = net_Genesis (cfg_Net (Lachesis base)).
Proof.
  intros E _ En Ed Hf El. apply makeAllConfigs_spec in E as (net' & dir' & base' & node & E1 & E2 & [[E3 _]|[_ E3]] & E4 & _); [by rewrite E3 in Hf|].
  rewrite En in E1. injection E1 as <-. rewrite Ed in E2. injection E2 as <-. rewrite El in E3. injection E3 as <-. by apply gossipConfig_spec in E4 as (-> & _).
Qed.

(** C37: three flags override the configuration file, which overrides the
    defaults.  In the configuration of a node the payload size, the rate and the
    network id are those of the flags that are set; everything else of the gossip
    service is as the file left the defaults, the network of [--fakenet] among
    them, and so is the node's own configuration up to what go-ethereum reads
    from the command line.  The data directory does not come from the file: it is
    that of [--datadir], or else of the fake network or the default, and these
    differ for fake networks of different sizes. *)
Theorem config_priority cfg : makeAllConfigs pk fs ds ctx = Ret cfg -> exists net dir base node,
  defaultMinioperaConfig pk ctx = Ret net /\ Host.DefaultDataDir ds = Ret dir /\
  from_file (MkAllConfig (defaultNodeConfig dir) (DefaultConfig net)) base /\
  (let l := Lachesis cfg in let lb := Lachesis base in
   PayloadSize (cfg_Emitter l) = flag_or PayloadFlag (PayloadSize (cfg_Emitter lb)) /\
   BytesPerSec (cfg_Emitter l) = flag_or BytesPerSecondFlag (BytesPerSec (cfg_Emitter lb)) /\
   NetworkID (cfg_Net l) = flag_or NetworkIdFlag (NetworkID (cfg_Net lb)) /\
   net_Genesis (cfg_Net l) = net_Genesis (cfg_Net lb) /\ Dag (cfg_Net l) = Dag (cfg_Net lb) /\ Name (cfg_Net l) = Name (cfg_Net lb) /\
   ec_Validator (cfg_Emitter l) = ec_Validator (cfg_Emitter lb) /\ EpochTailLength (cfg_Emitter l) = EpochTailLength (cfg_Emitter lb) /\
   ec_EmitIntervals (cfg_Emitter l) = ec_EmitIntervals (cfg_Emitter lb) /\ cfg_Store l = cfg_Store lb /\ cfg_Protocol l = cfg_Protocol lb) /\
  SetNodeConfig ctx (cfg_Node base) = Ret node /\ cfg_Node cfg = set_DataDir (data_dir dir) node /\
  (dir <> EmptyString -> forall n1 n2, 0 <= n1 -> 0 <= n2 -> Join [dir; fakenet_dir n1] = Join [dir; fakenet_dir n2] -> n1 = n2).
Proof.
  intros E. apply makeAllConfigs_spec in E as (net & dir & base & node & E1 & E2 & E3 & E4 & E5 & E6). exists net, dir, base, node.
  apply gossipConfig_spec in E4 as (E4 & _ & _). split; [done|]. split; [done|]. split; [done|]. split; [rewrite E4; cbv zeta; by split_and!|].
  split; [done|]. split; [done|]. intros Hd n1 n2 H1 H2 Ej.
  assert (Hp : forall n, 0 <= n -> plain (fakenet_dir n)).
  { intros n Hn. unfold fakenet_dir. split_and!; try done. intros Ho. apply occurs_app in Ho as [Ho|Ho]; [cbn in Ho; repeat (destruct Ho as [Ho|Ho]; [discriminate Ho|]); destruct Ho|].
    by apply (decimal_occurs "/"%char (pretty n) n eq_refl (pretty_decimal n Hn)). }
  apply Join_inj in Ej; [|done|apply Hp; lia..]. unfold fakenet_dir in Ej. apply (inj (String.append "fakenet-")) in Ej. by apply (inj pretty) in Ej.
Qed.

End Priority.

(** ** The whole program *)

Section Main.
Context {V : Type}.
Context {LB : LachesisBase} {LBL : LachesisBaseLaws LB} {LI : LachesisIdx} {LIL : LachesisIdxLaws LI}.
Context {R : Rlp} {RL : RlpLaws R} {K : Kv} {KL : KvLaws K} {L : Lru} {LL : LruLaws L}.
Context {CB : Codec Block} {CBL : CodecLaws Block} {CP : Codec PackInfo} {CPL : CodecLaws PackInfo}.
Context {CS : Codec BlockState} {CSL : CodecLaws BlockState}.
Context {CE : Codec (EpochState V)} {CEL : CodecLaws (EpochState V)}.
Context {BC : BaseChecks V} {BCL : BaseChecksLaws V} {EN : Engine V} {ENL : EngineLaws V} {X : EmitterExt} {XL : EmitterExtLaws X}.
Context {ENV : Environment} {N : P2p} {G : GossipExt} {PB : PosBuilder V} {PBL : PosBuilderLaws V} {BOOT : EngineBoot V}.
Context {ETH : EthFlags} {ETHN : EthNode} {ETHL : EthNodeLaws} {OS : Os}.
Context (keccak_hex : string -> list Z) (FakeKey : Z -> private_key) (FromECDSAPub : private_key -> list Z).
Abbreviation Service := (Service V).
Abbreviation Machine := (Machine V).
Abbreviation main := (minioperaMain keccak_hex FakeKey FromECDSAPub).

Lemma Check_passed dir fs : Host.Check dir fs = Ret tt -> os_Open (Host.eLockPath dir) = None -> fs !! Host.eLockPath dir = None.
Proof.
  unfold Host.Check, Host.read. intros E Ho. rewrite Ho in E. destruct (fs !! _); [|done]. by repeat case_match.
Qed.

(** C38: a node is started only when nothing forbids it.  If the program runs a
    node, it was given no stray arguments; the flag of a fake network, if set, is
    well-formed and no other network is asked for; the configuration file, if
    named, exists and is well-formed; and the data directory of the node has no
    error lock that can be opened.  Otherwise no node runs. *)
Theorem start_conditions (ctx : Context) (m : Machine) (s : Service) : main ctx m = Ret s ->
  cli_Args ctx = [] /\
  (GlobalIsSet ctx FakeNetFlag = true -> exists id num, fake_flag (GlobalString ctx FakeNetFlag) id num) /\
  (forall f, f ∈ [DeveloperFlag; TestnetFlag; ExternalSignerFlag] -> f <> FakeNetFlag ->
     GlobalIsSet ctx FakeNetFlag = true -> GlobalIsSet ctx f = false) /\
  (GlobalString ctx configFileFlag <> EmptyString -> exists data c c', m_files m !! GlobalString ctx configFileFlag = Some data /\
     toml_Decode data c = (c', None)) /\
  exists dir, Host.DefaultDataDir (m_dirs m) = Ret dir /\
    (os_Open (Host.eLockPath (data_dir ctx dir)) = None -> m_files m !! Host.eLockPath (data_dir ctx dir) = None).
Proof using ETHL.
  unfold minioperaMain. destruct (cli_Args ctx) eqn:Ea; [|done]. intros E. split; [done|]. go_inv. rename v into cfg, v0 into st, E0 into Ec, E1 into En.
  apply makeAllConfigs_spec in Ec as (net & dir & base & node & E1 & E2 & E3 & E4 & E5 & E6). apply gossipConfig_spec in E4 as (_ & X1 & X2).
  split_and!.
  - intros Hs. unfold defaultMinioperaConfig in E1. rewrite Hs in E1. destruct (parseFakeGen _) as [[id num] [e|]] eqn:Ep; [done|].
    exists id, num. by apply parse_accepted.
  - intros f Hf Hne Hs. repeat (apply elem_of_cons in Hf as [->|Hf]).
    + apply (exclusive_one _ _ FakeNetFlag _ X1); [by repeat constructor..|done|done].
    + apply (exclusive_one _ _ FakeNetFlag _ X1); [by repeat constructor..|done|done].
    + apply (exclusive_one _ _ FakeNetFlag _ X2); [by repeat constructor..|done|done].
    + by apply elem_of_nil in Hf.
  - intros Hf. destruct E3 as [[? _]|[_ El]]; [done|]. unfold loadAllConfigs in El. destruct (os_Open _); [done|].
    destruct (m_files m !! _) as [data|]; [|done]. destruct (toml_Decode data _) as [c' [e|]] eqn:Ed; [done|]. by eexists data, _, c'.
  - exists dir. split; [done|]. unfold makeNode in En. go_inv. apply Check_passed. rewrite E6 in *. by destruct v.
Qed.

(** ** A fake network *)

Abbreviation pk := (fake_pubkey FakeKey FromECDSAPub).

(** The key kept for a validator is that of its entries. *)
Lemma pubkeys_lookup (l : list Validator) i p (m0 : gmap Z (list Z)) :
  (forall v, v ∈ l -> ID v = i -> PubKey v = p) -> (exists v, v ∈ l /\ ID v = i) \/ m0 !! i = Some p ->
  foldl (fun m it => <[ID it := PubKey it]> m) m0 l !! i = Some p.
Proof.
  revert m0. induction l as [|v l IH]; intros m0 Hp Hx; simpl; [destruct Hx as [(v & Hv & _)|?]; [by apply elem_of_nil in Hv|done]|].
  apply IH; [intros w Hw; apply Hp; by right|]. destruct (decide (ID v = i)) as [<-|Hne].
  - right. rewrite lookup_insert_eq. f_equal. by apply Hp; [left|].
  - destruct Hx as [(w & Hw & Hi)|Hx]; [|right; by rewrite lookup_insert_ne]. apply elem_of_cons in Hw as [->|Hw]; [done|left; eauto].
Qed.

Lemma fake_validator_key num id : 1 <= id <= num -> num < 2 ^ 32 ->
  MkValidator id (pk id) fake_stake ∈ getFakeValidators pk num /\
  pk_PubKeys (NewEpochPubKeys 0 (getFakeValidators pk num)) !! id = Some (pk id).
Proof.
  intros Hi Hn. assert (Hin : MkValidator id (pk id) fake_stake ∈ getFakeValidators pk num).
  { unfold getFakeValidators, FakeValidators. apply list_elem_of_fmap. exists id. split; [by rewrite u32_id by (unfold is_uint; lia)|].
    apply elem_of_seqZ. lia. }
  split; [exact Hin|]. apply pubkeys_lookup; [|left; eexists; split; [exact Hin|done]].
  intros v Hv. unfold getFakeValidators, FakeValidators in Hv. apply list_elem_of_fmap in Hv as (j & -> & Hj). apply elem_of_seqZ in Hj. cbn [ID PubKey].
  rewrite u32_id by (unfold is_uint; lia). by intros ->.
Qed.

(** A start of a node of a fake network with its default directory, on a machine
    where nothing fails. *)
Record fake_run (ctx : Context) (m : Machine) (id num : Z) (dir : string) : Prop := {
  fr_args : cli_Args ctx = [];
  fr_set : GlobalIsSet ctx FakeNetFlag = true;
  fr_flag : fake_flag (GlobalString ctx FakeNetFlag) id num;
  fr_id : 1 <= id;
  fr_validator : GlobalIsSet ctx validatorFlag = false;
  fr_file : GlobalString ctx configFileFlag = EmptyString;
  fr_one : CheckExclusive ctx [FakeNetFlag; DeveloperFlag; TestnetFlag] = Ret tt;
  fr_two : CheckExclusive ctx [FakeNetFlag; DeveloperFlag; ExternalSignerFlag] = Ret tt;
  fr_node : forall c, exists c', SetNodeConfig ctx c = Ret c';
  fr_dir : Host.DefaultDataDir (m_dirs m) = Ret dir;
  fr_lock : os_Open (Host.eLockPath (data_dir ctx dir)) = None /\ m_files m !! Host.eLockPath (data_dir ctx dir) = None;
  fr_stack : forall c, node_New c = None /\ node_Register c = None /\ node_Attach c = None;
  fr_flush : forall f, m_flush m f = None;
  fr_boot : forall eng, snd (engine_Bootstrap eng) = None;
  fr_genesis : forall edb ep v h, snd (abft_ApplyGenesis edb ep v h) = None
}.

(** The network that the flags describe. *)
Definition fake_net (ctx : Context) (num : Z) : NetConfig :=
  let net := FakeNetConfig (getFakeValidators pk num) in MkNetConfig (Name net) (flag_or ctx NetworkIdFlag (NetworkID net)) (net_Genesis net) (Dag net).

Lemma fake_net_ok ctx num : net_ok (fake_net ctx num).
Proof. split_and!; [|reflexivity|]; by_decide. Qed.

Lemma fake_config ctx m id num dir : fake_run ctx m id num dir -> exists cfg, makeAllConfigs pk (m_files m) (m_dirs m) ctx = Ret cfg /\
  DataDir (cfg_Node cfg) = data_dir ctx dir /\ cfg_Net (Lachesis cfg) = fake_net ctx num /\
  ec_Validator (setValidator ctx (cfg_Emitter (Lachesis cfg))) = id.
Proof.
  intros []. pose proof (parse_accepts _ _ _ fr_flag0) as Ep. unfold makeAllConfigs, defaultMinioperaConfig. rewrite fr_set0, Ep. cbn [mbind go_bind].
  rewrite fr_dir0. cbn [mbind go_bind]. rewrite bool_decide_true by done. cbn [mbind go_bind Lachesis cfg_Node].
  unfold gossipConfigWithFlags. rewrite fr_one0, fr_two0. cbn [mbind go_bind]. unfold nodeConfigWithFlags.
  destruct (fr_node0 (defaultNodeConfig dir)) as [node ->]. cbn [mbind go_bind]. unfold setDataDir, data_dir. rewrite fr_dir0, fr_set0, Ep. cbn [mbind go_bind].
  assert (Hv : forall e, ec_Validator (setValidator ctx e) = id).
  { intros e. unfold setValidator. rewrite fr_validator0, fr_set0, Ep. cbn [fst]. by rewrite (proj2 (Z.eqb_neq id 0)) by lia. }
  unfold fake_net, flag_or. by repeat case_match; eexists; split_and!.
Qed.

(** Starting the stack of a network whose genesis is stored. *)
Lemma startNode_spec st m gdb eng em b0 : st_constructor st = gossipService (st_gossip st) eng gdb gdb em -> durable gdb b0 -> store_ok gdb ->
  epochStore gdb = None -> (forall eng, snd (engine_Bootstrap eng) = None) -> node_Attach (st_config st) = None ->
  or_exit (startNode FakeKey st m) (fun s => exists es n, running s es n b0 /\ epoch_state_at gdb = Some es /\
    (exists k, block_state_at gdb = Some (MkBlockState n k)) /\ svc_net s = cfg_Net (st_gossip st) /\
    ec_Validator (em_config (svc_emitter s)) = ec_Validator (cfg_Emitter (st_gossip st)) /\ done (svc_emitter s) = true /\
    em_privKey (svc_emitter s) = (if ec_Validator (cfg_Emitter (st_gossip st)) =? 0 then None else Some (FakeKey (ec_Validator (cfg_Emitter (st_gossip st)))))).
Proof.
  intros Ec Hdu Hok Ho Hb Ha. unfold startNode. rewrite Ec. pose proof (gossipService_spec (st_gossip st) eng gdb em b0 Hdu Hok Ho Hb) as Hs.
  destruct (gossipService _ _ _ _ _) as [svc|e|p|x] eqn:Eg; try done. apply gossipService_net in Eg. cbn [or_exit] in Hs.
  pose proof (Start_running FakeKey svc b0 gdb (MaxPeers (node_P2P (st_config st))) (cfg_Emitter (st_gossip st)) (m_r1 m) (m_r2 m) Hs) as Hst. unfold wp in Hst.
  destruct (Start _ _ _ _ _ svc) as [[u s]|e|p|x] eqn:Es; try done. cbn [mbind go_bind]. rewrite Ha. cbn [or_exit] in *. cbn [fst snd] in Hst.
  apply Start_identity in Es as (N6 & C6 & D6 & K6 & _). destruct Hst as (es & n & Hr & He & Hk & _). exists es, n. rewrite N6. by split_and!.
Qed.

Lemma fake_node_spec ctx m id num dir versions edb a b c : fake_run ctx m id num dir ->
  m_dbs m (DBProducer (data_dir ctx dir)) = MkDatabases versions (NewStore a b c) edb -> kv_map versions !! Migration.idKey = None ->
  or_exit (main ctx m) (fun s => exists h, prettyHash (fake_net ctx num) = Ret h /\
    running s (genesis_epoch (fake_net ctx num)) 0 (genesis_block (fake_net ctx num) h) /\
    MkValidator id (FromECDSAPub (FakeKey id)) fake_stake ∈ gen_Validators (net_Genesis (fake_net ctx num)) /\
    ec_Validator (em_config (svc_emitter s)) = id /\ em_privKey (svc_emitter s) = Some (FakeKey id) /\ done (svc_emitter s) = true /\
    exists keys, PubKeys s = Some keys /\ pk_Epoch keys = first_epoch /\ pk_PubKeys keys !! id = Some (FromECDSAPub (FakeKey id))).
Proof.
  intros Hrun Hdb Hv. pose proof (fake_config ctx m id num dir Hrun) as (cfg & Ecfg & Edir & Enet & Eval).
  destruct Hrun. unfold minioperaMain. rewrite fr_args0, Ecfg. cbn [mbind go_bind]. unfold makeNode. rewrite Edir, Hdb.
  assert (Ec : Host.Check (data_dir ctx dir) (m_files m) = Ret tt) by (unfold Host.Check, Host.read; by rewrite (proj1 fr_lock0), (proj2 fr_lock0)).
  rewrite Ec. cbn [mbind go_bind]. destruct (fr_stack0 (cfg_Node cfg)) as (F1 & F2 & F3). unfold makeConfigNode. rewrite F1, F2. cbn [mbind go_bind].
  destruct (prettyHash_returns _ (fake_net_ok ctx num)) as [h Hh]. apply or_exit_bind, or_exit_bind.
  pose proof (MakeEngine_fresh keccak_hex (m_flush m) (Lachesis cfg) versions edb a b c h) as Hme. rewrite Enet in Hme.
  eapply or_exit_mono; [exact (Hme (fake_net_ok ctx num) Hh Hv fr_flush0 (conj (fr_genesis0 _ _ _ _) fr_boot0))|]. clear Hme.
  intros [[eng dsk] gdb] (Ed & Hdu & Hok & Ho & Hes & Hbs & Hev & Hpn). cbn [fst snd] in *. subst dsk. rewrite Enet in *. cbn [or_exit].
  eapply or_exit_mono; [by eapply startNode_spec|]. cbn [st_gossip st_config st_constructor cfg_Net cfg_Emitter].
  intros s (es & n & Hr & He & [k Hk] & N6 & C6 & D6 & K6). rewrite Hes in He. rewrite Hbs in Hk. apply (inj Some) in He. injection Hk as <- <-. subst es.
  exists h. rewrite Eval in C6, K6.
  destruct (fake_validator_key num id) as [Hin Hkey]; [destruct fr_flag0 as (? & ? & ? & _ & _ & _ & _ & ?); lia..|].
  rewrite (proj2 (Z.eqb_neq id 0)) in K6 by lia. pose proof (ru_node _ _ _ _ Hr) as (_ & _ & _ & _ & Hpk). rewrite N6 in Hpk.
  split; [exact Hh|]. split; [exact Hr|]. split; [exact Hin|]. split; [exact C6|]. split; [exact K6|]. split; [exact D6|].
  eexists. split; [exact Hpk|]. split; [reflexivity|exact Hkey].
Qed.

(** C21: a node of a fake network validates with its own key.  The program started
    with [--fakenet n/N] on empty databases runs a node whose genesis has the
    validators [1..N]; its emitter creates events as validator [n] and signs them
    with the [n]-th fake key, and the public key that the signature check of the
    node keeps for [n] is the one of this key. *)
Theorem fake_node_validates ctx m id num dir versions edb a b c : fake_run ctx m id num dir ->
  m_dbs m (DBProducer (data_dir ctx dir)) = MkDatabases versions (NewStore a b c) edb -> kv_map versions !! Migration.idKey = None ->
  or_exit (main ctx m) (fun s => exists h, prettyHash (fake_net ctx num) = Ret h /\
    running s (genesis_epoch (fake_net ctx num)) 0 (genesis_block (fake_net ctx num) h) /\
    MkValidator id (FromECDSAPub (FakeKey id)) fake_stake ∈ gen_Validators (net_Genesis (fake_net ctx num)) /\
    ec_Validator (em_config (svc_emitter s)) = id /\ em_privKey (svc_emitter s) = Some (FakeKey id) /\ done (svc_emitter s) = true /\
    exists keys, PubKeys s = Some keys /\ pk_Epoch keys = first_epoch /\ pk_PubKeys keys !! id = Some (FromECDSAPub (FakeKey id))).
Proof. apply fake_node_spec. Qed.

End Main.

(** ** A host on which everything succeeds *)

Module Sample.
Import StoreSpec.Sample Genesis.Sample ServiceSpec.Sample PeerSpec.Sample HandlerSpec.Sample LaunchSpec.Sample Host.Host.Sample.
#[local] Existing Instance lachesis_be.
#[local] Existing Instance lachesis_be_laws.
#[local] Existing Instance lachesis_idx_be.
#[local] Existing Instance lachesis_idx_be_laws.
#[local] Existing Instance rlp_length_prefix.
#[local] Existing Instance rlp_length_prefix_laws.
#[local] Existing Instance kv_gmap.
#[local] Existing Instance kv_gmap_laws.
#[local] Existing Instance lru_gmap.
#[local] Existing Instance lru_gmap_laws.
#[local] Existing Instance codec_countable.
#[local] Existing Instance codec_countable_laws.
#[local] Existing Instance base_checks_any.
#[local] Existing Instance base_checks_any_laws.
#[local] Existing Instance Emitter.Sample.ext_any.
#[local] Existing Instance pos_total.
#[local] Existing Instance pos_total_laws.
#[local] Existing Instance engine_each.
#[local] Existing Instance engine_each_laws.
#[local] Existing Instance ServiceSpec.Sample.calm.
#[local] Existing Instance p2p_any.
#[local] Existing Instance gossip_any.
#[local] Existing Instance boot_any.
#[local] Existing Instance unix.

#[local] Instance eth_flags : EthFlags := {|
  utils_DataDirFlag := "datadir"; TestnetFlag := "testnet"; RinkebyFlag := "rinkeby"; DeveloperFlag := "dev"; ExternalSignerFlag := "signer";
  NetworkIdFlag := "networkid"; timeouts := unit; DefaultHTTPTimeouts := tt; nat_Interface := unit; nat_Any := tt;
  node_other := unit; node_other_zero := tt; VersionWithCommit a b := a +:+ b |}.

(** The file of this decoder is the payload size. *)
#[local] Instance eth_node : EthNode := {|
  SetNodeConfig _ c := Ret c;
  CheckExclusive ctx flags := if Nat.leb (length (filter (fun f => GlobalIsSet ctx f = true) flags)) 1 then Ret tt else Exits "exclusive";
  toml_Decode s c := match ParseUint32 s with
                     | (n, None) => (MkAllConfig (set_DataDir "/elsewhere" (cfg_Node c)) (set_PayloadSize n (Lachesis c)), None)
                     | _ => (c, Some (LineError "number expected"))
                     end;
  toml_Marshal c := inl (pretty (PayloadSize (cfg_Emitter (Lachesis c))));
  node_New _ := None; node_Register _ := None; node_Attach _ := None; DefaultIPCEndpoint s := s |}.

#[local] Instance eth_node_laws : EthNodeLaws.
Proof.
  constructor. intros ctx flags f g. cbn [CheckExclusive eth_node]. intros E Hf Hg Hne Hsf. apply not_true_iff_false. intros Hsg.
  destruct (Nat.leb _ 1) eqn:El; [|discriminate]. apply Nat.leb_le in El. revert El.
  assert (Hf' : f ∈ filter (fun f => GlobalIsSet ctx f = true) flags) by (by apply list_elem_of_filter).
  assert (Hg' : g ∈ filter (fun f => GlobalIsSet ctx f = true) flags) by (by apply list_elem_of_filter).
  destruct (filter _ flags) as [|x [|y l]]; [by apply elem_of_nil in Hf'| |simpl; lia].
  apply list_elem_of_singleton in Hf' as ->. apply list_elem_of_singleton in Hg'. congruence.
Qed.

(** [--fakenet 2/3 --config conf.toml --bps 7] *)
Definition flags : Context := MkContext (fun f => bool_decide (f ∈ ["fakenet"; "bps"]%string))
  (fun f => if bool_decide (f = "fakenet"%string) then "2/3"%string else if bool_decide (f = "config"%string) then "conf.toml"%string else EmptyString)
  (fun _ => false) (fun _ => 0) (fun _ => 7) [].
Definition conf : gmap string string := {["conf.toml"%string := "250"%string]}.
Definition no_key (i : Z) : list Z := [i].

Definition made : config :=
  match makeAllConfigs no_key conf ∅ flags with
  | Ret c => c
  | _ => MkAllConfig (defaultNodeConfig EmptyString) (DefaultConfig (FakeNetConfig []))
  end.

Lemma config_priority_witness : makeAllConfigs no_key conf ∅ flags = Ret made /\
  PayloadSize (cfg_Emitter (Lachesis made)) = 250 /\ BytesPerSec (cfg_Emitter (Lachesis made)) = 7 /\
  DataDir (cfg_Node made) = "/home/opera/.miniopera/fakenet-3"%string /\ exists node, cfg_Node made = set_DataDir (data_dir flags "/home/opera/.miniopera") node.
Proof.
  assert (E : makeAllConfigs no_key conf ∅ flags = Ret made) by (vm_compute; reflexivity). split; [exact E|].
  split; [vm_compute; reflexivity|]. split; [vm_compute; reflexivity|]. split; [vm_compute; reflexivity|].
  destruct (config_priority no_key conf ∅ flags made E) as (net & dir & base & node & _ & Ed & _ & _ & _ & En & _).
  exists node. replace dir with "/home/opera/.miniopera"%string in En; [exact En|]. vm_compute in Ed. injection Ed as <-. reflexivity.
Defined.

(** [--fakenet 2/3] on empty databases. *)
Definition fake_flags : Context := MkContext (fun f => bool_decide (f = "fakenet"%string))
  (fun f => if bool_decide (f = "fakenet"%string) then "2/3"%string else EmptyString) (fun _ => false) (fun _ => 0) (fun _ => 0) [].
Definition key_bytes (k : @private_key Emitter.Sample.ext_any) : list Z := [4; 4].
Definition machine : Machine Z := MkMachine ∅ ∅ (fun _ => empty_dbs) (fun _ => None) 0 0.

Lemma sample_run : fake_run fake_flags machine 2 3 "/home/opera/.miniopera".
Proof.
  constructor; try reflexivity; try lia.
  - exists "2"%string, "3"%string, EmptyString. split_and!; try done; by left.
  - intros c. by exists c.
  - by split.
  - done.
Qed.

Lemma fake_node_validates_witness : exists s h, minioperaMain hex fake_key key_bytes fake_flags machine = Ret s /\
  running s (genesis_epoch (fake_net fake_key key_bytes fake_flags 3)) 0 (genesis_block (fake_net fake_key key_bytes fake_flags 3) h) /\
  ec_Validator (em_config (svc_emitter s)) = 2.
Proof.
  pose proof (fake_node_validates hex fake_key key_bytes fake_flags machine 2 3 "/home/opera/.miniopera" no_versions edb0 10 10 10 sample_run eq_refl eq_refl) as H.
  destruct (minioperaMain hex fake_key key_bytes fake_flags machine) as [s|x|x|x]; [|destruct H..].
  destruct H as (h & _ & Hr & _ & Hv & _). exists s, h. split; [reflexivity|]. split; [exact Hr|exact Hv].
Defined.

Lemma start_conditions_witness : exists s, minioperaMain hex fake_key key_bytes fake_flags machine = Ret s /\ cli_Args fake_flags = [] /\
  exists id num, fake_flag (GlobalString fake_flags FakeNetFlag) id num.
Proof.
  pose proof (fake_node_spec hex fake_key key_bytes fake_flags machine 2 3 "/home/opera/.miniopera" no_versions edb0 10 10 10 sample_run eq_refl eq_refl) as H.
  destruct (minioperaMain hex fake_key key_bytes fake_flags machine) as [s|x|x|x] eqn:E; [|destruct H..]. exists s. split; [reflexivity|].
  destruct (start_conditions hex fake_key key_bytes fake_flags machine s E) as (Ha & Hf & _). split; [exact Ha|exact (Hf eq_refl)].
Defined.

End Sample.

End CommandSpec.
