(* ===== verification/App.v ===== *)
(** * The command-line application

    [src/cmd/miniopera]: how the package is initialised ([main.go],
    [consolecmd.go], [config.go], [misccmd.go], [params.go], [defaults.go]), and
    what is set up before a command runs and torn down after it
    ([src/debug/flags.go], [src/debug/api.go], [src/cmd/miniopera/metrics]).  The
    cli package and the logger of go-ethereum are parameters. *)

From Stdlib Require Import ZArith Lia Bool Ascii Sorted.
From stdpp Require Import base list numbers option strings pretty gmap sorting relations.
From S2P Require Import Prelude Kv Sha256 Fast Event Serializer EventBuild Store StoreSpec Genesis Checks Emitter Peer PeerSpec Service.
From S2P Require Import ServiceSpec ChainSpec ServiceWorld Handler HandlerSpec Utils Host Debug Launch LaunchSpec Node NodeSpec Command CommandSpec.
Import Event Serializer EventBuild Store StoreSpec Genesis Checks Emitter Peer PeerSpec Service ServiceSpec ChainSpec ServiceWorld Handler HandlerSpec.
Import Launch LaunchSpec Node NodeSpec Str Command Configure CommandSpec.
Local Open Scope Z_scope.

(** ** How the package is initialised *)

Module Cli.

(** A flag of [cmd/utils], of [debug], of [metrics] or of this package, by the Go
    variable that holds it. *)
Inductive flag := UtilsFlag (var : string) | DebugFlag (var : string) | MetricsFlag (var : string) | OwnFlag (var : string).

#[export] Instance flag_eq_dec : EqDecision flag.
Proof. solve_decision. Defined.

Inductive action := LocalConsole | RemoteConsole | EphemeralConsole | DumpConfig | VersionAction | LicenseAction | MinioperaMain.

Record command := MkCommand { cmd_Action : action; cmd_Name : string; ArgsUsage : string; cmd_Flags : list flag; Category : string }.

(** The package-level variables of flags, the values of the ports among the flags
    of [cmd/utils], and the lists of [params]. *)
Record package := MkPackage {
  testFlags : list flag; nodeFlags : list flag; rpcFlags : list flag; metricsFlags : list flag;
  flag_Value : gmap string Z; bootnodes : gmap string (list string) }.

(** Variables that have no initialiser are nil until [init] assigns them. *)
Definition zero_package (values : gmap string Z) (nodes : gmap string (list string)) : package := MkPackage [] [] [] [] values nodes.

Definition consoleFlags : list flag := [UtilsFlag "JSpathFlag"; UtilsFlag "ExecFlag"; UtilsFlag "PreloadJSFlag"].

(** The initialisers of the commands read the variables as they are then. *)
Definition consoleCommand (p : package) : command :=
  MkCommand LocalConsole "console" EmptyString (((nodeFlags p ++ rpcFlags p) ++ consoleFlags) ++ testFlags p) "CONSOLE COMMANDS".
Definition attachCommand : command :=
  MkCommand RemoteConsole "attach" "[endpoint]" (consoleFlags ++ [UtilsFlag "DataDirFlag"]) "CONSOLE COMMANDS".
Definition javascriptCommand (p : package) : command :=
  MkCommand EphemeralConsole "js" "<jsfile> [jsfile...]" ((nodeFlags p ++ consoleFlags) ++ testFlags p) "CONSOLE COMMANDS".
Definition dumpConfigCommand (p : package) : command :=
  MkCommand DumpConfig "dumpconfig" EmptyString (nodeFlags p ++ testFlags p) "MISCELLANEOUS COMMANDS".
Definition versionCommand : command := MkCommand VersionAction "version" " " [] "MISCELLANEOUS COMMANDS".
Definition licenseCommand : command := MkCommand LicenseAction "license" " " [] "MISCELLANEOUS COMMANDS".

Definition overrideFlags (p : package) : package :=
  MkPackage (testFlags p) (nodeFlags p) (rpcFlags p) (metricsFlags p)
    (<["GraphQLPortFlag" := DefaultGraphQLPort]> (<["WSPortFlag" := DefaultWSPort]>
      (<["RPCPortFlag" := DefaultHTTPPort]> (<["ListenPortFlag" := DefaultP2PPort]> (flag_Value p))))) (bootnodes p).

Definition overrideParams (p : package) : package :=
  MkPackage (testFlags p) (nodeFlags p) (rpcFlags p) (metricsFlags p) (flag_Value p)
    (<["GoerliBootnodes" := []]> (<["RinkebyBootnodes" := []]> (<["TestnetBootnodes" := []]>
      (<["MainnetBootnodes" := []]> (<["DiscoveryV5Bootnodes" := []]> (bootnodes p)))))).

Definition assign_flags (p : package) : package :=
  MkPackage
    (OwnFlag <$> ["FakeNetFlag"; "BytesPerSecondFlag"; "PayloadFlag"])
    ((UtilsFlag <$> ["IdentityFlag"; "BootnodesFlag"; "BootnodesV4Flag"; "BootnodesV5Flag"]) ++ [OwnFlag "DataDirFlag"] ++
     (UtilsFlag <$> ["NoUSBFlag"; "ListenPortFlag"; "MaxPeersFlag"; "MaxPendingPeersFlag"; "NATFlag"; "NoDiscoverFlag"; "DiscoveryV5Flag";
                     "NetrestrictFlag"; "NodeKeyFileFlag"; "NodeKeyHexFlag"; "NetworkIdFlag"]) ++
     (OwnFlag <$> ["configFileFlag"; "validatorFlag"]))
    (UtilsFlag <$> ["RPCEnabledFlag"; "RPCListenAddrFlag"; "RPCPortFlag"; "RPCCORSDomainFlag"; "RPCVirtualHostsFlag"; "GraphQLEnabledFlag";
                    "GraphQLListenAddrFlag"; "GraphQLPortFlag"; "GraphQLCORSDomainFlag"; "GraphQLVirtualHostsFlag"; "RPCApiFlag"; "WSEnabledFlag";
                    "WSListenAddrFlag"; "WSPortFlag"; "WSApiFlag"; "WSAllowedOriginsFlag"; "IPCDisabledFlag"; "IPCPathFlag";
                    "InsecureUnlockAllowedFlag"; "RPCGlobalGasCap"])
    ((UtilsFlag <$> ["MetricsEnabledFlag"; "MetricsEnabledExpensiveFlag"; "MetricsEnableInfluxDBFlag"; "MetricsInfluxDBEndpointFlag";
                     "MetricsInfluxDBDatabaseFlag"; "MetricsInfluxDBUsernameFlag"; "MetricsInfluxDBPasswordFlag"; "MetricsInfluxDBTagsFlag"]) ++
     [MetricsFlag "PrometheusEndpointFlag"])
    (flag_Value p) (bootnodes p).

(** [debug.Flags]. *)
Definition debug_Flags : list flag :=
  DebugFlag <$> ["verbosityFlag"; "vmoduleFlag"; "backtraceAtFlag"; "debugFlag"; "pprofFlag"; "pprofAddrFlag"; "pprofPortFlag";
                 "memprofilerateFlag"; "blockprofilerateFlag"; "cpuprofileFlag"; "traceFlag"].

(** [sort.Sort(cli.CommandsByName)]. *)
Definition by_name (x y : command) : Prop := String.leb (cmd_Name x) (cmd_Name y) = true.
#[export] Instance by_name_dec x y : Decision (by_name x y) := decide (String.leb (cmd_Name x) (cmd_Name y) = true).

Record app := MkApp { app_Action : action; HideVersion : bool; Commands : list command; app_Flags : list flag }.

(** The variables of the package first, then [init]. *)
Definition initialise (values : gmap string Z) (nodes : gmap string (list string)) : package * app :=
  let p0 := zero_package values nodes in
  let commands := [consoleCommand p0; attachCommand; javascriptCommand p0; dumpConfigCommand p0; versionCommand; licenseCommand] in
  let p := assign_flags (overrideParams (overrideFlags p0)) in
  (p, MkApp MinioperaMain true (merge_sort by_name commands)
        (testFlags p ++ nodeFlags p ++ rpcFlags p ++ consoleFlags ++ debug_Flags ++ metricsFlags p)).

Definition find_command (name : string) (a : app) : option command := List.find (fun c => bool_decide (cmd_Name c = name)) (Commands a).

Section Facts.
Context (values : gmap string Z) (nodes : gmap string (list string)).
Abbreviation made := (initialise values nodes).

(** The commands, in the order of their names. *)
Lemma commands_sorted : cmd_Name <$> Commands (snd made) = ["attach"; "console"; "dumpconfig"; "js"; "license"; "version"]%string.
Proof. reflexivity. Qed.

(** All flags can be given before the name of a command, each once. *)
Lemma app_flags_nodup : NoDup (app_Flags (snd made)).
Proof. by_decide. Qed.

(** The flags of the node, of its network and of the tests are nil when the
    commands are made: after the name of a command only the flags of the console
    are known, although the commands name the others. *)
Lemma command_flags_lost :
  cmd_Flags <$> find_command "console" (snd made) = Some consoleFlags /\
  cmd_Flags <$> find_command "js" (snd made) = Some consoleFlags /\
  cmd_Flags <$> find_command "dumpconfig" (snd made) = Some [] /\
  nodeFlags (fst made) <> [] /\ testFlags (fst made) <> [].
Proof. split_and!; by try reflexivity. Qed.

(** The listening ports are those of this program. *)
Lemma ports_overridden : flag_Value (fst made) !! "ListenPortFlag" = Some 5050 /\ flag_Value (fst made) !! "RPCPortFlag" = Some 18545 /\
  flag_Value (fst made) !! "WSPortFlag" = Some 18546 /\ flag_Value (fst made) !! "GraphQLPortFlag" = Some 18547.
Proof. cbn [initialise fst assign_flags overrideParams overrideFlags zero_package flag_Value]. split_and!; by simplify_map_eq. Qed.

(** No bootstrap node of another network is left. *)
Lemma bootnodes_cleared v : v ∈ ["DiscoveryV5Bootnodes"; "MainnetBootnodes"; "TestnetBootnodes"; "RinkebyBootnodes"; "GoerliBootnodes"]%string ->
  bootnodes (fst made) !! v = Some [].
Proof.
  intros Hv. cbn [initialise fst assign_flags overrideParams overrideFlags zero_package bootnodes].
  repeat (apply elem_of_cons in Hv as [->|Hv]; [by simplify_map_eq|]). by apply elem_of_nil in Hv.
Qed.

End Facts.
End Cli.

(** ** Logging and profiling of a run *)

(** go-ethereum's logger: which patterns it refuses, and whether the log file can
    be made. *)
Class Glog := {
  vmodule_error : string -> option error;
  backtrace_error : string -> option error;
  RotatingFileHandler : string -> option error
}.

Module Diagnostics.
Import Profiles.

(** What a process sets of the logger, of the Go runtime and of its servers,
    besides the profiles. *)
Record runtime := MkRuntime {
  rt_origins : bool; rt_level : Z; rt_vmodule : string; rt_backtrace : string; rt_logfile : option string; rt_handler : bool;
  rt_mem : Z; rt_block : Z; rt_mutex : Z; rt_gc : Z; rt_pprof : option string; rt_metrics : option (string * string); rt_proc : process }.

Definition set_log o l f h (r : runtime) :=
  MkRuntime o l (rt_vmodule r) (rt_backtrace r) f h (rt_mem r) (rt_block r) (rt_mutex r) (rt_gc r) (rt_pprof r) (rt_metrics r) (rt_proc r).
Definition set_patterns v b (r : runtime) :=
  MkRuntime (rt_origins r) (rt_level r) v b (rt_logfile r) (rt_handler r) (rt_mem r) (rt_block r) (rt_mutex r) (rt_gc r) (rt_pprof r) (rt_metrics r) (rt_proc r).
Definition set_rates m b x g (r : runtime) :=
  MkRuntime (rt_origins r) (rt_level r) (rt_vmodule r) (rt_backtrace r) (rt_logfile r) (rt_handler r) m b x g (rt_pprof r) (rt_metrics r) (rt_proc r).
Definition set_servers a e (r : runtime) :=
  MkRuntime (rt_origins r) (rt_level r) (rt_vmodule r) (rt_backtrace r) (rt_logfile r) (rt_handler r) (rt_mem r) (rt_block r) (rt_mutex r) (rt_gc r) a e (rt_proc r).
Definition set_proc p (r : runtime) :=
  MkRuntime (rt_origins r) (rt_level r) (rt_vmodule r) (rt_backtrace r) (rt_logfile r) (rt_handler r) (rt_mem r) (rt_block r) (rt_mutex r) (rt_gc r) (rt_pprof r) (rt_metrics r) p.

Section Definitions.
Context {OS : Os} {GLOG : Glog}.

Definition on_proc {A} (m : stm process A) : stm runtime A := fun r =>
  match m (rt_proc r) with
  | Ret (x, p) => Ret (x, set_proc p r)
  | Err e => Err e
  | Panics p => Panics p
  | Exits x => Exits x
  end.

(** *** api.go *)

Definition Verbosity (level : Z) : stm runtime unit := modify (fun r => set_log (rt_origins r) level (rt_logfile r) (rt_handler r) r).

(** A pattern that is refused changes nothing. *)
Definition Vmodule (pattern : string) : stm runtime (option error) :=
  match vmodule_error pattern with
  | Some e => mret (Some e)
  | None => _ ← modify (fun r => set_patterns pattern (rt_backtrace r) r); mret None
  end.

Definition BacktraceAt (location : string) : stm runtime (option error) :=
  match backtrace_error location with
  | Some e => mret (Some e)
  | None => _ ← modify (fun r => set_patterns (rt_vmodule r) location r); mret None
  end.

Definition SetBlockProfileRate (rate : Z) : stm runtime unit := modify (fun r => set_rates (rt_mem r) rate (rt_mutex r) (rt_gc r) r).
Definition SetMutexProfileFraction (rate : Z) : stm runtime unit := modify (fun r => set_rates (rt_mem r) (rt_block r) rate (rt_gc r) r).

(** A negative percentage turns the collector off, which reads as -1. *)
Definition SetGCPercent (v : Z) : stm runtime Z :=
  old ← gets rt_gc; _ ← modify (fun r => set_rates (rt_mem r) (rt_block r) (rt_mutex r) (Z.max (-1) v) r); mret old.

Definition WriteBlockProfile (file : string) (a : answers) : stm runtime (option error) := on_proc (writeProfile file a).
Definition WriteMutexProfile (file : string) (a : answers) : stm runtime (option error) := on_proc (writeProfile file a).
Definition WriteMemProfile (file : string) (a : answers) : stm runtime (option error) := on_proc (writeProfile file a).

(** The deferred reset runs after the profile is written; between the two the code
    sleeps. *)
Definition BlockProfile (file : string) (a : answers) : stm runtime (option error) :=
  _ ← SetBlockProfileRate 1;
  err ← on_proc (writeProfile file a);
  _ ← SetBlockProfileRate 0;
  mret err.

Definition MutexProfile (file : string) (a : answers) : stm runtime (option error) :=
  _ ← SetMutexProfileFraction 1;
  err ← on_proc (writeProfile file a);
  _ ← SetMutexProfileFraction 0;
  mret err.

(** *** flags.go *)

Definition StartPProf (address : string) : stm runtime unit := modify (fun r => set_servers (Some address) (rt_metrics r) r).

(** The errors of [Vmodule] and [BacktraceAt] are dropped. *)
Definition Setup (ctx : Context) (logdir : string) (a1 a2 : answers) : stm runtime (option error) :=
  _ ← modify (fun r => set_log (GlobalBool ctx "debug") (rt_level r) (rt_logfile r) (rt_handler r) r);
  err ← (if bool_decide (logdir = EmptyString) then mret None
         else match RotatingFileHandler logdir with
              | Some e => mret (Some e)
              | None => _ ← modify (fun r => set_log (rt_origins r) (rt_level r) (Some logdir) (rt_handler r) r); mret None
              end);
  match err with
  | Some e => mret (Some e)
  | None =>
      _ ← Verbosity (GlobalInt ctx "verbosity");
      _ ← Vmodule (GlobalString ctx "vmodule");
      _ ← BacktraceAt (GlobalString ctx "backtrace");
      _ ← modify (fun r => set_log (rt_origins r) (rt_level r) (rt_logfile r) true r);
      _ ← modify (fun r => set_rates (GlobalInt ctx "memprofilerate") (rt_block r) (rt_mutex r) (rt_gc r) r);
      _ ← SetBlockProfileRate (GlobalInt ctx "blockprofilerate");
      err ← on_proc (Setup_profiles (GlobalString ctx "trace") (GlobalString ctx "cpuprofile") a1 a2);
      match err with
      | Some e => mret (Some e)
      | None =>
          _ ← (if GlobalBool ctx "pprof"
               then StartPProf (GlobalString ctx "pprofaddr" +:+ ":" +:+ pretty (GlobalInt ctx "pprofport"))
               else mret tt);
          mret None
      end
  end.

(** *** main.go: [app.Before] and [app.After] *)

(** The name space and the endpoint of the metrics server, when go-ethereum's
    metrics are enabled; what the server shows is [Prometheus.ListenTo]. *)
Definition SetupPrometheus (enabled : bool) (ctx : Context) : stm runtime unit :=
  if enabled
  then modify (fun r => set_servers (rt_pprof r) (Some ("miniopera"%string, GlobalString ctx "metrics.prometheus.endpoint")) r)
  else mret tt.

(** [enabled] is [metrics.Enabled]; [utils.SetupMetrics] sets nothing of this
    record. *)
Definition Before (enabled : bool) (ctx : Context) (a1 a2 : answers) : stm runtime (option error) :=
  err ← Setup ctx EmptyString a1 a2;
  match err with
  | Some e => mret (Some e)
  | None => _ ← SetupPrometheus enabled ctx; mret None
  end.

Definition After : stm runtime (option error) := _ ← on_proc Exit; mret None.

(** *** What is left of a run *)

Definition well_kept {A} (m : stm runtime A) : Prop := forall r, files_ok (rt_proc r) -> exists x r', m r = Ret (x, r') /\ files_ok (rt_proc r').

Lemma well_kept_bind {A B} (m : stm runtime A) (f : A -> stm runtime B) : well_kept m -> (forall x, well_kept (f x)) -> well_kept (m ≫= f).
Proof. intros Hm Hf r Hr. destruct (Hm r Hr) as (x & r1 & E1 & H1). destruct (Hf x r1 H1) as (y & r2 & E2 & H2). exists y, r2. unfold mbind, stm_bind. by rewrite E1. Qed.

Lemma well_kept_ret {A} (x : A) : well_kept (mret x).
Proof. intros r Hr. by exists x, r. Qed.

Lemma well_kept_gets {A} (f : runtime -> A) : well_kept (gets f).
Proof. intros r Hr. by exists (f r), r. Qed.

Lemma well_kept_modify f : (forall r, rt_proc (f r) = rt_proc r) -> well_kept (modify f).
Proof. intros Hf r Hr. exists tt, (f r). split; [done|by rewrite Hf]. Qed.

Lemma well_kept_proc (m : stm process (option error)) : tidy m -> well_kept (on_proc m).
Proof. intros Hm r Hr. destruct (Hm _ Hr) as (x & p & E & Hp). exists x, (set_proc p r). unfold on_proc. by rewrite E. Qed.

Ltac kept := repeat first
  [ apply well_kept_ret | apply well_kept_gets | by apply well_kept_modify | apply well_kept_proc, writeProfile_tidy
  | apply well_kept_bind; [|intros ?] | case_match ].

(** The calls of the debugging API: each returns and leaves no file behind. *)
Lemma BlockProfile_kept file a : well_kept (BlockProfile file a).
Proof. unfold BlockProfile, SetBlockProfileRate. kept. Qed.

Lemma MutexProfile_kept file a : well_kept (MutexProfile file a).
Proof. unfold MutexProfile, SetMutexProfileFraction. kept. Qed.

Lemma Setup_kept ctx logdir a1 a2 : well_kept (Setup ctx logdir a1 a2).
Proof.
  unfold Setup, Verbosity, Vmodule, BacktraceAt, SetBlockProfileRate, StartPProf.
  repeat first [apply well_kept_proc, (run_op_tidy (OpSetup _ _ _ _))|apply well_kept_ret|by apply well_kept_modify|apply well_kept_bind; [|intros ?]|case_match].
Qed.

Lemma Before_kept enabled ctx a1 a2 : well_kept (Before enabled ctx a1 a2).
Proof.
  unfold Before, SetupPrometheus. apply well_kept_bind; [apply Setup_kept|intros err]. kept.
Qed.

(** Profiling of blocking turns itself off, also when writing fails; a rate that
    was set before is lost. *)
Lemma BlockProfile_rate file a r x r' : BlockProfile file a r = Ret (x, r') -> rt_block r' = 0.
Proof.
  unfold BlockProfile. intros E. stm_step E as u s1 E1. stm_step E as err s2 E2. stm_step E as u2 s3 E3. injection E3 as _ E3. stm_prim E. by rewrite <- E3.
Qed.

End Definitions.

(** The cli package: [Run] calls [Before], then the action of the command unless
    [Before] has failed, and [After] last in any case. *)
Class CliRun := {
  app_Run : stm runtime (option error) -> stm runtime (option error) -> stm runtime (option error) -> stm runtime (option error);
  app_Run_order : forall before action after r, app_Run before action after r =
    (err ← before; res ← match err with Some e => mret (Some e) | None => action end; _ ← after; mret res) r
}.

Section Run.
Context {OS : Os} {GLOG : Glog} {CLI : CliRun}.

(** A run of the program leaves nothing open.  Whatever fails on the way, the
    setup, a profile, or the command itself, the run returns, the profile and the
    trace of the command line are stopped, and every file they wrote is closed. *)
Theorem run_leaves_nothing enabled ctx a1 a2 action r : well_kept action -> files_ok (rt_proc r) ->
  exists res r', app_Run (Before enabled ctx a1 a2) action After r = Ret (res, r') /\
    opened (rt_proc r') = [] /\ pprof_to (rt_proc r') = None /\ trace_to (rt_proc r') = None.
Proof.
  intros Ha Hr. rewrite app_Run_order. unfold mbind, stm_bind. destruct (Before_kept enabled ctx a1 a2 r Hr) as (err & r1 & E1 & H1). rewrite E1.
  assert (H2 : exists res r2, (match err with Some e => mret (Some e) | None => action end) r1 = Ret (res, r2) /\ files_ok (rt_proc r2)).
  { destruct err as [e|]; [by exists (Some e), r1|by apply Ha]. }
  destruct H2 as (res & r2 & E2 & H2). rewrite E2. unfold After, on_proc, mbind, stm_bind. destruct (Exit_spec _ H2) as (p & E & _ & Ho & Hp & Ht). rewrite E.
  cbn. exists res, (set_proc p r2). by split_and!.
Qed.

End Run.

End Diagnostics.
