(* ===== verification/Console.v ===== *)
(** * Nodes with a console

    [src/cmd/miniopera/consolecmd.go] and [main.go]: the sessions that start a
    node and attach a JavaScript console to it, their deferred calls, and the
    watch that stops a node once it is synchronised.  The node the command line
    starts is the machine of [Node], so that a session that ends leaves a node
    that has flushed everything. *)

From Stdlib Require Import ZArith Lia Bool Ascii Sorted.
From stdpp Require Import base list numbers option strings pretty gmap sorting relations.
From S2P Require Import Prelude Kv Sha256 Fast Event Serializer EventBuild Store StoreSpec Genesis Checks Emitter Peer PeerSpec Service.
From S2P Require Import ServiceSpec ChainSpec ServiceWorld Handler HandlerSpec Utils Host Debug Launch LaunchSpec Node NodeSpec Command CommandSpec App.
Import Event Serializer EventBuild Store StoreSpec Genesis Checks Emitter Peer PeerSpec Service ServiceSpec ChainSpec ServiceWorld Handler HandlerSpec.
Import Launch LaunchSpec Node NodeSpec Str Command Configure CommandSpec.
Local Open Scope Z_scope.

(** The configuration of a console, and what it is attached to. *)
Inductive client := Inproc | Remote (address : string).
Record console_Config := MkConsoleConfig { cc_DataDir : string; DocRoot : string; Client : client; Preload : list string }.

(** go-ethereum: the directory and the scripts of a console, making it, executing
    a file in it, and dialling an address. *)
Class ConsoleExt := {
  JSpathFlag : string; ExecFlag : string;
  MakeDataDir : Context -> string;
  MakeConsolePreloads : Context -> list string;
  console_New : console_Config -> option error;
  console_Execute : string -> option error;
  rpc_Dial : string -> option error
}.

Module Console.

(** What a session does with its console and its node, in order. *)
Inductive act :=
| Evaluate (script : string) | Welcome | Interactive | Execute (file : string) | ConsoleStop (graceful : bool) | NodeClose.

Section Definitions.
Context {V : Type}.
Context {LB : LachesisBase} {LBL : LachesisBaseLaws LB} {LI : LachesisIdx} {LIL : LachesisIdxLaws LI}.
Context {R : Rlp} {RL : RlpLaws R} {RS : RlpSafe R} {K : Kv} {KL : KvLaws K} {L : Lru} {LL : LruLaws L}.
Context {CB : Codec Block} {CBL : CodecLaws Block} {CP : Codec PackInfo} {CPL : CodecLaws PackInfo}.
Context {CS : Codec BlockState} {CSL : CodecLaws BlockState}.
Context {CE : Codec (EpochState V)} {CEL : CodecLaws (EpochState V)}.
Context {BC : BaseChecks V} {BCL : BaseChecksLaws V} {EN : Engine V} {ENL : EngineLaws V} {X : EmitterExt} {XL : EmitterExtLaws X}.
Context {ENV : Environment} {N : P2p} {NL : P2pLaws N} {G : GossipExt} {GL : GossipExtLaws G} {W : Wire} {WL : WireLaws W}.
Context {PB : PosBuilder V} {PBL : PosBuilderLaws V} {BOOT : EngineBoot V}.
Context {ETH : EthFlags} {ETHN : EthNode} {OS : Os} {CON : ConsoleExt}.
Context (keccak_hex : string -> list Z) (FakeKey : Z -> private_key) (FromECDSAPub : private_key -> list Z).
Abbreviation Service := (Service V).
Abbreviation Machine := (Machine V).

(** ** consolecmd.go *)

Definition console_config (ctx : Context) (c : client) : console_Config :=
  MkConsoleConfig (MakeDataDir ctx) (GlobalString ctx JSpathFlag) c (MakeConsolePreloads ctx).

(** A script of the command line is evaluated, otherwise the user is. *)
Definition interact (ctx : Context) : list act :=
  let script := GlobalString ctx ExecFlag in
  if bool_decide (script = EmptyString) then [Welcome; Interactive] else [Evaluate script].

(** While the console is open the node lives on. *)
Fixpoint live (l : list input) : stm Service unit :=
  match l with [] => mret tt | i :: l => _ ← react i; live l end.

(** [node.Close], deferred, stops the service. *)
Definition node_Close : stm Service unit := _ ← Stop; mret tt.

(** The node of a session, with its console attached. *)
Definition start_session (ctx : Context) (m : Machine) : go Service :=
  cfg ← makeAllConfigs (fake_pubkey FakeKey FromECDSAPub) (m_files m) (m_dirs m) ctx;
  st ← makeNode keccak_hex ctx cfg m;
  svc ← startNode FakeKey st m;
  match node_Attach (st_config st) with
  | Some _ => Exits "Failed to attach to the inproc miniopera"
  | None =>
      match console_New (console_config ctx Inproc) with
      | Some _ => Exits "Failed to start the JavaScript console"
      | None => Ret svc
      end
  end.

Definition localConsole (ctx : Context) (m : Machine) (life : list input) : go (list act * Service) :=
  svc ← start_session ctx m;
  '(_, svc) ← live life svc;
  '(_, svc) ← node_Close svc;
  Ret (interact ctx ++ [ConsoleStop false; NodeClose], svc).

(** Files are executed until one fails, which ends the process. *)
Fixpoint execute_files (files : list string) : go (list act) :=
  match files with
  | [] => Ret []
  | f :: files =>
      match console_Execute f with
      | Some _ => Exits ("Failed to execute " +:+ f)
      | None => acts ← execute_files files; Ret (Execute f :: acts)
      end
  end.

Definition ephemeralConsole (ctx : Context) (m : Machine) (life : list input) : go (list act * Service) :=
  svc ← start_session ctx m;
  acts ← execute_files (cli_Args ctx);
  '(_, svc) ← live life svc;
  '(_, svc) ← node_Close svc;
  Ret (acts ++ [ConsoleStop true; ConsoleStop false; NodeClose], svc).

Definition remoteConsole (ds : gmap string (list string)) (ctx : Context) : go (list act) :=
  endpoint ← remote_endpoint ds ctx;
  match rpc_Dial (dialRPC endpoint) with
  | Some _ => Exits "Unable to attach to remote miniopera"
  | None =>
      match console_New (console_config ctx (Remote (dialRPC endpoint))) with
      | Some _ => Exits "Failed to start the JavaScript console"
      | None => Ret (interact ctx ++ [ConsoleStop false])
      end
  end.

(** ** main.go: the watch of [--exitwhensynced] *)

(** One poll: what [ftm_syncing] answers, and what stopping the stack returns. *)
Record poll := MkPoll { syncing : error + bool; stop_result : option error }.

Inductive watch_act := Sleep (d : Z) | StopStack.

(** The loop over the polls, and whether it has ended. *)
Fixpoint watch (first : bool) (polls : list poll) : list watch_act * bool :=
  match polls with
  | [] => ([], false)
  | p :: polls =>
      let '(acts, ended) :=
        match syncing p with
        | inl _ | inr true => watch false polls
        | inr false =>
            let '(acts, ended) := match stop_result p with Some _ => watch false polls | None => ([], true) end in
            ((if negb first then [Sleep minute] else []) ++ StopStack :: acts, ended)
        end in
      (Sleep (5 * second) :: acts, ended)
  end.

(** ** The node of the command line is a machine *)

Definition main_boot (ctx : Context) (cfg : config) (m : Machine) : boot_env V :=
  let dbs := m_dbs m (DBProducer (DataDir (cfg_Node cfg))) in
  let l := Lachesis cfg in
  MkBootEnv (MkStartEnv (m_flush m) (MaxPeers (node_P2P (cfg_Node cfg))) (m_r1 m) (m_r2 m))
    (MkConfig (cfg_Net l) (setValidator ctx (cfg_Emitter l)) (cfg_Store l) (cfg_Protocol l)) (db_versions dbs) (db_engine dbs).

Definition main_disk (cfg : config) (m : Machine) : Store V := db_store (m_dbs m (DBProducer (DataDir (cfg_Node cfg)))).

Lemma node_is_boot ctx cfg m st s : makeNode keccak_hex ctx cfg m = Ret st -> startNode FakeKey st m = Ret s ->
  boot keccak_hex FakeKey (main_boot ctx cfg m) (main_disk cfg m) = Ret s /\ st_config st = cfg_Node cfg.
Proof.
  unfold makeNode. cbv zeta. intros E1 E2. apply bind_Ret_inv in E1 as (u & _ & E1). apply bind_Ret_inv in E1 as (u2 & _ & E1).
  apply bind_Ret_inv in E1 as ([[eng dsk] gdb] & Em & E1). destruct (node_Register _); [done|]. injection E1 as <-.
  unfold startNode in E2. cbn [st_constructor st_config st_gossip] in E2. split; [|done].
  unfold boot, launch, main_boot, main_disk. cbn [be_env be_cfg be_versions be_engine se_flush se_maxPeers se_r1 se_r2].
  assert (Em' : forall l, cfg_Store l = cfg_Store (Lachesis cfg) -> cfg_Net l = cfg_Net (Lachesis cfg) ->
    MakeEngine keccak_hex (m_flush m) l (m_dbs m (DBProducer (DataDir (cfg_Node cfg)))) = Ret (eng, dsk, gdb)).
  { intros l H1 H2. rewrite <- Em. unfold MakeEngine. by rewrite H1, H2. }
  destruct (m_dbs m _) as [v d e] eqn:Ed. cbn [db_versions db_store db_engine]. rewrite Em' by done. cbn [mbind go_bind].
  destruct (gossipService _ _ _ _ _) as [svc|x|x|x]; try done. cbn [mbind go_bind].
  apply bind_Ret_inv in E2 as ([u3 s2] & Es & E2). rewrite Es. cbn [mbind go_bind]. destruct (node_Attach _); [done|]. by injection E2 as <-.
Qed.

(** The inputs of a life are admissible as they come. *)
Fixpoint accepts (l : list input) (s : Service) : Prop :=
  match l with
  | [] => True
  | i :: l => admissible s i /\ forall s', react i s = Ret (tt, s') -> accepts l s'
  end.

Lemma live_alive net h l s u s' : alive net h s -> accepts l s -> live l s = Ret (u, s') -> alive net h s'.
Proof.
  revert s. induction l as [|i l IH]; intros s Ha Hl E; cbn [live] in E; [by stm_prim E|]. destruct Hl as [Hi Hl]. stm_step E as v s1 E1. destruct v.
  apply (IH s1); [|by apply Hl|done]. pose proof (react_good net h s i Ha Hi) as Hg. rewrite E1 in Hg. apply Hg.
Qed.

Lemma close_flushes net h s u s' : alive net h s -> (forall k f, flush_result k f = None) -> node_Close s = Ret (u, s') ->
  stopped s' = true /\ disk s' = svc_store s /\ svc_store s' = svc_store s /\ recoverable net h (disk s').
Proof.
  intros [(es & n & Hr) Hp _ _] Hf E. unfold node_Close in E. stm_step E as r s1 E1. stm_prim E. pose proof (Stop_spec s Hp) as Hs.
  unfold wp in Hs. rewrite E1 in Hs. cbn [or_exit fst snd] in Hs. destruct Hs as (H1 & H2 & [[_ H3]|[(k & f & []) _]]); [|apply Hf]. split_and!; try done. rewrite H3. left. by eapply running_durable.
Qed.

(** A session that ends loses nothing.  When a local console returns, the script
    or the user's input came before the console was stopped, and that before the
    node was closed; whatever the node has done meanwhile, its service is
    stopped, everything it holds is on disk, and a node can be launched on it. *)
Theorem console_session_flushed net h ctx m life acts s cfg :
  net_ok net -> prettyHash net = Ret h ->
  makeAllConfigs (fake_pubkey FakeKey FromECDSAPub) (m_files m) (m_dirs m) ctx = Ret cfg -> boot_ok net (main_boot ctx cfg m) ->
  recoverable net h (main_disk cfg m) -> (forall k f, flush_result k f = None) ->
  (forall s0, boot keccak_hex FakeKey (main_boot ctx cfg m) (main_disk cfg m) = Ret s0 -> accepts life s0) ->
  localConsole ctx m life = Ret (acts, s) ->
  acts = interact ctx ++ [ConsoleStop false; NodeClose] /\ stopped s = true /\ disk s = svc_store s /\ recoverable net h (disk s).
Proof.
  intros Hnet Hh Hc Hb Hd Hf Hl E. unfold localConsole, start_session in E. rewrite Hc in E. cbn [mbind go_bind] in E.
  apply bind_Ret_inv in E as (s0 & E0 & E). apply bind_Ret_inv in E0 as (st & E1 & E0). apply bind_Ret_inv in E0 as (s1 & E2 & E0).
  destruct (node_is_boot ctx cfg m st s1 E1 E2) as [Eb Est]. rewrite Est in E0. destruct (node_Attach _); [done|]. destruct (console_New _); [done|].
  injection E0 as ->. apply bind_Ret_inv in E as ([u s2] & E3 & E). apply bind_Ret_inv in E as ([u2 s3] & E4 & [= <- <-]).
  destruct (boot_alive keccak_hex FakeKey net h Hnet Hh _ _ _ Hd Hb Eb) as [Ha _].
  assert (Ha2 : alive net h s2) by (eapply live_alive; [exact Ha|by apply Hl|exact E3]).
  destruct (close_flushes net h s2 u2 s3 Ha2 Hf E4) as (H1 & H2 & H3 & H4). rewrite H3. by split_and!.
Qed.

(** Only the files before one that fails are executed. *)
Lemma execute_files_all files acts : execute_files files = Ret acts -> acts = Execute <$> files /\ Forall (fun f => console_Execute f = None) files.
Proof.
  revert acts. induction files as [|f files IH]; intros acts E; cbn [execute_files] in E; [by injection E as <-|].
  destruct (console_Execute f) eqn:Ef; [done|]. apply bind_Ret_inv in E as (acts' & E & [= <-]). destruct (IH _ E) as [-> Hf]. by split; [|constructor].
Qed.

(** A poll that stops the node. *)
Definition stops (p : poll) : Prop := syncing p = inr false /\ stop_result p = None.

(** The node is stopped once it is synchronised: the watch ends exactly at the
    first poll that reports no synchronisation and can stop the stack, and until
    then it goes on polling. *)
Theorem watch_ends first polls : snd (watch first polls) = true <-> Exists stops polls.
Proof.
  revert first. induction polls as [|p polls IH]; intros first; cbn [watch]; [by rewrite Exists_nil|]. rewrite Exists_cons, <- (IH false). unfold stops.
  destruct (syncing p) as [e|[|]] eqn:Es; [destruct (watch false polls) as [acts ended]; cbn; split; [by right|by intros [[? _]|?]]..|].
  destruct (stop_result p) as [e|]; [|by cbn; split; [left|]].
  destruct (watch false polls) as [acts ended]. cbn. split; [by right|by intros [[_ ?]|?]].
Qed.

(** It polls every five seconds, and waits a minute before it stops a node that was
    not synchronised from the start. *)
Lemma watch_waits polls e : syncing e = inr true ->
  fst (watch true (e :: MkPoll (inr false) None :: polls)) = [Sleep (5 * second); Sleep (5 * second); Sleep minute; StopStack].
Proof. intros He. cbn [watch]. by rewrite He. Qed.

End Definitions.
End Console.
